(** * paperPy: attention, buffers and normalization layers

    A shallow embedding of the notebooks of the repository:

    - [2_buffers/buffers.ipynb]: [CausalAttentionWithoutBuffers],
      [CausalAttentionWithBuffer] and the [state_dict] round trips;
    - [4_batchnorm/batchnorm.ipynb]: [BatchNorm], [CasualAttention],
      [MHA_Wrapper], [MHA], [MultiHeadAttentionCombinedQKV] and the
      constructors of the two [scaled_dot_product_attention] variants;
    - [1_mha/mha_test.ipynb]: [LayerNorm].

    Number model.  Tensor elements are exact reals extended with the three
    special values the code can produce or meet ([+inf], [-inf], [NaN]);
    the special values follow the IEEE rules, finite values are exact
    (rounding and overflow are not modelled).  The results stated over
    these numbers say which expression the code computes, when it raises,
    and which shapes and special values it returns.  The two normalization
    layers are also written over [float32] numbers (module [F32]), where the
    rounding decides the sign of the variance.

    Tensor model.  A tensor is a shape together with an element for every
    multi-index; [view], [transpose], [permute] and slicing re-index, the
    arithmetic primitives of the tensor library are written as sums over
    index ranges.  The tensors a forward pass computes are contiguous; the
    strides of a tensor of the caller are an argument of
    [BatchNorm_forward_strided], the one place where the code calls [view]
    on its input.  A Python exception is [None]. *)

From Stdlib Require Import Reals Lra Lia ZArith SpecFloat.
From stdpp Require Import base option list strings gmap fin_maps.

(** ** Extended reals *)

Inductive xreal : Type :=
| Fin (r : R)
| PInf
| NInf
| NaN.

Definition is_fin (x : xreal) : Prop :=
  match x with Fin _ => True | _ => False end.

Definition real_of (x : xreal) : R :=
  match x with Fin r => r | _ => 0%R end.

(** Sign of a real, as a three-way comparison with zero. *)
Definition Rsign (r : R) : comparison :=
  if Rlt_dec 0 r then Gt else if Rlt_dec r 0 then Lt else Eq.

Definition xopp (a : xreal) : xreal :=
  match a with
  | Fin x => Fin (- x)
  | PInf => NInf
  | NInf => PInf
  | NaN => NaN
  end.

Definition xadd (a b : xreal) : xreal :=
  match a, b with
  | Fin x, Fin y => Fin (x + y)
  | NaN, _ | _, NaN => NaN
  | PInf, NInf | NInf, PInf => NaN
  | PInf, _ | _, PInf => PInf
  | NInf, _ | _, NInf => NInf
  end.

Definition xsub (a b : xreal) : xreal := xadd a (xopp b).

(** An infinity of sign [s] times a finite [r]. *)
Definition inf_times (pos : bool) (r : R) : xreal :=
  match Rsign r with
  | Gt => if pos then PInf else NInf
  | Lt => if pos then NInf else PInf
  | Eq => NaN
  end.

Definition xmul (a b : xreal) : xreal :=
  match a, b with
  | Fin x, Fin y => Fin (x * y)
  | NaN, _ | _, NaN => NaN
  | PInf, Fin y => inf_times true y
  | NInf, Fin y => inf_times false y
  | Fin x, PInf => inf_times true x
  | Fin x, NInf => inf_times false x
  | PInf, PInf | NInf, NInf => PInf
  | PInf, NInf | NInf, PInf => NInf
  end.

(** Division; a zero divisor is the positive zero. *)
Definition xdiv (a b : xreal) : xreal :=
  match a, b with
  | Fin x, Fin y =>
      if Req_dec_T y 0 then
        match Rsign x with Gt => PInf | Lt => NInf | Eq => NaN end
      else Fin (x / y)
  | NaN, _ | _, NaN => NaN
  | Fin _, (PInf | NInf) => Fin 0
  | (PInf | NInf), (PInf | NInf) => NaN
  | PInf, Fin y => if Rlt_dec y 0 then NInf else PInf
  | NInf, Fin y => if Rlt_dec y 0 then PInf else NInf
  end.

Definition xexp (a : xreal) : xreal :=
  match a with
  | Fin x => Fin (exp x)
  | PInf => PInf
  | NInf => Fin 0
  | NaN => NaN
  end.

Definition xsqrt (a : xreal) : xreal :=
  match a with
  | Fin x => if Rlt_dec x 0 then NaN else Fin (sqrt x)
  | PInf => PInf
  | NInf | NaN => NaN
  end.

Definition xsum (l : list xreal) : xreal := foldr xadd (Fin 0) l.

(** [bigsum n f] is the sum of [f 0], ..., [f (n-1)]. *)
Definition bigsum (n : nat) (f : nat → xreal) : xreal := xsum (f <$> seq 0 n).

(** Python's [base ** e] for an [int] base and a [float] exponent:
    [0 ** e] raises [ZeroDivisionError] for a negative [e]. *)
Definition py_pow (base : nat) (e : R) : option R :=
  match base with
  | O => if Rlt_dec e 0 then None
         else if Req_dec_T e 0 then Some 1%R else Some 0%R
  | S _ => Some (Rpower (INR base) e)
  end.

(** ** Tensors *)

Abbreviation index := (list nat).

Record tensor : Type := mkTensor {
  shape : list nat;
  at_ : index → xreal
}.

Record btensor : Type := mkBTensor {
  bshape : list nat;
  bat : index → bool
}.

Definition numel (s : list nat) : nat := foldr Nat.mul 1 s.

Fixpoint in_range (s : list nat) (idx : index) : bool :=
  match s, idx with
  | [], [] => true
  | d :: s', i :: idx' => (i <? d) && in_range s' idx'
  | _, _ => false
  end.

(** Row-major offset of a multi-index, and its inverse. *)
Fixpoint flatten (s : list nat) (idx : index) : nat :=
  match s, idx with
  | _ :: s', i :: idx' => i * numel s' + flatten s' idx'
  | _, _ => 0
  end.

Fixpoint unflatten (s : list nat) (off : nat) : index :=
  match s with
  | [] => []
  | _ :: s' => off / numel s' :: unflatten s' (off mod numel s')
  end.

Definition finite (t : tensor) : Prop := ∀ idx, is_fin (at_ t idx).

(** Python's [l[-1]] and [l[:-1]] on an index. *)
Definition last_ix (idx : index) : nat := List.last idx 0.
Definition init_ix (idx : index) : index := removelast idx.

(** ** Primitives of the tensor library

    Each primitive follows the documented behaviour of the [torch]
    function of the same name. *)

(** A dimension argument may be negative ([-1] is the last dimension). *)
Definition norm_dim (rank : nat) (d : Z) : option nat :=
  if ((0 <=? d) && (d <? Z.of_nat rank))%Z then Some (Z.to_nat d)
  else if ((- Z.of_nat rank <=? d) && (d <? 0))%Z
       then Some (Z.to_nat (Z.of_nat rank + d))
  else None.

Definition tmap (f : xreal → xreal) (t : tensor) : tensor :=
  {| shape := shape t; at_ idx := f (at_ t idx) |}.

(** [torch.triu(torch.ones(n, n), diagonal=1)] *)
Definition triu_ones (n : nat) : tensor :=
  {| shape := [n; n];
     at_ idx := match idx with
                | [i; j] => if i <? j then Fin 1 else Fin 0
                | _ => Fin 0
                end |}.

(** [t.bool()]: every nonzero element is [True]. *)
Definition to_bool (t : tensor) : btensor :=
  {| bshape := shape t;
     bat idx := match at_ t idx with
                | Fin r => if Req_dec_T r 0 then false else true
                | _ => true
                end |}.

(** [m[:n, :k]] *)
Definition bslice2 (m : btensor) (n k : nat) : option btensor :=
  match bshape m with
  | d0 :: d1 :: rest =>
      Some {| bshape := (n `min` d0) :: (k `min` d1) :: rest; bat := bat m |}
  | _ => None
  end.

(** [nn.Linear]: [x @ W.T + b] on the last dimension. *)
Definition linear_at (W : tensor) (bias : option tensor) (x : tensor)
    (in_features : nat) (idx : index) : xreal :=
  let p := init_ix idx in
  let o := last_ix idx in
  let s := bigsum in_features (λ k, xmul (at_ x (p ++ [k])) (at_ W [o; k])) in
  match bias with
  | Some b => xadd s (at_ b [o])
  | None => s
  end.

Definition linear (W : tensor) (bias : option tensor) (x : tensor) : option tensor :=
  match shape W with
  | [out_features; in_features] =>
      if decide (last (shape x) = Some in_features) then
        Some {| shape := init_ix (shape x) ++ [out_features];
                at_ := linear_at W bias x in_features |}
      else None
  | _ => None
  end.

(** Exchange two positions of a list. *)
Definition swap_ix {A} `{Inhabited A} (d0 d1 : nat) (l : list A) : list A :=
  <[d0 := l !!! d1]> (<[d1 := l !!! d0]> l).

(** [t.transpose(d0, d1)] *)
Definition transpose (d0 d1 : Z) (t : tensor) : option tensor :=
  n0 ← norm_dim (length (shape t)) d0;
  n1 ← norm_dim (length (shape t)) d1;
  Some {| shape := swap_ix n0 n1 (shape t);
          at_ idx := at_ t (swap_ix n0 n1 idx) |}.

(** Position of [d] in [l]. *)
Fixpoint index_of (d : nat) (l : list nat) : nat :=
  match l with
  | [] => 0
  | x :: l' => if x =? d then 0 else S (index_of d l')
  end.

Definition is_perm (perm : list nat) (rank : nat) : bool :=
  (length perm =? rank) && forallb (λ d, existsb (Nat.eqb d) perm) (seq 0 rank).

(** [t.permute(perm)] *)
Definition permute (perm : list nat) (t : tensor) : option tensor :=
  if is_perm perm (length (shape t)) then
    Some {| shape := (λ d, shape t !!! d) <$> perm;
            at_ idx := at_ t ((λ d, idx !!! index_of d perm) <$> seq 0 (length perm)) |}
  else None.

(** [t[i]]: one element of [t.unbind(0)]. *)
Definition select0 (i : nat) (t : tensor) : option tensor :=
  match shape t with
  | d :: s => if i <? d then Some {| shape := s; at_ idx := at_ t (i :: idx) |}
              else None
  | [] => None
  end.

(** [a @ b] for operands with the same batch dimensions. *)
Definition matmul_at (a b : tensor) (k : nat) (idx : index) : xreal :=
  let p := init_ix (init_ix idx) in
  let i := last_ix (init_ix idx) in
  let j := last_ix idx in
  bigsum k (λ l, xmul (at_ a (p ++ [i; l])) (at_ b (p ++ [l; j]))).

Definition matmul (a b : tensor) : option tensor :=
  match reverse (shape a), reverse (shape b) with
  | k :: n :: pa, m :: k' :: pb =>
      if decide (k = k' ∧ pa = pb) then
        Some {| shape := reverse pa ++ [n; m]; at_ := matmul_at a b k |}
      else None
  | _, _ => None
  end.

(** Broadcasting: shapes are aligned at their last dimension; [small]
    broadcasts to [big] when each of its dimensions is equal or 1. *)
Fixpoint broadcasts_rev (small big : list nat) : bool :=
  match small, big with
  | [], _ => true
  | d :: small', e :: big' => ((d =? e) || (d =? 1)) && broadcasts_rev small' big'
  | _ :: _, [] => false
  end.

Definition broadcasts_to (small big : list nat) : bool :=
  broadcasts_rev (reverse small) (reverse big).

(** The index of the broadcast operand read at index [idx] of the result. *)
Definition bcast_ix (small : list nat) (idx : index) : index :=
  zip_with (λ d i, if d =? 1 then 0 else i) small
           (drop (length idx - length small) idx).

(** [t.masked_fill_(mask, v)] *)
Definition masked_fill_at (t : tensor) (mask : btensor) (v : xreal) (idx : index) : xreal :=
  if bat mask (bcast_ix (bshape mask) idx) then v else at_ t idx.

Definition masked_fill (t : tensor) (mask : btensor) (v : xreal) : option tensor :=
  if broadcasts_to (bshape mask) (shape t) then
    Some {| shape := shape t; at_ := masked_fill_at t mask v |}
  else None.

(** [torch.softmax(t, dim=-1)], by its defining formula
    [exp(x_i) / sum_j exp(x_j)].  The library subtracts the maximum of the
    row first, which changes nothing for scores that are finite or [-inf];
    a row with a score [+inf] is [nan] as a whole there, and the properties
    on values are stated for finite scores. *)
Definition softmax_at (t : tensor) (n : nat) (idx : index) : xreal :=
  xdiv (xexp (at_ t idx)) (bigsum n (λ j, xexp (at_ t (init_ix idx ++ [j])))).

Definition softmax (t : tensor) : option tensor :=
  n ← last (shape t);
  Some {| shape := shape t; at_ := softmax_at t n |}.

(** [nn.Dropout(p)]: the identity in evaluation mode and for [p = 0];
    otherwise the elements the random draw [keep] rejects are zeroed and the
    others are scaled by [1/(1-p)]. *)
Definition dropout (p : R) (training : bool) (keep : index → bool) (t : tensor) : tensor :=
  if training then
    if Req_dec_T p 0 then t
    else if Req_dec_T p 1 then tmap (λ x, xmul x (Fin 0)) t
    else {| shape := shape t;
            at_ idx := xmul (at_ t idx)
                            (Fin (if keep idx then / (1 - p) else 0)) |}
  else t.

(** [torch.cat(ts, dim=-1)] for tensors that differ in the last dimension
    only. *)
Fixpoint cat_at (ts : list tensor) (p : index) (k : nat) : xreal :=
  match ts with
  | [] => NaN
  | t :: ts' =>
      let w := last_ix (shape t) in
      if k <? w then at_ t (p ++ [k]) else cat_at ts' p (k - w)
  end.

Definition cat_last (ts : list tensor) : option tensor :=
  match ts with
  | [] => None
  | t :: ts' =>
      if forallb (λ u, bool_decide (init_ix (shape u) = init_ix (shape t)
                                    ∧ shape u ≠ [])) ts then
        Some {| shape := init_ix (shape t)
                         ++ [foldr (λ u acc, last_ix (shape u) + acc) 0 ts];
                at_ idx := cat_at ts (init_ix idx) (last_ix idx) |}
      else None
  end.

(** The sizes [view] is called with: at most one [-1], which is inferred. *)
Definition infer_size (sizes : list Z) (n : nat) : option (list nat) :=
  let known := filter (λ z, z ≠ (-1)%Z) sizes in
  let newsize := foldr Z.mul 1%Z known in
  if decide (Forall (λ z, 0 ≤ z)%Z known) then
    match length sizes - length known with
    | 0 => if decide (newsize = Z.of_nat n) then Some (Z.to_nat <$> sizes) else None
    | 1 => if decide (0 < newsize ∧ (Z.of_nat n mod newsize = 0))%Z then
             Some ((λ z, if decide (z = (-1)%Z) then n / Z.to_nat newsize
                         else Z.to_nat z) <$> sizes)
           else None
    | _ => None
    end
  else None.

(** [t.view(sizes)] of a contiguous tensor. *)
Definition view_at (t : tensor) (s : list nat) (idx : index) : xreal :=
  at_ t (unflatten (shape t) (flatten s idx)).

Definition view (sizes : list Z) (t : tensor) : option tensor :=
  s ← infer_size sizes (numel (shape t));
  Some {| shape := s; at_ := view_at t s |}.

Definition zs (l : list nat) : list Z := Z.of_nat <$> l.

(** ** [nn.Module]

    The state of a module: its parameters and its buffers, both under their
    dotted names (the parameters of a submodule [W_query] are
    [W_query.weight] and [W_query.bias]), the tensors bound as plain
    attributes, and the training flag. *)

Record Module : Type := mkModule {
  params : gmap string tensor;
  buffers : gmap string tensor;
  attrs : gmap string tensor;
  training : bool
}.

Definition Module_init : Module :=
  {| params := ∅; buffers := ∅; attrs := ∅; training := true |}.

(** [self.register_buffer(name, t)] *)
Definition register_buffer (name : string) (t : tensor) (m : Module) : Module :=
  {| params := params m; buffers := <[name := t]> (buffers m);
     attrs := attrs m; training := training m |}.

(** [self.name = nn.Parameter(t)] *)
Definition register_parameter (name : string) (t : tensor) (m : Module) : Module :=
  {| params := <[name := t]> (params m); buffers := buffers m;
     attrs := attrs m; training := training m |}.

(** [self.name = t] for a tensor [t] that is not a parameter: a registered
    buffer of that name is rebound, otherwise the tensor becomes a plain
    attribute. *)
Definition setattr (name : string) (t : tensor) (m : Module) : Module :=
  match buffers m !! name with
  | Some _ => register_buffer name t m
  | None => {| params := params m; buffers := buffers m;
               attrs := <[name := t]> (attrs m); training := training m |}
  end.

(** [self.name]: the instance dictionary first, then parameters, then
    buffers. *)
Definition getattr (name : string) (m : Module) : option tensor :=
  match attrs m !! name with
  | Some t => Some t
  | None => match params m !! name with
            | Some t => Some t
            | None => buffers m !! name
            end
  end.

(** [m.state_dict()]: parameters and buffers, no plain attribute. *)
Definition state_dict (m : Module) : gmap string tensor :=
  params m ∪ buffers m.

(** [m.load_state_dict(sd)] (strict): the keys and the shapes must be those
    of [m.state_dict()]. *)
Definition load_state_dict (sd : gmap string tensor) (m : Module) : option Module :=
  if decide (dom sd = dom (state_dict m)
             ∧ map_Forall (λ k t, shape <$> state_dict m !! k = Some (shape t)) sd)
  then Some {| params := map_imap (λ k _, sd !! k) (params m);
               buffers := map_imap (λ k _, sd !! k) (buffers m);
               attrs := attrs m; training := training m |}
  else None.

(** [torch.save] followed by [torch.load] returns the saved dictionary. *)
Definition save_load (sd : gmap string tensor) : gmap string tensor := sd.

(** [m.eval()] and [m.train()] *)
Definition set_training (b : bool) (m : Module) : Module :=
  {| params := params m; buffers := buffers m; attrs := attrs m; training := b |}.

(** One step of an optimizer built on [m.parameters()]: every parameter is
    replaced by its update, nothing else is touched. *)
Definition optimizer_step (update : string → tensor → tensor) (m : Module) : Module :=
  {| params := map_imap (λ k t, Some (update k t)) (params m);
     buffers := buffers m; attrs := attrs m; training := training m |}.

(** Python exceptions raised by the constructors. *)
Inductive exn : Type :=
| AssertionError
| ZeroDivisionError
| ValueError
| RuntimeError.

Abbreviation result A := (sum exn A).

Definition rbind {A B} (r : result A) (k : A → result B) : result B :=
  match r with
  | inl e => inl e
  | inr a => k a
  end.

Notation "'do' x <- r ; k" := (rbind r (λ x, k))
  (at level 10, x name, r at level 100, k at level 200).

(** The random initial values of a constructor: an element for every name
    and index. *)
Abbreviation rng := (string → index → xreal).

(** [torch.empty(sizes)] and the like refuse a negative size. *)
Definition check_sizes (sizes : list Z) : result (list nat) :=
  if decide (Forall (λ z, 0 ≤ z)%Z sizes) then inr (Z.to_nat <$> sizes)
  else inl RuntimeError.

(** The parameters of an [nn.Linear] submodule [name]: a weight of shape
    [s = [d_out; d_in]] and, with [bias], a bias of shape [[d_out]]. *)
Definition Linear_params (name : string) (s : list nat) (bias : bool) (g : rng)
    (m : Module) : Module :=
  let m1 := register_parameter (name +:+ ".weight")
              {| shape := s; at_ := g (name +:+ ".weight") |} m in
  if bias then
    register_parameter (name +:+ ".bias")
      {| shape := take 1 s; at_ := g (name +:+ ".bias") |} m1
  else m1.

(** [self.name = nn.Linear(d_in, d_out, bias=bias)] *)
Definition add_Linear (name : string) (d_in d_out : Z) (bias : bool) (g : rng)
    (m : Module) : result Module :=
  do s <- check_sizes [d_out; d_in];
  inr (Linear_params name s bias g m).

(** [nn.Dropout(p)] *)
Definition Dropout_init (p : R) : result R :=
  if Rlt_dec p 0 then inl ValueError
  else if Rlt_dec 1 p then inl ValueError
  else inr p.

(** [torch.triu(torch.ones(c, c), diagonal=1)] *)
Definition make_mask (context_length : Z) : result tensor :=
  do s <- check_sizes [context_length; context_length];
  inr (triu_ones (Z.to_nat context_length)).

(** [self.name(x)] for a submodule [name] that is an [nn.Linear]. *)
Definition Linear_forward (name : string) (m : Module) (x : tensor) : option tensor :=
  W ← params m !! (name +:+ ".weight");
  linear W (params m !! (name +:+ ".bias")) x.

(** [t / s] for a Python float [s]. *)
Definition div_scalar (t : tensor) (s : R) : tensor := tmap (λ v, xdiv v (Fin s)) t.

(** ** [2_buffers/buffers.ipynb] *)

(** The attributes of the single-head causal attention classes. *)
Record CausalAttention : Type := mkCausalAttention {
  ca_nn : Module;
  ca_d_out : Z;
  ca_dropout : R
}.

Definition CausalAttentionWithoutBuffers_init
    (d_in d_out context_length : Z) (dropout : R) (qkv_bias : bool) (g : rng)
    : result CausalAttention :=
  let m := Module_init in
  do m <- add_Linear "W_query" d_in d_out qkv_bias g m;
  do m <- add_Linear "W_key" d_in d_out qkv_bias g m;
  do m <- add_Linear "W_value" d_in d_out qkv_bias g m;
  do p <- Dropout_init dropout;
  do mask <- make_mask context_length;
  let m := setattr "mask" mask m in
  inr {| ca_nn := m; ca_d_out := d_out; ca_dropout := p |}.

Definition CausalAttentionWithoutBuffers_forward
    (self : CausalAttention) (keep : index → bool) (x : tensor) : option tensor :=
  match shape x with
  | [b; num_tokens; d_in] =>
      keys ← Linear_forward "W_key" (ca_nn self) x;
      queries ← Linear_forward "W_query" (ca_nn self) x;
      values ← Linear_forward "W_value" (ca_nn self) x;
      keysT ← transpose 1 2 keys;
      attn_scores ← matmul queries keysT;
      mask ← getattr "mask" (ca_nn self);
      mask_bool ← bslice2 (to_bool mask) num_tokens num_tokens;
      attn_scores ← masked_fill attn_scores mask_bool NInf;
      d ← last (shape keys);
      scale ← py_pow d (/ 2);
      attn_weights ← softmax (div_scalar attn_scores scale);
      let attn_weights :=
        dropout (ca_dropout self) (training (ca_nn self)) keep attn_weights in
      context_vec ← matmul attn_weights values;
      Some context_vec
  | _ => None
  end.

Definition CausalAttentionWithBuffer_init
    (d_in d_out context_length : Z) (dropout : R) (qkv_bias : bool) (g : rng)
    : result CausalAttention :=
  let m := Module_init in
  do m <- add_Linear "W_query" d_in d_out qkv_bias g m;
  do m <- add_Linear "W_key" d_in d_out qkv_bias g m;
  do m <- add_Linear "W_value" d_in d_out qkv_bias g m;
  do p <- Dropout_init dropout;
  do mask <- make_mask context_length;
  let m := register_buffer "mask" mask m in
  inr {| ca_nn := m; ca_d_out := d_out; ca_dropout := p |}.

Definition CausalAttentionWithBuffer_forward
    (self : CausalAttention) (keep : index → bool) (x : tensor) : option tensor :=
  match shape x with
  | [b; num_tokens; d_in] =>
      keys ← Linear_forward "W_key" (ca_nn self) x;
      queries ← Linear_forward "W_query" (ca_nn self) x;
      values ← Linear_forward "W_value" (ca_nn self) x;
      keysT ← transpose 1 2 keys;
      attn_scores ← matmul queries keysT;
      mask ← getattr "mask" (ca_nn self);
      mask_bool ← bslice2 (to_bool mask) num_tokens num_tokens;
      attn_scores ← masked_fill attn_scores mask_bool NInf;
      d ← last (shape keys);
      scale ← py_pow d (/ 2);
      attn_weights ← softmax (div_scalar attn_scores scale);
      let attn_weights :=
        dropout (ca_dropout self) (training (ca_nn self)) keep attn_weights in
      context_vec ← matmul attn_weights values;
      Some context_vec
  | _ => None
  end.

(** ** [4_batchnorm/batchnorm.ipynb]: the attention variants *)

Definition CasualAttention_init
    (d_in d_out context_length : Z) (dropout : R) (qkv_bias : bool) (g : rng)
    : result CausalAttention :=
  let m := Module_init in
  do m <- add_Linear "W_query" d_in d_out qkv_bias g m;
  do m <- add_Linear "W_key" d_in d_out qkv_bias g m;
  do m <- add_Linear "W_value" d_in d_out qkv_bias g m;
  do p <- Dropout_init dropout;
  do mask <- make_mask context_length;
  let m := register_buffer "mask" mask m in
  inr {| ca_nn := m; ca_d_out := d_out; ca_dropout := p |}.

Definition CasualAttention_forward
    (self : CausalAttention) (keep : index → bool) (x : tensor) : option tensor :=
  match shape x with
  | [b; num_tokens; d_in] =>
      keys ← Linear_forward "W_key" (ca_nn self) x;
      queries ← Linear_forward "W_query" (ca_nn self) x;
      values ← Linear_forward "W_value" (ca_nn self) x;
      keysT ← transpose 1 2 keys;
      attn_scores ← matmul queries keysT;
      mask ← getattr "mask" (ca_nn self);
      mask_bool ← bslice2 (to_bool mask) num_tokens num_tokens;
      attn_scores ← masked_fill attn_scores mask_bool NInf;
      d ← last (shape keys);
      scale ← py_pow d (/ 2);
      attn_weights ← softmax (div_scalar attn_scores scale);
      let attn_weights :=
        dropout (ca_dropout self) (training (ca_nn self)) keep attn_weights in
      context_vec ← matmul attn_weights values;
      Some context_vec
  | _ => None
  end.

Record MHA_Wrapper : Type := mkMHA_Wrapper {
  heads : list CausalAttention;
  wr_nn : Module
}.

(** [[CasualAttention(...) for _ in range(num_heads)]]; head [h] draws its
    initial values from [g h]. *)
Fixpoint make_heads (count : nat) (h : nat) (d_in d_out context_length : Z)
    (dropout : R) (g : nat → rng) : result (list CausalAttention) :=
  match count with
  | O => inr []
  | S count' =>
      do hd <- CasualAttention_init d_in d_out context_length dropout false (g h);
      do tl <- make_heads count' (S h) d_in d_out context_length dropout g;
      inr (hd :: tl)
  end.

Definition MHA_Wrapper_init
    (d_in d_out context_length : Z) (dropout : R) (num_heads : Z) (qkv_bias : bool)
    (g : nat → rng) (g_out : rng) : result MHA_Wrapper :=
  do hs <- make_heads (Z.to_nat num_heads) 0 d_in d_out context_length dropout g;
  do m <- add_Linear "out_proj" (d_out * num_heads) (d_out * num_heads) true g_out
            Module_init;
  inr {| heads := hs; wr_nn := m |}.

Definition MHA_Wrapper_forward
    (self : MHA_Wrapper) (keep : nat → index → bool) (x : tensor) : option tensor :=
  outs ← mapM (λ '(h, head), CasualAttention_forward head (keep h) x)
            (imap pair (heads self));
  context_vec ← cat_last outs;
  Linear_forward "out_proj" (wr_nn self) context_vec.

(** The attributes of the fused multi-head classes. *)
Record MultiHead : Type := mkMultiHead {
  mh_nn : Module;
  mh_d_out : Z;
  mh_num_heads : Z;
  mh_head_dim : Z;
  mh_context_length : Z;
  mh_dropout : R
}.

(** [assert d_out % num_heads == 0] *)
Definition assert_divisible (d_out num_heads : Z) : result unit :=
  if decide (num_heads = 0)%Z then inl ZeroDivisionError
  else if decide (d_out mod num_heads = 0)%Z then inr ()
  else inl AssertionError.

Definition MHA_init
    (d_in d_out context_length : Z) (dropout : R) (num_heads : Z) (qkv_bias : bool)
    (g : rng) : result MultiHead :=
  do _ <- assert_divisible d_out num_heads;
  let head_dim := (d_out / num_heads)%Z in
  let m := Module_init in
  do m <- add_Linear "W_query" d_in d_out qkv_bias g m;
  do m <- add_Linear "W_key" d_in d_out qkv_bias g m;
  do m <- add_Linear "W_value" d_in d_out qkv_bias g m;
  do m <- add_Linear "out_proj" d_out d_out true g m;
  do p <- Dropout_init dropout;
  do mask <- make_mask context_length;
  let m := register_buffer "mask" mask m in
  inr {| mh_nn := m; mh_d_out := d_out; mh_num_heads := num_heads;
         mh_head_dim := head_dim; mh_context_length := context_length;
         mh_dropout := p |}.

Definition MHA_forward
    (self : MultiHead) (keep : index → bool) (x : tensor) : option tensor :=
  match shape x with
  | [b; num_tokens; d_in] =>
      keys ← Linear_forward "W_key" (mh_nn self) x;
      queries ← Linear_forward "W_query" (mh_nn self) x;
      values ← Linear_forward "W_value" (mh_nn self) x;
      let split := [Z.of_nat b; Z.of_nat num_tokens;
                    mh_num_heads self; mh_head_dim self] in
      keys ← view split keys;
      queries ← view split queries;
      values ← view split values;
      keys ← transpose 1 2 keys;
      queries ← transpose 1 2 queries;
      values ← transpose 1 2 values;
      keysT ← transpose 2 3 keys;
      attn_scores ← matmul queries keysT;
      mask ← getattr "mask" (mh_nn self);
      mask_bool ← bslice2 (to_bool mask) num_tokens num_tokens;
      attn_scores ← masked_fill attn_scores mask_bool NInf;
      d ← last (shape keys);
      scale ← py_pow d (/ 2);
      attn_weights ← softmax (div_scalar attn_scores scale);
      let attn_weights :=
        dropout (mh_dropout self) (training (mh_nn self)) keep attn_weights in
      context_vec ← matmul attn_scores values;
      context_vec ← transpose 1 2 context_vec;
      context_vec ← view [Z.of_nat b; Z.of_nat num_tokens; mh_d_out self] context_vec;
      context_vec ← Linear_forward "out_proj" (mh_nn self) context_vec;
      Some context_vec
  | _ => None
  end.

Definition MultiHeadAttentionCombinedQKV_init
    (d_in d_out num_heads context_length : Z) (dropout : R) (qkv_bias : bool)
    (g : rng) : result MultiHead :=
  do _ <- assert_divisible d_out num_heads;
  let head_dim := (d_out / num_heads)%Z in
  let m := Module_init in
  do m <- add_Linear "qkv" d_in (3 * d_out) qkv_bias g m;
  do m <- add_Linear "proj" d_out d_out true g m;
  do p <- Dropout_init dropout;
  do mask <- make_mask context_length;
  let m := register_buffer "mask" mask m in
  inr {| mh_nn := m; mh_d_out := d_out; mh_num_heads := num_heads;
         mh_head_dim := head_dim; mh_context_length := context_length;
         mh_dropout := p |}.

Definition MultiHeadAttentionCombinedQKV_forward
    (self : MultiHead) (keep : index → bool) (x : tensor) : option tensor :=
  match shape x with
  | [batch_size; num_tokens; embed_dim] =>
      qkv ← Linear_forward "qkv" (mh_nn self) x;
      qkv ← view [Z.of_nat batch_size; Z.of_nat num_tokens; 3%Z;
                  mh_num_heads self; mh_head_dim self] qkv;
      qkv ← permute [2; 0; 3; 1; 4] qkv;
      queries ← select0 0 qkv;
      keys ← select0 1 qkv;
      values ← select0 2 qkv;
      keysT ← transpose (-2) (-1) keys;
      attn_scores ← matmul queries keysT;
      mask ← getattr "mask" (mh_nn self);
      mask_bool ← bslice2 (to_bool mask) num_tokens num_tokens;
      attn_scores ← masked_fill attn_scores mask_bool NInf;
      d ← last (shape keys);
      scale ← py_pow d (- / 2);
      attn_weights ← softmax (div_scalar attn_scores scale);
      let attn_weights :=
        dropout (mh_dropout self) (training (mh_nn self)) keep attn_weights in
      context_vec ← matmul attn_weights values;
      context_vec ← transpose 1 2 context_vec;
      context_vec ← view [Z.of_nat batch_size; Z.of_nat num_tokens;
                          Z.of_nat embed_dim] context_vec;
      context_vec ← Linear_forward "proj" (mh_nn self) context_vec;
      Some context_vec
  | _ => None
  end.

(** The two classes built on [scaled_dot_product_attention] keep the dropout
    probability as a plain float: no [nn.Dropout] checks it. *)
Definition MHAPyTorchScaledDotProduct_init
    (d_in d_out num_heads context_length : Z) (dropout : R) (qkv_bias : bool)
    (g : rng) : result MultiHead :=
  do _ <- assert_divisible d_out num_heads;
  let head_dim := (d_out / num_heads)%Z in
  let m := Module_init in
  do m <- add_Linear "qkv" d_in (3 * d_out) qkv_bias g m;
  do m <- add_Linear "proj" d_out d_out true g m;
  inr {| mh_nn := m; mh_d_out := d_out; mh_num_heads := num_heads;
         mh_head_dim := head_dim; mh_context_length := context_length;
         mh_dropout := dropout |}.

Definition MHAPyTorchSDPAWithoutFlash_init
    (d_in d_out num_heads context_length : Z) (dropout : R) (qkv_bias : bool)
    (g : rng) : result MultiHead :=
  do _ <- assert_divisible d_out num_heads;
  let head_dim := (d_out / num_heads)%Z in
  let m := Module_init in
  do m <- add_Linear "qkv" d_in (3 * d_out) qkv_bias g m;
  do m <- add_Linear "proj" d_out d_out true g m;
  do mask <- make_mask context_length;
  let m := register_buffer "mask" mask m in
  inr {| mh_nn := m; mh_d_out := d_out; mh_num_heads := num_heads;
         mh_head_dim := head_dim; mh_context_length := context_length;
         mh_dropout := dropout |}.

(** ** Reductions and broadcasting arithmetic *)

(** The elements of [l] at the positions whose flag is [b]. *)
Fixpoint pick {A} (flags : list bool) (l : list A) (b : bool) : list A :=
  match flags, l with
  | f :: flags', x :: l' =>
      if Bool.eqb f b then x :: pick flags' l' b else pick flags' l' b
  | _, _ => []
  end.

(** The index whose reduced positions come from [red] and whose other
    positions come from [kept]. *)
Fixpoint merge_ix (flags : list bool) (kept red : index) : index :=
  match flags with
  | [] => []
  | true :: flags' => hd 0 red :: merge_ix flags' kept (tl red)
  | false :: flags' => hd 0 kept :: merge_ix flags' (tl kept) red
  end.

(** [t.mean(dim=dims, keepdim=keepdim)]: the sum over the reduced
    dimensions divided by their number of elements; an empty [dims] reduces
    every dimension. *)
Definition mean_at (flags : list bool) (keepdim : bool) (t : tensor) (idx : index)
    : xreal :=
  let red_shape := pick flags (shape t) true in
  let count := numel red_shape in
  let kept := if keepdim then pick flags idx false else idx in
  xdiv (bigsum count (λ off, at_ t (merge_ix flags kept (unflatten red_shape off))))
       (Fin (INR count)).

Definition mean_dims (dims : list Z) (keepdim : bool) (t : tensor) : option tensor :=
  let rank := length (shape t) in
  ds ← mapM (norm_dim rank) dims;
  if decide (NoDup ds) then
    let flags := (λ d, bool_decide (ds = [] ∨ d ∈ ds)) <$> seq 0 rank in
    Some {| shape := if keepdim
                     then zip_with (λ (f : bool) d, if f then 1 else d) flags (shape t)
                     else pick flags (shape t) false;
            at_ := mean_at flags keepdim t |}
  else None.

(** The shape two operands broadcast to (on reversed shapes). *)
Fixpoint bshape_rev (a b : list nat) : option (list nat) :=
  match a, b with
  | [], l | l, [] => Some l
  | d :: a', e :: b' =>
      s ← bshape_rev a' b';
      if d =? e then Some (d :: s)
      else if d =? 1 then Some (e :: s)
      else if e =? 1 then Some (d :: s)
      else None
  end.

(** An elementwise binary operation of two tensors, with broadcasting. *)
Definition bop_at (f : xreal → xreal → xreal) (a b : tensor) (idx : index) : xreal :=
  f (at_ a (bcast_ix (shape a) idx)) (at_ b (bcast_ix (shape b) idx)).

Definition bop (f : xreal → xreal → xreal) (a b : tensor) : option tensor :=
  s ← bshape_rev (reverse (shape a)) (reverse (shape b));
  Some {| shape := reverse s; at_ := bop_at f a b |}.

(** [t ** 2] *)
Definition square (t : tensor) : tensor := tmap (λ v, xmul v v) t.

(** ** [4_batchnorm/batchnorm.ipynb]: [BatchNorm] *)

Record BatchNorm : Type := mkBatchNorm {
  bn_nn : Module;
  channels : Z;
  bn_eps : R;
  momentum : R;
  affine : bool;
  track_running_stats : bool
}.

Definition BatchNorm_init (channels : Z) (eps momentum : R)
    (affine track_running_stats : bool) : result BatchNorm :=
  let m := Module_init in
  do m <- (if affine then
             do s <- check_sizes [channels];
             inr (register_parameter "shift" {| shape := s; at_ _ := Fin 0 |}
                    (register_parameter "scale" {| shape := s; at_ _ := Fin 1 |} m))
           else inr m);
  do m <- (if track_running_stats then
             do s <- check_sizes [channels];
             inr (register_buffer "exp_var" {| shape := s; at_ _ := Fin 1 |}
                    (register_buffer "exp_mean" {| shape := s; at_ _ := Fin 0 |} m))
           else inr m);
  inr {| bn_nn := m; channels := channels; bn_eps := eps; momentum := momentum;
         affine := affine; track_running_stats := track_running_stats |}.

Definition with_nn (self : BatchNorm) (m : Module) : BatchNorm :=
  {| bn_nn := m; channels := channels self; bn_eps := bn_eps self;
     momentum := momentum self; affine := affine self;
     track_running_stats := track_running_stats self |}.

(** [(1 - momentum) * old + momentum * new] *)
Definition moving_average (momentum : R) (old new : tensor) : option tensor :=
  bop xadd (tmap (xmul (Fin (1 - momentum))) old) (tmap (xmul (Fin momentum)) new).

(** The statistics [forward] normalizes with, and the module after the
    update of the moving averages. *)
Definition BatchNorm_stats (self : BatchNorm) (x : tensor)
    : option (tensor * tensor * BatchNorm) :=
  if training (bn_nn self) || negb (track_running_stats self) then
    mean ← mean_dims [0%Z; 2%Z] false x;
    mean_x2 ← mean_dims [0%Z; 2%Z] false (square x);
    var ← bop xsub mean_x2 (square mean);
    if training (bn_nn self) && track_running_stats self then
      exp_mean ← getattr "exp_mean" (bn_nn self);
      new_mean ← moving_average (momentum self) exp_mean mean;
      let self1 := with_nn self (setattr "exp_mean" new_mean (bn_nn self)) in
      exp_var ← getattr "exp_var" (bn_nn self1);
      new_var ← moving_average (momentum self) exp_var var;
      let self2 := with_nn self1 (setattr "exp_var" new_var (bn_nn self1)) in
      Some (mean, var, self2)
    else Some (mean, var, self)
  else
    mean ← getattr "exp_mean" (bn_nn self);
    var ← getattr "exp_var" (bn_nn self);
    Some (mean, var, self).

(** The divisor of the normalization, [torch.sqrt(var + eps)]. *)
Definition norm_divisor (var : tensor) (eps : R) : tensor :=
  tmap xsqrt (tmap (λ v, xadd v (Fin eps)) var).

(** [forward] on a contiguous tensor ([BatchNorm_forward_strided] below is
    [forward] on a tensor with any strides). *)
Definition BatchNorm_forward (self : BatchNorm) (x : tensor)
    : option (tensor * BatchNorm) :=
  let x_shape := shape x in
  batch_size ← x_shape !! 0;
  c ← x_shape !! 1;
  if decide (channels self = Z.of_nat c) then
    x ← view [Z.of_nat batch_size; channels self; (-1)%Z] x;
    '(mean, var, self') ← BatchNorm_stats self x;
    mean3 ← view [1; -1; 1]%Z mean;
    div3 ← view [1; -1; 1]%Z (norm_divisor var (bn_eps self));
    centered ← bop xsub x mean3;
    x_norm ← bop xdiv centered div3;
    x_norm ← (if affine self then
                scale ← getattr "scale" (bn_nn self);
                shift ← getattr "shift" (bn_nn self);
                scale3 ← view [1; -1; 1]%Z scale;
                shift3 ← view [1; -1; 1]%Z shift;
                scaled ← bop xmul scale3 x_norm;
                bop xadd scaled shift3
              else Some x_norm);
    out ← view (zs x_shape) x_norm;
    Some (out, self')
  else None.

(** ** [1_mha/mha_test.ipynb]: [LayerNorm] *)

Record LayerNorm : Type := mkLayerNorm {
  ln_nn : Module;
  normalized_shape : list Z;
  ln_eps : R;
  elementwise_affine : bool
}.

Definition LayerNorm_init (normalized_shape : list Z) (eps : R)
    (elementwise_affine : bool) : result LayerNorm :=
  let m := Module_init in
  do m <- (if elementwise_affine then
             do s <- check_sizes normalized_shape;
             inr (register_parameter "bias" {| shape := s; at_ _ := Fin 0 |}
                    (register_parameter "gain" {| shape := s; at_ _ := Fin 1 |} m))
           else inr m);
  inr {| ln_nn := m; normalized_shape := normalized_shape; ln_eps := eps;
         elementwise_affine := elementwise_affine |}.

(** Python's [l[-k:]]: the last [k] elements, and all of [l] for [k = 0]. *)
Definition neg_slice {A} (k : nat) (l : list A) : list A :=
  if k =? 0 then l else drop (length l - k) l.

(** [[-(i+1) for i in range(k)]] *)
Definition last_dims (k : nat) : list Z := (λ i, - (Z.of_nat i + 1))%Z <$> seq 0 k.

(** The variance [forward] computes, [E[x^2] - E[x]^2]. *)
Definition LayerNorm_var (self : LayerNorm) (x : tensor) : option tensor :=
  let dims := last_dims (length (normalized_shape self)) in
  mean ← mean_dims dims true x;
  mean_x2 ← mean_dims dims true (square x);
  bop xsub mean_x2 (square mean).

Definition LayerNorm_forward (self : LayerNorm) (x : tensor) : option tensor :=
  if decide (normalized_shape self
             = zs (neg_slice (length (normalized_shape self)) (shape x))) then
    let dims := last_dims (length (normalized_shape self)) in
    mean ← mean_dims dims true x;
    var ← LayerNorm_var self x;
    centered ← bop xsub x mean;
    x_norm ← bop xdiv centered (norm_divisor var (ln_eps self));
    if elementwise_affine self then
      gain ← getattr "gain" (ln_nn self);
      bias ← getattr "bias" (ln_nn self);
      scaled ← bop xmul gain x_norm;
      bop xadd scaled bias
    else Some x_norm
  else None.

(** ** The cells of [buffers.ipynb] that modify, save and reload a mask *)

(** [t[t == v] = w] *)
Definition masked_assign (v w : R) (t : tensor) : tensor :=
  tmap (λ e, match e with
             | Fin r => if Req_dec_T r v then Fin w else e
             | _ => e
             end) t.

(** An in-place update of the tensor object that [self.name] denotes. *)
Definition update_inplace (name : string) (f : tensor → tensor) (m : Module) : Module :=
  match attrs m !! name with
  | Some _ => {| params := params m; buffers := buffers m;
                 attrs := alter f name (attrs m); training := training m |}
  | None =>
      match params m !! name with
      | Some _ => {| params := alter f name (params m); buffers := buffers m;
                     attrs := attrs m; training := training m |}
      | None => {| params := params m; buffers := alter f name (buffers m);
                   attrs := attrs m; training := training m |}
      end
  end.

(** [ca.mask[ca.mask == 1.] = 2.] *)
Definition modify_mask (self : CausalAttention) : CausalAttention :=
  {| ca_nn := update_inplace "mask" (masked_assign 1 2) (ca_nn self);
     ca_d_out := ca_d_out self; ca_dropout := ca_dropout self |}.

(** [torch.save(ca.state_dict(), "model.pth")] and
    [new_ca.load_state_dict(torch.load("model.pth"))] *)
Definition save_and_reload (ca new_ca : CausalAttention) : option CausalAttention :=
  m ← load_state_dict (save_load (state_dict (ca_nn ca))) (ca_nn new_ca);
  Some {| ca_nn := m; ca_d_out := ca_d_out new_ca; ca_dropout := ca_dropout new_ca |}.

(** ** Tensors as objects

    [forward] calls [masked_fill_], which writes into an existing tensor.
    Here every tensor is an object in a store, a module holds references,
    an out-of-place operation allocates its result and an in-place
    operation overwrites its target. *)

Abbreviation loc := positive.

Inductive obj : Type :=
| OT (t : tensor)
| OB (m : btensor).

Abbreviation store := (gmap loc obj).

Definition M (A : Type) : Type := store → option (A * store).

Definition ret {A} (a : A) : M A := λ h, Some (a, h).

Definition bind {A B} (c : M A) (k : A → M B) : M B :=
  λ h, match c h with
       | Some (a, h') => k a h'
       | None => None
       end.

Notation "'let*' x := c 'in' k" := (bind c (λ x, k))
  (at level 10, x name, c at level 100, k at level 200).

Definition lift {A} (o : option A) : M A :=
  λ h, match o with Some a => Some (a, h) | None => None end.

Definition alloc (o : obj) : M loc :=
  λ h, let l := fresh (dom h) in Some (l, <[l := o]> h).

Definition load_t (l : loc) : M tensor :=
  λ h, match h !! l with Some (OT t) => Some (t, h) | _ => None end.

Definition load_b (l : loc) : M btensor :=
  λ h, match h !! l with Some (OB t) => Some (t, h) | _ => None end.

Definition write (l : loc) (o : obj) : M unit :=
  λ h, Some ((), <[l := o]> h).

(** An operation that returns a new tensor. *)
Definition new1 (f : tensor → option tensor) (l : loc) : M loc :=
  let* t := load_t l in
  let* r := lift (f t) in
  alloc (OT r).

Definition new2 (f : tensor → tensor → option tensor) (l1 l2 : loc) : M loc :=
  let* t1 := load_t l1 in
  let* t2 := load_t l2 in
  let* r := lift (f t1 t2) in
  alloc (OT r).

(** [t.bool()] and [m[:n, :k]] *)
Definition to_bool_ref (l : loc) : M loc :=
  let* t := load_t l in
  alloc (OB (to_bool t)).

Definition bslice2_ref (l : loc) (n k : nat) : M loc :=
  let* m := load_b l in
  let* r := lift (bslice2 m n k) in
  alloc (OB r).

(** [t.masked_fill_(mask, v)]: the result replaces the contents of [t]. *)
Definition masked_fill_ (l mask : loc) (v : xreal) : M loc :=
  let* t := load_t l in
  let* m := load_b mask in
  let* r := lift (masked_fill t m v) in
  let* _ := write l (OT r) in
  ret l.

(** A module whose tensors are references. *)
Record ModuleRefs : Type := mkModuleRefs {
  rparams : gmap string loc;
  rbuffers : gmap string loc;
  rattrs : gmap string loc;
  rtraining : bool
}.

Definition rgetattr (name : string) (m : ModuleRefs) : option loc :=
  match rattrs m !! name with
  | Some l => Some l
  | None => match rparams m !! name with
            | Some l => Some l
            | None => rbuffers m !! name
            end
  end.

Definition deref (h : store) (g : gmap string loc) : gmap string tensor :=
  omap (λ l, match h !! l with Some (OT t) => Some t | _ => None end) g.

(** The module a [ModuleRefs] denotes in a store. *)
Definition snapshot (h : store) (m : ModuleRefs) : Module :=
  {| params := deref h (rparams m); buffers := deref h (rbuffers m);
     attrs := deref h (rattrs m); training := rtraining m |}.

Definition Linear_ref (name : string) (m : ModuleRefs) (x : loc) : M loc :=
  let* W := lift (rparams m !! (name +:+ ".weight")) in
  let* Wt := load_t W in
  let* b := match rparams m !! (name +:+ ".bias") with
            | Some lb => let* bt := load_t lb in ret (Some bt)
            | None => ret None
            end in
  new1 (linear Wt b) x.

Definition CausalAttentionWithBuffer_forward_ref
    (self : ModuleRefs) (dropout_p : R) (keep : index → bool) (x : loc) : M loc :=
  let* xt := load_t x in
  match shape xt with
  | [b; num_tokens; d_in] =>
      let* keys := Linear_ref "W_key" self x in
      let* queries := Linear_ref "W_query" self x in
      let* values := Linear_ref "W_value" self x in
      let* keysT := new1 (transpose 1 2) keys in
      let* attn_scores := new2 matmul queries keysT in
      let* mask := lift (rgetattr "mask" self) in
      let* mask_b := to_bool_ref mask in
      let* mask_bool := bslice2_ref mask_b num_tokens num_tokens in
      let* attn_scores := masked_fill_ attn_scores mask_bool NInf in
      let* kt := load_t keys in
      let* d := lift (last (shape kt)) in
      let* scale := lift (py_pow d (/ 2)) in
      let* scaled := new1 (λ t, Some (div_scalar t scale)) attn_scores in
      let* attn_weights := new1 softmax scaled in
      let* attn_weights :=
        new1 (λ t, Some (dropout dropout_p (rtraining self) keep t)) attn_weights in
      let* context_vec := new2 matmul attn_weights values in
      ret context_vec
  | _ => lift None
  end.

Definition MHA_forward_ref
    (self : ModuleRefs) (d_out num_heads head_dim : Z) (dropout_p : R)
    (keep : index → bool) (x : loc) : M loc :=
  let* xt := load_t x in
  match shape xt with
  | [b; num_tokens; d_in] =>
      let* keys := Linear_ref "W_key" self x in
      let* queries := Linear_ref "W_query" self x in
      let* values := Linear_ref "W_value" self x in
      let split := [Z.of_nat b; Z.of_nat num_tokens; num_heads; head_dim] in
      let* keys := new1 (view split) keys in
      let* queries := new1 (view split) queries in
      let* values := new1 (view split) values in
      let* keys := new1 (transpose 1 2) keys in
      let* queries := new1 (transpose 1 2) queries in
      let* values := new1 (transpose 1 2) values in
      let* keysT := new1 (transpose 2 3) keys in
      let* attn_scores := new2 matmul queries keysT in
      let* mask := lift (rgetattr "mask" self) in
      let* mask_b := to_bool_ref mask in
      let* mask_bool := bslice2_ref mask_b num_tokens num_tokens in
      let* attn_scores := masked_fill_ attn_scores mask_bool NInf in
      let* kt := load_t keys in
      let* d := lift (last (shape kt)) in
      let* scale := lift (py_pow d (/ 2)) in
      let* scaled := new1 (λ t, Some (div_scalar t scale)) attn_scores in
      let* attn_weights := new1 softmax scaled in
      let* attn_weights :=
        new1 (λ t, Some (dropout dropout_p (rtraining self) keep t)) attn_weights in
      let* context_vec := new2 matmul attn_scores values in
      let* context_vec := new1 (transpose 1 2) context_vec in
      let* context_vec :=
        new1 (view [Z.of_nat b; Z.of_nat num_tokens; d_out]) context_vec in
      let* context_vec := Linear_ref "out_proj" self context_vec in
      ret context_vec
  | _ => lift None
  end.

(** ** Scaled dot-product attention, as the specification words it

    The context vector is the softmax of the scaled, causally masked scores
    times the values, followed by the output projection.  These two
    definitions are not translations of the code. *)

Definition MHA_standard
    (self : MultiHead) (keep : index → bool) (x : tensor) : option tensor :=
  match shape x with
  | [b; num_tokens; d_in] =>
      keys ← Linear_forward "W_key" (mh_nn self) x;
      queries ← Linear_forward "W_query" (mh_nn self) x;
      values ← Linear_forward "W_value" (mh_nn self) x;
      let split := [Z.of_nat b; Z.of_nat num_tokens;
                    mh_num_heads self; mh_head_dim self] in
      keys ← view split keys;
      queries ← view split queries;
      values ← view split values;
      keys ← transpose 1 2 keys;
      queries ← transpose 1 2 queries;
      values ← transpose 1 2 values;
      keysT ← transpose 2 3 keys;
      attn_scores ← matmul queries keysT;
      mask ← getattr "mask" (mh_nn self);
      mask_bool ← bslice2 (to_bool mask) num_tokens num_tokens;
      attn_scores ← masked_fill attn_scores mask_bool NInf;
      d ← last (shape keys);
      attn_weights ← softmax (div_scalar attn_scores (sqrt (INR d)));
      let attn_weights :=
        dropout (mh_dropout self) (training (mh_nn self)) keep attn_weights in
      context_vec ← matmul attn_weights values;
      context_vec ← transpose 1 2 context_vec;
      context_vec ← view [Z.of_nat b; Z.of_nat num_tokens; mh_d_out self] context_vec;
      Linear_forward "out_proj" (mh_nn self) context_vec
  | _ => None
  end.

Definition CombinedQKV_standard
    (self : MultiHead) (keep : index → bool) (x : tensor) : option tensor :=
  match shape x with
  | [batch_size; num_tokens; embed_dim] =>
      qkv ← Linear_forward "qkv" (mh_nn self) x;
      qkv ← view [Z.of_nat batch_size; Z.of_nat num_tokens; 3%Z;
                  mh_num_heads self; mh_head_dim self] qkv;
      qkv ← permute [2; 0; 3; 1; 4] qkv;
      queries ← select0 0 qkv;
      keys ← select0 1 qkv;
      values ← select0 2 qkv;
      keysT ← transpose (-2) (-1) keys;
      attn_scores ← matmul queries keysT;
      mask ← getattr "mask" (mh_nn self);
      mask_bool ← bslice2 (to_bool mask) num_tokens num_tokens;
      attn_scores ← masked_fill attn_scores mask_bool NInf;
      d ← last (shape keys);
      attn_weights ← softmax (div_scalar attn_scores (sqrt (INR d)));
      let attn_weights :=
        dropout (mh_dropout self) (training (mh_nn self)) keep attn_weights in
      context_vec ← matmul attn_weights values;
      context_vec ← transpose 1 2 context_vec;
      context_vec ← view [Z.of_nat batch_size; Z.of_nat num_tokens;
                          Z.of_nat embed_dim] context_vec;
      Linear_forward "proj" (mh_nn self) context_vec
  | _ => None
  end.

(** Tensor literals. *)
Definition tensor1 (l : list R) : tensor :=
  {| shape := [length l];
     at_ idx := match idx with
                | [i] => Fin (nth i l 0%R)
                | _ => Fin 0
                end |}.

Definition tensor2 (l : list (list R)) : tensor :=
  {| shape := [length l; length (hd [] l)];
     at_ idx := match idx with
                | [i; j] => Fin (nth j (nth i l []) 0%R)
                | _ => Fin 0
                end |}.

Definition tensor3 (l : list (list (list R))) : tensor :=
  {| shape := [length l; length (hd [] l); length (hd [] (hd [] l))];
     at_ idx := match idx with
                | [i; j; k] => Fin (nth k (nth j (nth i l []) []) 0%R)
                | _ => Fin 0
                end |}.

(** A module with well-shaped, finite weights. *)
Definition linear_ok (m : Module) (name : string) (d_in d_out : nat) : Prop :=
  (∃ W, params m !! (name +:+ ".weight") = Some W
        ∧ shape W = [d_out; d_in] ∧ finite W)
  ∧ (∀ b, params m !! (name +:+ ".bias") = Some b → finite b).

(** A mask whose nonzero entries are those above the diagonal. *)
Definition causal_mask (m : Module) (c : nat) : Prop :=
  ∃ mask, getattr "mask" m = Some mask ∧ shape mask = [c; c]
          ∧ ∀ i j, i < c → j < c → bat (to_bool mask) [i; j] = (i <? j).

Definition ca_ok (self : CausalAttention) (d_in d_out c : nat) : Prop :=
  linear_ok (ca_nn self) "W_query" d_in d_out
  ∧ linear_ok (ca_nn self) "W_key" d_in d_out
  ∧ linear_ok (ca_nn self) "W_value" d_in d_out
  ∧ causal_mask (ca_nn self) c.

Definition qkv_ok (self : MultiHead) (d_out H hd c : nat) : Prop :=
  linear_ok (mh_nn self) "qkv" d_out (3 * d_out)
  ∧ linear_ok (mh_nn self) "proj" d_out d_out
  ∧ causal_mask (mh_nn self) c
  ∧ mh_num_heads self = Z.of_nat H ∧ mh_head_dim self = Z.of_nat hd
  ∧ d_out = H * hd.

(** Row [i] of batch element [bi] agrees in both tensors, up to column [d]. *)
Definition same_token (d bi i : nat) (x x' : tensor) : Prop :=
  ∀ k, k < d → at_ x [bi; i; k] = at_ x' [bi; i; k].

(** ** The element formulas of attention (used by the proofs) *)

(** Softmax-weighted values: [logit j] is the scaled, masked score of key
    [j], [v j] the value of token [j]. *)
Definition attention_elem (n : nat) (logit v : nat → xreal) : xreal :=
  bigsum n (λ j, xmul (xdiv (xexp (logit j)) (bigsum n (λ j', xexp (logit j')))) (v j)).

(** The scaled, masked score of a query [q] at position [i] and a key [k]
    at position [j]; [m] is the side of the sliced mask. *)
Definition masked_logit (mask : tensor) (m : nat) (s : R) (d : nat)
    (q k : nat → xreal) (i j : nat) : xreal :=
  xdiv (if bat (to_bool mask) [if m =? 1 then 0 else i; if m =? 1 then 0 else j]
        then NInf
        else bigsum d (λ l, xmul (q l) (k l)))
       (Fin s).

(** Column of the fused projection that holds component [l] of head [h] of
    the queries ([t = 0]), keys ([t = 1]) or values ([t = 2]). *)
Definition qkv_col (H hd t h l : nat) : nat := (t * H + h) * hd + l.

(** The three projections of a single-head class. *)
Definition single_head_linears (d_in d_out : Z) (bias : bool) (g : rng) : Module :=
  let s := [Z.to_nat d_out; Z.to_nat d_in] in
  Linear_params "W_value" s bias g
    (Linear_params "W_key" s bias g (Linear_params "W_query" s bias g Module_init)).

Definition ones_rng : rng := λ _ _, Fin 1.

(** The score of query [i] and key [j] of head [h] after [masked_fill_]. *)
Definition mha_masked_score (mask : tensor) (m hd : nat) (q k : index → xreal)
    (bi h i j : nat) : xreal :=
  if bat (to_bool mask) [if m =? 1 then 0 else i; if m =? 1 then 0 else j]
  then NInf
  else bigsum hd (λ l, xmul (q [bi; i; h * hd + l]) (k [bi; j; h * hd + l])).

(** Initial values: 2 for the query weights, 0 for the bias of the output
    projection, 1 for everything else. *)
Definition demo_rng : rng :=
  λ name _, if bool_decide (name = "W_query.weight") then Fin 2
            else if bool_decide (name = "out_proj.bias") then Fin 0
            else Fin 1.

(** [MHA(d_in=1, d_out=1, context_length=1, dropout=0.0, num_heads=1)] *)
Definition demo_mha : MultiHead :=
  {| mh_nn := register_buffer "mask" (triu_ones 1)
                (Linear_params "out_proj" [1; 1] true demo_rng
                   (Linear_params "W_value" [1; 1] false demo_rng
                      (Linear_params "W_key" [1; 1] false demo_rng
                         (Linear_params "W_query" [1; 1] false demo_rng Module_init))));
     mh_d_out := 1; mh_num_heads := 1; mh_head_dim := 1; mh_context_length := 1;
     mh_dropout := 0 |}.

Definition one_token : tensor := tensor3 [[[1%R]]].

(** Initial values for the fused projection: queries, keys and values all
    copy the first input feature into their first component; the output
    projection is the identity. *)
Definition qkv_rng : rng :=
  λ name idx,
    if String.eqb name "qkv.weight"
    then at_ (tensor2 [[1; 0]; [0; 0]; [1; 0]; [0; 0]; [1; 0]; [0; 0]]%R) idx
    else if String.eqb name "proj.weight"
    then at_ (tensor2 [[1; 0]; [0; 1]]%R) idx
    else Fin 0.

(** [MultiHeadAttentionCombinedQKV(d_in=2, d_out=2, num_heads=1,
    context_length=2, dropout=0.0)] *)
Definition demo_qkv : MultiHead :=
  {| mh_nn := register_buffer "mask" (triu_ones 2)
                (Linear_params "proj" [2; 2] true qkv_rng
                   (Linear_params "qkv" [6; 2] false qkv_rng Module_init));
     mh_d_out := 2; mh_num_heads := 1; mh_head_dim := 2; mh_context_length := 2;
     mh_dropout := 0 |}.

Definition two_tokens : tensor := tensor3 [[[0; 0]; [1; 0]]]%R.

(** The logistic function. *)
Definition sigmoid (t : R) : R := (exp t / (1 + exp t))%R.

(** [MHA_Wrapper(d_in=1, d_out=1, context_length=1, dropout=0.0,
    num_heads=1)] with the weights of [demo_mha]. *)
Definition demo_head : CausalAttention :=
  {| ca_nn := register_buffer "mask" (triu_ones 1) (single_head_linears 1 1 false demo_rng);
     ca_d_out := 1; ca_dropout := 0 |}.

Definition demo_wrapper : MHA_Wrapper :=
  {| heads := [demo_head];
     wr_nn := Linear_params "out_proj" [1; 1] true demo_rng Module_init |}.

(** [CausalAttentionWithoutBuffers(d_in=1, d_out=1, context_length=1,
    dropout=0.0)] with all weights 1. *)
Definition short_context : CausalAttention :=
  {| ca_nn := setattr "mask" (triu_ones 1) (single_head_linears 1 1 false ones_rng);
     ca_d_out := 1; ca_dropout := 0 |}.

Definition tokens_0_0 : tensor := tensor3 [[[0]; [0]]]%R.
Definition tokens_0_2 : tensor := tensor3 [[[0]; [2]]]%R.

(** [MHA(d_in=1, d_out=1, context_length=2, dropout=0.0, num_heads=1)] with
    all weights 1. *)
Definition mha_two : MultiHead :=
  {| mh_nn := register_buffer "mask" (triu_ones 2)
                (Linear_params "out_proj" [1; 1] true ones_rng
                   (single_head_linears 1 1 false ones_rng));
     mh_d_out := 1; mh_num_heads := 1; mh_head_dim := 1; mh_context_length := 2;
     mh_dropout := 0 |}.

Definition tokens_1_1 : tensor := tensor3 [[[1]; [1]]]%R.
Definition tokens_1_m1 : tensor := tensor3 [[[1]; [-1]]]%R.

Definition finite_rng (g : rng) : Prop := ∀ name idx, is_fin (g name idx).

(** Causality of a forward pass on inputs of at most [c] tokens: the output
    at position [i] of a batch element is the same for two finite inputs
    that agree on the positions up to [i]. *)
Definition causal_upto (forward : (index → bool) → tensor → option tensor)
    (d_in d_out c : nat) : Prop :=
  ∀ keep keep' x x' b n n' bi i,
    shape x = [b; n; d_in] → shape x' = [b; n'; d_in] →
    finite x → finite x' →
    n ≤ c → n' ≤ c → i < n → i < n' →
    (∀ t, t ≤ i → same_token d_in bi t x x') →
    ∃ y y', forward keep x = Some y ∧ forward keep' x' = Some y'
            ∧ shape y = [b; n; d_out] ∧ shape y' = [b; n'; d_out]
            ∧ same_token d_out bi i y y'.

(** [CausalAttentionWithoutBuffers(1, 1, 2, 0.0)] and
    [CausalAttentionWithBuffer(1, 1, 2, 0.0)] with all weights 1. *)
Definition plain_two : CausalAttention :=
  {| ca_nn := setattr "mask" (triu_ones 2) (single_head_linears 1 1 false ones_rng);
     ca_d_out := 1; ca_dropout := 0 |}.

Definition buffered_two : CausalAttention :=
  {| ca_nn := register_buffer "mask" (triu_ones 2)
                (single_head_linears 1 1 false ones_rng);
     ca_d_out := 1; ca_dropout := 0 |}.

Definition two_tokens' : tensor := tensor3 [[[0; 0]; [5; 3]]]%R.

Definition keep_all : index → bool := λ _, true.

(** Sum of [f 0], ..., [f (n-1)] over the reals. *)
Definition Rsum (n : nat) (f : nat → R) : R := foldr Rplus 0%R (f <$> seq 0 n).

(** The check of the shape at the start of [LayerNorm.forward]. *)
Definition shape_asserted (self : LayerNorm) (x : tensor) : Prop :=
  normalized_shape self = zs (neg_slice (length (normalized_shape self)) (shape x)).

(** The mean of [f] over the batch and the remaining dimensions of channel
    [c] of an input of shape [(batch_size, channels, ...)]. *)
Definition channel_mean (f : xreal → xreal) (x : tensor) (c : nat) : xreal :=
  match shape x with
  | B :: _ :: rest =>
      let N := numel rest in
      xdiv (bigsum (B * N)
              (λ off, f (at_ x (off / N :: c :: unflatten rest (off mod N)))))
           (Fin (INR (B * N)))
  | _ => NaN
  end.

(** The statistics of the current batch. *)
Definition batch_mean (x : tensor) (c : nat) : xreal := channel_mean (λ v, v) x c.
Definition batch_var (x : tensor) (c : nat) : xreal :=
  xsub (channel_mean (λ v, xmul v v) x c) (xmul (batch_mean x c) (batch_mean x c)).

(** The element [c] of the vector bound to [name]. *)
Definition stored (name : string) (self : BatchNorm) (c : nat) : xreal :=
  match getattr name (bn_nn self) with
  | Some t => at_ t [c]
  | None => NaN
  end.

(** The statistics the documentation of [forward] selects: those of the
    batch in training mode or without tracked statistics, the stored moving
    averages otherwise. *)
Definition selected_mean (self : BatchNorm) (x : tensor) (c : nat) : xreal :=
  if training (bn_nn self) || negb (track_running_stats self)
  then batch_mean x c else stored "exp_mean" self c.
Definition selected_var (self : BatchNorm) (x : tensor) (c : nat) : xreal :=
  if training (bn_nn self) || negb (track_running_stats self)
  then batch_var x c else stored "exp_var" self c.

(** The normalized value of [v] in channel [c], scaled and shifted when the
    module is affine. *)
Definition normalized (self : BatchNorm) (x : tensor) (c : nat) (v : xreal) : xreal :=
  let n := xdiv (xsub v (selected_mean self x c))
                (xsqrt (xadd (selected_var self x c) (Fin (bn_eps self)))) in
  if affine self
  then xadd (xmul (stored "scale" self c) n) (stored "shift" self c)
  else n.

(** The vectors a module built by [BatchNorm_init] holds. *)
Definition has_vector (name : string) (m : Module) (C : nat) : Prop :=
  ∃ t, getattr name m = Some t ∧ shape t = [C].

Definition bn_ok (self : BatchNorm) (C : nat) : Prop :=
  channels self = Z.of_nat C
  ∧ (track_running_stats self = true →
     has_vector "exp_mean" (bn_nn self) C ∧ has_vector "exp_var" (bn_nn self) C)
  ∧ (affine self = true →
     has_vector "scale" (bn_nn self) C ∧ has_vector "shift" (bn_nn self) C).

(** The statistics of the batch, as [BatchNorm_stats] computes them. *)
Definition stats_mean (x3 : tensor) : tensor :=
  {| shape := [List.nth 1 (shape x3) 0]; at_ := mean_at [true; false; true] false x3 |}.
Definition stats_var (x3 : tensor) : tensor :=
  {| shape := [List.nth 1 (shape x3) 0];
     at_ := bop_at xsub (stats_mean (square x3)) (square (stats_mean x3)) |}.

(** The scaling and shifting step of [forward]. *)
Definition scale_shift (self : BatchNorm) (c : nat) (v : xreal) : xreal :=
  if affine self
  then xadd (xmul (stored "scale" self c) v) (stored "shift" self c)
  else v.

(** [LayerNorm(2, elementwise_affine=False)] with [eps = 1], and
    [LayerNorm(1, ...)], [LayerNorm(0, ...)]. *)
Definition layer_norm (n : Z) : LayerNorm :=
  {| ln_nn := Module_init; normalized_shape := [n]; ln_eps := 1;
     elementwise_affine := false |}.

(** [BatchNorm(1, eps=1.0, momentum=0.5)] *)
Definition batch_norm_one : BatchNorm :=
  {| bn_nn := register_buffer "exp_var" {| shape := [1]; at_ _ := Fin 1 |}
                (register_buffer "exp_mean" {| shape := [1]; at_ _ := Fin 0 |}
                   (register_parameter "shift" {| shape := [1]; at_ _ := Fin 0 |}
                      (register_parameter "scale" {| shape := [1]; at_ _ := Fin 1 |}
                         Module_init)));
     channels := 1; bn_eps := 1; momentum := / 2; affine := true;
     track_running_stats := true |}.

Definition row_1_3 : tensor := tensor2 [[1; 3]]%R.
Definition batch_1_3 : tensor := tensor3 [[[1; 3]]]%R.

(** [torch.full((1, 1), float('inf'))] and [torch.zeros(1, 0)]. *)
Definition infinite_row : tensor := {| shape := [1; 1]; at_ _ := PInf |}.
Definition empty_row : tensor := {| shape := [1; 0]; at_ _ := Fin 0 |}.

(** [torch.zeros(0, 1, 2)] *)
Definition empty_batch : tensor := {| shape := [0; 1; 2]; at_ _ := Fin 0 |}.

(** The variance of the rows of a matrix with one row. *)
Definition row_var (x : tensor) : tensor :=
  {| shape := [1; 1];
     at_ := bop_at xsub
              {| shape := [1; 1]; at_ := mean_at [false; true] true (square x) |}
              (square {| shape := [1; 1]; at_ := mean_at [false; true] true x |}) |}.

(** [safe D P c]: a run of [c] from a store that holds the objects [D]
    keeps them as they are, and its result satisfies [P]. *)
Definition safe {A} (D : gset loc) (P : A → Prop) (c : M A) : Prop :=
  ∀ h a h', D ⊆ dom h → c h = Some (a, h') →
    D ⊆ dom h' ∧ (∀ l, l ∈ D → h' !! l = h !! l) ∧ P a.

Definition new_object (D : gset loc) (l : loc) : Prop := l ∉ D.

(** [returns c h Q]: from the store [h], [c] returns a result and a store
    that satisfy [Q]. *)
Definition returns {A} (c : M A) (h : store) (Q : A → store → Prop) : Prop :=
  ∃ a h', c h = Some (a, h') ∧ Q a h'.

(** Every reference of the module is a tensor of the store. *)
Definition wf (h : store) (m : ModuleRefs) : Prop :=
  ∀ g, g ∈ [rparams m; rbuffers m; rattrs m] →
    ∀ k l, g !! k = Some l → ∃ t, h !! l = Some (OT t).

(** A run that keeps every object of the store it starts from, and returns
    a new object. *)
Definition keeps_objects (self : ModuleRefs) (c : M loc) : Prop :=
  ∀ h r h', c h = Some (r, h') →
    (∀ l, l ∈ dom h → h' !! l = h !! l)
    ∧ (r ∉ dom h)
    ∧ (wf h self → snapshot h' self = snapshot h self).

(** [mask] is a buffer of the module and not a parameter. *)
Definition mask_is_buffer (m : Module) : Prop :=
  params m !! "mask" = None ∧ is_Some (buffers m !! "mask").

(** [CausalAttentionWithBuffer(1, 1, 2, 0.0)] and [MHA(1, 1, 2, 0.0, 1)]
    with all weights 1, as objects of a store, with an input of two
    tokens. *)
Definition ones_1_1 : tensor := {| shape := [1; 1]; at_ := ones_rng "weight" |}.
Definition ones_1 : tensor := {| shape := [1]; at_ := ones_rng "bias" |}.

Definition demo_store : store :=
  <[1%positive := OT ones_1_1]> (<[2%positive := OT ones_1_1]>
  (<[3%positive := OT ones_1_1]> (<[4%positive := OT (triu_ones 2)]>
  (<[5%positive := OT tokens_1_1]> (<[6%positive := OT ones_1_1]>
  (<[7%positive := OT ones_1]> ∅)))))).

Definition demo_refs : ModuleRefs :=
  {| rparams := <["W_query.weight" := 1%positive]> (<["W_key.weight" := 2%positive]>
                (<["W_value.weight" := 3%positive]> ∅));
     rbuffers := <["mask" := 4%positive]> ∅;
     rattrs := ∅; rtraining := true |}.

Definition demo_mha_refs : ModuleRefs :=
  {| rparams := <["W_query.weight" := 1%positive]> (<["W_key.weight" := 2%positive]>
                (<["W_value.weight" := 3%positive]>
                (<["out_proj.weight" := 6%positive]>
                (<["out_proj.bias" := 7%positive]> ∅))));
     rbuffers := <["mask" := 4%positive]> ∅;
     rattrs := ∅; rtraining := true |}.

(** [torch.tensor([[[0.], [float('nan')]]])] *)
Definition tokens_0_nan : tensor :=
  {| shape := [1; 2; 1];
     at_ idx := match idx with
                | [_; 1; _] => NaN
                | _ => Fin 0
                end |}.

(** The tensors a [BatchNorm] holds: what the constructor binds, whatever
    their values. *)
Definition bn_built (self : BatchNorm) (C : nat) : Prop :=
  channels self = Z.of_nat C
  ∧ attrs (bn_nn self) = ∅
  ∧ (if track_running_stats self
     then ∃ em ev, buffers (bn_nn self) = <["exp_var" := ev]> (<["exp_mean" := em]> ∅)
                   ∧ shape em = [C] ∧ shape ev = [C]
     else buffers (bn_nn self) = ∅)
  ∧ (if affine self
     then ∃ sc sh, params (bn_nn self) = <["shift" := sh]> (<["scale" := sc]> ∅)
                   ∧ shape sc = [C] ∧ shape sh = [C]
     else params (bn_nn self) = ∅).

(** [(1 - momentum) * old + momentum * new] of two vectors. *)
Definition averaged (momentum : R) (old new : tensor) : tensor :=
  {| shape := shape old;
     at_ := bop_at xadd (tmap (xmul (Fin (1 - momentum))) old)
                        (tmap (xmul (Fin momentum)) new) |}.

(** [[[[0], [1], [2]]]]: three tokens. *)
Definition three_tokens : tensor := tensor3 [[[0]; [1]; [2]]]%R.

(** The mean of [f] over the trailing dimensions [S] of the group of [x]
    at the leading index [p]. *)
Definition group_mean (f : xreal → xreal) (x : tensor) (S : list nat) (p : index)
    : xreal :=
  xdiv (bigsum (numel S) (λ off, f (at_ x (p ++ unflatten S off))))
       (Fin (INR (numel S))).

(** The variance of the group, [E[x^2] - E[x]^2]. *)
Definition group_var (x : tensor) (S : list nat) (p : index) : xreal :=
  xsub (group_mean (λ v, xmul v v) x S p)
       (xmul (group_mean (λ v, v) x S p) (group_mean (λ v, v) x S p)).

(** The tensors a [LayerNorm] over the trailing dimensions [S] holds. *)
Definition ln_ok (self : LayerNorm) (S : list nat) : Prop :=
  normalized_shape self = zs S
  ∧ (elementwise_affine self = true →
     ∃ g b, getattr "gain" (ln_nn self) = Some g
            ∧ getattr "bias" (ln_nn self) = Some b
            ∧ shape g = S ∧ shape b = S).

(** The last step of [LayerNorm.forward]: [gain * v + bias] at the
    trailing index [si] when the module is affine. *)
Definition gain_bias (self : LayerNorm) (si : index) (v : xreal) : xreal :=
  if elementwise_affine self then
    match getattr "gain" (ln_nn self), getattr "bias" (ln_nn self) with
    | Some g, Some b => xadd (xmul (at_ g si) v) (at_ b si)
    | _, _ => NaN
    end
  else v.

(** [MultiHeadAttentionCombinedQKV(d_in=1, d_out=2, num_heads=1,
    context_length=2, dropout=0.0)] with all weights 1. *)
Definition wide_qkv : MultiHead :=
  {| mh_nn := register_buffer "mask" (triu_ones 2)
                (Linear_params "proj" [2; 2] true ones_rng
                   (Linear_params "qkv" [6; 1] false ones_rng Module_init));
     mh_d_out := 2; mh_num_heads := 1; mh_head_dim := 2; mh_context_length := 2;
     mh_dropout := 0 |}.

(** ** [torch.nn.functional.scaled_dot_product_attention]
    The function follows the reference implementation its documentation
    gives: a bias of zeros, filled with [-inf] where the causal mask or the
    negation of a boolean [attn_mask] holds, is added to the scaled scores
    before the softmax.  A row whose scores are all [-inf] is [nan] in this
    implementation; the kernels of the library need not agree there, and
    the properties below leave such rows out. *)
(** [torch.zeros(s)] *)
Definition zeros (s : list nat) : tensor := {| shape := s; at_ _ := Fin 0 |}.

(** [torch.ones(L, S, dtype=torch.bool).tril(diagonal=0)] *)
Definition tril_true (L S : nat) : btensor :=
  {| bshape := [L; S];
     bat idx := match idx with
                | [i; j] => j <=? i
                | _ => false
                end |}.

(** [m.logical_not()] *)
Definition logical_not (m : btensor) : btensor :=
  {| bshape := bshape m; bat idx := negb (bat m idx) |}.

(** [t.size(d)] *)
Definition size (t : tensor) (d : Z) : option nat :=
  n ← norm_dim (length (shape t)) d;
  shape t !! n.

(** The dropout step of the attention,
    [torch.dropout(attn_weight, dropout_p, train=True)]: attention weights
    with no element pass as they are, whatever the probability; on any
    others a probability outside [[0, 1]] is refused. *)
Definition torch_dropout (p : R) (keep : index → bool) (t : tensor) : option tensor :=
  if numel (shape t) =? 0 then Some t
  else if Rlt_dec p 0 then None
  else if Rlt_dec 1 p then None
  else Some (dropout p true keep t).

(** [F.scaled_dot_product_attention(query, key, value, attn_mask,
    dropout_p, is_causal)]; the scale [1 / sqrt(d)] is a floating-point
    value, infinite for a head dimension 0. *)
Definition scaled_dot_product_attention (query key value : tensor)
    (attn_mask : option btensor) (dropout_p : R) (is_causal : bool)
    (keep : index → bool) : option tensor :=
  L ← size query (-2);
  S ← size key (-2);
  d ← size query (-1);
  let scale_factor := xdiv (Fin 1) (xsqrt (Fin (INR d))) in
  let attn_bias := zeros [L; S] in
  attn_bias ← (if is_causal then
                 match attn_mask with
                 | None => masked_fill attn_bias (logical_not (tril_true L S)) NInf
                 | Some _ => None
                 end
               else Some attn_bias);
  attn_bias ← match attn_mask with
              | Some m => masked_fill attn_bias (logical_not m) NInf
              | None => Some attn_bias
              end;
  keyT ← transpose (-2) (-1) key;
  scores ← matmul query keyT;
  attn_weight ← bop xadd (tmap (λ v, xmul v scale_factor) scores) attn_bias;
  attn_weight ← softmax attn_weight;
  attn_weight ← torch_dropout dropout_p keep attn_weight;
  matmul attn_weight value.

(** ** [4_batchnorm/batchnorm.ipynb]: the classes built on
    [scaled_dot_product_attention] *)
Definition MHAPyTorchScaledDotProduct_forward
    (self : MultiHead) (keep : index → bool) (x : tensor) : option tensor :=
  match shape x with
  | [batch_size; num_tokens; embed_dim] =>
      qkv ← Linear_forward "qkv" (mh_nn self) x;
      qkv ← view [Z.of_nat batch_size; Z.of_nat num_tokens; 3%Z;
                  mh_num_heads self; mh_head_dim self] qkv;
      qkv ← permute [2; 0; 3; 1; 4] qkv;
      queries ← select0 0 qkv;
      keys ← select0 1 qkv;
      values ← select0 2 qkv;
      let use_dropout := if training (mh_nn self) then mh_dropout self else 0%R in
      context_vec ← scaled_dot_product_attention queries keys values None
                      use_dropout true keep;
      context_vec ← transpose 1 2 context_vec;
      context_vec ← view [Z.of_nat batch_size; Z.of_nat num_tokens; mh_d_out self]
                      context_vec;
      Linear_forward "proj" (mh_nn self) context_vec
  | _ => None
  end.

(** The buffer [mask] holds the boolean mask as 0 and 1. *)
Definition MHAPyTorchSDPAWithoutFlash_forward
    (self : MultiHead) (keep : index → bool) (x : tensor) : option tensor :=
  match shape x with
  | [batch_size; num_tokens; embed_dim] =>
      qkv ← Linear_forward "qkv" (mh_nn self) x;
      qkv ← view [Z.of_nat batch_size; Z.of_nat num_tokens; 3%Z;
                  mh_num_heads self; mh_head_dim self] qkv;
      qkv ← permute [2; 0; 3; 1; 4] qkv;
      queries ← select0 0 qkv;
      keys ← select0 1 qkv;
      values ← select0 2 qkv;
      let use_dropout := if training (mh_nn self) then mh_dropout self else 0%R in
      mask ← getattr "mask" (mh_nn self);
      attn_mask ← (if (Z.of_nat num_tokens <=? mh_context_length self)%Z
                   then bslice2 (to_bool mask) num_tokens num_tokens
                   else bslice2 (to_bool mask) (Z.to_nat (mh_context_length self))
                          (Z.to_nat (mh_context_length self)));
      context_vec ← scaled_dot_product_attention queries keys values (Some attn_mask)
                      use_dropout false keep;
      context_vec ← transpose 1 2 context_vec;
      context_vec ← view [Z.of_nat batch_size; Z.of_nat num_tokens; mh_d_out self]
                      context_vec;
      Linear_forward "proj" (mh_nn self) context_vec
  | _ => None
  end.

(** The score of query [i] and key [j] that enters the softmax of
    [scaled_dot_product_attention]; [masked] tells whether the bias holds
    [-inf] there. *)
Definition sdpa_logit (hd : nat) (masked : bool) (q k : nat → xreal) : xreal :=
  xadd (xmul (bigsum hd (λ l, xmul (q l) (k l)))
             (xdiv (Fin 1) (xsqrt (Fin (INR hd)))))
       (if masked then NInf else Fin 0).

(** [MHAPyTorchScaledDotProduct(d_in=1, d_out=1, num_heads=1,
    context_length=1)] with all weights 1. *)
Definition sdp_ones : MultiHead :=
  {| mh_nn := Linear_params "proj" [1; 1] true ones_rng
                (Linear_params "qkv" [3; 1] false ones_rng Module_init);
     mh_d_out := 1; mh_num_heads := 1; mh_head_dim := 1; mh_context_length := 1;
     mh_dropout := 0 |}.

(** [MHAPyTorchSDPAWithoutFlash(d_in=1, d_out=1, num_heads=1,
    context_length=3)] with all weights 1. *)
Definition flash_ones : MultiHead :=
  {| mh_nn := register_buffer "mask" (triu_ones 3)
                (Linear_params "proj" [1; 1] true ones_rng
                   (Linear_params "qkv" [3; 1] false ones_rng Module_init));
     mh_d_out := 1; mh_num_heads := 1; mh_head_dim := 1; mh_context_length := 3;
     mh_dropout := 0 |}.

(** ** Strides
    A tensor the caller passes may be a view of some storage (a transpose,
    a slice): its elements are as above, its strides say where they lie.
    [view] above is the method on a tensor with the strides of a fresh one;
    on a tensor with other strides [t.view] raises unless they allow the new
    shape.  The test follows the stride computation of the tensor library
    for [view]: the old dimensions are read from the last one in chunks
    that lie evenly spaced in memory, and every chunk has to be filled by
    dimensions of the new shape; a tensor with no element passes. *)

(** The strides of a contiguous tensor of shape [s]. *)
Fixpoint contiguous_strides (s : list nat) : list nat :=
  match s with
  | [] => []
  | _ :: s' => foldr (λ d acc, (d `max` 1) * acc) 1 s' :: contiguous_strides s'
  end.

(** The dimensions of the new shape [vs] (last one first) a chunk of
    [tensor_numel] elements takes: dimensions are taken while the product
    [view_numel] of those taken is smaller, and so is every dimension of
    size 1 that follows. *)
Fixpoint take_view (vs : list nat) (view_numel tensor_numel : nat) : list nat * nat :=
  match vs with
  | v :: vs' =>
      if (view_numel <? tensor_numel) || (v =? 1)
      then take_view vs' (view_numel * v) tensor_numel
      else (vs, view_numel)
  | [] => ([], view_numel)
  end.

(** [old] holds the old dimensions with their strides, last one first;
    [base] is the stride of the last dimension of the current chunk and
    [tensor_numel] the number of elements of the chunk so far.  A chunk ends
    at the first dimension and before a dimension, other than one of size
    1, whose stride is not that of the chunk continued. *)
Fixpoint chunks (old : list (nat * nat)) (vs : list nat) (base tensor_numel : nat) : bool :=
  match old with
  | [] => bool_decide (vs = [])
  | (d, _) :: old' =>
      let tensor_numel := tensor_numel * d in
      match old' with
      | (d', st') :: _ =>
          if negb (d' =? 1) && negb (st' =? tensor_numel * base) then
            let '(vs', view_numel) := take_view vs 1 tensor_numel in
            (view_numel =? tensor_numel) && chunks old' vs' st' 1
          else chunks old' vs base tensor_numel
      | [] =>
          let '(vs', view_numel) := take_view vs 1 tensor_numel in
          (view_numel =? tensor_numel) && bool_decide (vs' = [])
      end
  end.

(** Whether a tensor of shape [oldshape] and strides [oldstride] can be
    viewed with the shape [newshape] of as many elements. *)
Definition viewable (oldshape oldstride newshape : list nat) : bool :=
  bool_decide (length oldstride = length oldshape)
  && match oldshape with
     | [] => true
     | _ => (numel oldshape =? 0)
            || chunks (reverse (zip oldshape oldstride)) (reverse newshape)
                 (List.last oldstride 0) 1
     end.

(** [t.view(sizes)] of a tensor with the strides [st]. *)
Definition view_strided (st : list nat) (sizes : list Z) (t : tensor) : option tensor :=
  s ← infer_size sizes (numel (shape t));
  if viewable (shape t) st s then Some {| shape := s; at_ := view_at t s |} else None.

(** [BatchNorm.forward] on a tensor with the strides [st]: the first
    [view] is the only one of [forward] on a tensor of the caller, the
    others are on tensors the call has computed and on the vectors of the
    module. *)
Definition BatchNorm_forward_strided (self : BatchNorm) (st : list nat) (x : tensor)
    : option (tensor * BatchNorm) :=
  let x_shape := shape x in
  batch_size ← x_shape !! 0;
  c ← x_shape !! 1;
  if decide (channels self = Z.of_nat c) then
    x ← view_strided st [Z.of_nat batch_size; channels self; (-1)%Z] x;
    '(mean, var, self') ← BatchNorm_stats self x;
    mean3 ← view [1; -1; 1]%Z mean;
    div3 ← view [1; -1; 1]%Z (norm_divisor var (bn_eps self));
    centered ← bop xsub x mean3;
    x_norm ← bop xdiv centered div3;
    x_norm ← (if affine self then
                scale ← getattr "scale" (bn_nn self);
                shift ← getattr "shift" (bn_nn self);
                scale3 ← view [1; -1; 1]%Z scale;
                shift3 ← view [1; -1; 1]%Z shift;
                scaled ← bop xmul scale3 x_norm;
                bop xadd scaled shift3
              else Some x_norm);
    out ← view (zs x_shape) x_norm;
    Some (out, self')
  else None.

(** The dimensions of [old] lie in memory as one chunk: each stride is
    the stride of the dimension after it times its size. *)
Fixpoint one_chunk (old : list (nat * nat)) (base tn : nat) : Prop :=
  match old with
  | (d, _) :: ((_, st') :: _) as old' => st' = tn * d * base ∧ one_chunk old' base (tn * d)
  | _ => True
  end.

(** [torch.zeros(2, 1, 4, 5).transpose(2, 3)]: shape [(2, 1, 5, 4)],
    strides [(20, 20, 1, 5)]. *)
Definition transposed_batch : tensor := {| shape := [2; 1; 5; 4]; at_ _ := Fin 0 |}.

(** ** [float32] tensors
    The elements of the tensors the code computes with are [torch.float32]
    numbers: IEEE 754 binary32, every operation rounded to nearest, ties to
    even.  The two normalization layers are written once more over these
    numbers, with the same index functions as above.  A Python [float] is a
    binary64 number; as an operand of a tensor operation it is rounded to
    binary32 first. *)
Module F32.

Definition prec : Z := 24.
Definition emax : Z := 128.

Definition of_Z (z : Z) : spec_float := binary_normalize prec emax z 0 false.
Definition add : spec_float → spec_float → spec_float := SFadd prec emax.
Definition sub : spec_float → spec_float → spec_float := SFsub prec emax.
Definition mul : spec_float → spec_float → spec_float := SFmul prec emax.
Definition div : spec_float → spec_float → spec_float := SFdiv prec emax.
Definition sqrt : spec_float → spec_float := SFsqrt prec emax.

(** Python's [float]: the quotient [p / q] of two integers, [1 - m], and
    the rounding of a [float] to binary32. *)
Definition py_float (p q : Z) : spec_float :=
  SFdiv 53 1024 (binary_normalize 53 1024 p 0 false) (binary_normalize 53 1024 q 0 false).
Definition one_minus (m : spec_float) : spec_float :=
  SFsub 53 1024 (binary_normalize 53 1024 1 0 false) m.
Definition of_float (x : spec_float) : spec_float :=
  match x with
  | S754_finite s m e => binary_round prec emax s m e
  | _ => x
  end.

Record tensor : Type := mkTensor {
  shape : list nat;
  at_ : index → spec_float
}.

Definition tmap (f : spec_float → spec_float) (t : tensor) : tensor :=
  {| shape := shape t; at_ idx := f (at_ t idx) |}.

(** [torch.ones(s)], [torch.zeros(s)] and the literal of a matrix of
    integers. *)
Definition full (s : list nat) (z : Z) : tensor := {| shape := s; at_ _ := of_Z z |}.
Definition tensor2 (l : list (list Z)) : tensor :=
  {| shape := [length l; length (hd [] l)];
     at_ idx := match idx with
                | [i; j] => of_Z (nth j (nth i l []) 0%Z)
                | _ => of_Z 0
                end |}.

(** [bigsum n f] adds [f 0], ..., [f (n-1)] in this order (the order in
    which the kernels of the library add is not specified). *)
Definition bigsum (n : nat) (f : nat → spec_float) : spec_float :=
  foldl (λ acc i, add acc (f i)) (of_Z 0) (seq 0 n).

(** [t.mean(dim=dims, keepdim=keepdim)]: the sum divided by the count. *)
Definition mean_at (flags : list bool) (keepdim : bool) (t : tensor) (idx : index)
    : spec_float :=
  let red_shape := pick flags (shape t) true in
  let count := numel red_shape in
  let kept := if keepdim then pick flags idx false else idx in
  div (bigsum count (λ off, at_ t (merge_ix flags kept (unflatten red_shape off))))
      (of_Z (Z.of_nat count)).

Definition mean_dims (dims : list Z) (keepdim : bool) (t : tensor) : option tensor :=
  let rank := length (shape t) in
  ds ← mapM (norm_dim rank) dims;
  if decide (NoDup ds) then
    let flags := (λ d, bool_decide (ds = [] ∨ d ∈ ds)) <$> seq 0 rank in
    Some {| shape := if keepdim
                     then zip_with (λ (f : bool) d, if f then 1 else d) flags (shape t)
                     else pick flags (shape t) false;
            at_ := mean_at flags keepdim t |}
  else None.

Definition bop_at (f : spec_float → spec_float → spec_float) (a b : tensor)
    (idx : index) : spec_float :=
  f (at_ a (bcast_ix (shape a) idx)) (at_ b (bcast_ix (shape b) idx)).

Definition bop (f : spec_float → spec_float → spec_float) (a b : tensor)
    : option tensor :=
  s ← bshape_rev (reverse (shape a)) (reverse (shape b));
  Some {| shape := reverse s; at_ := bop_at f a b |}.

(** [t ** 2] *)
Definition square (t : tensor) : tensor := tmap (λ v, mul v v) t.

(** [t.view(sizes)] of a contiguous tensor. *)
Definition view (sizes : list Z) (t : tensor) : option tensor :=
  s ← infer_size sizes (numel (shape t));
  Some {| shape := s; at_ idx := at_ t (unflatten (shape t) (flatten s idx)) |}.

(** [torch.sqrt(var + eps)] for a Python [float] [eps]. *)
Definition norm_divisor (var : tensor) (eps : spec_float) : tensor :=
  tmap sqrt (tmap (λ v, add v (of_float eps)) var).

(** [1_mha/mha_test.ipynb]: [LayerNorm]. *)
Record LayerNorm : Type := mkLayerNorm {
  normalized_shape : list Z;
  ln_eps : spec_float;
  elementwise_affine : bool;
  gain : tensor;
  bias : tensor
}.

Definition LayerNorm_init (normalized_shape : list Z) (eps : spec_float)
    (elementwise_affine : bool) : result LayerNorm :=
  do s <- check_sizes normalized_shape;
  inr {| normalized_shape := normalized_shape; ln_eps := eps;
         elementwise_affine := elementwise_affine;
         gain := full s 1; bias := full s 0 |}.

Definition LayerNorm_var (self : LayerNorm) (x : tensor) : option tensor :=
  let dims := last_dims (length (normalized_shape self)) in
  mean ← mean_dims dims true x;
  mean_x2 ← mean_dims dims true (square x);
  bop sub mean_x2 (square mean).

Definition LayerNorm_forward (self : LayerNorm) (x : tensor) : option tensor :=
  if decide (normalized_shape self
             = zs (neg_slice (length (normalized_shape self)) (shape x))) then
    let dims := last_dims (length (normalized_shape self)) in
    mean ← mean_dims dims true x;
    var ← LayerNorm_var self x;
    centered ← bop sub x mean;
    x_norm ← bop div centered (norm_divisor var (ln_eps self));
    if elementwise_affine self then
      scaled ← bop mul (gain self) x_norm;
      bop add scaled (bias self)
    else Some x_norm
  else None.

(** [4_batchnorm/batchnorm.ipynb]: [BatchNorm]; an attribute the
    constructor does not create is [None]. *)
Record BatchNorm : Type := mkBatchNorm {
  channels : Z;
  bn_eps : spec_float;
  momentum : spec_float;
  affine : bool;
  track_running_stats : bool;
  training : bool;
  scale : option tensor;
  shift : option tensor;
  exp_mean : option tensor;
  exp_var : option tensor
}.

Definition BatchNorm_init (channels : Z) (eps momentum : spec_float)
    (affine track_running_stats : bool) : result BatchNorm :=
  do scale_shift <- (if affine then
                       do s <- check_sizes [channels];
                       inr (Some (full s 1), Some (full s 0))
                     else inr (None, None));
  do stats <- (if track_running_stats then
                 do s <- check_sizes [channels];
                 inr (Some (full s 0), Some (full s 1))
               else inr (None, None));
  inr {| channels := channels; bn_eps := eps; momentum := momentum;
         affine := affine; track_running_stats := track_running_stats;
         training := true;
         scale := scale_shift.1; shift := scale_shift.2;
         exp_mean := stats.1; exp_var := stats.2 |}.

Definition with_stats (self : BatchNorm) (mean var : option tensor) : BatchNorm :=
  {| channels := channels self; bn_eps := bn_eps self; momentum := momentum self;
     affine := affine self; track_running_stats := track_running_stats self;
     training := training self; scale := scale self; shift := shift self;
     exp_mean := mean; exp_var := var |}.

(** [(1 - momentum) * old + momentum * new] *)
Definition moving_average (momentum : spec_float) (old new : tensor) : option tensor :=
  bop add (tmap (mul (of_float (one_minus momentum))) old)
          (tmap (mul (of_float momentum)) new).

Definition BatchNorm_stats (self : BatchNorm) (x : tensor)
    : option (tensor * tensor * BatchNorm) :=
  if training self || negb (track_running_stats self) then
    mean ← mean_dims [0%Z; 2%Z] false x;
    mean_x2 ← mean_dims [0%Z; 2%Z] false (square x);
    var ← bop sub mean_x2 (square mean);
    if training self && track_running_stats self then
      old_mean ← exp_mean self;
      new_mean ← moving_average (momentum self) old_mean mean;
      old_var ← exp_var self;
      new_var ← moving_average (momentum self) old_var var;
      Some (mean, var, with_stats self (Some new_mean) (Some new_var))
    else Some (mean, var, self)
  else
    mean ← exp_mean self;
    var ← exp_var self;
    Some (mean, var, self).

Definition BatchNorm_forward (self : BatchNorm) (x : tensor)
    : option (tensor * BatchNorm) :=
  let x_shape := shape x in
  batch_size ← x_shape !! 0;
  c ← x_shape !! 1;
  if decide (channels self = Z.of_nat c) then
    x ← view [Z.of_nat batch_size; channels self; (-1)%Z] x;
    '(mean, var, self') ← BatchNorm_stats self x;
    mean3 ← view [1; -1; 1]%Z mean;
    div3 ← view [1; -1; 1]%Z (norm_divisor var (bn_eps self));
    centered ← bop sub x mean3;
    x_norm ← bop div centered div3;
    x_norm ← (if affine self then
                scale ← scale self;
                shift ← shift self;
                scale3 ← view [1; -1; 1]%Z scale;
                shift3 ← view [1; -1; 1]%Z shift;
                scaled ← bop mul scale3 x_norm;
                bop add scaled shift3
              else Some x_norm);
    out ← view (zs x_shape) x_norm;
    Some (out, self')
  else None.

End F32.

(** [torch.tensor([[30001., 30001., 30001.]])], as a [float32] tensor and
    with exact elements, and the same row as a batch of one channel. *)
Definition row_30001 : F32.tensor := F32.tensor2 [[30001; 30001; 30001]]%Z.
Definition batch_30001 : F32.tensor :=
  {| F32.shape := [1; 1; 3]; F32.at_ _ := F32.of_Z 30001 |}.
Definition exact_row_30001 : tensor := tensor2 [[30001; 30001; 30001]]%R.

(** [LayerNorm(3)] and [BatchNorm(1)] with the default arguments
    ([eps = 1e-5], [momentum = 0.1]). *)
Definition layer_norm_f32 : F32.LayerNorm :=
  {| F32.normalized_shape := [3%Z]; F32.ln_eps := F32.py_float 1 100000;
     F32.elementwise_affine := true;
     F32.gain := F32.full [3] 1; F32.bias := F32.full [3] 0 |}.
Definition batch_norm_f32 : F32.BatchNorm :=
  {| F32.channels := 1; F32.bn_eps := F32.py_float 1 100000;
     F32.momentum := F32.py_float 1 10;
     F32.affine := true; F32.track_running_stats := true; F32.training := true;
     F32.scale := Some (F32.full [1] 1); F32.shift := Some (F32.full [1] 0);
     F32.exp_mean := Some (F32.full [1] 0); F32.exp_var := Some (F32.full [1] 1) |}.

(** The score of query [i] and key [j] that enters the softmax of a
    single-head class: the dot product, [-inf] for a later key, divided by
    [s]. *)
Definition causal_logit (s : R) (d : nat) (q k : nat → xreal) (i j : nat) : xreal :=
  xdiv (if i <? j then NInf else bigsum d (λ l, xmul (q l) (k l))) (Fin s).

(** [MHA_Wrapper(d_in=1, d_out=1, context_length=2, dropout=0.0,
    num_heads=2, qkv_bias=True)] with all weights 1. *)
Definition two_heads : MHA_Wrapper :=
  {| heads := [buffered_two; buffered_two];
     wr_nn := Linear_params "out_proj" [2; 2] true ones_rng Module_init |}.

(** * Properties *)

(** ** Extended reals *)

Lemma is_fin_eq (x : xreal) : is_fin x → x = Fin (real_of x).
Proof. by destruct x. Qed.

Lemma Rsign_pos (r : R) : (0 < r)%R → Rsign r = Gt.
Proof. intros H. unfold Rsign. destruct (Rlt_dec 0 r); [done | lra]. Qed.

Lemma Rsign_neg (r : R) : (r < 0)%R → Rsign r = Lt.
Proof.
  intros H. unfold Rsign.
  destruct (Rlt_dec 0 r); [lra |]. destruct (Rlt_dec r 0); [done | lra].
Qed.

Lemma Rsign_zero : Rsign 0 = Eq.
Proof.
  unfold Rsign. destruct (Rlt_dec 0 0); [lra |]. destruct (Rlt_dec 0 0); [lra | done].
Qed.

Lemma xadd_0_r (x : xreal) : xadd x (Fin 0) = x.
Proof. destruct x; simpl; try done. f_equal. lra. Qed.

Lemma xadd_0_l (x : xreal) : xadd (Fin 0) x = x.
Proof. destruct x; simpl; try done. f_equal. lra. Qed.

Lemma xmul_0_l (x : xreal) : is_fin x → xmul (Fin 0) x = Fin 0.
Proof. destruct x; simpl; try done. intros _. f_equal. lra. Qed.

Lemma xdiv_fin (x y : R) : y ≠ 0%R → xdiv (Fin x) (Fin y) = Fin (x / y).
Proof. intros H. simpl. by destruct (Req_dec_T y 0). Qed.

Lemma xdiv_ninf_pos (y : R) : (0 <= y)%R → xdiv NInf (Fin y) = NInf.
Proof. intros H. simpl. destruct (Rlt_dec y 0); [lra | done]. Qed.

Lemma xsqrt_fin (x : R) : (0 <= x)%R → xsqrt (Fin x) = Fin (sqrt x).
Proof. intros H. simpl. destruct (Rlt_dec x 0); [lra | done]. Qed.

Lemma is_fin_xadd (x y : xreal) : is_fin x → is_fin y → is_fin (xadd x y).
Proof. by destruct x, y. Qed.

Lemma is_fin_xmul (x y : xreal) : is_fin x → is_fin y → is_fin (xmul x y).
Proof. by destruct x, y. Qed.

(** ** Sums *)

Lemma xsum_cons (x : xreal) (l : list xreal) : xsum (x :: l) = xadd x (xsum l).
Proof. done. Qed.

Lemma xsum_zeros (l : list xreal) : Forall (λ x, x = Fin 0) l → xsum l = Fin 0.
Proof.
  induction 1 as [| x l -> _ IH]; [done |].
  rewrite xsum_cons, IH. cbn. f_equal. lra.
Qed.

Lemma xsum_app_zeros (l1 l2 : list xreal) :
  Forall (λ x, x = Fin 0) l2 → xsum (l1 ++ l2) = xsum l1.
Proof.
  intros H. induction l1 as [| x l1 IH].
  - by apply xsum_zeros.
  - rewrite <- app_comm_cons, !xsum_cons. by rewrite IH.
Qed.

Lemma bigsum_0 (f : nat → xreal) : bigsum 0 f = Fin 0.
Proof. done. Qed.

Lemma bigsum_ext (n : nat) (f g : nat → xreal) :
  (∀ j, j < n → f j = g j) → bigsum n f = bigsum n g.
Proof.
  intros H. unfold bigsum. f_equal. apply list_fmap_ext.
  intros i x Hx. apply H. apply lookup_seq in Hx. lia.
Qed.

(** A sum whose terms vanish from [i] on is the sum of its first [i]
    terms. *)
Lemma bigsum_trunc (i n : nat) (f : nat → xreal) :
  i ≤ n → (∀ j, i ≤ j < n → f j = Fin 0) → bigsum n f = bigsum i f.
Proof.
  intros Hi H. unfold bigsum.
  replace n with (i + (n - i)) by lia.
  rewrite seq_app, fmap_app. apply xsum_app_zeros.
  apply Forall_fmap, Forall_forall. intros j Hj.
  apply elem_of_seq in Hj. simpl. apply H. lia.
Qed.

Lemma is_fin_xsum (l : list xreal) : Forall is_fin l → is_fin (xsum l).
Proof.
  induction 1 as [| x l Hx _ IH]; [done |].
  rewrite xsum_cons. by apply is_fin_xadd.
Qed.

Lemma is_fin_bigsum (n : nat) (f : nat → xreal) :
  (∀ j, j < n → is_fin (f j)) → is_fin (bigsum n f).
Proof.
  intros H. apply is_fin_xsum, Forall_fmap, Forall_forall.
  intros j Hj. apply elem_of_seq in Hj. simpl. apply H. lia.
Qed.

(** A nonempty sum of positive finite terms is positive and finite. *)
Lemma xsum_pos (l : list xreal) :
  l ≠ [] → Forall (λ x, ∃ r, x = Fin r ∧ (0 < r)%R) l →
  ∃ d, xsum l = Fin d ∧ (0 < d)%R.
Proof.
  intros Hne H. induction H as [| x l (r & -> & Hr) Hl IH]; [done |].
  destruct l as [| y l].
  - exists r. cbn. split; [f_equal; lra | done].
  - destruct IH as (d & Hd & Hpos); [done |].
    exists (r + d)%R. rewrite xsum_cons, Hd. cbn. split; [done | lra].
Qed.

Lemma bigsum_pos (n : nat) (f : nat → xreal) :
  0 < n → (∀ j, j < n → ∃ r, f j = Fin r ∧ (0 < r)%R) →
  ∃ d, bigsum n f = Fin d ∧ (0 < d)%R.
Proof.
  intros Hn H. apply xsum_pos.
  - destruct n; [lia | done].
  - apply Forall_fmap, Forall_forall. intros j Hj.
    apply elem_of_seq in Hj. simpl. apply H. lia.
Qed.

#[global] Arguments linear_at : simpl never.
#[global] Arguments matmul_at : simpl never.
#[global] Arguments masked_fill_at : simpl never.
#[global] Arguments softmax_at : simpl never.
#[global] Arguments view_at : simpl never.
#[global] Arguments mean_at : simpl never.
#[global] Arguments bop_at : simpl never.
#[global] Arguments norm_dim : simpl never.
#[global] Arguments transpose : simpl never.
#[global] Arguments permute : simpl never.
#[global] Arguments select0 : simpl never.
#[global] Arguments matmul : simpl never.
#[global] Arguments masked_fill : simpl never.
#[global] Arguments softmax : simpl never.
#[global] Arguments view : simpl never.
#[global] Arguments bslice2 : simpl never.
#[global] Arguments py_pow : simpl never.
#[global] Arguments dropout : simpl never.
#[global] Arguments div_scalar : simpl never.
#[global] Arguments to_bool : simpl never.

Ltac eval_norm_dim :=
  repeat match goal with
         | |- context [norm_dim ?r ?d] =>
             let v := eval vm_compute in (norm_dim r d) in
             change (norm_dim r d) with v
         end.

(** ** Attention rows *)

Lemma attention_elem_trunc (n i : nat) (logit v : nat → xreal) :
  i < n →
  (∀ j, j ≤ i → is_fin (logit j)) →
  (∀ j, i < j < n → logit j = NInf) →
  (∀ j, j < n → is_fin (v j)) →
  attention_elem n logit v = attention_elem (S i) logit v.
Proof.
  intros Hi Hfin Hmask Hv. unfold attention_elem.
  assert (HD : bigsum n (λ j', xexp (logit j')) = bigsum (S i) (λ j', xexp (logit j'))).
  { apply bigsum_trunc; [lia |]. intros j Hj. rewrite Hmask by lia. done. }
  rewrite HD.
  destruct (bigsum_pos (S i) (λ j', xexp (logit j'))) as (d & Hd & Hpos); [lia | |].
  { intros j Hj. specialize (Hfin j ltac:(lia)).
    apply is_fin_eq in Hfin. rewrite Hfin. eexists. split; [done |]. apply exp_pos. }
  rewrite Hd.
  apply bigsum_trunc; [lia |]. intros j Hj.
  rewrite Hmask by lia. cbn [xexp].
  rewrite xdiv_fin by lra.
  replace (0 / d)%R with 0%R by (field; lra).
  apply xmul_0_l, Hv. lia.
Qed.

Lemma attention_elem_ext (n : nat) (logit logit' v v' : nat → xreal) :
  (∀ j, j < n → logit j = logit' j) → (∀ j, j < n → v j = v' j) →
  attention_elem n logit v = attention_elem n logit' v'.
Proof.
  intros Hl Hv. unfold attention_elem.
  rewrite (bigsum_ext n (λ j', xexp (logit j')) (λ j', xexp (logit' j')))
    by (intros j Hj; by rewrite Hl).
  apply bigsum_ext. intros j Hj. by rewrite Hl, Hv.
Qed.

Section masked_logit.
Context (mask : tensor) (c : nat) (s : R) (d : nat).
Hypothesis (Hs : (0 < s)%R).
Hypothesis (Hmask : ∀ i j, i < c → j < c → bat (to_bool mask) [i; j] = (i <? j)).

Lemma masked_logit_ix m i j (q k : nat → xreal) :
  i < m → j < m →
  masked_logit mask m s d q k i j
  = xdiv (if bat (to_bool mask) [i; j] then NInf
          else bigsum d (λ l, xmul (q l) (k l))) (Fin s).
Proof.
  intros Hi Hj. unfold masked_logit. destruct (m =? 1) eqn:E; [| done].
  apply Nat.eqb_eq in E. by replace i with 0 by lia; replace j with 0 by lia.
Qed.

Lemma masked_logit_fin m i j (q k : nat → xreal) :
  m ≤ c → j ≤ i → i < m →
  (∀ l, is_fin (q l)) → (∀ l, is_fin (k l)) →
  is_fin (masked_logit mask m s d q k i j).
Proof.
  intros Hm Hj Hi Hq Hk. rewrite masked_logit_ix, Hmask by lia.
  replace (i <? j) with false by (symmetry; apply Nat.ltb_ge; lia).
  match goal with |- is_fin (xdiv ?a _) => assert (is_fin a) as Ha end.
  { apply is_fin_bigsum. intros l _. by apply is_fin_xmul. }
  apply is_fin_eq in Ha. rewrite Ha, xdiv_fin by lra. done.
Qed.

Lemma masked_logit_masked m i j (q k : nat → xreal) :
  m ≤ c → i < j < m → masked_logit mask m s d q k i j = NInf.
Proof.
  intros Hm Hj. rewrite masked_logit_ix, Hmask by lia.
  replace (i <? j) with true by (symmetry; apply Nat.ltb_lt; lia).
  apply xdiv_ninf_pos. lra.
Qed.

Lemma masked_logit_ext m m' i j (q q' k k' : nat → xreal) :
  i < m → j < m → i < m' → j < m' →
  (∀ l, l < d → q l = q' l) → (∀ l, l < d → k l = k' l) →
  masked_logit mask m s d q k i j = masked_logit mask m' s d q' k' i j.
Proof.
  intros Hi Hj Hi' Hj' Hq Hk. rewrite !masked_logit_ix by lia. f_equal.
  destruct (bat (to_bool mask) [i; j]); [done |].
  apply bigsum_ext. intros l Hl. by rewrite Hq, Hk.
Qed.
End masked_logit.

(** ** [nn.Linear] *)

Lemma Linear_forward_3d name m x W b n d_in d_out :
  params m !! (name +:+ ".weight") = Some W → shape W = [d_out; d_in] →
  shape x = [b; n; d_in] →
  Linear_forward name m x =
    Some {| shape := [b; n; d_out];
            at_ := linear_at W (params m !! (name +:+ ".bias")) x d_in |}.
Proof.
  intros HW SW Sx. unfold Linear_forward. rewrite HW. cbn.
  unfold linear. rewrite SW, Sx. cbn. by rewrite decide_True.
Qed.

Lemma linear_at_fin W bias x d idx :
  finite x → finite W → (∀ b, bias = Some b → finite b) →
  is_fin (linear_at W bias x d idx).
Proof.
  intros Hx HW Hb. unfold linear_at.
  assert (is_fin (bigsum d (λ k, xmul (at_ x (init_ix idx ++ [k]))
                                  (at_ W [last_ix idx; k])))) as Hs.
  { apply is_fin_bigsum. intros j _. apply is_fin_xmul; [apply Hx | apply HW]. }
  destruct bias as [b |]; [| done].
  apply is_fin_xadd; [done |]. by apply (Hb b).
Qed.

Lemma linear_at_ext W bias x x' d bi i l :
  same_token d bi i x x' →
  linear_at W bias x d [bi; i; l] = linear_at W bias x' d [bi; i; l].
Proof.
  intros H. unfold linear_at. cbn.
  rewrite (bigsum_ext d _ (λ k, xmul (at_ x' [bi; i; k]) (at_ W [l; k]))); [done |].
  intros k Hk. cbn. by rewrite H.
Qed.

Lemma dropout_0 training keep t : dropout 0 training keep t = t.
Proof. unfold dropout. destruct training; [| done]. by destruct (Req_dec_T 0 0). Qed.

Lemma py_pow_pos d e : 0 < d → ∃ s, py_pow d e = Some s ∧ (0 < s)%R.
Proof.
  intros Hd. destruct d; [lia |]. eexists. split; [done |].
  unfold Rpower. apply exp_pos.
Qed.

Lemma py_pow_0_half : py_pow 0 (/ 2) = Some 0%R.
Proof.
  unfold py_pow. destruct (Rlt_dec (/ 2) 0); [lra |].
  by destruct (Req_dec_T (/ 2) 0); [lra |].
Qed.

(** ** The single-head classes *)

Lemma CausalAttention_forward_elem self keep x b n d_in d_out c Wq Wk Wv mask s :
  params (ca_nn self) !! "W_query.weight" = Some Wq →
  params (ca_nn self) !! "W_key.weight" = Some Wk →
  params (ca_nn self) !! "W_value.weight" = Some Wv →
  shape Wq = [d_out; d_in] → shape Wk = [d_out; d_in] → shape Wv = [d_out; d_in] →
  getattr "mask" (ca_nn self) = Some mask → shape mask = [c; c] →
  shape x = [b; n; d_in] → n ≤ c ∨ c = 1 → ca_dropout self = 0%R →
  py_pow d_out (/ 2) = Some s →
  ∃ y, CausalAttentionWithBuffer_forward self keep x = Some y
       ∧ shape y = [b; n; d_out]
       ∧ ∀ bi i k, at_ y [bi; i; k] =
           attention_elem n
             (λ j, masked_logit mask (n `min` c) s d_out
                (λ l, linear_at Wq (params (ca_nn self) !! "W_query.bias") x d_in [bi; i; l])
                (λ l, linear_at Wk (params (ca_nn self) !! "W_key.bias") x d_in [bi; j; l])
                i j)
             (λ j, linear_at Wv (params (ca_nn self) !! "W_value.bias") x d_in [bi; j; k]).
Proof.
  intros Hq Hk Hv Sq Sk Sv Hm Sm Sx Hn Hp Hs.
  unfold CausalAttentionWithBuffer_forward.
  rewrite Sx.
  rewrite (Linear_forward_3d "W_key" _ _ _ _ _ _ _ Hk Sk Sx).
  rewrite (Linear_forward_3d "W_query" _ _ _ _ _ _ _ Hq Sq Sx).
  rewrite (Linear_forward_3d "W_value" _ _ _ _ _ _ _ Hv Sv Sx).
  cbn [mbind option_bind].
  unfold transpose. cbn [shape length]. eval_norm_dim. cbn.
  unfold matmul. cbn. rewrite decide_True by done. cbn.
  rewrite Hm. cbn. unfold bslice2, to_bool. cbn. rewrite Sm. cbn.
  unfold masked_fill. cbn.
  assert (Hb : ((n `min` c =? n) || (n `min` c =? 1)) = true).
  { apply orb_true_iff. destruct Hn as [Hn | ->].
    - left. apply Nat.eqb_eq. lia.
    - destruct n; [left | right]; apply Nat.eqb_eq; lia. }
  rewrite Hb. cbn. rewrite Hs. cbn. unfold softmax, div_scalar. cbn.
  rewrite Hp, dropout_0. unfold matmul. cbn.
  rewrite decide_True by done. cbn.
  eexists. split; [done |]. split; [done |].
  intros bi i k. reflexivity.
Qed.

Lemma CausalAttention_causal self keep keep' x x' b n n' d_in d_out c bi i :
  ca_ok self d_in d_out c → ca_dropout self = 0%R →
  shape x = [b; n; d_in] → shape x' = [b; n'; d_in] →
  finite x → finite x' → n ≤ c → n' ≤ c → i < n → i < n' →
  (∀ t, t ≤ i → same_token d_in bi t x x') →
  ∃ y y', CausalAttentionWithBuffer_forward self keep x = Some y
          ∧ CausalAttentionWithBuffer_forward self keep' x' = Some y'
          ∧ shape y = [b; n; d_out] ∧ shape y' = [b; n'; d_out]
          ∧ ∀ k, k < d_out → at_ y [bi; i; k] = at_ y' [bi; i; k].
Proof.
  intros (((Wq & Hq & Sq & Fq) & Fbq) & ((Wk & Hk & Sk & Fk) & Fbk)
          & ((Wv & Hv & Sv & Fv) & Fbv) & (mask & Hm & Sm & Hmask))
         Hp Sx Sx' Fx Fx' Hn Hn' Hi Hi' Hagree.
  destruct (decide (d_out = 0)) as [-> | Hd].
  { destruct (CausalAttention_forward_elem self keep x b n d_in 0 c Wq Wk Wv mask 0)
      as (y & Hy & Sy & _); auto using py_pow_0_half.
    destruct (CausalAttention_forward_elem self keep' x' b n' d_in 0 c Wq Wk Wv mask 0)
      as (y' & Hy' & Sy' & _); auto using py_pow_0_half.
    exists y, y'. repeat split; auto. lia. }
  destruct (py_pow_pos d_out (/ 2)) as (s & Hs & Hpos); [lia |].
  destruct (CausalAttention_forward_elem self keep x b n d_in d_out c Wq Wk Wv mask s)
    as (y & Hy & Sy & Ey); auto.
  destruct (CausalAttention_forward_elem self keep' x' b n' d_in d_out c Wq Wk Wv mask s)
    as (y' & Hy' & Sy' & Ey'); auto.
  exists y, y'. repeat split; auto.
  intros k Hlt. rewrite Ey, Ey'.
  rewrite (attention_elem_trunc n i), (attention_elem_trunc n' i); try done.
  - apply attention_elem_ext.
    + intros j Hj. apply masked_logit_ext; try lia.
      * intros l _. apply linear_at_ext, Hagree. lia.
      * intros l _. apply linear_at_ext, Hagree. lia.
    + intros j Hj. apply linear_at_ext, Hagree. lia.
  - intros j Hj. eapply masked_logit_fin; eauto; try lia; intros l; by apply linear_at_fin.
  - intros j Hj. eapply masked_logit_masked; eauto; lia.
  - intros j Hj. by apply linear_at_fin.
  - intros j Hj. eapply masked_logit_fin; eauto; try lia; intros l; by apply linear_at_fin.
  - intros j Hj. eapply masked_logit_masked; eauto; lia.
  - intros j Hj. by apply linear_at_fin.
Qed.

(** ** [view] *)

Lemma numel_cons d s : numel (d :: s) = d * numel s.
Proof. done. Qed.

Lemma numel_zs s : foldr Z.mul 1%Z (zs s) = Z.of_nat (numel s).
Proof.
  induction s as [| d s IH]; [done |].
  change (foldr Z.mul 1%Z (zs (d :: s))) with (Z.of_nat d * foldr Z.mul 1%Z (zs s))%Z.
  rewrite numel_cons, IH. lia.
Qed.

Lemma filter_zs s : filter (λ z, z ≠ (-1)%Z) (zs s) = zs s.
Proof.
  induction s as [| d s IH]; [done |].
  change (zs (d :: s)) with (Z.of_nat d :: zs s).
  rewrite filter_cons_True by lia. by rewrite IH.
Qed.

Lemma infer_size_zs s n : numel s = n → infer_size (zs s) n = Some s.
Proof.
  intros <-. unfold infer_size. rewrite filter_zs, numel_zs.
  rewrite decide_True.
  - rewrite Nat.sub_diag, decide_True by done. f_equal.
    unfold zs. rewrite <- list_fmap_compose.
    rewrite <- (list_fmap_id s) at 2. apply list_fmap_ext. intros i x _. cbn. lia.
  - apply Forall_fmap, Forall_forall. intros x _. cbn. lia.
Qed.

Lemma view_zs s t :
  numel s = numel (shape t) →
  view (zs s) t = Some {| shape := s; at_ := view_at t s |}.
Proof. intros H. unfold view. by rewrite infer_size_zs. Qed.

(** Regrouping the dimensions after the first two keeps the first two
    components of an index. *)
Lemma unflatten_flatten_prefix2 b n s1 s2 bi j idx2 :
  numel s1 = numel s2 → j < n → flatten s2 idx2 < numel s2 →
  unflatten (b :: n :: s1) (flatten (b :: n :: s2) (bi :: j :: idx2))
  = bi :: j :: unflatten s1 (flatten s2 idx2).
Proof.
  intros Hs Hj Hr.
  set (m := numel s2) in *. set (r := flatten s2 idx2) in *.
  assert (Hoff : flatten (b :: n :: s2) (bi :: j :: idx2) = bi * (n * m) + (j * m + r))
    by done.
  rewrite Hoff.
  assert (Hlt : j * m + r < n * m) by nia.
  change (unflatten (b :: n :: s1) ?off)
    with (off / numel (n :: s1)
          :: (off mod numel (n :: s1)) / numel s1
          :: unflatten s1 ((off mod numel (n :: s1)) mod numel s1)).
  rewrite numel_cons, Hs. fold m.
  assert (H1 : (bi * (n * m) + (j * m + r)) / (n * m) = bi).
  { symmetry. apply (Nat.div_unique _ _ _ (j * m + r)); lia. }
  assert (H2 : (bi * (n * m) + (j * m + r)) mod (n * m) = j * m + r).
  { symmetry. apply (Nat.mod_unique _ _ bi); lia. }
  rewrite H1, H2.
  assert (H3 : (j * m + r) / m = j).
  { symmetry. apply (Nat.div_unique _ _ _ r); lia. }
  assert (H4 : (j * m + r) mod m = r).
  { symmetry. apply (Nat.mod_unique _ _ j); lia. }
  by rewrite H3, H4.
Qed.

(** ** [MultiHeadAttentionCombinedQKV] *)

Lemma view_qkv_at f b n m H hd bi j t h l :
  m = 3 * (H * hd) → j < n → t < 3 → h < H → l < hd →
  view_at {| shape := [b; n; m]; at_ := f |} [b; n; 3; H; hd] [bi; j; t; h; l]
  = f [bi; j; qkv_col H hd t h l].
Proof.
  intros -> Hj Ht Hh Hl. unfold view_at. cbn [shape].
  rewrite unflatten_flatten_prefix2; [| cbn; lia | done | cbn; nia].
  change (unflatten [3 * (H * hd)] ?o) with [o / 1].
  change (flatten [3; H; hd] [t; h; l])
    with (t * (H * (hd * 1)) + (h * (hd * 1) + (l * 1 + 0))).
  rewrite Nat.div_1_r. unfold qkv_col. do 4 f_equal. ring.
Qed.

Lemma view_merge_at f b n H hd bi i k :
  i < n → k < H * hd →
  view_at {| shape := [b; n; H; hd]; at_ := f |} [b; n; H * hd] [bi; i; k]
  = f [bi; i; k / hd; k mod hd].
Proof.
  intros Hi Hk. unfold view_at. cbn [shape].
  rewrite unflatten_flatten_prefix2; [| cbn; lia | done | cbn; lia].
  f_equal. f_equal. f_equal.
  change (flatten [H * hd] [k]) with (k * 1 + 0).
  change (unflatten [H; hd] ?o) with [o / (hd * 1); (o mod (hd * 1)) / 1].
  by rewrite Nat.mul_1_r, Nat.add_0_r, Nat.mul_1_r, Nat.div_1_r.
Qed.

Lemma CombinedQKV_forward_elem self keep x b n d_out H hd c W Wp mask s :
  params (mh_nn self) !! "qkv.weight" = Some W → shape W = [3 * d_out; d_out] →
  params (mh_nn self) !! "proj.weight" = Some Wp → shape Wp = [d_out; d_out] →
  getattr "mask" (mh_nn self) = Some mask → shape mask = [c; c] →
  mh_num_heads self = Z.of_nat H → mh_head_dim self = Z.of_nat hd → d_out = H * hd →
  shape x = [b; n; d_out] → n ≤ c → mh_dropout self = 0%R →
  py_pow hd (- / 2) = Some s →
  ∃ y ctx, MultiHeadAttentionCombinedQKV_forward self keep x = Some y
    ∧ shape y = [b; n; d_out]
    ∧ (∀ bi i o, at_ y [bi; i; o]
                 = linear_at Wp (params (mh_nn self) !! "proj.bias") ctx d_out [bi; i; o])
    ∧ ∀ bi i k, i < n → k < d_out →
        at_ ctx [bi; i; k] =
          let qkv := linear_at W (params (mh_nn self) !! "qkv.bias") x d_out in
          attention_elem n
            (λ j, masked_logit mask n s hd
                    (λ l, qkv [bi; i; qkv_col H hd 0 (k / hd) l])
                    (λ l, qkv [bi; j; qkv_col H hd 1 (k / hd) l]) i j)
            (λ j, qkv [bi; j; qkv_col H hd 2 (k / hd) (k mod hd)]).
Proof.
  intros HW SW HWp SWp Hm Sm HH Hhd Hd Sx Hn Hp Hs.
  unfold MultiHeadAttentionCombinedQKV_forward.
  rewrite Sx.
  rewrite (Linear_forward_3d "qkv" _ _ _ _ _ _ _ HW SW Sx).
  cbn [mbind option_bind]. rewrite HH, Hhd.
  change [Z.of_nat b; Z.of_nat n; 3%Z; Z.of_nat H; Z.of_nat hd] with (zs [b; n; 3; H; hd]).
  rewrite view_zs by (cbn; subst d_out; ring).
  cbn [mbind option_bind].
  unfold permute. cbn. unfold select0. cbn.
  unfold transpose. cbn [shape length]. eval_norm_dim. cbn.
  unfold matmul. cbn. rewrite decide_True by done. cbn.
  rewrite Hm. cbn. unfold bslice2, to_bool. cbn. rewrite Sm. cbn.
  unfold masked_fill. cbn.
  replace (n `min` c) with n by lia. rewrite Nat.eqb_refl. cbn.
  rewrite Hs. cbn. unfold softmax, div_scalar. cbn.
  rewrite Hp, dropout_0. unfold matmul. cbn.
  rewrite decide_True by done. cbn.
  unfold transpose. cbn [shape length]. eval_norm_dim. cbn.
  change [Z.of_nat b; Z.of_nat n; Z.of_nat d_out] with (zs [b; n; d_out]).
  rewrite view_zs by (cbn; subst d_out; ring).
  cbn [mbind option_bind].
  erewrite (Linear_forward_3d "proj" _ _ _ _ _ _ _ HWp SWp) by done.
  cbn [mbind option_bind].
  eexists. eexists. split; [done |]. split; [done |]. split; [done |].
  intros bi i k Hi Hk. subst d_out.
  cbn [at_]. rewrite view_merge_at by done.
  assert (Hh : k / hd < H) by (apply Nat.Div0.div_lt_upper_bound; lia).
  assert (Hl : k mod hd < hd) by (apply Nat.mod_upper_bound; lia).
  cbn. unfold matmul_at, attention_elem. cbn.
  assert (HT : ∀ j, j < n →
    xdiv (masked_fill_at
            {| shape := [b; H; n; n];
               at_ := matmul_at
                 {| shape := [b; H; n; hd];
                    at_ := λ idx, view_at
                      {| shape := [b; n; H * hd + (H * hd + (H * hd + 0))];
                         at_ := linear_at W (params (mh_nn self) !! ("qkv" +:+ ".bias"))
                                  x (H * hd) |}
                      [b; n; 3; H; hd] [idx !!! 0; idx !!! 2; 0; idx !!! 1; idx !!! 3] |}
                 {| shape := [b; H; hd; n];
                    at_ := λ idx, view_at
                      {| shape := [b; n; H * hd + (H * hd + (H * hd + 0))];
                         at_ := linear_at W (params (mh_nn self) !! ("qkv" +:+ ".bias"))
                                  x (H * hd) |}
                      [b; n; 3; H; hd]
                      [swap_ix 2 3 idx !!! 0; swap_ix 2 3 idx !!! 2; 1;
                       swap_ix 2 3 idx !!! 1; swap_ix 2 3 idx !!! 3] |} hd |}
            {| bshape := [n; n];
               bat := λ idx, match at_ mask idx with
                             | Fin r => if Req_dec_T r 0 then false else true
                             | _ => true
                             end |} NInf [bi; k / hd; i; j]) (Fin s)
    = masked_logit mask n s hd
        (λ l, linear_at W (params (mh_nn self) !! "qkv.bias") x (H * hd)
                [bi; i; qkv_col H hd 0 (k / hd) l])
        (λ l, linear_at W (params (mh_nn self) !! "qkv.bias") x (H * hd)
                [bi; j; qkv_col H hd 1 (k / hd) l]) i j).
  { intros j Hj. unfold masked_logit, masked_fill_at, to_bool. cbn.
    f_equal. destruct (match at_ mask _ with Fin _ => _ | _ => _ end); [done |].
    unfold matmul_at. cbn. apply bigsum_ext. intros l Hlt. cbn.
    rewrite !view_qkv_at by (done || lia). done. }
  apply bigsum_ext. intros j Hj. cbn. unfold softmax_at. cbn.
  f_equal; [f_equal |].
  - f_equal. by apply HT.
  - apply bigsum_ext. intros j' Hj'. cbn. f_equal. by apply HT.
  - by rewrite view_qkv_at by (done || lia).
Qed.

Lemma CombinedQKV_causal self keep keep' x x' b n n' d_out H hd c bi i :
  qkv_ok self d_out H hd c → mh_dropout self = 0%R → 0 < hd →
  shape x = [b; n; d_out] → shape x' = [b; n'; d_out] →
  finite x → finite x' → n ≤ c → n' ≤ c → i < n → i < n' →
  (∀ t, t ≤ i → same_token d_out bi t x x') →
  ∃ y y', MultiHeadAttentionCombinedQKV_forward self keep x = Some y
          ∧ MultiHeadAttentionCombinedQKV_forward self keep' x' = Some y'
          ∧ shape y = [b; n; d_out] ∧ shape y' = [b; n'; d_out]
          ∧ ∀ o, o < d_out → at_ y [bi; i; o] = at_ y' [bi; i; o].
Proof.
  intros (((W & HW & SW & FW) & FbW) & ((Wp & HWp & SWp & FWp) & Fbp)
          & (mask & Hm & Sm & Hmask) & HH & Hhd & Hd)
         Hp Hpos Sx Sx' Fx Fx' Hn Hn' Hi Hi' Hagree.
  destruct (py_pow_pos hd (- / 2)) as (s & Hs & Hspos); [done |].
  destruct (CombinedQKV_forward_elem self keep x b n d_out H hd c W Wp mask s)
    as (y & ctx & Hy & Sy & Ey & Ec); auto.
  destruct (CombinedQKV_forward_elem self keep' x' b n' d_out H hd c W Wp mask s)
    as (y' & ctx' & Hy' & Sy' & Ey' & Ec'); auto.
  exists y, y'. repeat split; auto.
  intros o _. rewrite Ey, Ey'. apply linear_at_ext.
  intros k Hk. rewrite Ec, Ec' by done. cbn zeta.
  rewrite (attention_elem_trunc n i), (attention_elem_trunc n' i); try done.
  - apply attention_elem_ext.
    + intros j Hj. apply masked_logit_ext; try lia.
      * intros l _. apply linear_at_ext, Hagree. lia.
      * intros l _. apply linear_at_ext, Hagree. lia.
    + intros j Hj. apply linear_at_ext, Hagree. lia.
  - intros j Hj. eapply masked_logit_fin; eauto; try lia; intros l; by apply linear_at_fin.
  - intros j Hj. eapply masked_logit_masked; eauto; lia.
  - intros j Hj. by apply linear_at_fin.
  - intros j Hj. eapply masked_logit_fin; eauto; try lia; intros l; by apply linear_at_fin.
  - intros j Hj. eapply masked_logit_masked; eauto; lia.
  - intros j Hj. by apply linear_at_fin.
Qed.

(** ** Constructors *)

Lemma check_sizes_inr sizes s :
  check_sizes sizes = inr s ↔ Forall (λ z, 0 ≤ z)%Z sizes ∧ s = Z.to_nat <$> sizes.
Proof.
  unfold check_sizes. case_decide as H; split.
  - by intros [= <-].
  - by intros [_ ->].
  - done.
  - by intros [? _].
Qed.

Lemma check_sizes_inl sizes e :
  check_sizes sizes = inl e → e = RuntimeError.
Proof. unfold check_sizes. case_decide; [done | by intros [= <-]]. Qed.

Lemma add_Linear_inr name d_in d_out bias g m m' :
  add_Linear name d_in d_out bias g m = inr m'
  ↔ (0 ≤ d_in ∧ 0 ≤ d_out)%Z
    ∧ m' = Linear_params name [Z.to_nat d_out; Z.to_nat d_in] bias g m.
Proof.
  unfold add_Linear, check_sizes. case_decide as H; cbn;
    rewrite !Forall_cons in H; split.
  - intros [= <-]. split; [tauto | done].
  - by intros [_ ->].
  - done.
  - intros [[? ?] _]. exfalso. apply H. auto.
Qed.

Lemma add_Linear_inl name d_in d_out bias g m e :
  add_Linear name d_in d_out bias g m = inl e → e = RuntimeError.
Proof. unfold add_Linear, check_sizes. case_decide; cbn; [done | by intros [= <-]]. Qed.

Lemma Dropout_init_inr p q : Dropout_init p = inr q ↔ (0 <= p <= 1)%R ∧ q = p.
Proof.
  unfold Dropout_init.
  destruct (Rlt_dec p 0) as [H0 | H0]; [| destruct (Rlt_dec 1 p) as [H1 | H1]]; split.
  - done.
  - intros [? _]. lra.
  - done.
  - intros [? _]. lra.
  - intros [= <-]. split; [lra | done].
  - by intros [_ ->].
Qed.

Lemma Dropout_init_inl p e : Dropout_init p = inl e → e = ValueError.
Proof.
  unfold Dropout_init. destruct (Rlt_dec p 0); [by intros [= <-] |].
  destruct (Rlt_dec 1 p); [by intros [= <-] | done].
Qed.

Lemma make_mask_inr c t :
  make_mask c = inr t ↔ (0 ≤ c)%Z ∧ t = triu_ones (Z.to_nat c).
Proof.
  unfold make_mask, check_sizes. case_decide as H; cbn;
    rewrite !Forall_cons in H; split.
  - intros [= <-]. split; [tauto | done].
  - by intros [_ ->].
  - done.
  - intros [? _]. exfalso. apply H. auto.
Qed.

Lemma make_mask_inl c e : make_mask c = inl e → e = RuntimeError.
Proof. unfold make_mask, check_sizes. case_decide; cbn; [done | by intros [= <-]]. Qed.

Lemma assert_divisible_inr d_out num_heads u :
  assert_divisible d_out num_heads = inr u
  ↔ num_heads ≠ 0%Z ∧ (d_out mod num_heads = 0)%Z.
Proof.
  destruct u. unfold assert_divisible. repeat case_decide; split; (done || tauto).
Qed.

Lemma assert_divisible_assertion d_out num_heads :
  assert_divisible d_out num_heads = inl AssertionError
  ↔ num_heads ≠ 0%Z ∧ (d_out mod num_heads ≠ 0)%Z.
Proof. unfold assert_divisible. repeat case_decide; split; (done || tauto). Qed.

Lemma rbind_inr {A B} (r : result A) (k : A → result B) b :
  rbind r k = inr b ↔ ∃ a, r = inr a ∧ k a = inr b.
Proof.
  destruct r as [e | a]; cbn; split.
  - done.
  - by intros (? & ? & ?).
  - intros H. by exists a.
  - by intros (? & [= <-] & ?).
Qed.

Lemma rbind_inl {A B} (r : result A) (k : A → result B) e :
  rbind r k = inl e ↔ r = inl e ∨ ∃ a, r = inr a ∧ k a = inl e.
Proof.
  destruct r as [e' | a]; cbn; split.
  - intros [= <-]. by left.
  - intros [[= ->] | (? & ? & ?)]; [done | done].
  - intros H. right. by exists a.
  - intros [? | (? & [= <-] & ?)]; [done | done].
Qed.

Lemma add_Linear_ok name d_in d_out bias g m :
  (0 ≤ d_in)%Z → (0 ≤ d_out)%Z →
  add_Linear name d_in d_out bias g m
  = inr (Linear_params name [Z.to_nat d_out; Z.to_nat d_in] bias g m).
Proof. intros. by apply add_Linear_inr. Qed.

Lemma Dropout_init_ok p : (0 <= p <= 1)%R → Dropout_init p = inr p.
Proof. intros. by apply Dropout_init_inr. Qed.

Lemma make_mask_ok c : (0 ≤ c)%Z → make_mask c = inr (triu_ones (Z.to_nat c)).
Proof. intros. by apply make_mask_inr. Qed.

Lemma assert_divisible_ok d_out num_heads :
  num_heads ≠ 0%Z → (d_out mod num_heads = 0)%Z →
  assert_divisible d_out num_heads = inr ().
Proof. intros. by apply assert_divisible_inr. Qed.

Ltac ctor_inv :=
  repeat match goal with
    | H : rbind _ _ = inr _ |- _ =>
        apply rbind_inr in H; destruct H as (? & ? & H)
    | H : add_Linear _ _ _ _ _ _ = inr _ |- _ =>
        apply add_Linear_inr in H; destruct H as [[? ?] ->]
    | H : Dropout_init _ = inr _ |- _ =>
        apply Dropout_init_inr in H; destruct H as [? ->]
    | H : make_mask _ = inr _ |- _ =>
        apply make_mask_inr in H; destruct H as [? ->]
    | H : assert_divisible _ _ = inr _ |- _ =>
        apply assert_divisible_inr in H; destruct H as [? ?]
    | H : @inr _ _ _ = inr _ |- _ => injection H as <-
    end.

Ltac ctor_ok :=
  cbv zeta;
  repeat first
    [ rewrite assert_divisible_ok by (done || lia)
    | rewrite add_Linear_ok by lia
    | rewrite Dropout_init_ok by lra
    | rewrite make_mask_ok by lia
    | progress cbn [rbind] ].

Lemma CausalAttentionWithBuffer_init_inr d_in d_out c p bias g self :
  CausalAttentionWithBuffer_init d_in d_out c p bias g = inr self
  ↔ (0 ≤ d_in ∧ 0 ≤ d_out ∧ 0 ≤ c)%Z ∧ (0 <= p <= 1)%R
    ∧ self = {| ca_nn := register_buffer "mask" (triu_ones (Z.to_nat c))
                           (single_head_linears d_in d_out bias g);
                ca_d_out := d_out; ca_dropout := p |}.
Proof.
  unfold CausalAttentionWithBuffer_init. split.
  - intros H. cbv zeta in H. ctor_inv. done.
  - intros ((? & ? & ?) & ? & ->). by ctor_ok.
Qed.

Lemma CausalAttentionWithoutBuffers_init_inr d_in d_out c p bias g self :
  CausalAttentionWithoutBuffers_init d_in d_out c p bias g = inr self
  ↔ (0 ≤ d_in ∧ 0 ≤ d_out ∧ 0 ≤ c)%Z ∧ (0 <= p <= 1)%R
    ∧ self = {| ca_nn := setattr "mask" (triu_ones (Z.to_nat c))
                           (single_head_linears d_in d_out bias g);
                ca_d_out := d_out; ca_dropout := p |}.
Proof.
  unfold CausalAttentionWithoutBuffers_init. split.
  - intros H. cbv zeta in H. ctor_inv. done.
  - intros ((? & ? & ?) & ? & ->). by ctor_ok.
Qed.

Ltac ctor_inl :=
  repeat match goal with
    | H : rbind _ _ = inl _ |- _ =>
        apply rbind_inl in H; destruct H as [H | (? & ? & H)]
    | H : add_Linear _ _ _ _ _ _ = inl AssertionError |- _ =>
        apply add_Linear_inl in H; discriminate H
    | H : Dropout_init _ = inl AssertionError |- _ =>
        apply Dropout_init_inl in H; discriminate H
    | H : make_mask _ = inl AssertionError |- _ =>
        apply make_mask_inl in H; discriminate H
    | H : assert_divisible _ _ = inl AssertionError |- _ =>
        apply assert_divisible_assertion in H
    | H : @inr _ _ _ = inl _ |- _ => discriminate H
    end.

Section fused_constructors.
Context (d_in d_out num_heads context_length : Z) (dropout : R) (qkv_bias : bool).
Context (g : rng).

Local Abbreviation divisible := (num_heads ≠ 0%Z ∧ (d_out mod num_heads = 0)%Z).
Local Abbreviation indivisible := (num_heads ≠ 0%Z ∧ (d_out mod num_heads ≠ 0)%Z).
Local Abbreviation sizes_ok := (0 ≤ d_in ∧ 0 ≤ d_out)%Z.

Lemma MHA_init_assertion :
  MHA_init d_in d_out context_length dropout num_heads qkv_bias g = inl AssertionError
  ↔ indivisible.
Proof.
  unfold MHA_init. split.
  - intros H. cbv zeta in H. ctor_inl. done.
  - intros H. apply assert_divisible_assertion in H. by rewrite H.
Qed.

Lemma MHA_init_succeeds :
  (∃ self, MHA_init d_in d_out context_length dropout num_heads qkv_bias g = inr self)
  ↔ divisible ∧ sizes_ok ∧ (0 ≤ context_length)%Z ∧ (0 <= dropout <= 1)%R.
Proof.
  unfold MHA_init. split.
  - intros [self H]. cbv zeta in H. ctor_inv. repeat split; tauto || lia || lra.
  - intros ((? & ?) & (? & ?) & ? & ?). eexists. by ctor_ok.
Qed.

Lemma CombinedQKV_init_assertion :
  MultiHeadAttentionCombinedQKV_init d_in d_out num_heads context_length dropout
    qkv_bias g = inl AssertionError
  ↔ indivisible.
Proof.
  unfold MultiHeadAttentionCombinedQKV_init. split.
  - intros H. cbv zeta in H. ctor_inl. done.
  - intros H. apply assert_divisible_assertion in H. by rewrite H.
Qed.

Lemma CombinedQKV_init_succeeds :
  (∃ self, MultiHeadAttentionCombinedQKV_init d_in d_out num_heads context_length
             dropout qkv_bias g = inr self)
  ↔ divisible ∧ sizes_ok ∧ (0 ≤ context_length)%Z ∧ (0 <= dropout <= 1)%R.
Proof.
  unfold MultiHeadAttentionCombinedQKV_init. split.
  - intros [self H]. cbv zeta in H. ctor_inv. repeat split; tauto || lia || lra.
  - intros ((? & ?) & (? & ?) & ? & ?). eexists. by ctor_ok.
Qed.

Lemma ScaledDotProduct_init_assertion :
  MHAPyTorchScaledDotProduct_init d_in d_out num_heads context_length dropout
    qkv_bias g = inl AssertionError
  ↔ indivisible.
Proof.
  unfold MHAPyTorchScaledDotProduct_init. split.
  - intros H. cbv zeta in H. ctor_inl. done.
  - intros H. apply assert_divisible_assertion in H. by rewrite H.
Qed.

Lemma ScaledDotProduct_init_succeeds :
  (∃ self, MHAPyTorchScaledDotProduct_init d_in d_out num_heads context_length
             dropout qkv_bias g = inr self)
  ↔ divisible ∧ sizes_ok.
Proof.
  unfold MHAPyTorchScaledDotProduct_init. split.
  - intros [self H]. cbv zeta in H. ctor_inv. repeat split; tauto || lia || lra.
  - intros ((? & ?) & (? & ?)). eexists. by ctor_ok.
Qed.

Lemma SDPAWithoutFlash_init_assertion :
  MHAPyTorchSDPAWithoutFlash_init d_in d_out num_heads context_length dropout
    qkv_bias g = inl AssertionError
  ↔ indivisible.
Proof.
  unfold MHAPyTorchSDPAWithoutFlash_init. split.
  - intros H. cbv zeta in H. ctor_inl. done.
  - intros H. apply assert_divisible_assertion in H. by rewrite H.
Qed.

Lemma SDPAWithoutFlash_init_succeeds :
  (∃ self, MHAPyTorchSDPAWithoutFlash_init d_in d_out num_heads context_length
             dropout qkv_bias g = inr self)
  ↔ divisible ∧ sizes_ok ∧ (0 ≤ context_length)%Z.
Proof.
  unfold MHAPyTorchSDPAWithoutFlash_init. split.
  - intros [self H]. cbv zeta in H. ctor_inv. repeat split; tauto || lia || lra.
  - intros ((? & ?) & (? & ?) & ?). eexists. by ctor_ok.
Qed.
End fused_constructors.

Lemma buffer_or_attribute (m1 m2 : CausalAttention) keep x :
  params (ca_nn m1) = params (ca_nn m2) →
  getattr "mask" (ca_nn m1) = getattr "mask" (ca_nn m2) →
  ca_dropout m1 = ca_dropout m2 →
  training (ca_nn m1) = training (ca_nn m2) →
  CausalAttentionWithBuffer_forward m2 keep x
  = CausalAttentionWithoutBuffers_forward m1 keep x.
Proof.
  intros Hp Hm Hd Ht.
  unfold CausalAttentionWithBuffer_forward, CausalAttentionWithoutBuffers_forward,
    Linear_forward.
  by rewrite Hp, Hm, Hd, Ht.
Qed.

(** ** [state_dict] and [load_state_dict] *)

Lemma load_state_dict_same_layout (m1 m2 : Module) :
  (∀ k, shape <$> params m1 !! k = shape <$> params m2 !! k) →
  (∀ k, shape <$> buffers m1 !! k = shape <$> buffers m2 !! k) →
  params m1 ##ₘ buffers m1 →
  load_state_dict (save_load (state_dict m1)) m2
  = Some {| params := params m1; buffers := buffers m1;
            attrs := attrs m2; training := training m2 |}.
Proof.
  intros Hp Hb Hdisj. unfold load_state_dict, save_load, state_dict.
  assert (Hsh : ∀ k, shape <$> (params m1 ∪ buffers m1) !! k
                     = shape <$> (params m2 ∪ buffers m2) !! k).
  { intros k. rewrite !lookup_union. specialize (Hp k). specialize (Hb k).
    destruct (params m1 !! k), (params m2 !! k), (buffers m1 !! k), (buffers m2 !! k);
      cbn in *; congruence. }
  rewrite decide_True.
  - f_equal. f_equal; try done.
    + apply map_eq. intros k. rewrite map_lookup_imap.
      specialize (Hp k). rewrite lookup_union.
      destruct (params m1 !! k) eqn:E1, (params m2 !! k) eqn:E2; cbn in *; try done.
      by destruct (buffers m1 !! k).
    + apply map_eq. intros k. rewrite map_lookup_imap.
      specialize (Hb k). rewrite lookup_union.
      destruct (buffers m1 !! k) eqn:E1, (buffers m2 !! k) eqn:E2; cbn in *; try done.
      * assert (params m1 !! k = None) as -> by by eapply map_disjoint_Some_r.
        done.
  - split.
    + apply set_eq. intros k. rewrite !elem_of_dom.
      specialize (Hsh k).
      destruct ((params m1 ∪ buffers m1) !! k), ((params m2 ∪ buffers m2) !! k);
        cbn in *; try done; split; intros [? ?]; done.
    + intros k t Hk. rewrite <- Hsh, Hk. done.
Qed.

#[global] Arguments single_head_linears : simpl never.

Lemma single_head_layout d_in d_out bias g g' k :
  shape <$> params (single_head_linears d_in d_out bias g) !! k
  = shape <$> params (single_head_linears d_in d_out bias g') !! k.
Proof.
  unfold single_head_linears, Linear_params, register_parameter.
  destruct bias; cbn [params]; rewrite !lookup_insert; repeat case_decide; done.
Qed.

Lemma single_head_no_mask d_in d_out bias g :
  params (single_head_linears d_in d_out bias g) !! "mask" = None.
Proof. by destruct bias. Qed.

Lemma single_head_eta d_in d_out bias g :
  single_head_linears d_in d_out bias g
  = {| params := params (single_head_linears d_in d_out bias g);
       buffers := ∅; attrs := ∅; training := true |}.
Proof. by destruct bias. Qed.

Lemma getattr_loaded (m1 m2 : Module) name b :
  attrs m1 !! name = None → attrs m2 !! name = None →
  getattr name {| params := params m1; buffers := buffers m1;
                  attrs := attrs m2; training := b |}
  = getattr name m1.
Proof. intros H1 H2. unfold getattr. cbn. by rewrite H1, H2. Qed.

Lemma without_buffer_nn d_in d_out c bias g :
  setattr "mask" (triu_ones (Z.to_nat c)) (single_head_linears d_in d_out bias g)
  = {| params := params (single_head_linears d_in d_out bias g);
       buffers := ∅; attrs := {["mask" := triu_ones (Z.to_nat c)]};
       training := true |}.
Proof. rewrite single_head_eta at 1. unfold setattr. cbn. by rewrite lookup_empty. Qed.

Section round_trip.
Context (d_in d_out c : Z) (p : R) (bias : bool) (g g' : rng).
Context (ca new_ca ca0 new_ca0 : CausalAttention).
Hypothesis (Hca : CausalAttentionWithBuffer_init d_in d_out c p bias g = inr ca).
Hypothesis (Hnew : CausalAttentionWithBuffer_init d_in d_out c p bias g' = inr new_ca).
Hypothesis (Hca0 : CausalAttentionWithoutBuffers_init d_in d_out c p bias g = inr ca0).
Hypothesis
  (Hnew0 : CausalAttentionWithoutBuffers_init d_in d_out c p bias g' = inr new_ca0).

Local Abbreviation fresh_mask := (triu_ones (Z.to_nat c)).
Local Abbreviation modified_mask := (masked_assign 1 2 fresh_mask).

Lemma with_buffer_modified_nn :
  ca_nn (modify_mask ca)
  = {| params := params (single_head_linears d_in d_out bias g);
       buffers := {["mask" := modified_mask]}; attrs := ∅; training := true |}.
Proof.
  apply CausalAttentionWithBuffer_init_inr in Hca as (_ & _ & ->).
  rewrite single_head_eta. unfold modify_mask, update_inplace, register_buffer.
  cbn. rewrite lookup_empty, single_head_no_mask. f_equal; try done.
  all: by rewrite alter_insert_eq.
Qed.

Lemma without_buffer_modified_nn :
  ca_nn (modify_mask ca0)
  = {| params := params (single_head_linears d_in d_out bias g);
       buffers := ∅; attrs := {["mask" := modified_mask]}; training := true |}.
Proof.
  apply CausalAttentionWithoutBuffers_init_inr in Hca0 as (_ & _ & ->).
  unfold modify_mask. cbn [ca_nn]. rewrite without_buffer_nn.
  unfold update_inplace. cbn. rewrite lookup_singleton_eq. f_equal; try done.
  all: by rewrite alter_singleton_eq.
Qed.

Lemma with_buffer_state_dict :
  state_dict (ca_nn ca) !! "mask" = Some fresh_mask.
Proof.
  apply CausalAttentionWithBuffer_init_inr in Hca as (_ & _ & ->).
  rewrite single_head_eta. unfold state_dict. cbn.
  by rewrite lookup_union, single_head_no_mask, lookup_insert_eq.
Qed.

Lemma with_buffer_round_trip :
  ∃ loaded, save_and_reload (modify_mask ca) new_ca = Some loaded
            ∧ getattr "mask" (ca_nn loaded) = Some modified_mask.
Proof.
  unfold save_and_reload. rewrite with_buffer_modified_nn.
  apply CausalAttentionWithBuffer_init_inr in Hnew as (_ & _ & ->).
  rewrite (single_head_eta _ _ _ g').
  rewrite load_state_dict_same_layout.
  - eexists. split; [done |]. unfold getattr. cbn.
    by rewrite lookup_empty, single_head_no_mask, lookup_singleton_eq.
  - intros k. cbn. apply single_head_layout.
  - intros k. cbn. rewrite lookup_singleton, lookup_insert, lookup_empty.
    by case_decide.
  - cbn. apply map_disjoint_singleton_r, single_head_no_mask.
Qed.

Lemma without_buffer_state_dict :
  state_dict (ca_nn ca0) !! "mask" = None.
Proof.
  apply CausalAttentionWithoutBuffers_init_inr in Hca0 as (_ & _ & ->).
  cbn [ca_nn]. rewrite without_buffer_nn. unfold state_dict. cbn.
  by rewrite lookup_union, single_head_no_mask, lookup_empty.
Qed.

Lemma without_buffer_round_trip :
  getattr "mask" (ca_nn (modify_mask ca0)) = Some modified_mask
  ∧ ∃ loaded, save_and_reload (modify_mask ca0) new_ca0 = Some loaded
              ∧ getattr "mask" (ca_nn loaded) = Some fresh_mask.
Proof.
  unfold save_and_reload. rewrite without_buffer_modified_nn.
  split; [done |].
  apply CausalAttentionWithoutBuffers_init_inr in Hnew0 as (_ & _ & ->).
  cbn [ca_nn]. rewrite without_buffer_nn.
  rewrite load_state_dict_same_layout.
  - eexists. split; [done |]. unfold getattr. cbn. by rewrite lookup_singleton_eq.
  - intros k. cbn. apply single_head_layout.
  - done.
  - cbn. apply map_disjoint_empty_r.
Qed.
End round_trip.

(** ** [MHA] *)

Lemma view_split_at f b n m H hd bi j h l :
  m = H * hd → j < n → h < H → l < hd →
  view_at {| shape := [b; n; m]; at_ := f |} [b; n; H; hd] [bi; j; h; l]
  = f [bi; j; h * hd + l].
Proof.
  intros -> Hj Hh Hl. unfold view_at. cbn [shape].
  rewrite unflatten_flatten_prefix2; [| cbn; lia | done | cbn; nia].
  change (unflatten [H * hd] ?o) with [o / 1].
  change (flatten [H; hd] [h; l]) with (h * (hd * 1) + (l * 1 + 0)).
  rewrite Nat.div_1_r. do 4 f_equal. ring.
Qed.

Section MHA.
Context (self : MultiHead) (keep : index → bool) (x : tensor).
Context (b n d_in d_out H hd c : nat) (Wq Wk Wv Wo mask : tensor).
Hypothesis (Hq : params (mh_nn self) !! "W_query.weight" = Some Wq).
Hypothesis (Hk : params (mh_nn self) !! "W_key.weight" = Some Wk).
Hypothesis (Hv : params (mh_nn self) !! "W_value.weight" = Some Wv).
Hypothesis (Ho : params (mh_nn self) !! "out_proj.weight" = Some Wo).
Hypothesis (Sq : shape Wq = [d_out; d_in]) (Sk : shape Wk = [d_out; d_in]).
Hypothesis (Sv : shape Wv = [d_out; d_in]) (So : shape Wo = [d_out; d_out]).
Hypothesis (Hm : getattr "mask" (mh_nn self) = Some mask) (Sm : shape mask = [c; c]).
Hypothesis (HH : mh_num_heads self = Z.of_nat H) (Hhd : mh_head_dim self = Z.of_nat hd).
Hypothesis (Hdo : mh_d_out self = Z.of_nat d_out) (Hd : d_out = H * hd).
Hypothesis (Sx : shape x = [b; n; d_in]) (Hn : n ≤ c).

Local Abbreviation Q := (linear_at Wq (params (mh_nn self) !! "W_query.bias") x d_in).
Local Abbreviation K := (linear_at Wk (params (mh_nn self) !! "W_key.bias") x d_in).
Local Abbreviation V := (linear_at Wv (params (mh_nn self) !! "W_value.bias") x d_in).

(** What [MHA.forward] computes: the context vector is the product of the
    masked scores (not of the attention weights) with the values. *)
Lemma MHA_forward_elem :
  ∃ y ctx, MHA_forward self keep x = Some y
    ∧ shape y = [b; n; d_out]
    ∧ (∀ bi i o, at_ y [bi; i; o]
         = linear_at Wo (params (mh_nn self) !! "out_proj.bias") ctx d_out [bi; i; o])
    ∧ ∀ bi i k, i < n → k < d_out →
        at_ ctx [bi; i; k]
        = bigsum n (λ j, xmul (mha_masked_score mask n hd Q K bi (k / hd) i j)
                              (V [bi; j; k / hd * hd + k mod hd])).
Proof.
  unfold MHA_forward. rewrite Sx.
  rewrite (Linear_forward_3d "W_key" _ _ _ _ _ _ _ Hk Sk Sx).
  rewrite (Linear_forward_3d "W_query" _ _ _ _ _ _ _ Hq Sq Sx).
  rewrite (Linear_forward_3d "W_value" _ _ _ _ _ _ _ Hv Sv Sx).
  cbn [mbind option_bind]. rewrite HH, Hhd, Hdo.
  change [Z.of_nat b; Z.of_nat n; Z.of_nat H; Z.of_nat hd] with (zs [b; n; H; hd]).
  rewrite !view_zs by (cbn; subst d_out; ring).
  cbn [mbind option_bind].
  unfold transpose.
  repeat (progress (cbn [shape length mbind option_bind]; eval_norm_dim)). cbn.
  unfold matmul. cbn. rewrite decide_True by done. cbn.
  rewrite Hm. cbn. unfold bslice2, to_bool. cbn. rewrite Sm. cbn.
  unfold masked_fill. cbn.
  replace (n `min` c) with n by lia. rewrite Nat.eqb_refl. cbn.
  destruct (py_pow hd (/ 2)) as [s |] eqn:Hs; cycle 1.
  { destruct hd; [by rewrite py_pow_0_half in Hs | done]. }
  cbn. unfold softmax, div_scalar. cbn.
  unfold matmul. cbn. rewrite decide_True by done. cbn.
  unfold transpose. cbn [shape length]. eval_norm_dim. cbn.
  change [Z.of_nat b; Z.of_nat n; Z.of_nat d_out] with (zs [b; n; d_out]).
  rewrite view_zs by (cbn; subst d_out; ring).
  cbn [mbind option_bind].
  erewrite (Linear_forward_3d "out_proj" _ _ _ _ _ _ _ Ho So) by done.
  cbn [mbind option_bind].
  eexists. eexists. split; [done |]. split; [done |]. split; [done |].
  intros bi i k Hi Hk'. subst d_out.
  cbn [at_]. rewrite view_merge_at by done.
  assert (Hh : k / hd < H) by (apply Nat.Div0.div_lt_upper_bound; lia).
  assert (Hl : k mod hd < hd) by (apply Nat.mod_upper_bound; lia).
  cbn. unfold matmul_at. cbn.
  apply bigsum_ext. intros j Hj. cbn.
  rewrite view_split_at by (done || lia). f_equal.
  unfold masked_fill_at, mha_masked_score, to_bool. cbn.
  destruct (match at_ mask _ with Fin _ => _ | _ => _ end); [done |].
  unfold matmul_at. cbn. apply bigsum_ext. intros l Hlt. cbn.
  by rewrite !view_split_at by (done || lia).
Qed.

Lemma MHA_standard_elem :
  mh_dropout self = 0%R →
  ∃ y ctx, MHA_standard self keep x = Some y
    ∧ shape y = [b; n; d_out]
    ∧ (∀ bi i o, at_ y [bi; i; o]
         = linear_at Wo (params (mh_nn self) !! "out_proj.bias") ctx d_out [bi; i; o])
    ∧ ∀ bi i k, i < n → k < d_out →
        at_ ctx [bi; i; k]
        = attention_elem n
            (λ j, xdiv (mha_masked_score mask n hd Q K bi (k / hd) i j)
                       (Fin (sqrt (INR hd))))
            (λ j, V [bi; j; k / hd * hd + k mod hd]).
Proof.
  intros Hp. unfold MHA_standard. rewrite Sx.
  rewrite (Linear_forward_3d "W_key" _ _ _ _ _ _ _ Hk Sk Sx).
  rewrite (Linear_forward_3d "W_query" _ _ _ _ _ _ _ Hq Sq Sx).
  rewrite (Linear_forward_3d "W_value" _ _ _ _ _ _ _ Hv Sv Sx).
  cbn [mbind option_bind]. rewrite HH, Hhd, Hdo.
  change [Z.of_nat b; Z.of_nat n; Z.of_nat H; Z.of_nat hd] with (zs [b; n; H; hd]).
  rewrite !view_zs by (cbn; subst d_out; ring).
  cbn [mbind option_bind].
  unfold transpose.
  repeat (progress (cbn [shape length mbind option_bind]; eval_norm_dim)). cbn.
  unfold matmul. cbn. rewrite decide_True by done. cbn.
  rewrite Hm. cbn. unfold bslice2, to_bool. cbn. rewrite Sm. cbn.
  unfold masked_fill. cbn.
  replace (n `min` c) with n by lia. rewrite Nat.eqb_refl. cbn.
  unfold softmax, div_scalar. cbn. rewrite Hp, dropout_0.
  unfold matmul. cbn. rewrite decide_True by done. cbn.
  unfold transpose. cbn [shape length]. eval_norm_dim. cbn.
  change [Z.of_nat b; Z.of_nat n; Z.of_nat d_out] with (zs [b; n; d_out]).
  rewrite view_zs by (cbn; subst d_out; ring).
  cbn [mbind option_bind].
  erewrite (Linear_forward_3d "out_proj" _ _ _ _ _ _ _ Ho So) by done.
  eexists. eexists. split; [done |]. split; [done |]. split; [done |].
  intros bi i k Hi Hk'. subst d_out.
  cbn [at_]. rewrite view_merge_at by done.
  assert (Hh : k / hd < H) by (apply Nat.Div0.div_lt_upper_bound; lia).
  assert (Hl : k mod hd < hd) by (apply Nat.mod_upper_bound; lia).
  cbn. unfold matmul_at, attention_elem. cbn.
  assert (HT : ∀ j, j < n →
    masked_fill_at
      {| shape := [b; H; n; n];
         at_ := matmul_at
           {| shape := [b; H; n; hd];
              at_ := λ idx, view_at
                {| shape := [b; n; H * hd];
                   at_ := linear_at Wq (params (mh_nn self) !! ("W_query" +:+ ".bias"))
                            x d_in |}
                [b; n; H; hd] (swap_ix 1 2 idx) |}
           {| shape := [b; H; hd; n];
              at_ := λ idx, view_at
                {| shape := [b; n; H * hd];
                   at_ := linear_at Wk (params (mh_nn self) !! ("W_key" +:+ ".bias"))
                            x d_in |}
                [b; n; H; hd] (swap_ix 1 2 (swap_ix 2 3 idx)) |} hd |}
      {| bshape := [n; n];
         bat := λ idx, match at_ mask idx with
                       | Fin r => if Req_dec_T r 0 then false else true
                       | _ => true
                       end |} NInf [bi; k / hd; i; j]
    = mha_masked_score mask n hd Q K bi (k / hd) i j).
  { intros j Hj. unfold masked_fill_at, mha_masked_score, to_bool. cbn.
    destruct (match at_ mask _ with Fin _ => _ | _ => _ end); [done |].
    unfold matmul_at. cbn. apply bigsum_ext. intros l Hlt. cbn.
    by rewrite !view_split_at by (done || lia). }
  apply bigsum_ext. intros j Hj. cbn. unfold softmax_at. cbn.
  f_equal; [f_equal |].
  - f_equal. f_equal. by apply HT.
  - apply bigsum_ext. intros j' Hj'. cbn. f_equal. f_equal. by apply HT.
  - by rewrite view_split_at by (done || lia).
Qed.
End MHA.

Lemma demo_mha_constructed :
  MHA_init 1 1 1 0 1 false demo_rng = inr demo_mha.
Proof. unfold MHA_init. by ctor_ok. Qed.

Lemma triu_ones_causal c i j : bat (to_bool (triu_ones c)) [i; j] = (i <? j).
Proof.
  unfold to_bool, triu_ones. cbn [bat at_]. destruct (i <? j).
  - destruct (Req_dec_T 1 0); [lra | done].
  - destruct (Req_dec_T 0 0); [done | lra].
Qed.

Ltac eval_lookup :=
  repeat match goal with
         | |- context [params ?m !! ?k] =>
             let v := eval vm_compute in (params m !! k) in
             change (params m !! k) with v
         end.

Ltac eval_rng g :=
  repeat match goal with
         | |- context [g ?a ?b] =>
             let v := eval vm_compute in (g a b) in
             change (g a b) with v
         end.

Lemma MHA_demo keep :
  ∃ y y', MHA_forward demo_mha keep one_token = Some y
          ∧ MHA_standard demo_mha keep one_token = Some y'
          ∧ at_ y [0; 0; 0] = Fin 2 ∧ at_ y' [0; 0; 0] = Fin 1.
Proof.
  destruct (MHA_forward_elem demo_mha keep one_token 1 1 1 1 1 1 1
              _ _ _ _ (triu_ones 1) eq_refl eq_refl eq_refl eq_refl)
    as (y & ctx & Hy & _ & Ey & Ec); try done.
  destruct (MHA_standard_elem demo_mha keep one_token 1 1 1 1 1 1 1
              _ _ _ _ (triu_ones 1) eq_refl eq_refl eq_refl eq_refl)
    as (y' & ctx' & Hy' & _ & Ey' & Ec'); try done.
  exists y, y'. split; [done |]. split; [done |]. split.
  - rewrite Ey. eval_lookup. unfold linear_at, bigsum. cbn. rewrite Ec by lia.
    eval_lookup. unfold mha_masked_score, bigsum. cbn.
    rewrite triu_ones_causal. cbn.
    unfold linear_at, bigsum. cbn. eval_rng demo_rng. cbn. f_equal. lra.
  - rewrite Ey'. eval_lookup. unfold linear_at, bigsum. cbn. rewrite Ec' by lia.
    eval_lookup. unfold attention_elem, mha_masked_score, bigsum. cbn.
    rewrite triu_ones_causal. cbn.
    unfold linear_at, bigsum. cbn. eval_rng demo_rng. cbn.
    rewrite sqrt_1. destruct (Req_dec_T 1 0) as [? | _]; [lra |]. cbn.
    set (e := exp _). assert (0 < e)%R by apply exp_pos.
    destruct (Req_dec_T (e + 0) 0); [lra |]. cbn. f_equal. field. lra.
Qed.

Lemma CombinedQKV_standard_elem self keep x b n d_out H hd c W Wp mask s :
  params (mh_nn self) !! "qkv.weight" = Some W → shape W = [3 * d_out; d_out] →
  params (mh_nn self) !! "proj.weight" = Some Wp → shape Wp = [d_out; d_out] →
  getattr "mask" (mh_nn self) = Some mask → shape mask = [c; c] →
  mh_num_heads self = Z.of_nat H → mh_head_dim self = Z.of_nat hd → d_out = H * hd →
  shape x = [b; n; d_out] → n ≤ c → mh_dropout self = 0%R →
  s = sqrt (INR hd) →
  ∃ y ctx, CombinedQKV_standard self keep x = Some y
    ∧ shape y = [b; n; d_out]
    ∧ (∀ bi i o, at_ y [bi; i; o]
                 = linear_at Wp (params (mh_nn self) !! "proj.bias") ctx d_out [bi; i; o])
    ∧ ∀ bi i k, i < n → k < d_out →
        at_ ctx [bi; i; k] =
          let qkv := linear_at W (params (mh_nn self) !! "qkv.bias") x d_out in
          attention_elem n
            (λ j, masked_logit mask n s hd
                    (λ l, qkv [bi; i; qkv_col H hd 0 (k / hd) l])
                    (λ l, qkv [bi; j; qkv_col H hd 1 (k / hd) l]) i j)
            (λ j, qkv [bi; j; qkv_col H hd 2 (k / hd) (k mod hd)]).
Proof.
  intros HW SW HWp SWp Hm Sm HH Hhd Hd Sx Hn Hp Hs.
  unfold CombinedQKV_standard.
  rewrite Sx.
  rewrite (Linear_forward_3d "qkv" _ _ _ _ _ _ _ HW SW Sx).
  cbn [mbind option_bind]. rewrite HH, Hhd.
  change [Z.of_nat b; Z.of_nat n; 3%Z; Z.of_nat H; Z.of_nat hd] with (zs [b; n; 3; H; hd]).
  rewrite view_zs by (cbn; subst d_out; ring).
  cbn [mbind option_bind].
  unfold permute. cbn. unfold select0. cbn.
  unfold transpose. cbn [shape length]. eval_norm_dim. cbn.
  unfold matmul. cbn. rewrite decide_True by done. cbn.
  rewrite Hm. cbn. unfold bslice2, to_bool. cbn. rewrite Sm. cbn.
  unfold masked_fill. cbn.
  replace (n `min` c) with n by lia. rewrite Nat.eqb_refl. cbn.
  rewrite <- Hs. unfold softmax, div_scalar. cbn.
  rewrite Hp, dropout_0. unfold matmul. cbn.
  rewrite decide_True by done. cbn.
  unfold transpose. cbn [shape length]. eval_norm_dim. cbn.
  change [Z.of_nat b; Z.of_nat n; Z.of_nat d_out] with (zs [b; n; d_out]).
  rewrite view_zs by (cbn; subst d_out; ring).
  cbn [mbind option_bind].
  erewrite (Linear_forward_3d "proj" _ _ _ _ _ _ _ HWp SWp) by done.
  cbn [mbind option_bind].
  eexists. eexists. split; [done |]. split; [done |]. split; [done |].
  intros bi i k Hi Hk. subst d_out.
  cbn [at_]. rewrite view_merge_at by done.
  assert (Hh : k / hd < H) by (apply Nat.Div0.div_lt_upper_bound; lia).
  assert (Hl : k mod hd < hd) by (apply Nat.mod_upper_bound; lia).
  cbn. unfold matmul_at, attention_elem. cbn.
  assert (HT : ∀ j, j < n →
    xdiv (masked_fill_at
            {| shape := [b; H; n; n];
               at_ := matmul_at
                 {| shape := [b; H; n; hd];
                    at_ := λ idx, view_at
                      {| shape := [b; n; H * hd + (H * hd + (H * hd + 0))];
                         at_ := linear_at W (params (mh_nn self) !! ("qkv" +:+ ".bias"))
                                  x (H * hd) |}
                      [b; n; 3; H; hd] [idx !!! 0; idx !!! 2; 0; idx !!! 1; idx !!! 3] |}
                 {| shape := [b; H; hd; n];
                    at_ := λ idx, view_at
                      {| shape := [b; n; H * hd + (H * hd + (H * hd + 0))];
                         at_ := linear_at W (params (mh_nn self) !! ("qkv" +:+ ".bias"))
                                  x (H * hd) |}
                      [b; n; 3; H; hd]
                      [swap_ix 2 3 idx !!! 0; swap_ix 2 3 idx !!! 2; 1;
                       swap_ix 2 3 idx !!! 1; swap_ix 2 3 idx !!! 3] |} hd |}
            {| bshape := [n; n];
               bat := λ idx, match at_ mask idx with
                             | Fin r => if Req_dec_T r 0 then false else true
                             | _ => true
                             end |} NInf [bi; k / hd; i; j]) (Fin s)
    = masked_logit mask n s hd
        (λ l, linear_at W (params (mh_nn self) !! "qkv.bias") x (H * hd)
                [bi; i; qkv_col H hd 0 (k / hd) l])
        (λ l, linear_at W (params (mh_nn self) !! "qkv.bias") x (H * hd)
                [bi; j; qkv_col H hd 1 (k / hd) l]) i j).
  { intros j Hj. unfold masked_logit, masked_fill_at, to_bool. cbn.
    f_equal. destruct (match at_ mask _ with Fin _ => _ | _ => _ end); [done |].
    unfold matmul_at. cbn. apply bigsum_ext. intros l Hlt. cbn.
    rewrite !view_qkv_at by (done || lia). done. }
  apply bigsum_ext. intros j Hj. cbn. unfold softmax_at. cbn.
  f_equal; [f_equal |].
  - f_equal. by apply HT.
  - apply bigsum_ext. intros j' Hj'. cbn. f_equal. by apply HT.
  - by rewrite view_qkv_at by (done || lia).
Qed.

Lemma demo_qkv_constructed :
  MultiHeadAttentionCombinedQKV_init 2 2 1 2 0 false qkv_rng = inr demo_qkv.
Proof. unfold MultiHeadAttentionCombinedQKV_init. by ctor_ok. Qed.

Lemma py_pow_2_neg_half : py_pow 2 (- / 2) = Some (/ sqrt 2)%R.
Proof.
  unfold py_pow. f_equal. rewrite Rpower_Ropp, Rpower_sqrt by (cbn; lra).
  replace (INR 2) with 2%R by (cbn; lra). done.
Qed.

Lemma sigmoid_inj (a b : R) : sigmoid a = sigmoid b → a = b.
Proof.
  unfold sigmoid. intros H. apply exp_inv.
  pose proof (exp_pos a) as Ha. pose proof (exp_pos b) as Hb.
  set (ea := exp a) in *. set (eb := exp b) in *.
  assert (ea = ea / (1 + ea) * (1 + ea))%R as E1 by (field; lra).
  assert (eb = eb / (1 + eb) * (1 + eb))%R as E2 by (field; lra).
  rewrite H in E1. set (u := (eb / (1 + eb))%R) in *.
  assert (u < 1)%R.
  { apply (Rmult_lt_reg_r (1 + eb)); [lra |]. lra. }
  nra.
Qed.

Lemma QKV_demo keep :
  ∃ y y', MultiHeadAttentionCombinedQKV_forward demo_qkv keep two_tokens = Some y
          ∧ CombinedQKV_standard demo_qkv keep two_tokens = Some y'
          ∧ at_ y [0; 1; 0] = Fin (sigmoid (sqrt 2))
          ∧ at_ y' [0; 1; 0] = Fin (sigmoid (/ sqrt 2)).
Proof.
  set (W := {| shape := [6; 2]; at_ := qkv_rng "qkv.weight" |}).
  set (Wp := {| shape := [2; 2]; at_ := qkv_rng "proj.weight" |}).
  destruct (CombinedQKV_forward_elem demo_qkv keep two_tokens 1 2 2 1 2 2
              W Wp (triu_ones 2) (/ sqrt 2) eq_refl eq_refl eq_refl eq_refl)
    as (y & ctx & Hy & _ & Ey & Ec); try done.
  { apply py_pow_2_neg_half. }
  destruct (CombinedQKV_standard_elem demo_qkv keep two_tokens 1 2 2 1 2 2
              W Wp (triu_ones 2) (sqrt 2) eq_refl eq_refl eq_refl eq_refl)
    as (y' & ctx' & Hy' & _ & Ey' & Ec'); try done.
  exists y, y'. split; [done |]. split; [done |]. 
  assert (0 < sqrt 2)%R as Hs2 by (apply sqrt_lt_R0; lra).
  assert (0 < / sqrt 2)%R as Hs2' by (by apply Rinv_0_lt_compat).
  pose proof (exp_pos (sqrt 2)) as He. pose proof (exp_pos (/ sqrt 2)) as He'.
  split.
  - rewrite Ey. eval_lookup. unfold linear_at, bigsum. cbn. rewrite !Ec by lia.
    eval_lookup. unfold attention_elem, masked_logit, bigsum, qkv_col. cbn.
    rewrite !triu_ones_causal. cbn.
    unfold linear_at, bigsum. cbn.
    destruct (Req_dec_T (/ sqrt 2) 0) as [? | _]; [lra |]. cbn.
    assert (∀ a, (a / / sqrt 2 = a * sqrt 2)%R) as Hdiv by (intros; field; lra).
    rewrite !Hdiv.
    repeat match goal with
           | |- context [exp ?t] => progress ring_simplify t
           end.
    rewrite exp_0.
    repeat match goal with
           | |- context [Req_dec_T ?v 0] =>
               destruct (Req_dec_T v 0) as [? | _]; [lra | cbn]
           end.
    f_equal. unfold sigmoid. field. lra.
  - rewrite Ey'. eval_lookup. unfold linear_at, bigsum. cbn. rewrite !Ec' by lia.
    eval_lookup. unfold attention_elem, masked_logit, bigsum, qkv_col. cbn.
    rewrite !triu_ones_causal. cbn.
    unfold linear_at, bigsum. cbn.
    destruct (Req_dec_T (sqrt 2) 0) as [? | _]; [lra |]. cbn.
    assert (∀ a, (a / sqrt 2 = a * / sqrt 2)%R) as Hdiv by (intros; field; lra).
    rewrite !Hdiv.
    repeat match goal with
           | |- context [exp ?t] => progress ring_simplify t
           end.
    rewrite exp_0.
    repeat match goal with
           | |- context [Req_dec_T ?v 0] =>
               destruct (Req_dec_T v 0) as [? | _]; [lra | cbn]
           end.
    f_equal. unfold sigmoid. field. lra.
Qed.

Lemma sigmoid_scale_differs : sigmoid (sqrt 2) ≠ sigmoid (/ sqrt 2).
Proof.
  intros H. apply sigmoid_inj in H.
  assert (0 < sqrt 2)%R as Hs2 by (apply sqrt_lt_R0; lra).
  assert (sqrt 2 * sqrt 2 = 2)%R as Hsq by (apply sqrt_sqrt; lra).
  assert (sqrt 2 * / sqrt 2 = 1)%R as Hinv by (field; lra).
  rewrite <- H in Hinv. lra.
Qed.

(** For a positive head dimension, [keys.shape[-1]**-0.5] is the inverse of
    the square root. *)
Lemma py_pow_neg_half (hd : nat) :
  0 < hd → py_pow hd (- / 2) = Some (/ sqrt (INR hd))%R.
Proof.
  intros H. destruct hd as [| k]; [lia |]. unfold py_pow. f_equal.
  rewrite Rpower_Ropp, Rpower_sqrt; [done |]. apply lt_0_INR. lia.
Qed.

Lemma demo_wrapper_constructed :
  MHA_Wrapper_init 1 1 1 0 1 false (λ _, demo_rng) demo_rng = inr demo_wrapper.
Proof.
  unfold MHA_Wrapper_init. change (Z.to_nat 1) with 1. cbn [make_heads].
  unfold CasualAttention_init. by ctor_ok.
Qed.

Lemma Wrapper_demo keep :
  ∃ y, MHA_Wrapper_forward demo_wrapper keep one_token = Some y
       ∧ at_ y [0; 0; 0] = Fin 1.
Proof.
  set (Wq := {| shape := [1; 1]; at_ := demo_rng "W_query.weight" |}).
  set (Wk := {| shape := [1; 1]; at_ := demo_rng "W_key.weight" |}).
  set (Wv := {| shape := [1; 1]; at_ := demo_rng "W_value.weight" |}).
  destruct (CausalAttention_forward_elem demo_head (keep 0) one_token 1 1 1 1 1
              Wq Wk Wv (triu_ones 1) 1 eq_refl eq_refl eq_refl)
    as (y0 & Hy0 & Sy0 & Ey0); try done.
  { by left. }
  { unfold py_pow. f_equal. cbn. rewrite Rpower_sqrt by lra. apply sqrt_1. }
  unfold MHA_Wrapper_forward. cbn [heads demo_wrapper imap mapM].
  change (CasualAttention_forward demo_head (keep 0) one_token)
    with (CausalAttentionWithBuffer_forward demo_head (keep 0) one_token).
  rewrite Hy0. cbn [mbind mret option_bind option_ret].
  unfold cat_last. rewrite Sy0.
  match goal with
  | |- context [forallb ?f ?l] => replace (forallb f l) with true
  end.
  2:{ cbn. rewrite Sy0. done. }
  cbn [mbind option_bind foldr]. rewrite Sy0.
  erewrite (Linear_forward_3d "out_proj" (wr_nn demo_wrapper) _ _ 1 1 1 1 eq_refl eq_refl)
    by done.
  eexists. split; [done |]. cbn [at_].
  eval_lookup. unfold linear_at, bigsum. cbn. rewrite Sy0. cbn. rewrite Ey0.
  eval_lookup. unfold attention_elem, masked_logit, bigsum. cbn.
  rewrite triu_ones_causal. cbn.
  unfold linear_at, bigsum. cbn. eval_rng demo_rng. cbn.
  destruct (Req_dec_T 1 0) as [? | _]; [lra |]. cbn.
  set (e := exp _). assert (0 < e)%R by apply exp_pos.
  destruct (Req_dec_T (e + 0) 0); [lra |]. cbn. f_equal. field. lra.
Qed.

Lemma short_context_constructed :
  CausalAttentionWithoutBuffers_init 1 1 1 0 false ones_rng = inr short_context.
Proof. unfold CausalAttentionWithoutBuffers_init. by ctor_ok. Qed.

Lemma py_pow_1_half : py_pow 1 (/ 2) = Some 1%R.
Proof. unfold py_pow. f_equal. cbn. rewrite Rpower_sqrt by lra. apply sqrt_1. Qed.

Lemma short_context_not_causal keep :
  ∃ y y', CausalAttentionWithoutBuffers_forward short_context keep tokens_0_0 = Some y
          ∧ CausalAttentionWithoutBuffers_forward short_context keep tokens_0_2 = Some y'
          ∧ same_token 1 0 0 tokens_0_0 tokens_0_2
          ∧ at_ y [0; 0; 0] = Fin 0 ∧ at_ y' [0; 0; 0] = Fin 1.
Proof.
  set (W := {| shape := [1; 1]; at_ := ones_rng "W" |}).
  destruct (CausalAttention_forward_elem short_context keep tokens_0_0 1 2 1 1 1
              W W W (triu_ones 1) 1 eq_refl eq_refl eq_refl)
    as (y & Hy & _ & Ey); try done; [by right | apply py_pow_1_half |].
  destruct (CausalAttention_forward_elem short_context keep tokens_0_2 1 2 1 1 1
              W W W (triu_ones 1) 1 eq_refl eq_refl eq_refl)
    as (y' & Hy' & _ & Ey'); try done; [by right | apply py_pow_1_half |].
  exists y, y'. split; [done |]. split; [done |]. split.
  { intros k Hk. by destruct k; [| lia]. }
  pose proof (exp_pos 0) as He.
  split.
  - rewrite Ey. eval_lookup. unfold attention_elem, masked_logit, bigsum. cbn.
    rewrite !triu_ones_causal. cbn. unfold linear_at, bigsum. cbn.
    destruct (Req_dec_T 1 0) as [? | _]; [lra |]. cbn.
    repeat match goal with
           | |- context [exp ?t] => progress (replace t with 0%R by lra)
           end.
    rewrite exp_0.
    repeat match goal with
           | |- context [Req_dec_T ?v 0] =>
               destruct (Req_dec_T v 0) as [? | _]; [lra | cbn]
           end.
    f_equal. lra.
  - rewrite Ey'. eval_lookup. unfold attention_elem, masked_logit, bigsum. cbn.
    rewrite !triu_ones_causal. cbn. unfold linear_at, bigsum. cbn.
    destruct (Req_dec_T 1 0) as [? | _]; [lra |]. cbn.
    repeat match goal with
           | |- context [exp ?t] => progress (replace t with 0%R by lra)
           end.
    rewrite exp_0.
    repeat match goal with
           | |- context [Req_dec_T ?v 0] =>
               destruct (Req_dec_T v 0) as [? | _]; [lra | cbn]
           end.
    f_equal. lra.
Qed.

Lemma mha_two_constructed : MHA_init 1 1 2 0 1 false ones_rng = inr mha_two.
Proof. unfold MHA_init. by ctor_ok. Qed.

Lemma MHA_not_causal keep :
  ∃ y y', MHA_forward mha_two keep tokens_1_1 = Some y
          ∧ MHA_forward mha_two keep tokens_1_m1 = Some y'
          ∧ same_token 1 0 0 tokens_1_1 tokens_1_m1
          ∧ at_ y [0; 0; 0] = NInf ∧ at_ y' [0; 0; 0] = PInf.
Proof.
  set (W := {| shape := [1; 1]; at_ := ones_rng "W" |}).
  destruct (MHA_forward_elem mha_two keep tokens_1_1 1 2 1 1 1 1 2
              W W W W (triu_ones 2) eq_refl eq_refl eq_refl eq_refl)
    as (y & ctx & Hy & _ & Ey & Ec); try done.
  destruct (MHA_forward_elem mha_two keep tokens_1_m1 1 2 1 1 1 1 2
              W W W W (triu_ones 2) eq_refl eq_refl eq_refl eq_refl)
    as (y' & ctx' & Hy' & _ & Ey' & Ec'); try done.
  exists y, y'. split; [done |]. split; [done |]. split.
  { intros k Hk. by destruct k; [| lia]. }
  split.
  - rewrite Ey. eval_lookup. unfold linear_at, bigsum. cbn. rewrite Ec by lia.
    eval_lookup. unfold mha_masked_score, bigsum. cbn.
    rewrite !triu_ones_causal. cbn. unfold linear_at, bigsum. cbn.
    unfold inf_times. rewrite Rsign_pos by lra. cbn.
    unfold inf_times. rewrite Rsign_pos by lra. done.
  - rewrite Ey'. eval_lookup. unfold linear_at, bigsum. cbn. rewrite Ec' by lia.
    eval_lookup. unfold mha_masked_score, bigsum. cbn.
    rewrite !triu_ones_causal. cbn. unfold linear_at, bigsum. cbn.
    unfold inf_times. rewrite Rsign_neg by lra. cbn.
    unfold inf_times. rewrite Rsign_pos by lra. done.
Qed.

(** ** Constructed modules are well-formed *)

Lemma tensor3_finite l : finite (tensor3 l).
Proof. intros idx. cbn. by repeat (destruct idx as [| ? idx]; try done). Qed.

Lemma triu_ones_mask c i j : i < c → j < c → bat (to_bool (triu_ones c)) [i; j] = (i <? j).
Proof. intros _ _. apply triu_ones_causal. Qed.

Lemma single_head_params_finite d_in d_out bias g k t :
  finite_rng g →
  params (single_head_linears d_in d_out bias g) !! k = Some t → finite t.
Proof.
  intros Hg. unfold single_head_linears, Linear_params, register_parameter, Module_init.
  destruct bias; cbn [params]; rewrite !lookup_insert, lookup_empty;
    repeat case_decide; intros [= <-]; intros idx; apply Hg.
Qed.

Lemma single_head_linear_ok d_in d_out bias g name :
  finite_rng g → name ∈ ["W_query"; "W_key"; "W_value"] →
  linear_ok (single_head_linears d_in d_out bias g) name
    (Z.to_nat d_in) (Z.to_nat d_out).
Proof.
  intros Hg Hname. split.
  - exists {| shape := [Z.to_nat d_out; Z.to_nat d_in]; at_ := g (name +:+ ".weight") |}.
    split; [| split; [done | intros idx; apply Hg]].
    repeat (apply elem_of_cons in Hname as [-> | Hname]; [by destruct bias |]).
    by apply elem_of_nil in Hname.
  - intros b Hb. by eapply single_head_params_finite.
Qed.

Lemma linear_ok_buffer m name d_in d_out bname t :
  linear_ok m name d_in d_out → linear_ok (register_buffer bname t m) name d_in d_out.
Proof. done. Qed.

Lemma linear_ok_setattr m name d_in d_out bname t :
  linear_ok m name d_in d_out → linear_ok (setattr bname t m) name d_in d_out.
Proof. unfold setattr. by destruct (buffers m !! bname). Qed.

Lemma CausalAttentionWithBuffer_init_ok d_in d_out c p bias g self :
  CausalAttentionWithBuffer_init d_in d_out c p bias g = inr self →
  finite_rng g →
  ca_ok self (Z.to_nat d_in) (Z.to_nat d_out) (Z.to_nat c) ∧ ca_dropout self = p.
Proof.
  intros H Hg. apply CausalAttentionWithBuffer_init_inr in H as (_ & _ & ->).
  split; [| done]. unfold ca_ok. cbn [ca_nn].
  split; [| split; [| split]];
    try (apply linear_ok_buffer, single_head_linear_ok; [done |];
         apply list_elem_of_In; cbn; tauto).
  exists (triu_ones (Z.to_nat c)). split; [| split; [done | apply triu_ones_mask]].
  rewrite single_head_eta. unfold getattr. cbn.
  by rewrite lookup_empty, single_head_no_mask, lookup_insert_eq.
Qed.

Lemma CausalAttentionWithoutBuffers_init_ok d_in d_out c p bias g self :
  CausalAttentionWithoutBuffers_init d_in d_out c p bias g = inr self →
  finite_rng g →
  ca_ok self (Z.to_nat d_in) (Z.to_nat d_out) (Z.to_nat c) ∧ ca_dropout self = p.
Proof.
  intros H Hg. apply CausalAttentionWithoutBuffers_init_inr in H as (_ & _ & ->).
  split; [| done]. unfold ca_ok. cbn [ca_nn].
  split; [| split; [| split]];
    try (apply linear_ok_setattr, single_head_linear_ok; [done |];
         apply list_elem_of_In; cbn; tauto).
  exists (triu_ones (Z.to_nat c)). split; [| split; [done | apply triu_ones_mask]].
  rewrite without_buffer_nn. unfold getattr. cbn. by rewrite lookup_singleton_eq.
Qed.

Lemma CombinedQKV_init_inr d_in d_out num_heads c p bias g self :
  MultiHeadAttentionCombinedQKV_init d_in d_out num_heads c p bias g = inr self →
  (num_heads ≠ 0 ∧ d_out mod num_heads = 0 ∧ 0 ≤ d_in ∧ 0 ≤ d_out ∧ 0 ≤ c)%Z
  ∧ self = {| mh_nn := register_buffer "mask" (triu_ones (Z.to_nat c))
                         (Linear_params "proj" [Z.to_nat d_out; Z.to_nat d_out] true g
                            (Linear_params "qkv" [Z.to_nat (3 * d_out); Z.to_nat d_in]
                               bias g Module_init));
              mh_d_out := d_out; mh_num_heads := num_heads;
              mh_head_dim := (d_out / num_heads)%Z; mh_context_length := c;
              mh_dropout := p |}.
Proof.
  unfold MultiHeadAttentionCombinedQKV_init. intros H. cbv zeta in H. ctor_inv.
  split; [lia | done].
Qed.

Lemma CombinedQKV_init_ok d num_heads c p bias g self :
  MultiHeadAttentionCombinedQKV_init d d num_heads c p bias g = inr self →
  finite_rng g → (0 < num_heads)%Z →
  qkv_ok self (Z.to_nat d) (Z.to_nat num_heads) (Z.to_nat (d / num_heads))
    (Z.to_nat c)
  ∧ mh_dropout self = p.
Proof.
  intros H Hg Hpos. apply CombinedQKV_init_inr in H as ((_ & Hmod & _ & Hd & _) & ->).
  split; [| done]. unfold qkv_ok. cbn [mh_nn mh_num_heads mh_head_dim].
  assert (Hfin : ∀ k t,
    params (Linear_params "proj" [Z.to_nat d; Z.to_nat d] true g
              (Linear_params "qkv" [Z.to_nat (3 * d); Z.to_nat d] bias g Module_init))
      !! k = Some t → finite t).
  { intros k t. unfold Linear_params, register_parameter, Module_init.
    destruct bias; cbn [params]; rewrite !lookup_insert, lookup_empty;
      repeat case_decide; intros [= <-]; intros idx; apply Hg. }
  split; [| split; [| split; [| split; [| split]]]].
  - split.
    + exists {| shape := [Z.to_nat (3 * d); Z.to_nat d]; at_ := g "qkv.weight" |}.
      split; [by destruct bias |]. split; [| intros idx; apply Hg].
      cbn. f_equal. lia.
    + intros b Hb. by eapply Hfin.
  - split.
    + exists {| shape := [Z.to_nat d; Z.to_nat d]; at_ := g "proj.weight" |}.
      split; [by destruct bias |]. split; [done | intros idx; apply Hg].
    + intros b Hb. by eapply Hfin.
  - exists (triu_ones (Z.to_nat c)). split; [| split; [done | apply triu_ones_mask]].
    unfold getattr. by destruct bias.
  - lia.
  - pose proof (Z.div_pos d num_heads). lia.
  - rewrite <- Z2Nat.inj_mul; [| lia | apply Z.div_pos; lia].
    f_equal. pose proof (Z.div_mod d num_heads ltac:(lia)). lia.
Qed.

Lemma plain_two_constructed :
  CausalAttentionWithoutBuffers_init 1 1 2 0 false ones_rng = inr plain_two.
Proof. unfold CausalAttentionWithoutBuffers_init. by ctor_ok. Qed.

Lemma buffered_two_constructed :
  CausalAttentionWithBuffer_init 1 1 2 0 false ones_rng = inr buffered_two.
Proof. unfold CausalAttentionWithBuffer_init. by ctor_ok. Qed.

Lemma ones_rng_finite : finite_rng ones_rng.
Proof. done. Qed.

Lemma tensor2_finite l : finite (tensor2 l).
Proof. intros idx. cbn. by repeat (destruct idx as [| ? idx]; try done). Qed.

Lemma qkv_rng_finite : finite_rng qkv_rng.
Proof.
  intros name idx. unfold qkv_rng.
  destruct (String.eqb name "qkv.weight"); [apply tensor2_finite |].
  destruct (String.eqb name "proj.weight"); [apply tensor2_finite | done].
Qed.

(** Causality over exact reals.  For [CausalAttentionWithoutBuffers],
    [CausalAttentionWithBuffer] and [MultiHeadAttentionCombinedQKV] with
    well-shaped finite weights, a causal mask of side [c] and dropout 0: two
    finite inputs of at most [c] tokens that agree on the positions up to
    [i] both have an output, and the outputs agree at position [i].  ([MHA]
    is not among them, and the fused class takes [d_in = d_out].)  The
    elements are exact reals here; in [float32] the two rows agree up to
    rounding only, and a later value that overflows to an infinity reaches
    the earlier rows as the [nan] token of [nan_token_not_causal] does. *)
Lemma causal_attention_causality :
  (∀ self d_in d_out c,
     ca_ok self d_in d_out c → ca_dropout self = 0%R →
     causal_upto (CausalAttentionWithoutBuffers_forward self) d_in d_out c)
  ∧ (∀ self d_in d_out c,
       ca_ok self d_in d_out c → ca_dropout self = 0%R →
       causal_upto (CausalAttentionWithBuffer_forward self) d_in d_out c)
  ∧ (∀ self d_out H hd c,
       qkv_ok self d_out H hd c → mh_dropout self = 0%R → 0 < hd →
       causal_upto (MultiHeadAttentionCombinedQKV_forward self) d_out d_out c).
Proof.
  split; [| split].
  - intros self d_in d_out c Hok Hp keep keep' x x' b n n' bi i **.
    by apply (CausalAttention_causal self keep keep' x x' b n n' d_in d_out c bi i).
  - intros self d_in d_out c Hok Hp keep keep' x x' b n n' bi i **.
    by apply (CausalAttention_causal self keep keep' x x' b n n' d_in d_out c bi i).
  - intros self d_out H hd c Hok Hp Hhd keep keep' x x' b n n' bi i **.
    by apply (CombinedQKV_causal self keep keep' x x' b n n' d_out H hd c bi i).
Qed.

Lemma causal_attention_causality_witness :
  (∃ y y', CausalAttentionWithoutBuffers_forward plain_two keep_all tokens_0_0 = Some y
           ∧ CausalAttentionWithoutBuffers_forward plain_two keep_all tokens_0_2 = Some y'
           ∧ shape y = [1; 2; 1] ∧ shape y' = [1; 2; 1] ∧ same_token 1 0 0 y y')
  ∧ (∃ y y', CausalAttentionWithBuffer_forward buffered_two keep_all tokens_0_0 = Some y
             ∧ CausalAttentionWithBuffer_forward buffered_two keep_all tokens_0_2 = Some y'
             ∧ shape y = [1; 2; 1] ∧ shape y' = [1; 2; 1] ∧ same_token 1 0 0 y y')
  ∧ (∃ y y', MultiHeadAttentionCombinedQKV_forward demo_qkv keep_all two_tokens = Some y
             ∧ MultiHeadAttentionCombinedQKV_forward demo_qkv keep_all two_tokens' = Some y'
             ∧ shape y = [1; 2; 2] ∧ shape y' = [1; 2; 2] ∧ same_token 2 0 0 y y').
Proof.
  destruct causal_attention_causality as (H1 & H2 & H3).
  assert (Hsame1 : ∀ t, t ≤ 0 → same_token 1 0 t tokens_0_0 tokens_0_2).
  { intros t Ht k Hk. replace t with 0 by lia. replace k with 0 by lia. reflexivity. }
  assert (Hsame2 : ∀ t, t ≤ 0 → same_token 2 0 t two_tokens two_tokens').
  { intros t Ht k Hk. replace t with 0 by lia.
    destruct k as [| [| k]]; [reflexivity | reflexivity | lia]. }
  split; [| split].
  - apply (H1 plain_two 1 1 2); try reflexivity; try lia; try apply tensor3_finite;
      try exact Hsame1.
    apply (CausalAttentionWithoutBuffers_init_ok 1 1 2 0 false ones_rng);
      [apply plain_two_constructed | apply ones_rng_finite].
  - apply (H2 buffered_two 1 1 2); try reflexivity; try lia; try apply tensor3_finite;
      try exact Hsame1.
    apply (CausalAttentionWithBuffer_init_ok 1 1 2 0 false ones_rng);
      [apply buffered_two_constructed | apply ones_rng_finite].
  - apply (H3 demo_qkv 2 1 2 2); try reflexivity; try lia; try apply tensor3_finite;
      try exact Hsame2.
    apply (CombinedQKV_init_ok 2 1 2 0 false qkv_rng);
      [apply demo_qkv_constructed | apply qkv_rng_finite | lia].
Defined.

(** ** Mean and variance *)

Lemma Rsum_S (n : nat) (f : nat → R) : Rsum (S n) f = (Rsum n f + f n)%R.
Proof.
  unfold Rsum. rewrite seq_S, fmap_app, foldr_app. cbn.
  generalize (f <$> seq 0 n). intros l. induction l as [| a l IH]; cbn; [lra |].
  rewrite IH. lra.
Qed.

Lemma Rsum_ext (n : nat) (f g : nat → R) :
  (∀ i, f i = g i) → Rsum n f = Rsum n g.
Proof.
  intros H. unfold Rsum. f_equal. apply list_fmap_ext. intros ? i _. apply H.
Qed.

Lemma bigsum_fin (n : nat) (f : nat → xreal) :
  (∀ i, is_fin (f i)) → bigsum n f = Fin (Rsum n (λ i, real_of (f i))).
Proof.
  intros H. unfold bigsum, Rsum, xsum.
  induction (seq 0 n) as [| i l IH]; [done |].
  cbn. rewrite IH. rewrite (is_fin_eq (f i)) at 1 by done. done.
Qed.

(** [(a_0 + ... + a_(n-1))^2 <= n * (a_0^2 + ... + a_(n-1)^2)] *)
Lemma Rsum_square_le (n : nat) (f : nat → R) :
  (Rsum n f * Rsum n f <= INR n * Rsum n (λ i, f i * f i))%R.
Proof.
  induction n as [| n IH].
  - unfold Rsum. cbn. lra.
  - rewrite !Rsum_S, S_INR.
    set (s := Rsum n f) in *. set (q := Rsum n (λ i, f i * f i)%R) in *.
    set (a := f n). set (m := INR n) in *.
    assert (0 <= m)%R by apply pos_INR.
    assert (0 <= q)%R.
    { unfold q. clear. induction n as [| n IH]; [unfold Rsum; cbn; lra |].
      rewrite Rsum_S. nra. }
    (* 2 s a <= m a^2 + q, from (s - m a)^2 >= 0 and s^2 <= m q *)
    assert (2 * s * a <= m * (a * a) + q)%R as Hmid.
    { destruct (Req_dec m 0) as [Hm | Hm].
      - rewrite Hm in *. assert (s = 0)%R as -> by nra. lra.
      - assert (0 < m)%R as Hpos by lra.
        pose proof (Rle_0_sqr (s - m * a)) as Hsq. unfold Rsqr in Hsq.
        apply (Rmult_le_reg_l m); [done |]. nra. }
    nra.
Qed.

(** The variance [E[a^2] - E[a]^2] of a nonempty family is nonnegative. *)
Lemma variance_nonneg (n : nat) (f : nat → R) :
  0 < n →
  (0 <= Rsum n (λ i, f i * f i) / INR n - (Rsum n f / INR n) * (Rsum n f / INR n))%R.
Proof.
  intros Hn. pose proof (Rsum_square_le n f) as H.
  assert (0 < INR n)%R as Hpos by (apply lt_0_INR; lia).
  set (s := Rsum n f) in *. set (q := Rsum n (λ i, f i * f i)%R) in *.
  set (m := INR n) in *.
  replace (q / m - s / m * (s / m))%R with ((m * q - s * s) / (m * m))%R
    by (field; lra).
  apply Rmult_le_pos; [lra |]. apply Rlt_le, Rinv_0_lt_compat. nra.
Qed.

Lemma numel_pick_pos (flags : list bool) (s : list nat) (b : bool) :
  0 < numel s → 0 < numel (pick flags s b).
Proof.
  revert s. induction flags as [| f flags IH]; intros [| d s] H; cbn; try lia.
  unfold numel in H. cbn in H. fold (numel s) in H.
  assert (0 < d ∧ 0 < numel s) as [Hd Hs] by nia.
  destruct (Bool.eqb f b); [| by apply IH].
  change (0 < d * numel (pick flags s b)). specialize (IH s Hs). nia.
Qed.

Lemma variance_of_family (n : nat) (a : nat → xreal) :
  (∀ i, is_fin (a i)) → 0 < n →
  ∃ v, xsub (xdiv (bigsum n (λ i, xmul (a i) (a i))) (Fin (INR n)))
            (xmul (xdiv (bigsum n a) (Fin (INR n))) (xdiv (bigsum n a) (Fin (INR n))))
       = Fin v ∧ (0 <= v)%R.
Proof.
  intros Hfin Hpos.
  rewrite (bigsum_fin n a) by done.
  rewrite (bigsum_fin n (λ i, xmul (a i) (a i))) by (intros i; by apply is_fin_xmul).
  assert (0 < INR n)%R as Hn by (apply lt_0_INR; lia).
  rewrite !xdiv_fin by lra. cbn [xmul xsub xadd xopp].
  eexists. split; [reflexivity |].
  pose proof (variance_nonneg n (λ i, real_of (a i)) Hpos) as Hv.
  rewrite (Rsum_ext n _ (λ i, real_of (a i) * real_of (a i))%R).
  - unfold Rminus in Hv. exact Hv.
  - intros i. specialize (Hfin i). by destruct (a i).
Qed.

(** The variance of a nonempty group of finite elements. *)
Lemma mean_var_at (flags : list bool) (keepdim : bool) (t : tensor) (idx : index) :
  finite t → 0 < numel (pick flags (shape t) true) →
  ∃ v, xsub (mean_at flags keepdim (square t) idx)
            (xmul (mean_at flags keepdim t idx) (mean_at flags keepdim t idx))
       = Fin v ∧ (0 <= v)%R.
Proof.
  intros Hfin Hpos. unfold mean_at. cbn [square tmap shape at_].
  apply (variance_of_family _ (λ off, at_ t (merge_ix flags
           (if keepdim then pick flags idx false else idx)
           (unflatten (pick flags (shape t) true) off)))); [| done].
  intros i. apply Hfin.
Qed.

(** What [mean_dims] returns. *)
Lemma mean_dims_Some (dims : list Z) (keepdim : bool) (t : tensor) (ds : list nat) :
  mapM (norm_dim (length (shape t))) dims = Some ds → NoDup ds →
  ∃ flags m, mean_dims dims keepdim t = Some m
    ∧ at_ m = mean_at flags keepdim t
    ∧ shape m = (if keepdim
                 then zip_with (λ (f : bool) d, if f then 1 else d) flags (shape t)
                 else pick flags (shape t) false)
    ∧ flags = (λ d, bool_decide (ds = [] ∨ d ∈ ds)) <$> seq 0 (length (shape t)).
Proof.
  intros Hds Hnd. unfold mean_dims. rewrite Hds. cbn.
  rewrite decide_True by done. eauto 10.
Qed.

Lemma bshape_rev_diag (l : list nat) : bshape_rev l l = Some l.
Proof.
  induction l as [| d l IH]; [done |]. cbn. rewrite IH. cbn.
  by rewrite Nat.eqb_refl.
Qed.

Lemma bop_same_shape f (a b : tensor) :
  shape a = shape b →
  bop f a b = Some {| shape := shape a; at_ := bop_at f a b |}.
Proof.
  intros H. unfold bop. rewrite <- H, bshape_rev_diag. cbn.
  by rewrite reverse_involutive.
Qed.

(** The divisor of the normalization is positive where the variance is
    nonnegative. *)
Lemma norm_divisor_pos (var : tensor) (eps : R) (idx : index) (v : R) :
  at_ var idx = Fin v → (0 <= v)%R → (0 < eps)%R →
  ∃ s, at_ (norm_divisor var eps) idx = Fin s ∧ (0 < s)%R.
Proof.
  intros Hv Hnn Heps. unfold norm_divisor. cbn [tmap at_]. rewrite Hv.
  cbn [xadd]. rewrite xsqrt_fin by lra.
  eexists. split; [done |]. apply sqrt_lt_R0. lra.
Qed.

(** The variance tensor [E[x^2] - E[x]^2] over the reduced dimensions
    [dims]: every element is a nonnegative real. *)
Lemma variance_tensor (dims : list Z) (keepdim : bool) (x : tensor) (ds : list nat) :
  mapM (norm_dim (length (shape x))) dims = Some ds → NoDup ds →
  finite x → 0 < numel (shape x) →
  ∃ mean mean_x2 var,
    mean_dims dims keepdim x = Some mean
    ∧ mean_dims dims keepdim (square x) = Some mean_x2
    ∧ bop xsub mean_x2 (square mean) = Some var
    ∧ shape var = shape mean
    ∧ ∀ idx, ∃ v, at_ var idx = Fin v ∧ (0 <= v)%R.
Proof.
  intros Hds Hnd Hfin Hpos.
  destruct (mean_dims_Some dims keepdim x ds Hds Hnd)
    as (flags & mean & Hmean & Hat & Hsh & Hflags).
  destruct (mean_dims_Some dims keepdim (square x) ds Hds Hnd)
    as (flags2 & mean2 & Hmean2 & Hat2 & Hsh2 & Hflags2).
  cbn [square tmap shape] in Hflags2, Hsh2.
  assert (flags2 = flags) as -> by congruence.
  assert (shape mean2 = shape (square mean)) as Hss by (cbn; congruence).
  exists mean, mean2. eexists. split_and!; [done | done | |  |].
  - by apply bop_same_shape.
  - cbn. congruence.
  - intros idx. cbn [at_]. unfold bop_at. rewrite Hss. cbn [square tmap shape at_].
    rewrite Hat, Hat2. apply mean_var_at; [done |]. by apply numel_pick_pos.
Qed.

(** ** [LayerNorm] *)

Lemma last_dims_norm (rank k : nat) :
  k ≤ rank →
  mapM (norm_dim rank) (last_dims k) = Some ((λ i, rank - 1 - i) <$> seq 0 k).
Proof.
  intros Hk. apply mapM_Some. unfold last_dims.
  apply Forall2_fmap, Forall_Forall2_diag, Forall_forall.
  intros i [_ Hi]%elem_of_seq. unfold norm_dim.
  replace ((0 <=? - (Z.of_nat i + 1)) && (- (Z.of_nat i + 1) <? Z.of_nat rank))%Z
    with false by (symmetry; apply andb_false_iff; left; lia).
  replace ((- Z.of_nat rank <=? - (Z.of_nat i + 1)) && (- (Z.of_nat i + 1) <? 0))%Z
    with true by (symmetry; apply andb_true_iff; lia).
  f_equal. lia.
Qed.

Lemma last_dims_NoDup (rank k : nat) :
  k ≤ rank → NoDup ((λ i, rank - 1 - i) <$> seq 0 k).
Proof.
  intros Hk. apply NoDup_fmap_2_strong; [| apply NoDup_seq].
  intros i j [_ Hi]%elem_of_seq [_ Hj]%elem_of_seq. lia.
Qed.

Lemma length_neg_slice {A} (k : nat) (l : list A) :
  k = length (neg_slice k l) → k ≤ length l.
Proof.
  unfold neg_slice. destruct (k =? 0) eqn:E.
  - apply Nat.eqb_eq in E. lia.
  - rewrite length_drop. lia.
Qed.

(** The variance [LayerNorm.forward] computes for a nonempty finite input
    of a matching shape: every element is a nonnegative real, and the
    divisor [sqrt(var + eps)] is a positive real. *)
Lemma LayerNorm_var_nonneg (self : LayerNorm) (x : tensor) :
  shape_asserted self x →
  finite x → 0 < numel (shape x) → (0 < ln_eps self)%R →
  ∃ var, LayerNorm_var self x = Some var
    ∧ ∀ idx, ∃ v s, at_ var idx = Fin v ∧ (0 <= v)%R
        ∧ at_ (norm_divisor var (ln_eps self)) idx = Fin s ∧ (0 < s)%R.
Proof.
  unfold shape_asserted. intros Hshape Hfin Hpos Heps.
  set (k := length (normalized_shape self)) in *.
  assert (k ≤ length (shape x)) as Hk.
  { apply length_neg_slice. unfold k at 1. rewrite Hshape. unfold zs.
    by rewrite length_fmap. }
  destruct (variance_tensor (last_dims k) true x _
              (last_dims_norm _ _ Hk) (last_dims_NoDup _ _ Hk) Hfin Hpos)
    as (mean & mean2 & var & Hm & Hm2 & Hvar & _ & Hnn).
  exists var. split.
  - unfold LayerNorm_var. fold k. rewrite Hm, Hm2. exact Hvar.
  - intros idx. destruct (Hnn idx) as (v & Hv & Hv0).
    destruct (norm_divisor_pos var (ln_eps self) idx v Hv Hv0 Heps) as (s & Hs & Hs0).
    eauto 10.
Qed.

(** ** [BatchNorm] *)

Lemma getattr_setattr_ne (name name' : string) (t : tensor) (m : Module) :
  name ≠ name' → getattr name' (setattr name t m) = getattr name' m.
Proof.
  intros Hne. unfold setattr, getattr.
  destruct (buffers m !! name); cbn; by rewrite lookup_insert_ne.
Qed.

Lemma view_batch (x : tensor) (B C : nat) (rest : list nat) :
  shape x = B :: C :: rest → 0 < B → 0 < C →
  view [Z.of_nat B; Z.of_nat C; (-1)%Z] x
  = Some {| shape := [B; C; numel rest]; at_ := view_at x [B; C; numel rest] |}.
Proof.
  intros Hs HB HC. unfold view, infer_size. rewrite Hs.
  rewrite !filter_cons_True by (cbn; lia).
  rewrite filter_cons_False by (cbn; intros H; by apply H).
  rewrite filter_nil. cbn [length foldr Nat.sub].
  rewrite decide_True by (repeat constructor; lia).
  rewrite !numel_cons. rewrite decide_True.
  - cbn [fmap list_fmap mbind option_bind].
    rewrite !decide_False by lia. rewrite decide_True by done.
    rewrite !Nat2Z.id.
    replace (B * (C * numel rest) / Z.to_nat (Z.of_nat B * (Z.of_nat C * 1)))
      with (numel rest); [done |].
    replace (Z.to_nat (Z.of_nat B * (Z.of_nat C * 1))) with (B * C) by lia.
    replace (B * (C * numel rest)) with (numel rest * (B * C)) by lia.
    rewrite Nat.div_mul; lia.
  - split; [lia |].
    replace (Z.of_nat (B * (C * numel rest)))
      with (Z.of_nat (numel rest) * (Z.of_nat B * (Z.of_nat C * 1)))%Z by lia.
    apply Z_mod_mult.
Qed.

Lemma view_batch_inv (x x3 : tensor) (B C : nat) :
  view [Z.of_nat B; Z.of_nat C; (-1)%Z] x = Some x3 → 0 < B ∧ 0 < C.
Proof.
  unfold view, infer_size.
  rewrite !filter_cons_True by (cbn; lia).
  rewrite filter_cons_False by (cbn; intros H; by apply H).
  rewrite filter_nil. cbn [length foldr Nat.sub].
  rewrite decide_True by (repeat constructor; lia).
  case_decide as H; [| done]. intros _. destruct H as [H _]. nia.
Qed.

Lemma view_column (t : tensor) (C : nat) :
  shape t = [C] →
  view [1; -1; 1]%Z t = Some {| shape := [1; C; 1]; at_ := view_at t [1; C; 1] |}.
Proof.
  intros Hs. unfold view, infer_size. rewrite Hs.
  rewrite filter_cons_True by (cbn; lia).
  rewrite filter_cons_False by (cbn; intros H; by apply H).
  rewrite filter_cons_True by (cbn; lia).
  rewrite filter_nil. cbn [length foldr Nat.sub].
  rewrite decide_True
    by (apply Forall_forall; intros z Hz%list_elem_of_In; cbn in Hz; lia).
  rewrite decide_True.
  - cbn [fmap list_fmap mbind option_bind].
    rewrite !decide_False by lia. rewrite decide_True by done.
    change (Z.to_nat (1 * (1 * 1))) with 1. rewrite Nat.div_1_r.
    change (Z.to_nat 1) with 1.
    rewrite numel_cons. change (numel []) with 1. by rewrite Nat.mul_1_r.
  - split; [lia |]. apply Z.mod_1_r.
Qed.

Lemma view_column_at (t : tensor) (C c : nat) :
  shape t = [C] → view_at t [1; C; 1] [0; c; 0] = at_ t [c].
Proof.
  intros Hs. unfold view_at. rewrite Hs.
  change (flatten [1; C; 1] [0; c; 0]) with (0 * numel [C; 1] + (c * 1 + (0 * 1 + 0))).
  change (unflatten [C] ?o) with [o / 1].
  rewrite Nat.div_1_r. do 2 f_equal. lia.
Qed.

Lemma bcast_column (C b c k : nat) : c < C → bcast_ix [1; C; 1] [b; c; k] = [0; c; 0].
Proof.
  intros Hc. unfold bcast_ix. cbn.
  destruct (C =? 1) eqn:E; [| done]. apply Nat.eqb_eq in E. do 2 f_equal. lia.
Qed.

Lemma bcast_full (B C N b c k : nat) :
  b < B → c < C → k < N → bcast_ix [B; C; N] [b; c; k] = [b; c; k].
Proof.
  intros Hb Hc Hk. unfold bcast_ix. cbn.
  destruct (B =? 1) eqn:E1; [apply Nat.eqb_eq in E1 |];
  destruct (C =? 1) eqn:E2; [apply Nat.eqb_eq in E2 | | apply Nat.eqb_eq in E2 |];
  destruct (N =? 1) eqn:E3; try apply Nat.eqb_eq in E3;
  repeat f_equal; lia.
Qed.

Lemma bcast_vector (C c : nat) : c < C → bcast_ix [C] [c] = [c].
Proof.
  intros Hc. unfold bcast_ix. cbn.
  destruct (C =? 1) eqn:E; [| done]. apply Nat.eqb_eq in E. f_equal. lia.
Qed.

Lemma bshape_column (B C N : nat) : bshape_rev [N; C; B] [1; C; 1] = Some [N; C; B].
Proof.
  cbn. rewrite Nat.eqb_refl.
  destruct (B =? 1) eqn:EB; cbn; [apply Nat.eqb_eq in EB; subst |];
  (destruct (N =? 1) eqn:EN; [apply Nat.eqb_eq in EN; by subst | done]).
Qed.

Lemma bshape_column_l (B C N : nat) : bshape_rev [1; C; 1] [N; C; B] = Some [N; C; B].
Proof.
  cbn. rewrite Nat.eqb_refl.
  destruct B as [| [| B]], N as [| [| N]]; done.
Qed.

Lemma bop_column f (a b : tensor) (B C N : nat) :
  shape a = [B; C; N] → shape b = [1; C; 1] →
  bop f a b = Some {| shape := [B; C; N]; at_ := bop_at f a b |}.
Proof.
  intros Ha Hb. unfold bop. rewrite Ha, Hb.
  change (reverse [B; C; N]) with [N; C; B]. change (reverse [1; C; 1]) with [1; C; 1].
  rewrite bshape_column. done.
Qed.

Lemma bop_column_l f (a b : tensor) (B C N : nat) :
  shape a = [1; C; 1] → shape b = [B; C; N] →
  bop f a b = Some {| shape := [B; C; N]; at_ := bop_at f a b |}.
Proof.
  intros Ha Hb. unfold bop. rewrite Ha, Hb.
  change (reverse [B; C; N]) with [N; C; B]. change (reverse [1; C; 1]) with [1; C; 1].
  rewrite bshape_column_l. done.
Qed.

Lemma mean_dims_batch (t : tensor) (B C N : nat) :
  shape t = [B; C; N] →
  mean_dims [0; 2]%Z false t
  = Some {| shape := [C]; at_ := mean_at [true; false; true] false t |}.
Proof.
  intros Hs. unfold mean_dims. rewrite Hs. cbn [length].
  change (mapM (norm_dim 3) [0; 2]%Z) with (Some [0; 2]).
  cbn [mbind option_bind].
  rewrite decide_True.
  - change ((λ d, bool_decide ([0; 2] = [] ∨ d ∈ [0; 2])) <$> seq 0 3)
      with [true; false; true].
    done.
  - apply NoDup_cons_2; [| apply NoDup_singleton].
    intros H%list_elem_of_In. cbn in H. lia.
Qed.

(** The mean over the first and the last dimension of the regrouped input
    is the mean over the batch and the remaining dimensions. *)
Lemma mean_at_batch (f : xreal → xreal) (x : tensor) (B C : nat) (rest : list nat) (c : nat) :
  shape x = B :: C :: rest → c < C →
  mean_at [true; false; true] false
    (tmap f {| shape := [B; C; numel rest]; at_ := view_at x [B; C; numel rest] |}) [c]
  = channel_mean f x c.
Proof.
  intros Hs Hc. unfold mean_at, channel_mean. rewrite Hs.
  cbn [tmap shape at_ pick Bool.eqb].
  rewrite !numel_cons. change (numel []) with 1. rewrite !Nat.mul_1_r.
  f_equal. apply bigsum_ext. intros off Hoff.
  cbn [merge_ix unflatten hd tl]. rewrite !numel_cons. change (numel []) with 1.
  rewrite !Nat.mul_1_r, Nat.div_1_r.
  unfold view_at. rewrite Hs. f_equal.
  set (N := numel rest) in *.
  assert (0 < N) as HN by (destruct N; lia).
  assert (off mod N < N) as Hk by (apply Nat.mod_upper_bound; lia).
  rewrite (unflatten_flatten_prefix2 B C rest [N] (off / N) c [off mod N]).
  - do 3 f_equal. cbn. change (numel []) with 1.
    by rewrite Nat.mul_1_r, Nat.add_0_r.
  - rewrite numel_cons. change (numel []) with 1. lia.
  - done.
  - cbn. change (numel []) with 1. rewrite Nat.mul_1_r, Nat.add_0_r.
    rewrite Nat.mul_1_r. exact Hk.
Qed.

Lemma flatten_lt (s : list nat) (idx : index) :
  in_range s idx = true → flatten s idx < numel s.
Proof.
  revert idx. induction s as [| d s IH]; intros [| i idx] H; try done.
  - cbn. lia.
  - cbn in H. apply andb_true_iff in H as [Hi Hr]. apply Nat.ltb_lt in Hi.
    specialize (IH idx Hr). cbn [flatten]. rewrite numel_cons. nia.
Qed.

Lemma unflatten_flatten (s : list nat) (idx : index) :
  in_range s idx = true → unflatten s (flatten s idx) = idx.
Proof.
  revert idx. induction s as [| d s IH]; intros [| i idx] H; try done.
  cbn in H. apply andb_true_iff in H as [Hi Hr]. apply Nat.ltb_lt in Hi.
  pose proof (flatten_lt s idx Hr) as Hlt.
  cbn [flatten unflatten].
  rewrite Nat.div_add_l by lia. rewrite Nat.div_small by done.
  rewrite (Nat.add_comm (i * numel s)), Nat.Div0.mod_add, Nat.mod_small by done.
  rewrite IH by done. f_equal. lia.
Qed.

Lemma BatchNorm_stats_batch (self : BatchNorm) (x3 : tensor) (B C N : nat) :
  shape x3 = [B; C; N] → bn_ok self C →
  training (bn_nn self) || negb (track_running_stats self) = true →
  ∃ self', BatchNorm_stats self x3 = Some (stats_mean x3, stats_var x3, self').
Proof.
  intros Hs (Hch & Htrack & _) Hmode. unfold BatchNorm_stats. rewrite Hmode.
  rewrite (mean_dims_batch x3 B C N Hs).
  rewrite (mean_dims_batch (square x3) B C N Hs).
  cbn [mbind option_bind].
  assert (stats_mean x3 = {| shape := [C]; at_ := mean_at [true; false; true] false x3 |})
    as <- by (unfold stats_mean; by rewrite Hs).
  assert (stats_mean (square x3)
          = {| shape := [C]; at_ := mean_at [true; false; true] false (square x3) |})
    as <- by (unfold stats_mean; cbn [square tmap shape]; by rewrite Hs).
  rewrite bop_same_shape by done. cbn [mbind option_bind].
  assert ({| shape := shape (stats_mean (square x3));
             at_ := bop_at xsub (stats_mean (square x3)) (square (stats_mean x3)) |}
          = stats_var x3) as -> by done.
  destruct (training (bn_nn self) && track_running_stats self) eqn:E; [| eauto].
  apply andb_true_iff in E as [_ Etr].
  destruct (Htrack Etr) as [(em & Hem & Hems) (ev & Hev & Hevs)].
  rewrite Hem. cbn [mbind option_bind].
  unfold moving_average.
  rewrite bop_same_shape by (cbn [tmap shape stats_mean]; by rewrite Hems, Hs).
  cbn [mbind option_bind with_nn bn_nn].
  rewrite getattr_setattr_ne by done. rewrite Hev. cbn [mbind option_bind].
  rewrite bop_same_shape by (cbn [tmap shape stats_var]; by rewrite Hevs, Hs).
  cbn [mbind option_bind]. eauto.
Qed.

Lemma BatchNorm_stats_stored (self : BatchNorm) (x3 : tensor) :
  training (bn_nn self) || negb (track_running_stats self) = false →
  BatchNorm_stats self x3
  = (mean ← getattr "exp_mean" (bn_nn self);
     var ← getattr "exp_var" (bn_nn self);
     Some (mean, var, self)).
Proof. intros Hmode. unfold BatchNorm_stats. by rewrite Hmode. Qed.

(** [forward], given the statistics it normalizes with. *)
Lemma BatchNorm_forward_elem (self self' : BatchNorm) (x mean var : tensor)
    (B C : nat) (rest : list nat) :
  shape x = B :: C :: rest → 0 < B → 0 < C → bn_ok self C →
  BatchNorm_stats self
    {| shape := [B; C; numel rest]; at_ := view_at x [B; C; numel rest] |}
  = Some (mean, var, self') →
  shape mean = [C] → shape var = [C] →
  ∃ out, BatchNorm_forward self x = Some (out, self')
    ∧ shape out = shape x
    ∧ ∀ b c r, b < B → c < C → in_range rest r = true →
        at_ out (b :: c :: r)
        = scale_shift self c
            (xdiv (xsub (at_ x (b :: c :: r)) (at_ mean [c]))
                  (xsqrt (xadd (at_ var [c]) (Fin (bn_eps self))))).
Proof.
  intros Hs HB HC (Hch & _ & Haff) Hstats Hms Hvs.
  unfold BatchNorm_forward. rewrite Hs. cbn [lookup list_lookup mbind option_bind].
  rewrite decide_True by done. rewrite Hch.
  rewrite (view_batch x B C rest Hs HB HC). cbn [mbind option_bind].
  rewrite Hstats. cbn [mbind option_bind].
  rewrite (view_column mean C Hms). cbn [mbind option_bind].
  rewrite (view_column (norm_divisor var (bn_eps self)) C) by done.
  cbn [mbind option_bind].
  set (N := numel rest) in *.
  set (x3 := {| shape := [B; C; N]; at_ := view_at x [B; C; N] |}) in *.
  set (mean3 := {| shape := [1; C; 1]; at_ := view_at mean [1; C; 1] |}).
  set (div3 := {| shape := [1; C; 1];
                  at_ := view_at (norm_divisor var (bn_eps self)) [1; C; 1] |}).
  rewrite (bop_column xsub x3 mean3 B C N) by done. cbn [mbind option_bind].
  set (centered := {| shape := [B; C; N]; at_ := bop_at xsub x3 mean3 |}).
  rewrite (bop_column xdiv centered div3 B C N) by done. cbn [mbind option_bind].
  set (x_norm := {| shape := [B; C; N]; at_ := bop_at xdiv centered div3 |}).
  assert (Hnumel : numel (B :: C :: rest) = numel [B; C; N]).
  { rewrite !numel_cons. change (numel []) with 1. unfold N. lia. }
  assert (Hix : ∀ b c r, b < B → c < C → in_range rest r = true →
            unflatten [B; C; N] (flatten (B :: C :: rest) (b :: c :: r))
            = [b; c; flatten rest r] ∧ flatten rest r < N).
  { intros b c r Hb Hc Hr. pose proof (flatten_lt rest r Hr) as Hlt. split; [| done].
    rewrite (unflatten_flatten_prefix2 B C [N] rest b c r); [| | done | done].
    - change (unflatten [N] ?k) with [k / 1]. by rewrite Nat.div_1_r.
    - rewrite numel_cons. change (numel []) with 1. unfold N. lia. }
  assert (Hx3 : ∀ b c r, b < B → c < C → in_range rest r = true →
            at_ x3 [b; c; flatten rest r] = at_ x (b :: c :: r)).
  { intros b c r Hb Hc Hr. pose proof (flatten_lt rest r Hr) as Hlt.
    cbn [x3 at_]. unfold view_at. rewrite Hs.
    rewrite (unflatten_flatten_prefix2 B C rest [N] b c [flatten rest r]).
    - do 3 f_equal. cbn [flatten]. change (numel []) with 1.
      rewrite Nat.mul_1_r, Nat.add_0_r. by apply unflatten_flatten.
    - rewrite numel_cons. change (numel []) with 1. unfold N. lia.
    - done.
    - cbn [flatten]. rewrite numel_cons. change (numel []) with 1.
      rewrite !Nat.mul_1_r, Nat.add_0_r. done. }
  assert (Hnorm : ∀ b c r, b < B → c < C → in_range rest r = true →
            at_ x_norm [b; c; flatten rest r]
            = xdiv (xsub (at_ x (b :: c :: r)) (at_ mean [c]))
                   (xsqrt (xadd (at_ var [c]) (Fin (bn_eps self))))).
  { intros b c r Hb Hc Hr. pose proof (flatten_lt rest r Hr) as Hlt.
    cbn [x_norm centered at_]. unfold bop_at.
    cbn [shape centered div3 mean3 x3].
    rewrite bcast_column, bcast_full by done.
    cbn [centered div3 at_]. unfold bop_at. cbn [shape mean3 x3].
    rewrite bcast_column, bcast_full by done.
    change (view_at x [B; C; N]) with (at_ x3).
    rewrite Hx3 by done.
    rewrite !view_column_at by done. cbn [mean3 at_].
    rewrite view_column_at by done. done. }
  destruct (affine self) eqn:Eaff.
  - destruct (Haff eq_refl) as [(sc & Hsc & Hscs) (sh & Hsh & Hshs)].
    rewrite Hsc, Hsh. cbn [mbind option_bind].
    rewrite (view_column sc C Hscs), (view_column sh C Hshs). cbn [mbind option_bind].
    set (scale3 := {| shape := [1; C; 1]; at_ := view_at sc [1; C; 1] |}).
    set (shift3 := {| shape := [1; C; 1]; at_ := view_at sh [1; C; 1] |}).
    rewrite (bop_column_l xmul scale3 x_norm B C N) by done. cbn [mbind option_bind].
    set (scaled := {| shape := [B; C; N]; at_ := bop_at xmul scale3 x_norm |}).
    rewrite (bop_column xadd scaled shift3 B C N) by done. cbn [mbind option_bind].
    change (B :: C :: rest) with (B :: C :: rest).
    rewrite view_zs by (cbn [shape]; done). cbn [mbind option_bind].
    eexists. split; [reflexivity |]. split; [done |].
    intros b c r Hb Hc Hr. destruct (Hix b c r Hb Hc Hr) as [Hi Hlt].
    cbn [at_]. unfold view_at at 1. cbn [shape]. rewrite Hi.
    unfold bop_at at 1. cbn [shape scaled shift3 at_].
    rewrite bcast_column, bcast_full by done.
    unfold bop_at at 1. cbn [shape scale3 x_norm].
    rewrite bcast_column, bcast_full by done.
    cbn [at_]. rewrite !view_column_at by done.
    change (bop_at xdiv centered div3) with (at_ x_norm).
    rewrite Hnorm by done.
    unfold scale_shift, stored. rewrite Eaff, Hsc, Hsh.
    cbn [scale3 at_]. by rewrite view_column_at.
  - cbn [mbind option_bind].
    rewrite view_zs by (cbn [shape]; done). cbn [mbind option_bind].
    eexists. split; [reflexivity |]. split; [done |].
    intros b c r Hb Hc Hr. destruct (Hix b c r Hb Hc Hr) as [Hi Hlt].
    cbn [at_]. unfold view_at at 1. change (shape x_norm) with [B; C; N].
    rewrite Hi, Hnorm by done. unfold scale_shift. by rewrite Eaff.
Qed.

Lemma BatchNorm_init_ok (c : Z) (eps mom : R) (aff track : bool) (self : BatchNorm) :
  (0 ≤ c)%Z →
  BatchNorm_init c eps mom aff track = inr self →
  bn_ok self (Z.to_nat c) ∧ training (bn_nn self) = true.
Proof.
  unfold BatchNorm_init. cbv zeta. intros Hc H.
  assert (check_sizes [c] = inr [Z.to_nat c]) as Hsz.
  { apply check_sizes_inr. split; [| done]. apply Forall_cons. split; [done | constructor]. }
  rewrite Hsz in H.
  destruct aff, track; cbn in H; injection H as <-.
  all: unfold bn_ok, has_vector; cbn.
  all: split_and!; try done; try lia.
  all: intros _; split; eexists; split; reflexivity.
Qed.

Lemma stats_mean_at (x : tensor) (B C : nat) (rest : list nat) (c : nat) :
  shape x = B :: C :: rest → c < C →
  at_ (stats_mean {| shape := [B; C; numel rest];
                     at_ := view_at x [B; C; numel rest] |}) [c]
  = batch_mean x c.
Proof.
  intros Hs Hc. unfold batch_mean. rewrite <- (mean_at_batch _ x B C rest c Hs Hc).
  done.
Qed.

Lemma stats_var_at (x : tensor) (B C : nat) (rest : list nat) (c : nat) :
  shape x = B :: C :: rest → c < C →
  at_ (stats_var {| shape := [B; C; numel rest];
                    at_ := view_at x [B; C; numel rest] |}) [c]
  = batch_var x c.
Proof.
  intros Hs Hc. unfold batch_var, batch_mean.
  rewrite <- !(mean_at_batch _ x B C rest c Hs Hc).
  cbn [stats_var at_]. unfold bop_at. cbn [stats_mean square tmap shape List.nth at_].
  rewrite bcast_vector by done. done.
Qed.

(** [BatchNorm.forward] on a contiguous input of shape [(batch_size,
    channels, ...)] with a nonempty batch: the shape and the elements of the
    output. *)
Lemma BatchNorm_forward_elements (self : BatchNorm) (x : tensor)
    (B C : nat) (rest : list nat) :
  shape x = B :: C :: rest → 0 < B → 0 < C → bn_ok self C →
  ∃ out self', BatchNorm_forward self x = Some (out, self')
    ∧ shape out = shape x
    ∧ ∀ b c r, b < B → c < C → in_range rest r = true →
        at_ out (b :: c :: r) = normalized self x c (at_ x (b :: c :: r)).
Proof.
  intros Hs HB HC Hok.
  set (x3 := {| shape := [B; C; numel rest]; at_ := view_at x [B; C; numel rest] |}).
  destruct (training (bn_nn self) || negb (track_running_stats self)) eqn:Hmode.
  - destruct (BatchNorm_stats_batch self x3 B C (numel rest) eq_refl Hok Hmode)
      as (self' & Hstats).
    destruct (BatchNorm_forward_elem self self' x (stats_mean x3) (stats_var x3)
                B C rest Hs HB HC Hok Hstats eq_refl eq_refl)
      as (out & Hout & Hshape & Hat).
    exists out, self'. split_and!; [done | done |].
    intros b c r Hb Hc Hr. rewrite (Hat b c r Hb Hc Hr).
    unfold x3. rewrite (stats_mean_at x B C rest c Hs Hc).
    rewrite (stats_var_at x B C rest c Hs Hc).
    unfold normalized, scale_shift, selected_mean, selected_var. by rewrite Hmode.
  - pose proof Hok as (_ & Htrack & _).
    apply orb_false_iff in Hmode as Hm. destruct Hm as [_ Htr].
    apply negb_false_iff in Htr.
    destruct (Htrack Htr) as [(em & Hem & Hems) (ev & Hev & Hevs)].
    assert (BatchNorm_stats self x3 = Some (em, ev, self)) as Hstats.
    { rewrite BatchNorm_stats_stored by done. by rewrite Hem, Hev. }
    destruct (BatchNorm_forward_elem self self x em ev
                B C rest Hs HB HC Hok Hstats Hems Hevs)
      as (out & Hout & Hshape & Hat).
    exists out, self. split_and!; [done | done |].
    intros b c r Hb Hc Hr. rewrite (Hat b c r Hb Hc Hr).
    unfold normalized, scale_shift, selected_mean, selected_var, stored.
    by rewrite Hmode, Hem, Hev.
Qed.

Lemma finite_view (x : tensor) (s : list nat) :
  finite x → finite {| shape := s; at_ := view_at x s |}.
Proof. intros H idx. apply H. Qed.

(** The variance [BatchNorm.forward] computes from a nonempty finite
    batch. *)
Lemma BatchNorm_var_nonneg (self : BatchNorm) (x : tensor) (B C : nat) (rest : list nat) :
  shape x = B :: C :: rest → bn_ok self C →
  finite x → 0 < numel (shape x) → (0 < bn_eps self)%R →
  training (bn_nn self) || negb (track_running_stats self) = true →
  ∃ x3 mean var self',
    view [Z.of_nat B; channels self; (-1)%Z] x = Some x3
    ∧ BatchNorm_stats self x3 = Some (mean, var, self')
    ∧ ∀ idx, ∃ v s, at_ var idx = Fin v ∧ (0 <= v)%R
        ∧ at_ (norm_divisor var (bn_eps self)) idx = Fin s ∧ (0 < s)%R.
Proof.
  intros Hs Hok Hfin Hpos Heps Hmode.
  rewrite Hs, !numel_cons in Hpos.
  assert (0 < B ∧ 0 < C ∧ 0 < numel rest) as (HB & HC & HN) by nia.
  set (x3 := {| shape := [B; C; numel rest]; at_ := view_at x [B; C; numel rest] |}).
  destruct (BatchNorm_stats_batch self x3 B C (numel rest) eq_refl Hok Hmode)
    as (self' & Hstats).
  exists x3, (stats_mean x3), (stats_var x3), self'. split_and!.
  - destruct Hok as (-> & _). by apply view_batch.
  - done.
  - intros idx.
    assert (∃ v, at_ (stats_var x3) idx = Fin v ∧ (0 <= v)%R) as (v & Hv & Hv0).
    { cbn [stats_var at_]. unfold bop_at.
      cbn [stats_mean square tmap shape at_].
      apply mean_var_at; [by apply finite_view |].
      apply numel_pick_pos. cbn [x3 shape]. rewrite !numel_cons.
      change (numel []) with 1. nia. }
    destruct (norm_divisor_pos (stats_var x3) (bn_eps self) idx v Hv Hv0 Heps)
      as (s & Hs' & Hs0).
    eauto 10.
Qed.

(** Over exact reals: for a nonempty input of finite elements that passes
    the check of the shape, and a positive [eps], the variance
    [E[x^2] - E[x]^2] that [LayerNorm.forward] and [BatchNorm.forward]
    compute is a nonnegative real in every position, and the divisor
    [sqrt(var + eps)] of the normalization is a positive real. *)
Lemma variance_nonnegative :
  (∀ (self : LayerNorm) (x : tensor),
     shape_asserted self x →
     finite x → 0 < numel (shape x) → (0 < ln_eps self)%R →
     ∃ var, LayerNorm_var self x = Some var
       ∧ ∀ idx, ∃ v s, at_ var idx = Fin v ∧ (0 <= v)%R
           ∧ at_ (norm_divisor var (ln_eps self)) idx = Fin s ∧ (0 < s)%R)
  ∧ (∀ (self : BatchNorm) (x : tensor) (B C : nat) (rest : list nat),
       shape x = B :: C :: rest → bn_ok self C →
       finite x → 0 < numel (shape x) → (0 < bn_eps self)%R →
       training (bn_nn self) || negb (track_running_stats self) = true →
       ∃ x3 mean var self',
         view [Z.of_nat B; channels self; (-1)%Z] x = Some x3
         ∧ BatchNorm_stats self x3 = Some (mean, var, self')
         ∧ ∀ idx, ∃ v s, at_ var idx = Fin v ∧ (0 <= v)%R
             ∧ at_ (norm_divisor var (bn_eps self)) idx = Fin s ∧ (0 < s)%R).
Proof.
  split.
  - apply LayerNorm_var_nonneg.
  - apply BatchNorm_var_nonneg.
Qed.

Lemma batch_norm_one_constructed :
  BatchNorm_init 1 1 (/ 2) true true = inr batch_norm_one.
Proof. reflexivity. Qed.

Lemma batch_norm_one_ok : bn_ok batch_norm_one 1.
Proof.
  apply (BatchNorm_init_ok 1 1 (/ 2) true true); [lia | reflexivity].
Qed.

Lemma variance_nonnegative_witness :
  (∃ var, LayerNorm_var (layer_norm 2) row_1_3 = Some var
     ∧ ∀ idx, ∃ v s, at_ var idx = Fin v ∧ (0 <= v)%R
         ∧ at_ (norm_divisor var (ln_eps (layer_norm 2))) idx = Fin s ∧ (0 < s)%R)
  ∧ (∃ x3 mean var self',
       view [Z.of_nat 1; channels batch_norm_one; (-1)%Z] batch_1_3 = Some x3
       ∧ BatchNorm_stats batch_norm_one x3 = Some (mean, var, self')
       ∧ ∀ idx, ∃ v s, at_ var idx = Fin v ∧ (0 <= v)%R
           ∧ at_ (norm_divisor var (bn_eps batch_norm_one)) idx = Fin s ∧ (0 < s)%R).
Proof.
  split.
  - apply (proj1 variance_nonnegative (layer_norm 2) row_1_3).
    + reflexivity.
    + apply tensor2_finite.
    + cbn. lia.
    + cbn. lra.
  - apply (proj2 variance_nonnegative batch_norm_one batch_1_3 1 1 [2]).
    + reflexivity.
    + apply batch_norm_one_ok.
    + apply tensor3_finite.
    + cbn. lia.
    + cbn. lra.
    + reflexivity.
Defined.

(** The variance is [nan] for an input with an infinite element, and for
    an empty group. *)
Lemma variance_nan :
  (LayerNorm_init [1%Z] 1 false = inr (layer_norm 1)
   ∧ shape_asserted (layer_norm 1) infinite_row
   ∧ LayerNorm_var (layer_norm 1) infinite_row = Some (row_var infinite_row)
   ∧ at_ (row_var infinite_row) [0; 0] = NaN
   ∧ at_ (norm_divisor (row_var infinite_row) 1) [0; 0] = NaN)
  ∧ (LayerNorm_init [0%Z] 1 false = inr (layer_norm 0)
     ∧ shape_asserted (layer_norm 0) empty_row
     ∧ LayerNorm_var (layer_norm 0) empty_row = Some (row_var empty_row)
     ∧ at_ (row_var empty_row) [0; 0] = NaN
     ∧ at_ (norm_divisor (row_var empty_row) 1) [0; 0] = NaN).
Proof.
  assert (at_ (row_var infinite_row) [0; 0] = NaN) as H1.
  { cbn. unfold bop_at, mean_at. cbn.
    change (bigsum 1 ?f) with (xadd (f 0) (Fin 0)). cbn.
    destruct (Rlt_dec 1 0) as [H | _]; [lra | done]. }
  assert (at_ (row_var empty_row) [0; 0] = NaN) as H2.
  { cbn. unfold bop_at, mean_at. cbn.
    change (bigsum 0 ?f) with (Fin 0). cbn.
    destruct (Req_dec_T 0 0) as [_ | H]; [| lra].
    unfold Rsign. destruct (Rlt_dec 0 0) as [H | _]; [lra |].
    destruct (Rlt_dec 0 0) as [H | _]; [lra | done]. }
  split; (split; [reflexivity |]); (split; [reflexivity |]);
    (split; [reflexivity |]); (split; [done |]).
  - unfold norm_divisor. cbn [tmap at_]. by rewrite H1.
  - unfold norm_divisor. cbn [tmap at_]. by rewrite H2.
Qed.

Lemma view_strided_view (st : list nat) (sizes : list Z) (t : tensor) :
  view_strided st sizes t
  = v ← view sizes t; if viewable (shape t) st (shape v) then Some v else None.
Proof.
  unfold view_strided, view. by destruct (infer_size sizes (numel (shape t))).
Qed.

Lemma BatchNorm_forward_strided_eq (self : BatchNorm) (st : list nat) (x : tensor)
    (B C : nat) (rest : list nat) :
  shape x = B :: C :: rest →
  BatchNorm_forward_strided self st x
  = if viewable (shape x) st [B; C; numel rest] then BatchNorm_forward self x
    else match view [Z.of_nat B; channels self; (-1)%Z] x with
         | Some _ => None
         | None => BatchNorm_forward self x
         end.
Proof.
  intros Hs. unfold BatchNorm_forward_strided, BatchNorm_forward.
  rewrite Hs. cbn [lookup list_lookup mbind option_bind].
  case_decide as Hc; [| destruct (viewable _ _ _); [done | by destruct (view _ x)]].
  rewrite view_strided_view, Hc.
  destruct (view [Z.of_nat B; Z.of_nat C; (-1)%Z] x) as [x3 |] eqn:Hv;
    cbn [mbind option_bind]; [| by destruct (viewable _ _ _)].
  pose proof (view_batch_inv x x3 B C Hv) as [HB HC].
  rewrite (view_batch x B C rest Hs HB HC) in Hv. injection Hv as <-.
  cbn [shape]. rewrite <- Hs. by destruct (viewable _ _ _).
Qed.

(** Contiguous tensors can be viewed. *)

Lemma take_view_all (vs : list nat) (vn tn : nat) :
  Forall (λ v, 0 < v) vs → 0 < vn → vn * foldr Nat.mul 1 vs = tn →
  take_view vs vn tn = ([], tn).
Proof.
  intros Hpos. revert vn. induction Hpos as [| v vs Hv Hpos IH]; intros vn Hvn Hprod.
  - cbn in *. f_equal. lia.
  - cbn [take_view foldr] in *.
    assert (0 < foldr Nat.mul 1 vs) as Hp.
    { clear -Hpos. induction Hpos; cbn; [lia | nia]. }
    destruct (vn <? tn) eqn:E; cbn [orb].
    + apply IH; [nia | lia].
    + apply Nat.ltb_ge in E.
      set (Q := v * foldr Nat.mul 1 vs) in *.
      assert (Q ≤ 1) as HQ.
      { destruct (Nat.le_gt_cases Q 1) as [? | HQ]; [done |].
        assert (vn * 2 ≤ vn * Q) by (apply Nat.mul_le_mono_l; lia). lia. }
      assert (v = 1) as ->.
      { unfold Q in HQ. destruct v as [| [| v]]; [lia | done |].
        assert (foldr Nat.mul 1 vs ≤ S (S v) * foldr Nat.mul 1 vs) by lia. lia. }
      cbn. apply IH; [lia |]. unfold Q in Hprod. lia.
Qed.

Lemma chunks_one_chunk (old : list (nat * nat)) (vs : list nat) (base tn : nat) :
  old ≠ [] → one_chunk old base tn →
  Forall (λ v, 0 < v) vs →
  foldr Nat.mul 1 vs = tn * foldr Nat.mul 1 old.*1 →
  chunks old vs base tn = true.
Proof.
  revert tn. induction old as [| [d s] old IH]; intros tn Hne Hrun Hvs Hprod; [done |].
  cbn [chunks]. destruct old as [| [d' s'] old].
  - cbn in Hprod. rewrite (take_view_all vs 1 (tn * d)); [| done | lia | lia].
    rewrite Nat.eqb_refl. done.
  - destruct Hrun as [-> Hrun]. rewrite Nat.eqb_refl, andb_false_r.
    apply IH; [done | done | done |]. cbn in *. lia.
Qed.

Lemma one_chunk_snoc (l : list (nat * nat)) (d st base tn : nat) :
  one_chunk l base tn →
  (l = [] ∨ st = tn * foldr Nat.mul 1 l.*1 * base) →
  one_chunk (l ++ [(d, st)]) base tn.
Proof.
  revert tn. induction l as [| [a sa] l IH]; intros tn Hl Hst; [done |].
  destruct l as [| [b sb] l].
  - destruct Hst as [? | ->]; [done |]. cbn. split; [lia | done].
  - destruct Hl as [-> Hl]. split; [done |].
    apply (IH (tn * a)); [done |]. right.
    destruct Hst as [? | ->]; [done |]. cbn. lia.
Qed.

Lemma contiguous_strides_length (s : list nat) :
  length (contiguous_strides s) = length s.
Proof. induction s; cbn; congruence. Qed.

Lemma positive_numel (s : list nat) : numel s ≠ 0 → Forall (λ d, 0 < d) s.
Proof.
  induction s as [| d s IH]; [constructor |].
  rewrite numel_cons. intros H. constructor; [nia |]. apply IH. nia.
Qed.

Lemma numel_positive (s : list nat) :
  Forall (λ d, 0 < d) s → foldr (λ d acc, (d `max` 1) * acc) 1 s = numel s.
Proof.
  induction 1 as [| d s Hd _ IH]; [done |]. cbn [foldr]. rewrite IH, numel_cons. lia.
Qed.

Lemma sizes_reverse_zip (s st : list nat) :
  length st = length s → foldr Nat.mul 1 (reverse (zip s st)).*1 = numel s.
Proof.
  intros Hlen. rewrite fmap_reverse, fst_zip by lia.
  unfold numel. generalize s. clear. intros s.
  induction s as [| d s IH]; [done |].
  rewrite reverse_cons, foldr_app. cbn [foldr].
  rewrite <- IH. generalize (reverse s). intros l.
  induction l as [| e l IHl]; cbn; [lia |]. rewrite IHl. lia.
Qed.

Lemma one_chunk_contiguous (s : list nat) :
  Forall (λ d, 0 < d) s →
  one_chunk (reverse (zip s (contiguous_strides s))) 1 1.
Proof.
  induction 1 as [| d s Hd Hs IH]; [done |].
  cbn [contiguous_strides zip zip_with]. rewrite reverse_cons.
  apply one_chunk_snoc; [done |]. right.
  rewrite (sizes_reverse_zip s (contiguous_strides s) (contiguous_strides_length s)).
  rewrite numel_positive by done. lia.
Qed.

Lemma contiguous_strides_last (s : list nat) :
  s ≠ [] → List.last (contiguous_strides s) 0 = 1.
Proof.
  induction s as [| d s IH]; [done |]. intros _.
  destruct s as [| e s]; [done |].
  change (contiguous_strides (d :: e :: s))
    with (foldr (λ d acc, (d `max` 1) * acc) 1 (e :: s) :: contiguous_strides (e :: s)).
  change (List.last (?a :: contiguous_strides (e :: s)) 0)
    with (List.last (contiguous_strides (e :: s)) 0).
  by apply IH.
Qed.

(** A contiguous tensor can be viewed with every shape of as many
    elements. *)
Lemma contiguous_viewable (s new : list nat) :
  numel new = numel s → viewable s (contiguous_strides s) new = true.
Proof.
  intros Hn. unfold viewable.
  rewrite bool_decide_eq_true_2 by apply contiguous_strides_length.
  cbn [andb]. destruct s as [| d s]; [done |].
  destruct (numel (d :: s) =? 0) eqn:E; [done |]. apply Nat.eqb_neq in E.
  cbn [orb]. rewrite contiguous_strides_last by done.
  apply chunks_one_chunk.
  - cbn [contiguous_strides zip zip_with]. rewrite reverse_cons.
    by destruct (reverse _).
  - apply one_chunk_contiguous. by apply positive_numel.
  - apply Forall_reverse, positive_numel. congruence.
  - rewrite sizes_reverse_zip by apply contiguous_strides_length.
    rewrite <- Hn. unfold numel. rewrite Nat.mul_1_l.
    generalize new. clear. intros s.
    induction s as [| d s IH]; [done |].
    rewrite reverse_cons, foldr_app. cbn [foldr]. rewrite <- IH.
    generalize (reverse s). intros l.
    induction l as [| e l IHl]; cbn; [lia |]. rewrite IHl. lia.
Qed.

(** On a contiguous tensor the two definitions of [forward] agree. *)
Lemma BatchNorm_forward_contiguous (self : BatchNorm) (x : tensor) :
  BatchNorm_forward_strided self (contiguous_strides (shape x)) x
  = BatchNorm_forward self x.
Proof.
  destruct (shape x) as [| B [| C rest]] eqn:Hs.
  - unfold BatchNorm_forward_strided, BatchNorm_forward. by rewrite Hs.
  - unfold BatchNorm_forward_strided, BatchNorm_forward. by rewrite Hs.
  - rewrite <- Hs at 1.
    rewrite (BatchNorm_forward_strided_eq self _ x B C rest Hs).
    rewrite contiguous_viewable; [done |].
    rewrite Hs, !numel_cons. cbn. lia.
Qed.

(** C8. [BatchNorm.forward] on an input of shape [(batch_size, channels,
    ...)] with a nonempty batch, whose strides let [x.view(batch_size,
    channels, -1)] pass (those of a contiguous tensor do), returns an output
    of the shape of the input whose elements are normalized with the mean
    and the variance of the batch in training mode and whenever
    [track_running_stats] is false, and with the stored [exp_mean] and
    [exp_var] in evaluation mode with [track_running_stats] true. *)
Theorem BatchNorm_forward_normalizes (self : BatchNorm) (st : list nat) (x : tensor)
    (B C : nat) (rest : list nat) :
  shape x = B :: C :: rest → 0 < B → 0 < C → bn_ok self C →
  viewable (shape x) st [B; C; numel rest] = true →
  ∃ out self', BatchNorm_forward_strided self st x = Some (out, self')
    ∧ shape out = shape x
    ∧ ∀ b c r, b < B → c < C → in_range rest r = true →
        at_ out (b :: c :: r) = normalized self x c (at_ x (b :: c :: r)).
Proof.
  intros Hs HB HC Hok Hv.
  rewrite (BatchNorm_forward_strided_eq self st x B C rest Hs), Hv.
  by apply BatchNorm_forward_elements.
Qed.

Lemma BatchNorm_forward_normalizes_witness :
  contiguous_strides (shape batch_1_3) = [2; 2; 1]
  ∧ ∃ out self',
      BatchNorm_forward_strided batch_norm_one [2; 2; 1] batch_1_3 = Some (out, self')
      ∧ shape out = shape batch_1_3
      ∧ ∀ b c r, b < 1 → c < 1 → in_range [2] r = true →
          at_ out (b :: c :: r)
          = normalized batch_norm_one batch_1_3 c (at_ batch_1_3 (b :: c :: r)).
Proof.
  split; [reflexivity |].
  apply (BatchNorm_forward_normalizes batch_norm_one [2; 2; 1] batch_1_3 1 1 [2]).
  - reflexivity.
  - lia.
  - lia.
  - apply batch_norm_one_ok.
  - reflexivity.
Defined.

(** [forward] raises on an empty batch, where [x.view(0, channels, -1)]
    cannot infer the last size, and on a tensor whose last two dimensions
    were transposed, where [x.view] cannot merge them. *)
Lemma BatchNorm_forward_rejected :
  BatchNorm_init 1 1 (/ 2) true true = inr batch_norm_one
  ∧ (shape empty_batch = [0; 1; 2]
     ∧ BatchNorm_forward_strided batch_norm_one (contiguous_strides [0; 1; 2]) empty_batch
       = None)
  ∧ (shape transposed_batch = [2; 1; 5; 4]
     ∧ BatchNorm_forward_strided batch_norm_one [20; 20; 1; 5] transposed_batch = None).
Proof. split_and!; reflexivity. Qed.

Ltac f32_struct :=
  lazy -[F32.add F32.sub F32.mul F32.div F32.sqrt F32.of_Z F32.of_float F32.bigsum
         F32.mean_at F32.bop_at F32.one_minus F32.py_float].

(** The sum of the three equal elements, and of their squares, does not
    depend on the order of the additions. *)
Lemma equal_terms_any_order :
  let a := F32.of_Z 30001 in
  let a2 := F32.mul a a in
  F32.add (F32.add a a) a = F32.add a (F32.add a a)
  ∧ F32.add (F32.add a2 a2) a2 = F32.add a2 (F32.add a2 a2).
Proof. split; vm_compute; reflexivity. Qed.

Lemma LayerNorm_float32_variance :
  ∃ var out, F32.LayerNorm_var layer_norm_f32 row_30001 = Some var
    ∧ F32.LayerNorm_forward layer_norm_f32 row_30001 = Some out
    ∧ F32.at_ var [0; 0] = F32.of_Z (-64)
    ∧ F32.at_ (F32.norm_divisor var (F32.ln_eps layer_norm_f32)) [0; 0] = S754_nan
    ∧ F32.shape out = [1; 3]
    ∧ ∀ k, k < 3 → F32.at_ out [0; k] = S754_nan.
Proof.
  eexists _, _. split; [f32_struct; reflexivity |].
  split; [f32_struct; reflexivity |].
  split; [vm_compute; reflexivity |].
  split; [vm_compute; reflexivity |].
  split; [reflexivity |].
  intros k Hk. destruct k as [| [| [| k]]]; [vm_compute; reflexivity .. | lia].
Qed.

Lemma BatchNorm_float32_variance :
  ∃ x3 mean var self' out,
    F32.view [1; 1; -1]%Z batch_30001 = Some x3
    ∧ F32.BatchNorm_stats batch_norm_f32 x3 = Some (mean, var, self')
    ∧ F32.BatchNorm_forward batch_norm_f32 batch_30001 = Some (out, self')
    ∧ F32.at_ var [0] = F32.of_Z (-64)
    ∧ F32.at_ (F32.norm_divisor var (F32.bn_eps batch_norm_f32)) [0] = S754_nan
    ∧ F32.shape out = [1; 1; 3]
    ∧ ∀ k, k < 3 → F32.at_ out [0; 0; k] = S754_nan.
Proof.
  eexists _, _, _, _, _. split; [f32_struct; reflexivity |].
  split; [f32_struct; reflexivity |].
  split; [f32_struct; reflexivity |].
  split; [vm_compute; reflexivity |].
  split; [vm_compute; reflexivity |].
  split; [reflexivity |].
  intros k Hk. destruct k as [| [| [| k]]]; [vm_compute; reflexivity .. | lia].
Qed.

Lemma exact_row_variance :
  LayerNorm_var (layer_norm 3) exact_row_30001 = Some (row_var exact_row_30001)
  ∧ at_ (row_var exact_row_30001) [0; 0] = Fin 0.
Proof.
  split; [reflexivity |].
  cbn. unfold bop_at, mean_at. cbn.
  change (bigsum 3 ?f) with (xadd (f 0) (xadd (f 1) (xadd (f 2) (Fin 0)))). cbn.
  destruct (Req_dec_T _ 0) as [H | _]; [lra |]. cbn. f_equal. field.
Qed.

(** C10. In [float32] the variance [E[x^2] - E[x]^2] is negative on the
    row [[30001., 30001., 30001.]]: [LayerNorm(3)] computes the mean 30001,
    the mean of the squares 900059968 and the square of the mean 900060032,
    so the variance is -64, the divisor [sqrt(var + eps)] is [nan] and so is
    every element of the output; [BatchNorm(1)] in training mode does the
    same on the batch that holds this row.  Over exact reals the variance
    of the row is 0. *)
Theorem variance_negative_in_float32 :
  (F32.LayerNorm_init [3%Z] (F32.py_float 1 100000) true = inr layer_norm_f32
   ∧ ∃ var out,
       F32.LayerNorm_var layer_norm_f32 row_30001 = Some var
       ∧ F32.LayerNorm_forward layer_norm_f32 row_30001 = Some out
       ∧ F32.at_ var [0; 0] = F32.of_Z (-64)
       ∧ F32.at_ (F32.norm_divisor var (F32.ln_eps layer_norm_f32)) [0; 0] = S754_nan
       ∧ F32.shape out = [1; 3]
       ∧ ∀ k, k < 3 → F32.at_ out [0; k] = S754_nan)
  ∧ (F32.BatchNorm_init 1 (F32.py_float 1 100000) (F32.py_float 1 10) true true
     = inr batch_norm_f32
     ∧ ∃ x3 mean var self' out,
         F32.view [1; 1; -1]%Z batch_30001 = Some x3
         ∧ F32.BatchNorm_stats batch_norm_f32 x3 = Some (mean, var, self')
         ∧ F32.BatchNorm_forward batch_norm_f32 batch_30001 = Some (out, self')
         ∧ F32.at_ var [0] = F32.of_Z (-64)
         ∧ F32.at_ (F32.norm_divisor var (F32.bn_eps batch_norm_f32)) [0] = S754_nan
         ∧ F32.shape out = [1; 1; 3]
         ∧ ∀ k, k < 3 → F32.at_ out [0; 0; k] = S754_nan)
  ∧ (LayerNorm_var (layer_norm 3) exact_row_30001 = Some (row_var exact_row_30001)
     ∧ at_ (row_var exact_row_30001) [0; 0] = Fin 0).
Proof.
  split; [split; [reflexivity | apply LayerNorm_float32_variance] |].
  split; [split; [reflexivity | apply BatchNorm_float32_variance] |].
  apply exact_row_variance.
Qed.

(** ** In-place operations and the objects of the caller *)

Section safe.
Context (D : gset loc).

Lemma safe_ret {A} (P : A → Prop) (a : A) : P a → safe D P (ret a).
Proof. intros HP h a' h' HD [= <- <-]. done. Qed.

Lemma safe_lift {A} (o : option A) : safe D (λ _, True) (lift o).
Proof. intros h a h' HD H. unfold lift in H. destruct o; [| done]. by injection H as <- <-. Qed.

Lemma safe_fail {A} (P : A → Prop) : safe D P (lift None).
Proof. intros h a h' HD H. done. Qed.

Lemma safe_bind {A B} (P : A → Prop) (Q : B → Prop) (c : M A) (k : A → M B) :
safe D P c → (∀ a, P a → safe D Q (k a)) → safe D Q (bind c k).
Proof.
intros Hc Hk h b h' HD H. unfold bind in H.
destruct (c h) as [[a h1] |] eqn:Ec; [| done].
destruct (Hc h a h1 HD Ec) as (HD1 & Hsame1 & Ha).
destruct (Hk a Ha h1 b h' HD1 H) as (HD2 & Hsame2 & Hb).
split_and!; [done | | done].
intros l Hl. by rewrite Hsame2, Hsame1.
Qed.

Lemma safe_weaken {A} (P Q : A → Prop) (c : M A) :
safe D P c → (∀ a, P a → Q a) → safe D Q c.
Proof. intros Hc HPQ h a h' HD H. destruct (Hc h a h' HD H) as (? & ? & ?). eauto. Qed.

Lemma safe_alloc (o : obj) : safe D (new_object D) (alloc o).
Proof.
intros h l h' HD [= <- <-].
assert (fresh (dom h) ∉ dom h) as Hfresh by apply is_fresh.
assert (fresh (dom h) ∉ D) as HnD by (intros Hin; apply Hfresh, HD, Hin).
split_and!; [| | done].
- rewrite dom_insert. intros l Hl. apply elem_of_union. right. by apply HD.
- intros l Hl. apply lookup_insert_ne. intros <-. done.
Qed.

Lemma safe_load_t (l : loc) : safe D (λ _, True) (load_t l).
Proof.
intros h t h' HD H. unfold load_t in H.
destruct (h !! l) as [[t' | m] |]; try done. by injection H as <- <-.
Qed.

Lemma safe_load_b (l : loc) : safe D (λ _, True) (load_b l).
Proof.
intros h t h' HD H. unfold load_b in H.
destruct (h !! l) as [[t' | m] |]; try done. by injection H as <- <-.
Qed.

(** Writing into an object that is not among [D]. *)
Lemma safe_write (l : loc) (o : obj) : new_object D l → safe D (λ _, True) (write l o).
Proof.
intros Hl h u h' HD [= _ <-]. split_and!; [| | done].
- rewrite dom_insert. intros l' Hl'. apply elem_of_union. right. by apply HD.
- intros l' Hl'. apply lookup_insert_ne. intros <-. done.
Qed.

Lemma safe_new1 f (l : loc) : safe D (new_object D) (new1 f l).
Proof.
unfold new1. eapply safe_bind; [apply safe_load_t |]. intros t _.
eapply safe_bind; [apply safe_lift |]. intros r _. apply safe_alloc.
Qed.

Lemma safe_new2 f (l1 l2 : loc) : safe D (new_object D) (new2 f l1 l2).
Proof.
unfold new2. eapply safe_bind; [apply safe_load_t |]. intros t1 _.
eapply safe_bind; [apply safe_load_t |]. intros t2 _.
eapply safe_bind; [apply safe_lift |]. intros r _. apply safe_alloc.
Qed.

Lemma safe_to_bool_ref (l : loc) : safe D (new_object D) (to_bool_ref l).
Proof.
unfold to_bool_ref. eapply safe_bind; [apply safe_load_t |]. intros t _.
apply safe_alloc.
Qed.

Lemma safe_bslice2_ref (l : loc) (n k : nat) : safe D (new_object D) (bslice2_ref l n k).
Proof.
unfold bslice2_ref. eapply safe_bind; [apply safe_load_b |]. intros t _.
eapply safe_bind; [apply safe_lift |]. intros r _. apply safe_alloc.
Qed.

(** [masked_fill_] overwrites its target and nothing else. *)
Lemma safe_masked_fill_ (l mask : loc) (v : xreal) :
new_object D l → safe D (new_object D) (masked_fill_ l mask v).
Proof.
intros Hl. unfold masked_fill_.
eapply safe_bind; [apply safe_load_t |]. intros t _.
eapply safe_bind; [apply safe_load_b |]. intros m _.
eapply safe_bind; [apply safe_lift |]. intros r _.
eapply safe_bind; [by apply safe_write |]. intros _ _.
by apply safe_ret.
Qed.

Lemma safe_Linear_ref (name : string) (m : ModuleRefs) (x : loc) :
safe D (new_object D) (Linear_ref name m x).
Proof.
unfold Linear_ref.
eapply safe_bind; [apply safe_lift |]. intros W _.
eapply safe_bind; [apply safe_load_t |]. intros Wt _.
eapply safe_bind with (P := λ _, True).
- destruct (rparams m !! (name +:+ ".bias")).
  + eapply safe_bind; [apply safe_load_t |]. intros bt _. by apply safe_ret.
  + by apply safe_ret.
- intros b _. apply safe_new1.
Qed.

End safe.

Ltac safe_step :=
  first
    [ eapply safe_bind; [apply safe_Linear_ref |]; intros ? ?
    | eapply safe_bind; [apply safe_new1 |]; intros ? ?
    | eapply safe_bind; [apply safe_new2 |]; intros ? ?
    | eapply safe_bind; [apply safe_to_bool_ref |]; intros ? ?
    | eapply safe_bind; [apply safe_bslice2_ref |]; intros ? ?
    | eapply safe_bind; [apply safe_masked_fill_; assumption |]; intros ? ?
    | eapply safe_bind; [apply safe_load_t |]; intros ? _
    | eapply safe_bind; [apply safe_lift |]; intros ? _ ].

(** [CausalAttentionWithBuffer.forward] keeps every object of its caller,
    and returns a new one. *)
Lemma CausalAttentionWithBuffer_forward_ref_safe (D : gset loc)
    (self : ModuleRefs) (p : R) (keep : index → bool) (x : loc) :
  safe D (new_object D) (CausalAttentionWithBuffer_forward_ref self p keep x).
Proof.
  unfold CausalAttentionWithBuffer_forward_ref.
  eapply safe_bind; [apply safe_load_t |]. intros xt _.
  destruct (shape xt) as [| b [| n [| d_in [| ? ?]]]]; try apply safe_fail.
  repeat safe_step. by apply safe_ret.
Qed.

(** So does [MHA.forward]. *)
Lemma MHA_forward_ref_safe (D : gset loc)
    (self : ModuleRefs) (d_out num_heads head_dim : Z) (p : R)
    (keep : index → bool) (x : loc) :
  safe D (new_object D) (MHA_forward_ref self d_out num_heads head_dim p keep x).
Proof.
  unfold MHA_forward_ref.
  eapply safe_bind; [apply safe_load_t |]. intros xt _.
  destruct (shape xt) as [| b [| n [| d_in [| ? ?]]]]; try apply safe_fail.
  cbv zeta. repeat safe_step. by apply safe_ret.
Qed.

(** ** The forward pass on objects computes the forward pass on values *)

Lemma returns_ret {A} (a : A) h (Q : A → store → Prop) : Q a h → returns (ret a) h Q.
Proof. intros H. by exists a, h. Qed.

Lemma returns_bind {A B} (c : M A) (k : A → M B) h (Q : B → store → Prop) :
  returns c h (λ a h1, returns (k a) h1 Q) → returns (bind c k) h Q.
Proof.
  intros (a & h1 & Hc & b & h2 & Hk & HQ). exists b, h2. split; [| done].
  unfold bind. by rewrite Hc.
Qed.

Lemma returns_lift {A} (o : option A) (a : A) h (Q : A → store → Prop) :
  o = Some a → Q a h → returns (lift o) h Q.
Proof. intros -> H. by exists a, h. Qed.

Lemma returns_load_t l t h (Q : tensor → store → Prop) :
  h !! l = Some (OT t) → Q t h → returns (load_t l) h Q.
Proof. intros Hl H. exists t, h. split; [| done]. unfold load_t. by rewrite Hl. Qed.

Lemma returns_load_b l t h (Q : btensor → store → Prop) :
  h !! l = Some (OB t) → Q t h → returns (load_b l) h Q.
Proof. intros Hl H. exists t, h. split; [| done]. unfold load_b. by rewrite Hl. Qed.

Lemma returns_alloc o h (Q : loc → store → Prop) :
  (∀ h' l, h ⊆ h' → h' !! l = Some o → h !! l = None → Q l h') →
  returns (alloc o) h Q.
Proof.
  intros H. exists (fresh (dom h)), (<[fresh (dom h) := o]> h). split; [done |].
  assert (h !! fresh (dom h) = None) as Hfresh by apply not_elem_of_dom, is_fresh.
  apply H; [by apply insert_subseteq | apply lookup_insert_eq | done].
Qed.

Lemma returns_new1 f l t r h (Q : loc → store → Prop) :
  h !! l = Some (OT t) → f t = Some r →
  (∀ h' l', h ⊆ h' → h' !! l' = Some (OT r) → h !! l' = None → Q l' h') →
  returns (new1 f l) h Q.
Proof.
  intros Hl Hf H. unfold new1.
  apply returns_bind, (returns_load_t l t); [done |].
  apply returns_bind, (returns_lift _ r); [done |].
  by apply returns_alloc.
Qed.

Lemma returns_new2 f l1 l2 t1 t2 r h (Q : loc → store → Prop) :
  h !! l1 = Some (OT t1) → h !! l2 = Some (OT t2) → f t1 t2 = Some r →
  (∀ h' l', h ⊆ h' → h' !! l' = Some (OT r) → h !! l' = None → Q l' h') →
  returns (new2 f l1 l2) h Q.
Proof.
  intros Hl1 Hl2 Hf H. unfold new2.
  apply returns_bind, (returns_load_t l1 t1); [done |].
  apply returns_bind, (returns_load_t l2 t2); [done |].
  apply returns_bind, (returns_lift _ r); [done |].
  by apply returns_alloc.
Qed.

Lemma returns_to_bool_ref l t h (Q : loc → store → Prop) :
  h !! l = Some (OT t) →
  (∀ h' l', h ⊆ h' → h' !! l' = Some (OB (to_bool t)) → h !! l' = None → Q l' h') →
  returns (to_bool_ref l) h Q.
Proof.
  intros Hl H. unfold to_bool_ref.
  apply returns_bind, (returns_load_t l t); [done |].
  by apply returns_alloc.
Qed.

Lemma returns_bslice2_ref l m n k r h (Q : loc → store → Prop) :
  h !! l = Some (OB m) → bslice2 m n k = Some r →
  (∀ h' l', h ⊆ h' → h' !! l' = Some (OB r) → h !! l' = None → Q l' h') →
  returns (bslice2_ref l n k) h Q.
Proof.
  intros Hl Hr H. unfold bslice2_ref.
  apply returns_bind, (returns_load_b l m); [done |].
  apply returns_bind, (returns_lift _ r); [done |].
  by apply returns_alloc.
Qed.

(** After [masked_fill_] the target holds the filled tensor, and every
    other object is as before. *)
Lemma returns_masked_fill_ l m t mb v r h (Q : loc → store → Prop) :
  h !! l = Some (OT t) → h !! m = Some (OB mb) → masked_fill t mb v = Some r →
  (∀ h', (∀ l' o, l' ≠ l → h !! l' = Some o → h' !! l' = Some o) →
         h' !! l = Some (OT r) → Q l h') →
  returns (masked_fill_ l m v) h Q.
Proof.
  intros Hl Hm Hr H. unfold masked_fill_.
  apply returns_bind, (returns_load_t l t); [done |].
  apply returns_bind, (returns_load_b m mb); [done |].
  apply returns_bind, (returns_lift _ r); [done |].
  apply returns_bind. eexists tt, _. split; [reflexivity |].
  apply returns_ret. apply H; [| apply lookup_insert_eq].
  intros l' o Hne Hl'. by rewrite lookup_insert_ne.
Qed.

Lemma deref_lookup (h : store) (g : gmap string loc) (k : string) (t : tensor) :
  deref h g !! k = Some t ↔ ∃ l, g !! k = Some l ∧ h !! l = Some (OT t).
Proof.
  unfold deref. rewrite lookup_omap. destruct (g !! k) as [l |]; cbn.
  - split.
    + intros H. exists l. split; [done |].
      destruct (h !! l) as [[t' | m] |]; try done. by injection H as ->.
    + intros (l' & [= <-] & ->). done.
  - split; [done | by intros (? & ? & ?)].
Qed.

Lemma deref_lookup_None (h : store) (g : gmap string loc) (k : string) :
  (∀ l, g !! k = Some l → ∃ t, h !! l = Some (OT t)) →
  deref h g !! k = None → g !! k = None.
Proof.
  intros Hwf. unfold deref. rewrite lookup_omap. destruct (g !! k) as [l |]; [| done].
  cbn. destruct (Hwf l eq_refl) as (t & ->). done.
Qed.

Lemma getattr_snapshot (h : store) (m : ModuleRefs) (name : string) (t : tensor) :
  wf h m → getattr name (snapshot h m) = Some t →
  ∃ l, rgetattr name m = Some l ∧ h !! l = Some (OT t).
Proof.
  intros Hwf. unfold getattr, rgetattr, snapshot. cbn [attrs params buffers].
  destruct (deref h (rattrs m) !! name) as [t' |] eqn:Ea.
  { intros [= ->]. apply deref_lookup in Ea as (l & -> & Hl). eauto. }
  apply deref_lookup_None in Ea as ->;
    [| apply (Hwf (rattrs m)), list_elem_of_In; cbn; tauto].
  destruct (deref h (rparams m) !! name) as [t' |] eqn:Ep.
  { intros [= ->]. apply deref_lookup in Ep as (l & -> & Hl). eauto. }
  apply deref_lookup_None in Ep as ->;
    [| apply (Hwf (rparams m)), list_elem_of_In; cbn; tauto].
  intros (l & -> & Hl)%deref_lookup. eauto.
Qed.

Lemma returns_Linear_ref name m x xt r h0 h (Q : loc → store → Prop) :
  wf h0 m → h0 ⊆ h → h !! x = Some (OT xt) →
  Linear_forward name (snapshot h0 m) xt = Some r →
  (∀ h' l', h ⊆ h' → h' !! l' = Some (OT r) → h !! l' = None → Q l' h') →
  returns (Linear_ref name m x) h Q.
Proof.
  intros Hwf Hsub Hx Hpure H. unfold Linear_forward in Hpure.
  cbn [snapshot params] in Hpure.
  destruct (deref h0 (rparams m) !! (name +:+ ".weight")) as [W |] eqn:EW; [| done].
  cbn [mbind option_bind] in Hpure.
  apply deref_lookup in EW as (lW & ElW & HW).
  unfold Linear_ref.
  apply returns_bind, (returns_lift _ lW); [done |].
  apply returns_bind, (returns_load_t lW W); [by eapply lookup_weaken |].
  apply returns_bind.
  destruct (deref h0 (rparams m) !! (name +:+ ".bias")) as [bt |] eqn:Eb.
  - apply deref_lookup in Eb as (lb & -> & Hb).
    apply returns_bind, (returns_load_t lb bt); [by eapply lookup_weaken |].
    apply returns_ret. by apply (returns_new1 _ x xt r).
  - apply deref_lookup_None in Eb as ->;
      [| apply (Hwf (rparams m)), list_elem_of_In; cbn; tauto].
    apply returns_ret. by apply (returns_new1 _ x xt r).
Qed.

Lemma sub_trans (h0 h h' : store) : h0 ⊆ h → h ⊆ h' → h0 ⊆ h'.
Proof. intros H1 H2. by etrans. Qed.

Lemma sub_fresh (h0 h : store) (l : loc) : h0 ⊆ h → h !! l = None → h0 !! l = None.
Proof.
  intros Hsub Hl. destruct (h0 !! l) as [o |] eqn:E; [| done].
  by rewrite (lookup_weaken _ _ _ _ E Hsub) in Hl.
Qed.

Lemma sub_write (h0 h h' : store) (l : loc) :
  h0 ⊆ h → h0 !! l = None →
  (∀ l' o, l' ≠ l → h !! l' = Some o → h' !! l' = Some o) → h0 ⊆ h'.
Proof.
  intros Hsub Hl Hkeep. apply map_subseteq_spec. intros l' o Hl'.
  apply Hkeep; [intros -> | by eapply lookup_weaken]. by rewrite Hl in Hl'.
Qed.

Lemma fresh_ne (h : store) (l l' : loc) (o : obj) :
  h !! l = Some o → h !! l' = None → l ≠ l'.
Proof. intros H1 H2 ->. by rewrite H1 in H2. Qed.

(** After an allocation: the known objects are in the new store. *)
Ltac push Hsub :=
  match type of Hsub with
  | ?h ⊆ _ =>
      repeat match goal with
        | H : h !! _ = Some _ |- _ => apply (λ E, lookup_weaken _ _ _ _ E Hsub) in H
        | H : _ ⊆ h |- _ => apply (λ E, sub_trans _ _ _ E Hsub) in H
        end
  end.

(** The new object differs from the known ones. *)
Ltac distinct Hfresh :=
  match type of Hfresh with
  | ?h !! ?l' = None =>
      repeat match goal with
        | H : h !! ?l = Some ?o |- _ =>
            lazymatch goal with
            | _ : l ≠ l' |- _ => fail
            | _ => pose proof (fresh_ne h l l' o H Hfresh)
            end
        | H : ?h0 ⊆ h |- _ =>
            lazymatch goal with
            | _ : h0 !! l' = None |- _ => fail
            | _ => pose proof (sub_fresh h0 h l' H Hfresh)
            end
        end
  end.

Ltac pure_step H :=
  match type of H with
  | (?o ≫= _) = Some _ =>
      let E := fresh "E" in
      destruct o eqn:E; [cbn [mbind option_bind] in H | discriminate H]
  end.

Ltac alloc_intro :=
  let h' := fresh "h" in
  let l' := fresh "l" in
  let Hsub := fresh "Hsub" in
  let Hnew := fresh "Hnew" in
  let Hfresh := fresh "Hfresh" in
  intros h' l' Hsub Hnew Hfresh; distinct Hfresh; push Hsub; clear Hsub Hfresh.

(** After a write into [l]: the other known objects are in the new store. *)
Ltac write_intro Hkeep :=
  match type of Hkeep with
  | ∀ l' o, l' ≠ ?l → ?h !! l' = Some o → _ =>
      repeat match goal with
        | H : h !! ?l' = Some _, Hne : ?l' ≠ l |- _ => apply (Hkeep _ _ Hne) in H
        | H : ?h0 ⊆ h, Hl : ?h0 !! l = None |- _ =>
            apply (λ E, sub_write _ _ _ _ E Hl Hkeep) in H
        end
  end.

Ltac ref_step :=
  apply returns_bind;
  first
    [ eapply returns_Linear_ref; [eassumption | eassumption | eassumption | eassumption |]
    | eapply returns_new1; [eassumption | first [eassumption | reflexivity] |]
    | eapply returns_new2; [eassumption | eassumption | eassumption |]
    | eapply returns_to_bool_ref; [eassumption |]
    | eapply returns_bslice2_ref; [eassumption | eassumption |] ];
  alloc_intro.

(** On a well-formed store, [forward] on objects returns a tensor object
    that holds the result of [forward] on values. *)
Lemma CausalAttentionWithBuffer_forward_ref_returns
    (self : ModuleRefs) (d_out : Z) (p : R) (keep : index → bool)
    (h0 h : store) (x : loc) (xt y : tensor) :
  wf h0 self → h0 ⊆ h → h !! x = Some (OT xt) →
  CausalAttentionWithBuffer_forward
    {| ca_nn := snapshot h0 self; ca_d_out := d_out; ca_dropout := p |} keep xt = Some y →
  returns (CausalAttentionWithBuffer_forward_ref self p keep x) h
    (λ r h', h' !! r = Some (OT y)).
Proof.
  intros Hwf Hframe Hx Hpure.
  unfold CausalAttentionWithBuffer_forward in Hpure.
  unfold CausalAttentionWithBuffer_forward_ref.
  apply returns_bind, (returns_load_t x xt); [done |].
  destruct (shape xt) as [| b [| n [| d_in [| ? ?]]]]; try discriminate Hpure.
  cbn [ca_nn ca_dropout] in Hpure.
  repeat pure_step Hpure.
  injection Hpure as <-.
  do 5 ref_step.
  destruct (getattr_snapshot _ _ _ _ Hwf E4) as (lm & Elm & Hlm).
  apply (λ E, lookup_weaken _ _ _ _ E Hframe) in Hlm.
  apply returns_bind, (returns_lift _ lm); [done |].
  do 2 ref_step.
  apply returns_bind.
  eapply returns_masked_fill_; [eassumption | eassumption | eassumption |].
  intros h' Hkeep Hfilled.
  write_intro Hkeep.
  apply returns_bind, (returns_load_t l t); [done |].
  apply returns_bind, (returns_lift _ n0); [done |].
  apply returns_bind, (returns_lift _ r); [done |].
  do 4 ref_step.
  by apply returns_ret.
Qed.

Lemma MHA_forward_ref_returns
    (self : ModuleRefs) (d_out num_heads head_dim context_length : Z) (p : R)
    (keep : index → bool) (h0 h : store) (x : loc) (xt y : tensor) :
  wf h0 self → h0 ⊆ h → h !! x = Some (OT xt) →
  MHA_forward
    {| mh_nn := snapshot h0 self; mh_d_out := d_out; mh_num_heads := num_heads;
       mh_head_dim := head_dim; mh_context_length := context_length;
       mh_dropout := p |} keep xt = Some y →
  returns (MHA_forward_ref self d_out num_heads head_dim p keep x) h
    (λ r h', h' !! r = Some (OT y)).
Proof.
  intros Hwf Hframe Hx Hpure.
  unfold MHA_forward in Hpure. unfold MHA_forward_ref.
  apply returns_bind, (returns_load_t x xt); [done |].
  destruct (shape xt) as [| b [| n [| d_in [| ? ?]]]]; try discriminate Hpure.
  cbn [mh_nn mh_dropout mh_num_heads mh_head_dim mh_d_out] in Hpure. cbv zeta in Hpure.
  repeat pure_step Hpure. injection Hpure as <-.
  cbv zeta. do 11 ref_step.
  match goal with E : getattr "mask" _ = Some _ |- _ =>
    destruct (getattr_snapshot _ _ _ _ Hwf E) as (lm & Elm & Hlm) end.
  apply (λ E, lookup_weaken _ _ _ _ E Hframe) in Hlm.
  apply returns_bind, (returns_lift _ lm); [done |].
  do 2 ref_step.
  apply returns_bind.
  eapply returns_masked_fill_; [eassumption | eassumption | eassumption |].
  intros h' Hkeep Hfilled.
  write_intro Hkeep.
  apply returns_bind. eapply returns_load_t; [eassumption |].
  apply returns_bind. eapply returns_lift; [eassumption |].
  apply returns_bind. eapply returns_lift; [eassumption |].
  do 7 ref_step.
  by apply returns_ret.
Qed.

Lemma deref_frame (h h' : store) (g : gmap string loc) :
  (∀ l, l ∈ dom h → h' !! l = h !! l) →
  (∀ k l, g !! k = Some l → ∃ t, h !! l = Some (OT t)) →
  deref h' g = deref h g.
Proof.
  intros Hsame Hwf. apply map_eq. intros k. unfold deref. rewrite !lookup_omap.
  destruct (g !! k) as [l |] eqn:E; [| done]. cbn.
  destruct (Hwf k l E) as (t & Hl). rewrite Hsame; [done |].
  apply elem_of_dom. by eexists.
Qed.

Lemma snapshot_frame (h h' : store) (m : ModuleRefs) :
  (∀ l, l ∈ dom h → h' !! l = h !! l) → wf h m → snapshot h' m = snapshot h m.
Proof.
  intros Hsame Hwf. unfold snapshot.
  rewrite !(deref_frame h h') by
    (done || apply Hwf, list_elem_of_In; cbn; tauto).
  done.
Qed.

Lemma safe_keeps_objects (self : ModuleRefs) (c : M loc) :
  (∀ D, safe D (new_object D) c) → keeps_objects self c.
Proof.
  intros Hsafe h r h' Hrun.
  destruct (Hsafe (dom h) h r h' (reflexivity _) Hrun) as (_ & Hsame & Hnew).
  split_and!; [done | done |]. intros Hwf. by apply snapshot_frame.
Qed.

Lemma optimizer_step_buffers update (m : Module) :
  buffers (optimizer_step update m) = buffers m.
Proof. done. Qed.

Lemma WithBuffer_mask_is_buffer d_in d_out c p bias g self :
  CausalAttentionWithBuffer_init d_in d_out c p bias g = inr self →
  mask_is_buffer (ca_nn self).
Proof.
  intros (_ & _ & ->)%CausalAttentionWithBuffer_init_inr. split.
  - apply single_head_no_mask.
  - cbn. rewrite lookup_insert_eq. by eexists.
Qed.

Lemma MHA_mask_is_buffer d_in d_out c p num_heads bias g self :
  MHA_init d_in d_out c p num_heads bias g = inr self →
  mask_is_buffer (mh_nn self).
Proof.
  unfold MHA_init. intros H. cbv zeta in H. ctor_inv. split.
  - cbn. by destruct bias.
  - cbn. rewrite lookup_insert_eq. by eexists.
Qed.

Lemma demo_refs_wf : wf demo_store demo_refs.
Proof.
  intros g Hg%list_elem_of_In k l Hk. cbn in Hg.
  destruct Hg as [<- | [<- | [<- | []]]]; cbn [demo_refs rparams rbuffers rattrs] in Hk.
  all: repeat (apply lookup_insert_Some in Hk as [[<- <-] | [_ Hk]];
               [eexists; reflexivity |]).
  all: by rewrite lookup_empty in Hk.
Qed.

Lemma demo_mha_refs_wf : wf demo_store demo_mha_refs.
Proof.
  intros g Hg%list_elem_of_In k l Hk. cbn in Hg.
  destruct Hg as [<- | [<- | [<- | []]]]; cbn [demo_mha_refs rparams rbuffers rattrs] in Hk.
  all: repeat (apply lookup_insert_Some in Hk as [[<- <-] | [_ Hk]];
               [eexists; reflexivity |]).
  all: by rewrite lookup_empty in Hk.
Qed.

Lemma demo_refs_forward keep :
  ∃ y, CausalAttentionWithBuffer_forward
         {| ca_nn := snapshot demo_store demo_refs; ca_d_out := 1; ca_dropout := 0 |}
         keep tokens_1_1 = Some y.
Proof.
  destruct (CausalAttention_forward_elem
              {| ca_nn := snapshot demo_store demo_refs; ca_d_out := 1; ca_dropout := 0 |}
              keep tokens_1_1 1 2 1 1 2 ones_1_1 ones_1_1 ones_1_1 (triu_ones 2) 1)
    as (y & Hy & _); try done.
  - by left.
  - apply py_pow_1_half.
  - by exists y.
Qed.

Lemma demo_mha_refs_forward keep :
  ∃ y, MHA_forward
         {| mh_nn := snapshot demo_store demo_mha_refs; mh_d_out := 1;
            mh_num_heads := 1; mh_head_dim := 1; mh_context_length := 2;
            mh_dropout := 0 |}
         keep tokens_1_1 = Some y.
Proof.
  destruct (MHA_forward_elem
              {| mh_nn := snapshot demo_store demo_mha_refs; mh_d_out := 1;
                 mh_num_heads := 1; mh_head_dim := 1; mh_context_length := 2;
                 mh_dropout := 0 |}
              keep tokens_1_1 1 2 1 1 1 1 2
              ones_1_1 ones_1_1 ones_1_1 ones_1_1 (triu_ones 2)
              eq_refl eq_refl eq_refl eq_refl)
    as (y & ctx & Hy & _); try done.
  by exists y.
Qed.

(** C7. [CausalAttentionWithBuffer.forward] and [MHA.forward], run on a
    store of tensor objects, leave every object that exists before the call
    as it is, so the module and its [mask] buffer are unchanged, and return
    a new object: [masked_fill_] overwrites the attention scores computed
    in the call.  The run returns the tensor that [forward] on values
    computes.  In a constructed module [mask] is a buffer and not a
    parameter, and a step of an optimizer leaves the buffers as they
    are. *)
Theorem forward_keeps_mask_buffer :
  (∀ self p keep x,
     keeps_objects self (CausalAttentionWithBuffer_forward_ref self p keep x))
  ∧ (∀ self d_out num_heads head_dim p keep x,
       keeps_objects self (MHA_forward_ref self d_out num_heads head_dim p keep x))
  ∧ (∀ self d_out p keep h x xt y,
       wf h self → h !! x = Some (OT xt) →
       CausalAttentionWithBuffer_forward
         {| ca_nn := snapshot h self; ca_d_out := d_out; ca_dropout := p |} keep xt
       = Some y →
       returns (CausalAttentionWithBuffer_forward_ref self p keep x) h
         (λ r h', h' !! r = Some (OT y)))
  ∧ (∀ self d_out num_heads head_dim context_length p keep h x xt y,
       wf h self → h !! x = Some (OT xt) →
       MHA_forward
         {| mh_nn := snapshot h self; mh_d_out := d_out; mh_num_heads := num_heads;
            mh_head_dim := head_dim; mh_context_length := context_length;
            mh_dropout := p |} keep xt
       = Some y →
       returns (MHA_forward_ref self d_out num_heads head_dim p keep x) h
         (λ r h', h' !! r = Some (OT y)))
  ∧ (∀ d_in d_out c p bias g self,
       CausalAttentionWithBuffer_init d_in d_out c p bias g = inr self →
       mask_is_buffer (ca_nn self))
  ∧ (∀ d_in d_out c p num_heads bias g self,
       MHA_init d_in d_out c p num_heads bias g = inr self →
       mask_is_buffer (mh_nn self))
  ∧ (∀ update m, buffers (optimizer_step update m) = buffers m).
Proof.
  split_and!.
  - intros. apply safe_keeps_objects. intros D.
    apply CausalAttentionWithBuffer_forward_ref_safe.
  - intros. apply safe_keeps_objects. intros D. apply MHA_forward_ref_safe.
  - intros self d_out p keep h x xt y Hwf Hx Hpure.
    by apply (CausalAttentionWithBuffer_forward_ref_returns self d_out p keep h h x xt y).
  - intros self d_out num_heads head_dim context_length p keep h x xt y Hwf Hx Hpure.
    by apply (MHA_forward_ref_returns self d_out num_heads head_dim context_length
                p keep h h x xt y).
  - apply WithBuffer_mask_is_buffer.
  - apply MHA_mask_is_buffer.
  - apply optimizer_step_buffers.
Qed.

Lemma forward_keeps_mask_buffer_witness :
  (∃ r h',
     CausalAttentionWithBuffer_forward_ref demo_refs 0 keep_all 5%positive demo_store
     = Some (r, h')
     ∧ h' !! 4%positive = Some (OT (triu_ones 2))
     ∧ snapshot h' demo_refs = snapshot demo_store demo_refs)
  ∧ (∃ r h',
       MHA_forward_ref demo_mha_refs 1 1 1 0 keep_all 5%positive demo_store
       = Some (r, h')
       ∧ h' !! 4%positive = Some (OT (triu_ones 2))
       ∧ snapshot h' demo_mha_refs = snapshot demo_store demo_mha_refs)
  ∧ mask_is_buffer (ca_nn buffered_two)
  ∧ mask_is_buffer (mh_nn mha_two).
Proof.
  destruct forward_keeps_mask_buffer
    as (Hca & Hmha & Hcar & Hmhar & Hbuf & Hmbuf & _).
  split_and!.
  - destruct (demo_refs_forward keep_all) as (y & Hy).
    destruct (Hcar demo_refs 1%Z 0%R keep_all demo_store 5%positive tokens_1_1 y
                demo_refs_wf eq_refl Hy) as (r & h' & Hrun & _).
    destruct (Hca demo_refs 0%R keep_all 5%positive demo_store r h' Hrun)
      as (Hsame & _ & Hsnap).
    exists r, h'. split_and!; [done | | by apply Hsnap, demo_refs_wf].
    rewrite Hsame; [done |]. by apply elem_of_dom.
  - destruct (demo_mha_refs_forward keep_all) as (y & Hy).
    destruct (Hmhar demo_mha_refs 1%Z 1%Z 1%Z 2%Z 0%R keep_all demo_store 5%positive
                tokens_1_1 y demo_mha_refs_wf eq_refl Hy) as (r & h' & Hrun & _).
    destruct (Hmha demo_mha_refs 1%Z 1%Z 1%Z 0%R keep_all 5%positive demo_store r h' Hrun)
      as (Hsame & _ & Hsnap).
    exists r, h'. split_and!; [done | | by apply Hsnap, demo_mha_refs_wf].
    rewrite Hsame; [done |]. by apply elem_of_dom.
  - apply (Hbuf 1%Z 1%Z 2%Z 0%R false ones_rng). apply buffered_two_constructed.
  - apply (Hmbuf 1%Z 1%Z 2%Z 0%R 1%Z false ones_rng). apply mha_two_constructed.
Defined.

(** A later token that is [nan] reaches the output of an earlier position:
    its weight is 0, and [0 * nan] is [nan]. *)
Lemma nan_token_not_causal keep :
  ∃ y y', CausalAttentionWithoutBuffers_forward plain_two keep tokens_0_0 = Some y
          ∧ CausalAttentionWithoutBuffers_forward plain_two keep tokens_0_nan = Some y'
          ∧ same_token 1 0 0 tokens_0_0 tokens_0_nan
          ∧ at_ y [0; 0; 0] = Fin 0 ∧ at_ y' [0; 0; 0] = NaN.
Proof.
  set (W := {| shape := [1; 1]; at_ := ones_rng "W" |}).
  destruct (CausalAttention_forward_elem plain_two keep tokens_0_0 1 2 1 1 2
              W W W (triu_ones 2) 1 eq_refl eq_refl eq_refl)
    as (y & Hy & _ & Ey); try done; [by left | apply py_pow_1_half |].
  destruct (CausalAttention_forward_elem plain_two keep tokens_0_nan 1 2 1 1 2
              W W W (triu_ones 2) 1 eq_refl eq_refl eq_refl)
    as (y' & Hy' & _ & Ey'); try done; [by left | apply py_pow_1_half |].
  exists y, y'. split; [done |]. split; [done |]. split.
  { intros k Hk. by destruct k; [| lia]. }
  pose proof (exp_pos 0) as He.
  split.
  - rewrite Ey. eval_lookup. unfold attention_elem, masked_logit, bigsum. cbn.
    rewrite !triu_ones_causal. cbn. unfold linear_at, bigsum. cbn.
    destruct (Req_dec_T 1 0) as [? | _]; [lra |]. cbn.
    repeat match goal with
           | |- context [Rlt_dec ?a ?b] =>
               destruct (Rlt_dec a b) as [? | _]; [lra | cbn]
           end.
    repeat match goal with
           | |- context [exp ?t] => progress (replace t with 0%R by lra)
           end.
    rewrite exp_0.
    repeat match goal with
           | |- context [Req_dec_T ?v 0] =>
               destruct (Req_dec_T v 0) as [? | _]; [lra | cbn]
           end.
    f_equal. lra.
  - rewrite Ey'. eval_lookup. unfold attention_elem, masked_logit, bigsum. cbn.
    rewrite !triu_ones_causal. cbn. unfold linear_at, bigsum. cbn.
    destruct (Req_dec_T 1 0) as [? | _]; [lra |]. cbn.
    repeat match goal with
           | |- context [Rlt_dec ?a ?b] =>
               destruct (Rlt_dec a b) as [? | _]; [lra | cbn]
           end.
    repeat match goal with
           | |- context [exp ?t] => progress (replace t with 0%R by lra)
           end.
    rewrite exp_0.
    repeat match goal with
           | |- context [Req_dec_T ?v 0] =>
               destruct (Req_dec_T v 0) as [? | _]; [lra | cbn]
           end.
    done.
Qed.

(** * Results on the attention classes *)

(** C1. [MHA.forward] multiplies the values with the masked scores, not
    with the attention weights: on one token, with [W_query = 2] and every
    other weight 1, it returns 2, and scaled dot-product attention
    returns 1. *)
Theorem MHA_forward_uses_scores :
  MHA_init 1 1 1 0 1 false demo_rng = inr demo_mha
  ∧ ∃ y y', MHA_forward demo_mha keep_all one_token = Some y
            ∧ MHA_standard demo_mha keep_all one_token = Some y'
            ∧ at_ y [0; 0; 0] = Fin 2 ∧ at_ y' [0; 0; 0] = Fin 1.
Proof. split; [apply demo_mha_constructed | apply MHA_demo]. Qed.

(** C2. [MHA_Wrapper.forward] and [MHA.forward] differ on one token for
    one head with the same weights ([W_query = 2], every other weight 1, no
    bias in the output projection): the loop of heads returns 1, [MHA]
    returns 2. *)
Theorem MHA_Wrapper_differs_from_MHA :
  MHA_Wrapper_init 1 1 1 0 1 false (λ _, demo_rng) demo_rng = inr demo_wrapper
  ∧ MHA_init 1 1 1 0 1 false demo_rng = inr demo_mha
  ∧ (∀ name, name ∈ ["W_query.weight"; "W_key.weight"; "W_value.weight"] →
       params (ca_nn demo_head) !! name = params (mh_nn demo_mha) !! name)
  ∧ (∀ name, name ∈ ["out_proj.weight"; "out_proj.bias"] →
       params (wr_nn demo_wrapper) !! name = params (mh_nn demo_mha) !! name)
  ∧ ∃ y y', MHA_Wrapper_forward demo_wrapper (λ _, keep_all) one_token = Some y
            ∧ MHA_forward demo_mha keep_all one_token = Some y'
            ∧ at_ y [0; 0; 0] = Fin 1 ∧ at_ y' [0; 0; 0] = Fin 2.
Proof.
  split; [apply demo_wrapper_constructed |].
  split; [apply demo_mha_constructed |].
  split.
  { intros name Hn%list_elem_of_In. cbn in Hn.
    destruct Hn as [<- | [<- | [<- | []]]]; reflexivity. }
  split.
  { intros name Hn%list_elem_of_In. cbn in Hn.
    destruct Hn as [<- | [<- | []]]; reflexivity. }
  destruct (Wrapper_demo (λ _, keep_all)) as (y & Hy & Ey).
  destruct (MHA_demo keep_all) as (y' & _ & Hy' & _ & Ey' & _).
  by exists y, y'.
Qed.

(** C3. [MultiHeadAttentionCombinedQKV.forward] divides the scores by
    [head_dim ** -0.5], which multiplies them by the square root of the
    head dimension: for [head_dim = 2] the weight of the own token at
    position 1 is [sigmoid (sqrt 2)], where division by [sqrt 2] gives
    [sigmoid (1 / sqrt 2)]. *)
Theorem CombinedQKV_scale_inverted :
  MultiHeadAttentionCombinedQKV_init 2 2 1 2 0 false qkv_rng = inr demo_qkv
  ∧ py_pow 2 (- / 2) = Some (/ sqrt 2)%R
  ∧ (∃ y y', MultiHeadAttentionCombinedQKV_forward demo_qkv keep_all two_tokens = Some y
             ∧ CombinedQKV_standard demo_qkv keep_all two_tokens = Some y'
             ∧ at_ y [0; 1; 0] = Fin (sigmoid (sqrt 2))
             ∧ at_ y' [0; 1; 0] = Fin (sigmoid (/ sqrt 2)))
  ∧ sigmoid (sqrt 2) ≠ sigmoid (/ sqrt 2).
Proof.
  split; [apply demo_qkv_constructed |].
  split; [apply py_pow_2_neg_half |].
  split; [apply QKV_demo | apply sigmoid_scale_differs].
Qed.

(** The output at position 0 depends on the token at position 1 when the
    input is longer than a context of length 1 (the mask of one element is
    broadcast and masks nothing), when the later token is [nan], and, for
    [MHA], always. *)
Lemma causality_counterexamples :
  (CausalAttentionWithoutBuffers_init 1 1 1 0 false ones_rng = inr short_context
   ∧ ∃ y y',
       CausalAttentionWithoutBuffers_forward short_context keep_all tokens_0_0 = Some y
       ∧ CausalAttentionWithoutBuffers_forward short_context keep_all tokens_0_2 = Some y'
       ∧ same_token 1 0 0 tokens_0_0 tokens_0_2
       ∧ at_ y [0; 0; 0] = Fin 0 ∧ at_ y' [0; 0; 0] = Fin 1)
  ∧ (CausalAttentionWithoutBuffers_init 1 1 2 0 false ones_rng = inr plain_two
     ∧ ∃ y y',
         CausalAttentionWithoutBuffers_forward plain_two keep_all tokens_0_0 = Some y
         ∧ CausalAttentionWithoutBuffers_forward plain_two keep_all tokens_0_nan = Some y'
         ∧ same_token 1 0 0 tokens_0_0 tokens_0_nan
         ∧ at_ y [0; 0; 0] = Fin 0 ∧ at_ y' [0; 0; 0] = NaN)
  ∧ (MHA_init 1 1 2 0 1 false ones_rng = inr mha_two
     ∧ ∃ y y', MHA_forward mha_two keep_all tokens_1_1 = Some y
               ∧ MHA_forward mha_two keep_all tokens_1_m1 = Some y'
               ∧ same_token 1 0 0 tokens_1_1 tokens_1_m1
               ∧ at_ y [0; 0; 0] = NInf ∧ at_ y' [0; 0; 0] = PInf).
Proof.
  split; [| split].
  - split; [apply short_context_constructed | apply short_context_not_causal].
  - split; [apply plain_two_constructed | apply nan_token_not_causal].
  - split; [apply mha_two_constructed | apply MHA_not_causal].
Qed.

(** ** [MHA.forward] is not causal *)

Lemma MHA_standard_two keep :
  ∃ y y', MHA_standard mha_two keep tokens_1_1 = Some y
          ∧ MHA_standard mha_two keep tokens_1_m1 = Some y'
          ∧ at_ y [0; 0; 0] = Fin 2 ∧ at_ y' [0; 0; 0] = Fin 2.
Proof.
  set (W := {| shape := [1; 1]; at_ := ones_rng "W" |}).
  destruct (MHA_standard_elem mha_two keep tokens_1_1 1 2 1 1 1 1 2
              W W W W (triu_ones 2) eq_refl eq_refl eq_refl eq_refl)
    as (y & ctx & Hy & _ & Ey & Ec); try done.
  destruct (MHA_standard_elem mha_two keep tokens_1_m1 1 2 1 1 1 1 2
              W W W W (triu_ones 2) eq_refl eq_refl eq_refl eq_refl)
    as (y' & ctx' & Hy' & _ & Ey' & Ec'); try done.
  exists y, y'. split; [done |]. split; [done |].
  pose proof (exp_pos 1) as He.
  split.
  - rewrite Ey. eval_lookup. unfold linear_at, bigsum. cbn. rewrite Ec by lia.
    eval_lookup. unfold attention_elem, mha_masked_score, bigsum. cbn.
    rewrite !triu_ones_causal. cbn. unfold linear_at, bigsum. cbn.
    rewrite sqrt_1. destruct (Req_dec_T 1 0) as [? | _]; [lra |]. cbn.
    destruct (Rlt_dec 1 0) as [? | _]; [lra |]. cbn.
    repeat match goal with
           | |- context [exp ?t] => progress (replace t with 1%R by lra)
           end.
    repeat match goal with
           | |- context [Req_dec_T ?v 0] =>
               destruct (Req_dec_T v 0) as [? | _]; [lra | cbn]
           end.
    f_equal. field. lra.
  - rewrite Ey'. eval_lookup. unfold linear_at, bigsum. cbn. rewrite Ec' by lia.
    eval_lookup. unfold attention_elem, mha_masked_score, bigsum. cbn.
    rewrite !triu_ones_causal. cbn. unfold linear_at, bigsum. cbn.
    rewrite sqrt_1. destruct (Req_dec_T 1 0) as [? | _]; [lra |]. cbn.
    destruct (Rlt_dec 1 0) as [? | _]; [lra |]. cbn.
    repeat match goal with
           | |- context [exp ?t] => progress (replace t with 1%R by lra)
           end.
    repeat match goal with
           | |- context [Req_dec_T ?v 0] =>
               destruct (Req_dec_T v 0) as [? | _]; [lra | cbn]
           end.
    f_equal. field. lra.
Qed.

(** C4. [MHA.forward] is not causal: for [MHA(d_in=1, d_out=1,
    context_length=2, dropout=0.0, num_heads=1)] with all weights 1, the
    inputs [[[[1], [1]]]] and [[[[1], [-1]]]] agree at position 0, and the
    output at position 0 is [-inf] for the first and [+inf] for the second:
    the context vector is the product of the masked scores with the
    values (the defect of C1).  Softmax attention with the same weights
    returns 2 at position 0 for both inputs. *)
Theorem MHA_forward_not_causal :
  MHA_init 1 1 2 0 1 false ones_rng = inr mha_two
  ∧ same_token 1 0 0 tokens_1_1 tokens_1_m1
  ∧ (∃ y y', MHA_forward mha_two keep_all tokens_1_1 = Some y
             ∧ MHA_forward mha_two keep_all tokens_1_m1 = Some y'
             ∧ at_ y [0; 0; 0] = NInf ∧ at_ y' [0; 0; 0] = PInf)
  ∧ (∃ y y', MHA_standard mha_two keep_all tokens_1_1 = Some y
             ∧ MHA_standard mha_two keep_all tokens_1_m1 = Some y'
             ∧ at_ y [0; 0; 0] = Fin 2 ∧ at_ y' [0; 0; 0] = Fin 2).
Proof.
  split; [apply mha_two_constructed |].
  destruct (MHA_not_causal keep_all) as (y & y' & Hy & Hy' & Hsame & E & E').
  split; [done |]. split; [by exists y, y' |]. apply MHA_standard_two.
Qed.

(** * Results on buffers and plain attributes *)

(** C5. [CausalAttentionWithBuffer.forward] and
    [CausalAttentionWithoutBuffers.forward] return the same result (a
    tensor or an exception) on every input when the two modules hold the
    same parameters, mask, dropout probability and mode and draw the same
    dropout sample; two modules constructed with the same arguments and
    initial values do. *)
Theorem buffer_does_not_change_forward :
  (∀ (m1 m2 : CausalAttention) keep x,
     params (ca_nn m1) = params (ca_nn m2) →
     getattr "mask" (ca_nn m1) = getattr "mask" (ca_nn m2) →
     ca_dropout m1 = ca_dropout m2 →
     training (ca_nn m1) = training (ca_nn m2) →
     CausalAttentionWithBuffer_forward m2 keep x
     = CausalAttentionWithoutBuffers_forward m1 keep x)
  ∧ (∀ d_in d_out c p bias g m1 m2 keep x,
       CausalAttentionWithoutBuffers_init d_in d_out c p bias g = inr m1 →
       CausalAttentionWithBuffer_init d_in d_out c p bias g = inr m2 →
       CausalAttentionWithBuffer_forward m2 keep x
       = CausalAttentionWithoutBuffers_forward m1 keep x).
Proof.
  split; [apply buffer_or_attribute |].
  intros d_in d_out c p bias g m1 m2 keep x H1 H2.
  apply CausalAttentionWithoutBuffers_init_inr in H1 as (_ & _ & ->).
  apply CausalAttentionWithBuffer_init_inr in H2 as (_ & _ & ->).
  apply buffer_or_attribute; cbn [ca_nn ca_dropout]; try done.
  - rewrite without_buffer_nn. done.
  - rewrite without_buffer_nn. unfold getattr. cbn.
    rewrite lookup_singleton_eq.
    rewrite (single_head_eta d_in d_out bias g). cbn.
    by rewrite lookup_empty, single_head_no_mask, lookup_insert_eq.
  - rewrite without_buffer_nn. by rewrite (single_head_eta d_in d_out bias g).
Qed.

Lemma buffer_does_not_change_forward_witness :
  CausalAttentionWithBuffer_forward buffered_two keep_all tokens_0_2
  = CausalAttentionWithoutBuffers_forward plain_two keep_all tokens_0_2.
Proof.
  apply (proj2 buffer_does_not_change_forward 1%Z 1%Z 2%Z 0%R false ones_rng).
  - apply plain_two_constructed.
  - apply buffered_two_constructed.
Defined.

(** C6. The state dictionary of a constructed [CausalAttentionWithBuffer]
    has the entry [mask]; after the mask is modified, the dictionary saved
    and loaded into a newly constructed module of the same sizes, the mask
    of that module is the modified mask.  The state dictionary of a
    constructed [CausalAttentionWithoutBuffers] has no entry [mask], and
    after the same steps the mask of the new module is the constructed
    one. *)
Theorem state_dict_holds_buffers_only
    (d_in d_out c : Z) (p : R) (bias : bool) (g g' : rng)
    (ca new_ca ca0 new_ca0 : CausalAttention) :
  CausalAttentionWithBuffer_init d_in d_out c p bias g = inr ca →
  CausalAttentionWithBuffer_init d_in d_out c p bias g' = inr new_ca →
  CausalAttentionWithoutBuffers_init d_in d_out c p bias g = inr ca0 →
  CausalAttentionWithoutBuffers_init d_in d_out c p bias g' = inr new_ca0 →
  state_dict (ca_nn ca) !! "mask" = Some (triu_ones (Z.to_nat c))
  ∧ (∃ loaded, save_and_reload (modify_mask ca) new_ca = Some loaded
       ∧ getattr "mask" (ca_nn loaded)
         = Some (masked_assign 1 2 (triu_ones (Z.to_nat c))))
  ∧ state_dict (ca_nn ca0) !! "mask" = None
  ∧ getattr "mask" (ca_nn (modify_mask ca0))
    = Some (masked_assign 1 2 (triu_ones (Z.to_nat c)))
  ∧ (∃ loaded, save_and_reload (modify_mask ca0) new_ca0 = Some loaded
       ∧ getattr "mask" (ca_nn loaded) = Some (triu_ones (Z.to_nat c))).
Proof.
  intros Hca Hnew Hca0 Hnew0.
  split; [by eapply with_buffer_state_dict |].
  split; [by eapply with_buffer_round_trip |].
  split; [by eapply without_buffer_state_dict |].
  by eapply without_buffer_round_trip.
Qed.

Lemma state_dict_holds_buffers_only_witness :
  (state_dict (ca_nn buffered_two) !! "mask" = Some (triu_ones (Z.to_nat 2))
   ∧ (∃ loaded, save_and_reload (modify_mask buffered_two) buffered_two = Some loaded
        ∧ getattr "mask" (ca_nn loaded)
          = Some (masked_assign 1 2 (triu_ones (Z.to_nat 2))))
   ∧ state_dict (ca_nn plain_two) !! "mask" = None
   ∧ getattr "mask" (ca_nn (modify_mask plain_two))
     = Some (masked_assign 1 2 (triu_ones (Z.to_nat 2)))
   ∧ (∃ loaded, save_and_reload (modify_mask plain_two) plain_two = Some loaded
        ∧ getattr "mask" (ca_nn loaded) = Some (triu_ones (Z.to_nat 2))))
  ∧ at_ (triu_ones 2) [0; 1] = Fin 1
  ∧ at_ (masked_assign 1 2 (triu_ones 2)) [0; 1] = Fin 2.
Proof.
  split.
  - apply (state_dict_holds_buffers_only 1 1 2 0 false ones_rng ones_rng).
    + apply buffered_two_constructed.
    + apply buffered_two_constructed.
    + apply plain_two_constructed.
    + apply plain_two_constructed.
  - split; [reflexivity |]. cbn. destruct (Req_dec_T 1 1) as [_ | H]; [done | lra].
Defined.

(** * Results on the constructors *)

(** C9. Each of the four constructors raises [AssertionError] exactly when
    [num_heads] is not 0 and [d_out % num_heads] is not 0, and succeeds
    exactly when [num_heads] is not 0, [d_out % num_heads] is 0, no size is
    negative and, where the class holds them, the context length is not
    negative and the dropout probability lies between 0 and 1. *)
Theorem fused_constructors_assert_divisibility
    (d_in d_out num_heads context_length : Z) (dropout : R) (qkv_bias : bool) (g : rng) :
  (MHA_init d_in d_out context_length dropout num_heads qkv_bias g = inl AssertionError
   ↔ num_heads ≠ 0%Z ∧ (d_out mod num_heads ≠ 0)%Z)
  ∧ (MultiHeadAttentionCombinedQKV_init d_in d_out num_heads context_length dropout
       qkv_bias g = inl AssertionError
     ↔ num_heads ≠ 0%Z ∧ (d_out mod num_heads ≠ 0)%Z)
  ∧ (MHAPyTorchScaledDotProduct_init d_in d_out num_heads context_length dropout
       qkv_bias g = inl AssertionError
     ↔ num_heads ≠ 0%Z ∧ (d_out mod num_heads ≠ 0)%Z)
  ∧ (MHAPyTorchSDPAWithoutFlash_init d_in d_out num_heads context_length dropout
       qkv_bias g = inl AssertionError
     ↔ num_heads ≠ 0%Z ∧ (d_out mod num_heads ≠ 0)%Z)
  ∧ ((∃ self, MHA_init d_in d_out context_length dropout num_heads qkv_bias g = inr self)
     ↔ (num_heads ≠ 0%Z ∧ (d_out mod num_heads = 0)%Z) ∧ (0 ≤ d_in ∧ 0 ≤ d_out)%Z
       ∧ (0 ≤ context_length)%Z ∧ (0 <= dropout <= 1)%R)
  ∧ ((∃ self, MultiHeadAttentionCombinedQKV_init d_in d_out num_heads context_length
                dropout qkv_bias g = inr self)
     ↔ (num_heads ≠ 0%Z ∧ (d_out mod num_heads = 0)%Z) ∧ (0 ≤ d_in ∧ 0 ≤ d_out)%Z
       ∧ (0 ≤ context_length)%Z ∧ (0 <= dropout <= 1)%R)
  ∧ ((∃ self, MHAPyTorchScaledDotProduct_init d_in d_out num_heads context_length
                dropout qkv_bias g = inr self)
     ↔ (num_heads ≠ 0%Z ∧ (d_out mod num_heads = 0)%Z) ∧ (0 ≤ d_in ∧ 0 ≤ d_out)%Z)
  ∧ ((∃ self, MHAPyTorchSDPAWithoutFlash_init d_in d_out num_heads context_length
                dropout qkv_bias g = inr self)
     ↔ (num_heads ≠ 0%Z ∧ (d_out mod num_heads = 0)%Z) ∧ (0 ≤ d_in ∧ 0 ≤ d_out)%Z
       ∧ (0 ≤ context_length)%Z).
Proof.
  split_and!.
  - apply MHA_init_assertion.
  - apply CombinedQKV_init_assertion.
  - apply ScaledDotProduct_init_assertion.
  - apply SDPAWithoutFlash_init_assertion.
  - apply MHA_init_succeeds.
  - apply CombinedQKV_init_succeeds.
  - apply ScaledDotProduct_init_succeeds.
  - apply SDPAWithoutFlash_init_succeeds.
Qed.

(** With [num_heads = 0] the check of divisibility raises
    [ZeroDivisionError]; with [num_heads] dividing [d_out], a dropout
    probability of 2 raises [ValueError] and a negative [d_in] raises
    [RuntimeError]. *)
Lemma constructor_counterexamples :
  (MHA_init 1 5 1 0 0 false ones_rng = inl ZeroDivisionError ∧ ¬ (0 | 5)%Z)
  ∧ (MHA_init 1 4 1 2 2 false ones_rng = inl ValueError ∧ (2 | 4)%Z)
  ∧ (MHA_init (-1) 4 1 0 2 false ones_rng = inl RuntimeError ∧ (2 | 4)%Z).
Proof.
  split_and!.
  - reflexivity.
  - intros [k Hk]. lia.
  - unfold MHA_init. cbv zeta.
    rewrite assert_divisible_ok by done.
    rewrite !add_Linear_ok by lia. cbn [rbind].
    unfold Dropout_init. destruct (Rlt_dec 2 0) as [H | _]; [lra |].
    destruct (Rlt_dec 1 2) as [_ | H]; [done | lra].
  - by exists 2%Z.
  - reflexivity.
  - by exists 2%Z.
Qed.

(** ** Inputs longer than the context *)

Lemma Linear_forward_shape name m x t b n d :
  shape x = [b; n; d] → Linear_forward name m x = Some t →
  ∃ o, shape t = [b; n; o].
Proof.
  intros Sx. unfold Linear_forward.
  destruct (params m !! (name +:+ ".weight")) as [W |]; [| done].
  cbn [mbind option_bind]. unfold linear.
  destruct (shape W) as [| o [| i [| ? ?]]]; try done.
  case_decide; [| done]. intros [= <-]. exists o. cbn [shape]. by rewrite Sx.
Qed.

Lemma transpose_1_2_shape t b n d :
  shape t = [b; n; d] →
  ∃ t', transpose 1 2 t = Some t' ∧ shape t' = [b; d; n].
Proof.
  intros St. unfold transpose. rewrite St. cbn [length]. eval_norm_dim.
  cbn [mbind option_bind]. eexists. split; [done |]. reflexivity.
Qed.

Lemma matmul_shape a b' t b n d d' m :
  shape a = [b; n; d] → shape b' = [b; d'; m] → matmul a b' = Some t →
  shape t = [b; n; m].
Proof.
  intros Sa Sb. unfold matmul. rewrite Sa, Sb.
  change (reverse [b; n; d]) with [d; n; b].
  change (reverse [b; d'; m]) with [m; d'; b].
  cbv beta iota. case_decide; [| done]. by intros [= <-].
Qed.

(** With a mask of side [c] other than 1, an input of more than [c] tokens
    is refused: the slice of the mask has side [c] and cannot be broadcast
    to the scores. *)
Lemma CausalAttention_too_long self keep x mask b n d_in c :
  shape x = [b; n; d_in] →
  getattr "mask" (ca_nn self) = Some mask → shape mask = [c; c] →
  c < n → c ≠ 1 →
  CausalAttentionWithBuffer_forward self keep x = None.
Proof.
  intros Sx Hm Sm Hc Hc1. unfold CausalAttentionWithBuffer_forward. rewrite Sx.
  destruct (Linear_forward "W_key" (ca_nn self) x) as [keys |] eqn:Ek; [| done].
  destruct (Linear_forward "W_query" (ca_nn self) x) as [queries |] eqn:Eq; [| done].
  destruct (Linear_forward "W_value" (ca_nn self) x) as [values |] eqn:Ev; [| done].
  cbn [mbind option_bind].
  destruct (Linear_forward_shape _ _ _ _ _ _ _ Sx Ek) as (ok & Sk).
  destruct (Linear_forward_shape _ _ _ _ _ _ _ Sx Eq) as (oq & Sq).
  destruct (transpose_1_2_shape keys b n ok Sk) as (keysT & -> & SkT).
  cbn [mbind option_bind].
  destruct (matmul queries keysT) as [scores |] eqn:Es; [| done].
  cbn [mbind option_bind]. rewrite Hm. cbn [mbind option_bind].
  pose proof (matmul_shape _ _ _ _ _ _ _ _ Sq SkT Es) as Ss.
  unfold bslice2, to_bool. cbn [bshape]. rewrite Sm. cbn [mbind option_bind].
  unfold masked_fill. cbn [bshape]. rewrite Ss.
  unfold broadcasts_to.
  change (reverse [b; n; n]) with [n; n; b].
  change (reverse [n `min` c; n `min` c]) with [n `min` c; n `min` c].
  cbn [broadcasts_rev].
  replace (n `min` c) with c by lia.
  replace (c =? n) with false by (symmetry; apply Nat.eqb_neq; lia).
  replace (c =? 1) with false by (symmetry; apply Nat.eqb_neq; lia).
  done.
Qed.

(** ** The module after the round trip *)

(** With the mask as a buffer, the module that loaded the saved dictionary
    is the saved module. *)
Lemma with_buffer_reloaded d_in d_out c p bias g g' ca new_ca :
  CausalAttentionWithBuffer_init d_in d_out c p bias g = inr ca →
  CausalAttentionWithBuffer_init d_in d_out c p bias g' = inr new_ca →
  save_and_reload (modify_mask ca) new_ca = Some (modify_mask ca).
Proof.
  intros Hca Hnew. unfold save_and_reload.
  rewrite (with_buffer_modified_nn d_in d_out c p bias g ca Hca).
  pose proof (with_buffer_modified_nn d_in d_out c p bias g ca Hca) as Hmod.
  apply CausalAttentionWithBuffer_init_inr in Hnew as (_ & _ & ->).
  apply CausalAttentionWithBuffer_init_inr in Hca as (_ & _ & ->).
  rewrite (single_head_eta _ _ _ g').
  rewrite load_state_dict_same_layout.
  - cbn [mbind option_bind]. f_equal.
    cbn [params buffers attrs training ca_nn ca_d_out ca_dropout register_buffer].
    rewrite <- Hmod. done.
  - intros k. cbn. apply single_head_layout.
  - intros k. cbn. rewrite lookup_singleton, lookup_insert, lookup_empty.
    by case_decide.
  - cbn. apply map_disjoint_singleton_r, single_head_no_mask.
Qed.

(** With the mask as a plain attribute, the modification is not saved: the
    module that loaded the dictionary is the module before the
    modification. *)
Lemma without_buffer_reloaded d_in d_out c p bias g g' ca0 new_ca0 :
  CausalAttentionWithoutBuffers_init d_in d_out c p bias g = inr ca0 →
  CausalAttentionWithoutBuffers_init d_in d_out c p bias g' = inr new_ca0 →
  save_and_reload (modify_mask ca0) new_ca0 = Some ca0.
Proof.
  intros Hca Hnew. unfold save_and_reload.
  rewrite (without_buffer_modified_nn d_in d_out c p bias g ca0 Hca).
  apply CausalAttentionWithoutBuffers_init_inr in Hnew as (_ & _ & ->).
  apply CausalAttentionWithoutBuffers_init_inr in Hca as (_ & _ & ->).
  cbn [ca_nn]. rewrite !without_buffer_nn.
  rewrite load_state_dict_same_layout.
  - done.
  - intros k. cbn. apply single_head_layout.
  - done.
  - cbn. apply map_disjoint_empty_r.
Qed.

(** ** The state of [BatchNorm] *)

Lemma BatchNorm_init_built (c : Z) (eps mom : R) (aff track : bool) (self : BatchNorm) :
  (0 ≤ c)%Z →
  BatchNorm_init c eps mom aff track = inr self →
  bn_built self (Z.to_nat c) ∧ training (bn_nn self) = true.
Proof.
  unfold BatchNorm_init. cbv zeta. intros Hc H.
  assert (check_sizes [c] = inr [Z.to_nat c]) as Hsz.
  { apply check_sizes_inr. split; [| done]. apply Forall_cons. split; [done | constructor]. }
  rewrite Hsz in H.
  destruct aff, track; cbn in H; injection H as <-.
  all: unfold bn_built; cbn.
  all: split_and!; try done; try lia.
  all: eexists _, _; split_and!; done.
Qed.

Lemma bn_built_ok (self : BatchNorm) (C : nat) : bn_built self C → bn_ok self C.
Proof.
  intros (Hch & Hattrs & Hbuf & Hpar). split_and!; [done | |].
  - intros Ht. rewrite Ht in Hbuf. destruct Hbuf as (em & ev & Hb & Sem & Sev).
    assert (params (bn_nn self) !! "exp_mean" = None
            ∧ params (bn_nn self) !! "exp_var" = None) as [Hp1 Hp2].
    { destruct (affine self).
      - destruct Hpar as (sc & sh & -> & _). by rewrite !lookup_insert_ne, lookup_empty.
      - rewrite Hpar. by rewrite lookup_empty. }
    unfold has_vector, getattr. rewrite Hattrs, !lookup_empty, Hp1, Hp2, Hb.
    split; [exists em | exists ev]; split; done.
  - intros Ha. rewrite Ha in Hpar. destruct Hpar as (sc & sh & Hp & Ssc & Ssh).
    unfold has_vector, getattr. rewrite Hattrs, !lookup_empty, Hp.
    split; [exists sc | exists sh]; split; done.
Qed.

Lemma stored_buffer (self : BatchNorm) (C : nat) (name : string) (t : tensor) (c : nat) :
  bn_built self C → name ∈ ["exp_mean"; "exp_var"] →
  buffers (bn_nn self) !! name = Some t → stored name self c = at_ t [c].
Proof.
  intros (_ & Hattrs & _ & Hpar) Hn%list_elem_of_In Hb. cbn in Hn.
  unfold stored, getattr. rewrite Hattrs, lookup_empty.
  assert (params (bn_nn self) !! name = None) as ->; [| by rewrite Hb].
  destruct Hn as [<- | [<- | []]]; destruct (affine self).
  all: try (destruct Hpar as (sc & sh & -> & _); by rewrite !lookup_insert_ne, lookup_empty).
  all: rewrite Hpar; by rewrite lookup_empty.
Qed.

Lemma setattr_buffer (name : string) (t t0 : tensor) (m : Module) :
  buffers m !! name = Some t0 →
  setattr name t m
  = {| params := params m; buffers := <[name := t]> (buffers m);
       attrs := attrs m; training := training m |}.
Proof. intros H. unfold setattr. by rewrite H. Qed.

(** [forward] in training mode with tracked statistics: the statistics of
    the batch, and the module with the updated moving averages. *)
Lemma BatchNorm_stats_tracking (self : BatchNorm) (x3 em ev : tensor) (B C N : nat) :
  shape x3 = [B; C; N] → bn_built self C →
  training (bn_nn self) = true → track_running_stats self = true →
  buffers (bn_nn self) = <["exp_var" := ev]> (<["exp_mean" := em]> ∅) →
  BatchNorm_stats self x3
  = Some (stats_mean x3, stats_var x3,
          with_nn self
            {| params := params (bn_nn self);
               buffers :=
                 <["exp_var" := averaged (momentum self) ev (stats_var x3)]>
                   (<["exp_mean" := averaged (momentum self) em (stats_mean x3)]> ∅);
               attrs := ∅; training := true |}).
Proof.
  intros Hs Hbuilt Htr Htrack Hb.
  pose proof Hbuilt as (Hch & Hattrs & Hbuf & Hpar). rewrite Htrack in Hbuf.
  destruct Hbuf as (em' & ev' & Hb' & Sem & Sev).
  assert (em' = em ∧ ev' = ev) as [-> ->].
  { rewrite Hb in Hb'. split.
    - assert (Some em = Some em') as [= ->]; [| done].
      change (Some em) with
        ((<["exp_var" := ev]> (<["exp_mean" := em]> (∅ : gmap string tensor))) !! "exp_mean").
      by rewrite Hb'.
    - assert (Some ev = Some ev') as [= ->]; [| done].
      change (Some ev) with
        ((<["exp_var" := ev]> (<["exp_mean" := em]> (∅ : gmap string tensor))) !! "exp_var").
      by rewrite Hb'. }
  clear Hb'.
  assert (Hnp : ∀ name, name ∈ ["exp_mean"; "exp_var"] →
                  params (bn_nn self) !! name = None).
  { intros name Hn%list_elem_of_In. cbn in Hn.
    destruct Hn as [<- | [<- | []]]; destruct (affine self).
    all: try (destruct Hpar as (sc & sh & -> & _); by rewrite !lookup_insert_ne, lookup_empty).
    all: rewrite Hpar; by rewrite lookup_empty. }
  assert (Hem : getattr "exp_mean" (bn_nn self) = Some em).
  { unfold getattr. rewrite Hattrs, lookup_empty, Hb, Hnp; [done |].
    apply list_elem_of_In. cbn. tauto. }
  assert (Hev : getattr "exp_var" (bn_nn self) = Some ev).
  { unfold getattr. rewrite Hattrs, lookup_empty, Hb, Hnp; [done |].
    apply list_elem_of_In. cbn. tauto. }
  unfold BatchNorm_stats. rewrite Htr, Htrack. cbn [orb andb negb].
  rewrite (mean_dims_batch x3 B C N Hs).
  rewrite (mean_dims_batch (square x3) B C N Hs).
  cbn [mbind option_bind].
  assert (stats_mean x3 = {| shape := [C]; at_ := mean_at [true; false; true] false x3 |})
    as <- by (unfold stats_mean; by rewrite Hs).
  assert (stats_mean (square x3)
          = {| shape := [C]; at_ := mean_at [true; false; true] false (square x3) |})
    as <- by (unfold stats_mean; cbn [square tmap shape]; by rewrite Hs).
  rewrite bop_same_shape by done. cbn [mbind option_bind].
  assert ({| shape := shape (stats_mean (square x3));
             at_ := bop_at xsub (stats_mean (square x3)) (square (stats_mean x3)) |}
          = stats_var x3) as -> by done.
  rewrite Hem. cbn [mbind option_bind]. unfold moving_average.
  rewrite bop_same_shape by (cbn [tmap shape stats_mean]; by rewrite Sem, Hs).
  cbn [mbind option_bind with_nn bn_nn].
  rewrite getattr_setattr_ne by done. rewrite Hev. cbn [mbind option_bind].
  rewrite bop_same_shape by (cbn [tmap shape stats_var]; by rewrite Sev, Hs).
  cbn [mbind option_bind]. do 2 f_equal.
  unfold with_nn. cbn [momentum channels bn_eps affine track_running_stats bn_nn].
  f_equal.
  rewrite (setattr_buffer "exp_mean" _ em (bn_nn self)) by (by rewrite Hb).
  rewrite (setattr_buffer "exp_var" _ ev) by (cbn [buffers]; by rewrite Hb).
  cbn [params buffers attrs training]. rewrite Hb, Hattrs, Htr.
  done.
Qed.

Lemma BatchNorm_stats_untracked (self : BatchNorm) (x3 : tensor) (B C N : nat) :
  shape x3 = [B; C; N] →
  training (bn_nn self) || negb (track_running_stats self) = true →
  training (bn_nn self) && track_running_stats self = false →
  BatchNorm_stats self x3 = Some (stats_mean x3, stats_var x3, self).
Proof.
  intros Hs Hmode Hno. unfold BatchNorm_stats. rewrite Hmode, Hno.
  rewrite (mean_dims_batch x3 B C N Hs).
  rewrite (mean_dims_batch (square x3) B C N Hs).
  cbn [mbind option_bind].
  assert (stats_mean x3 = {| shape := [C]; at_ := mean_at [true; false; true] false x3 |})
    as <- by (unfold stats_mean; by rewrite Hs).
  assert (stats_mean (square x3)
          = {| shape := [C]; at_ := mean_at [true; false; true] false (square x3) |})
    as <- by (unfold stats_mean; cbn [square tmap shape]; by rewrite Hs).
  rewrite bop_same_shape by done. done.
Qed.

Lemma averaged_at (m : R) (old new : tensor) (C c : nat) :
  shape old = [C] → shape new = [C] → c < C →
  at_ (averaged m old new) [c]
  = xadd (xmul (Fin (1 - m)) (at_ old [c])) (xmul (Fin m) (at_ new [c])).
Proof.
  intros So Sn Hc. unfold averaged. cbn [at_]. unfold bop_at. cbn [tmap shape at_].
  by rewrite So, Sn, bcast_vector.
Qed.

(** [forward] on a module that holds what the constructor bound: the
    result and the module after the call. *)
Lemma BatchNorm_forward_built (self : BatchNorm) (x : tensor)
    (B C : nat) (rest : list nat) :
  bn_built self C → shape x = B :: C :: rest → 0 < B → 0 < C →
  ∃ out self',
    BatchNorm_forward self x = Some (out, self')
    ∧ bn_built self' C
    ∧ with_nn self' (bn_nn self) = self
    ∧ params (bn_nn self') = params (bn_nn self)
    ∧ training (bn_nn self') = training (bn_nn self)
    ∧ (training (bn_nn self) && track_running_stats self = false → self' = self)
    ∧ (training (bn_nn self) && track_running_stats self = true →
       ∀ c, c < C →
         stored "exp_mean" self' c
         = xadd (xmul (Fin (1 - momentum self)) (stored "exp_mean" self c))
                (xmul (Fin (momentum self)) (batch_mean x c))
         ∧ stored "exp_var" self' c
           = xadd (xmul (Fin (1 - momentum self)) (stored "exp_var" self c))
                  (xmul (Fin (momentum self)) (batch_var x c))).
Proof.
  intros Hbuilt Hs HB HC.
  pose proof (bn_built_ok self C Hbuilt) as Hok.
  set (x3 := {| shape := [B; C; numel rest]; at_ := view_at x [B; C; numel rest] |}).
  assert (Hsame : with_nn self (bn_nn self) = self) by (by destruct self).
  destruct (training (bn_nn self) && track_running_stats self) eqn:Hupd.
  - apply andb_true_iff in Hupd as [Htr Htrack].
    pose proof Hbuilt as (Hch & Hattrs & Hbuf & Hpar). rewrite Htrack in Hbuf.
    destruct Hbuf as (em & ev & Hb & Sem & Sev).
    pose proof (BatchNorm_stats_tracking self x3 em ev B C (numel rest) eq_refl
                  Hbuilt Htr Htrack Hb) as Hstats.
    destruct (BatchNorm_forward_elem self _ x (stats_mean x3) (stats_var x3)
                B C rest Hs HB HC Hok Hstats eq_refl eq_refl)
      as (out & Hout & _).
    eexists out, _. split; [exact Hout |].
    assert (Hbuilt' : bn_built
              (with_nn self
                 {| params := params (bn_nn self);
                    buffers :=
                      <["exp_var" := averaged (momentum self) ev (stats_var x3)]>
                        (<["exp_mean" := averaged (momentum self) em (stats_mean x3)]> ∅);
                    attrs := ∅; training := true |}) C).
    { unfold bn_built, with_nn. cbn. rewrite Htrack. split_and!; try done.
      eexists _, _. split_and!; [done | done | done]. }
    split; [exact Hbuilt' |]. split; [by destruct self |].
    split; [done |]. split; [by rewrite Htr |]. split; [done |].
    intros _ c Hc.
    rewrite (stored_buffer _ C "exp_mean" (averaged (momentum self) em (stats_mean x3)) c
               Hbuilt') by (done || (apply list_elem_of_In; cbn; tauto)).
    rewrite (stored_buffer _ C "exp_var" (averaged (momentum self) ev (stats_var x3)) c
               Hbuilt') by (done || (apply list_elem_of_In; cbn; tauto)).
    rewrite (stored_buffer self C "exp_mean" em c Hbuilt)
      by ((by rewrite Hb) || (apply list_elem_of_In; cbn; tauto)).
    rewrite (stored_buffer self C "exp_var" ev c Hbuilt)
      by ((by rewrite Hb) || (apply list_elem_of_In; cbn; tauto)).
    rewrite !(averaged_at _ _ _ C c) by done.
    unfold x3. by rewrite (stats_mean_at x B C rest c Hs Hc), (stats_var_at x B C rest c Hs Hc).
  - assert (∃ mean var, BatchNorm_stats self x3 = Some (mean, var, self)
                        ∧ shape mean = [C] ∧ shape var = [C]) as (mean & var & Hstats & Sm & Sv).
    { destruct (training (bn_nn self) || negb (track_running_stats self)) eqn:Hmode.
      - exists (stats_mean x3), (stats_var x3). split; [| done].
        by apply (BatchNorm_stats_untracked self x3 B C (numel rest)).
      - apply orb_false_iff in Hmode as [_ Htr]. apply negb_false_iff in Htr.
        destruct Hok as (_ & Htrack & _).
        destruct (Htrack Htr) as [(em & Hem & Hems) (ev & Hev & Hevs)].
        exists em, ev. split; [| done].
        rewrite BatchNorm_stats_stored, Hem, Hev; [done |].
        apply orb_false_iff. split; [| by rewrite Htr].
        destruct (training (bn_nn self)); [by rewrite Htr in Hupd | done]. }
    destruct (BatchNorm_forward_elem self self x mean var
                B C rest Hs HB HC Hok Hstats Sm Sv)
      as (out & Hout & _).
    exists out, self. split_and!; try done.
Qed.

(** * Further results on the single-head classes *)

(** The three single-head classes share one forward pass. *)
Lemma single_head_forward (forward : CausalAttention → (index → bool) → tensor → option tensor) :
  forward ∈ [CausalAttentionWithoutBuffers_forward; CausalAttentionWithBuffer_forward;
             CasualAttention_forward] →
  forward = CausalAttentionWithBuffer_forward.
Proof.
  intros Hf%list_elem_of_In. cbn in Hf.
  destruct Hf as [<- | [<- | [<- | []]]]; reflexivity.
Qed.

(** X1. The forward pass of each single-head class raises on an input of
    more tokens than the side [c] of the mask, unless [c] is 1: the mask
    sliced to the number of tokens keeps its side [c], which cannot be
    broadcast to the scores. *)
Theorem attention_refuses_long_input
    (forward : CausalAttention → (index → bool) → tensor → option tensor)
    (self : CausalAttention) (keep : index → bool) (x mask : tensor) (b n d_in c : nat) :
  forward ∈ [CausalAttentionWithoutBuffers_forward; CausalAttentionWithBuffer_forward;
             CasualAttention_forward] →
  shape x = [b; n; d_in] →
  getattr "mask" (ca_nn self) = Some mask → shape mask = [c; c] →
  c < n → c ≠ 1 →
  forward self keep x = None.
Proof.
  intros ->%single_head_forward. apply CausalAttention_too_long.
Qed.

Lemma attention_refuses_long_input_witness :
  CasualAttention_init 1 1 2 0 false ones_rng = inr buffered_two
  ∧ CasualAttention_forward buffered_two keep_all three_tokens = None.
Proof.
  split; [apply buffered_two_constructed |].
  apply (attention_refuses_long_input CasualAttention_forward buffered_two keep_all
           three_tokens (triu_ones 2) 1 3 1 2).
  - apply list_elem_of_In. cbn. tauto.
  - reflexivity.
  - reflexivity.
  - reflexivity.
  - lia.
  - lia.
Defined.

(** ** What the single-head classes compute *)

Lemma CausalAttention_forward_formula self keep x b n d_in d_out c Wq Wk Wv s :
  params (ca_nn self) !! "W_query.weight" = Some Wq →
  params (ca_nn self) !! "W_key.weight" = Some Wk →
  params (ca_nn self) !! "W_value.weight" = Some Wv →
  shape Wq = [d_out; d_in] → shape Wk = [d_out; d_in] → shape Wv = [d_out; d_in] →
  causal_mask (ca_nn self) c →
  shape x = [b; n; d_in] → 0 < b → 0 < n → 0 < d_in → 0 < d_out →
  n ≤ c → ca_dropout self = 0%R →
  py_pow d_out (/ 2) = Some s →
  ∃ y, CausalAttentionWithBuffer_forward self keep x = Some y
       ∧ shape y = [b; n; d_out]
       ∧ ∀ bi i k, i < n →
           at_ y [bi; i; k] =
             attention_elem n
               (λ j, causal_logit s d_out
                  (λ l, linear_at Wq (params (ca_nn self) !! "W_query.bias") x d_in [bi; i; l])
                  (λ l, linear_at Wk (params (ca_nn self) !! "W_key.bias") x d_in [bi; j; l])
                  i j)
               (λ j, linear_at Wv (params (ca_nn self) !! "W_value.bias") x d_in [bi; j; k]).
Proof.
  intros Hq Hk Hv Sq Sk Sv (mask & Hm & Sm & Hmask) Sx _ _ _ _ Hn Hp Hs.
  destruct (CausalAttention_forward_elem self keep x b n d_in d_out c Wq Wk Wv mask s
              Hq Hk Hv Sq Sk Sv Hm Sm Sx (or_introl Hn) Hp Hs)
    as (y & Hy & Sy & Ey).
  exists y. split; [done |]. split; [done |].
  intros bi i k Hi. rewrite Ey. apply attention_elem_ext; [| done].
  intros j Hj. unfold masked_logit, causal_logit.
  replace (n `min` c) with n by lia.
  destruct (n =? 1) eqn:E.
  - apply Nat.eqb_eq in E. replace i with 0 by lia. replace j with 0 by lia.
    rewrite Hmask by lia. done.
  - rewrite Hmask by lia. done.
Qed.

(** X2. What the three single-head classes compute without dropout on a
    finite input of positive sizes and at most [c] tokens, for a module of
    finite parameters whose mask has side [c] and is nonzero above the
    diagonal: a tensor of shape [(b, n, d_out)] whose row at position [i]
    is the sum of the value rows weighted by the softmax of the scores of
    query [i], where the score of a later key is [-inf] and every score is
    divided by [d_out ** 0.5]. *)
Theorem attention_output_formula
    (forward : CausalAttention → (index → bool) → tensor → option tensor)
    (self : CausalAttention) (keep : index → bool) (x Wq Wk Wv : tensor)
    (b n d_in d_out c : nat) (s : R) :
  forward ∈ [CausalAttentionWithoutBuffers_forward; CausalAttentionWithBuffer_forward;
             CasualAttention_forward] →
  params (ca_nn self) !! "W_query.weight" = Some Wq →
  params (ca_nn self) !! "W_key.weight" = Some Wk →
  params (ca_nn self) !! "W_value.weight" = Some Wv →
  shape Wq = [d_out; d_in] → shape Wk = [d_out; d_in] → shape Wv = [d_out; d_in] →
  (∀ name t, params (ca_nn self) !! name = Some t → finite t) → finite x →
  causal_mask (ca_nn self) c →
  shape x = [b; n; d_in] → 0 < b → 0 < n → 0 < d_in → 0 < d_out →
  n ≤ c → ca_dropout self = 0%R →
  py_pow d_out (/ 2) = Some s →
  ∃ y, forward self keep x = Some y
       ∧ shape y = [b; n; d_out]
       ∧ ∀ bi i k, i < n →
           at_ y [bi; i; k] =
             attention_elem n
               (λ j, causal_logit s d_out
                  (λ l, linear_at Wq (params (ca_nn self) !! "W_query.bias") x d_in [bi; i; l])
                  (λ l, linear_at Wk (params (ca_nn self) !! "W_key.bias") x d_in [bi; j; l])
                  i j)
               (λ j, linear_at Wv (params (ca_nn self) !! "W_value.bias") x d_in [bi; j; k]).
Proof.
  intros ->%single_head_forward Hq Hk Hv Sq Sk Sv _ _.
  by apply CausalAttention_forward_formula.
Qed.

Lemma buffered_two_mask : causal_mask (ca_nn buffered_two) 2.
Proof.
  exists (triu_ones 2). split; [reflexivity |]. split; [reflexivity |].
  intros i j _ _. apply triu_ones_causal.
Qed.

Lemma attention_output_formula_witness :
  ∃ y, CasualAttention_forward buffered_two keep_all tokens_0_2 = Some y
       ∧ shape y = [1; 2; 1]
       ∧ ∀ bi i k, i < 2 →
           at_ y [bi; i; k] =
             attention_elem 2
               (λ j, causal_logit 1 1
                  (λ l, linear_at {| shape := [1; 1]; at_ := ones_rng "W_query.weight" |}
                          (params (ca_nn buffered_two) !! "W_query.bias")
                          tokens_0_2 1 [bi; i; l])
                  (λ l, linear_at {| shape := [1; 1]; at_ := ones_rng "W_key.weight" |}
                          (params (ca_nn buffered_two) !! "W_key.bias")
                          tokens_0_2 1 [bi; j; l])
                  i j)
               (λ j, linear_at {| shape := [1; 1]; at_ := ones_rng "W_value.weight" |}
                       (params (ca_nn buffered_two) !! "W_value.bias")
                       tokens_0_2 1 [bi; j; k]).
Proof.
  apply (attention_output_formula CasualAttention_forward buffered_two keep_all
           tokens_0_2 _ _ _ 1 2 1 1 2 1).
  - apply list_elem_of_In. cbn. tauto.
  - reflexivity.
  - reflexivity.
  - reflexivity.
  - reflexivity.
  - reflexivity.
  - reflexivity.
  - intros name t. apply (single_head_params_finite 1 1 false ones_rng), ones_rng_finite.
  - apply tensor3_finite.
  - apply buffered_two_mask.
  - reflexivity.
  - lia.
  - lia.
  - lia.
  - lia.
  - lia.
  - reflexivity.
  - apply py_pow_1_half.
Defined.

(** X3. Saving the state dictionary of a module whose mask was modified and
    loading it into a newly constructed module of the same sizes gives,
    with the mask as a buffer, the saved module itself (parameters and
    modified mask), and with the mask as a plain attribute the module
    before the modification. *)
Theorem reload_restores_module
    (d_in d_out c : Z) (p : R) (bias : bool) (g g' : rng)
    (ca new_ca ca0 new_ca0 : CausalAttention) :
  CausalAttentionWithBuffer_init d_in d_out c p bias g = inr ca →
  CausalAttentionWithBuffer_init d_in d_out c p bias g' = inr new_ca →
  CausalAttentionWithoutBuffers_init d_in d_out c p bias g = inr ca0 →
  CausalAttentionWithoutBuffers_init d_in d_out c p bias g' = inr new_ca0 →
  save_and_reload (modify_mask ca) new_ca = Some (modify_mask ca)
  ∧ save_and_reload (modify_mask ca0) new_ca0 = Some ca0.
Proof.
  intros Hca Hnew Hca0 Hnew0. split.
  - by apply (with_buffer_reloaded d_in d_out c p bias g g').
  - by apply (without_buffer_reloaded d_in d_out c p bias g g').
Qed.

Lemma reload_restores_module_witness :
  save_and_reload (modify_mask buffered_two) buffered_two = Some (modify_mask buffered_two)
  ∧ save_and_reload (modify_mask plain_two) plain_two = Some plain_two.
Proof.
  apply (reload_restores_module 1 1 2 0 false ones_rng ones_rng).
  - apply buffered_two_constructed.
  - apply buffered_two_constructed.
  - apply plain_two_constructed.
  - apply plain_two_constructed.
Defined.



(** ** The inputs [BatchNorm.forward] accepts *)

(** The contiguous inputs a [BatchNorm] of [C] channels accepts. *)
Lemma BatchNorm_forward_accepts (self : BatchNorm) (C : nat) (x : tensor) :
  bn_built self C →
  is_Some (BatchNorm_forward self x)
  ↔ ∃ B rest, shape x = B :: C :: rest ∧ 0 < B ∧ 0 < C.
Proof.
  intros Hbuilt. split.
  - intros [[out self'] H]. unfold BatchNorm_forward in H.
    destruct (shape x) as [| B [| c rest]] eqn:Hs; try done.
    cbn [lookup list_lookup mbind option_bind] in H.
    case_decide as Hch; [| done].
    pose proof Hbuilt as (Hc & _). rewrite Hc in Hch.
    apply Nat2Z.inj in Hch as <-. rewrite Hc in H.
    destruct (view [Z.of_nat B; Z.of_nat C; (-1)%Z] x) as [x3 |] eqn:Hv; [| done].
    apply view_batch_inv in Hv. eauto.
  - intros (B & rest & Hs & HB & HC).
    destruct (BatchNorm_forward_built self x B C rest Hbuilt Hs HB HC)
      as (out & self' & -> & _). done.
Qed.

(** X5. A [BatchNorm] of [C] channels accepts exactly the inputs of shape
    [(B, C, ...)] with [B] and [C] positive whose strides let
    [x.view(B, C, -1)] pass; on every other input [forward] raises. *)
Theorem BatchNorm_forward_domain (self : BatchNorm) (C : nat) (st : list nat)
    (x : tensor) :
  bn_built self C →
  is_Some (BatchNorm_forward_strided self st x)
  ↔ ∃ B rest, shape x = B :: C :: rest ∧ 0 < B ∧ 0 < C
              ∧ viewable (shape x) st [B; C; numel rest] = true.
Proof.
  intros Hbuilt. split.
  - intros H.
    destruct (shape x) as [| B [| c rest]] eqn:Hs;
      try (by unfold BatchNorm_forward_strided in H; rewrite Hs in H; destruct H).
    rewrite (BatchNorm_forward_strided_eq self st x B c rest Hs) in H.
    assert (is_Some (BatchNorm_forward self x)) as Hx.
    { destruct (viewable _ _ _); [done |]. by destruct (view _ x). }
    apply (BatchNorm_forward_accepts self C x Hbuilt) in Hx
      as (B' & rest' & Hs' & HB & HC).
    rewrite Hs in Hs'. injection Hs' as <- <- <-.
    exists B, rest. split_and!; try done.
    destruct (viewable _ _ _) eqn:E; [by rewrite <- Hs |].
    pose proof Hbuilt as (Hc & _).
    by rewrite Hc, (view_batch x B c rest Hs HB HC) in H; destruct H.
  - intros (B & rest & Hs & HB & HC & Hv).
    rewrite (BatchNorm_forward_strided_eq self st x B C rest Hs), Hv.
    apply (BatchNorm_forward_accepts self C x Hbuilt). eauto.
Qed.

Lemma BatchNorm_forward_domain_witness :
  (is_Some (BatchNorm_forward_strided batch_norm_one [2; 2; 1] batch_1_3)
   ↔ ∃ B rest, shape batch_1_3 = B :: 1 :: rest ∧ 0 < B ∧ 0 < 1
               ∧ viewable (shape batch_1_3) [2; 2; 1] [B; 1; numel rest] = true)
  ∧ (is_Some (BatchNorm_forward_strided batch_norm_one [20; 20; 1; 5] transposed_batch)
     ↔ ∃ B rest, shape transposed_batch = B :: 1 :: rest ∧ 0 < B ∧ 0 < 1
                 ∧ viewable (shape transposed_batch) [20; 20; 1; 5] [B; 1; numel rest]
                   = true).
Proof.
  assert (bn_built batch_norm_one 1) as Hb.
  { apply (BatchNorm_init_built 1 1 (/ 2) true true); [lia |].
    apply batch_norm_one_constructed. }
  split.
  - apply (BatchNorm_forward_domain batch_norm_one 1 [2; 2; 1] batch_1_3 Hb).
  - apply (BatchNorm_forward_domain batch_norm_one 1 [20; 20; 1; 5] transposed_batch Hb).
Defined.

(** ** [MHA_Wrapper] *)

Lemma cat_width (outs : list tensor) (p : list nat) (d : nat) :
  Forall (λ y, shape y = p ++ [d]) outs →
  foldr (λ u acc, last_ix (shape u) + acc) 0 outs = length outs * d.
Proof.
  induction 1 as [| y outs Hy _ IH]; [done |].
  cbn [foldr length]. rewrite IH, Hy. unfold last_ix. rewrite last_last. lia.
Qed.

Lemma cat_last_3d (outs : list tensor) (b n d : nat) :
  outs ≠ [] → Forall (λ y, shape y = [b; n; d]) outs →
  cat_last outs
  = Some {| shape := [b; n; length outs * d];
            at_ idx := cat_at outs (init_ix idx) (last_ix idx) |}.
Proof.
  intros Hne Hall. destruct outs as [| t ts]; [done |].
  unfold cat_last.
  assert (shape t = [b; n; d]) as St by (by inversion Hall).
  replace (forallb _ (t :: ts)) with true; cycle 1.
  { symmetry. apply forallb_forall. intros u Hu%list_elem_of_In.
    rewrite Forall_forall in Hall. apply Hall in Hu.
    apply bool_decide_eq_true. rewrite Hu, St. done. }
  rewrite (cat_width (t :: ts) [b; n] d) by done.
  by rewrite St.
Qed.

Lemma head_forward (d_in d_out c : Z) (g : rng) (head : CausalAttention)
    (keep : index → bool) (x : tensor) (b n : nat) :
  CasualAttention_init d_in d_out c 0 false g = inr head →
  shape x = [b; n; Z.to_nat d_in] → n ≤ Z.to_nat c →
  (∀ name, name ∈ ["W_query.bias"; "W_key.bias"; "W_value.bias"] →
     params (ca_nn head) !! name = None)
  ∧ ∃ y, CasualAttention_forward head keep x = Some y
         ∧ shape y = [b; n; Z.to_nat d_out].
Proof.
  intros Hinit Sx Hn.
  change (CausalAttentionWithBuffer_init d_in d_out c 0 false g = inr head) in Hinit.
  apply CausalAttentionWithBuffer_init_inr in Hinit as (_ & _ & ->).
  split.
  { intros name Hname%list_elem_of_In. cbn in Hname.
    destruct Hname as [<- | [<- | [<- | []]]]; reflexivity. }
  assert (∃ s, py_pow (Z.to_nat d_out) (/ 2) = Some s) as [s Hs].
  { destruct (Z.to_nat d_out) eqn:E; [exists 0%R; apply py_pow_0_half |].
    destruct (py_pow_pos (S n0) (/ 2)) as (s & Hs & _); [lia | by exists s]. }
  destruct (CausalAttention_forward_elem
              {| ca_nn := register_buffer "mask" (triu_ones (Z.to_nat c))
                            (single_head_linears d_in d_out false g);
                 ca_d_out := d_out; ca_dropout := 0 |}
              keep x b n (Z.to_nat d_in) (Z.to_nat d_out) (Z.to_nat c)
              {| shape := [Z.to_nat d_out; Z.to_nat d_in]; at_ := g "W_query.weight" |}
              {| shape := [Z.to_nat d_out; Z.to_nat d_in]; at_ := g "W_key.weight" |}
              {| shape := [Z.to_nat d_out; Z.to_nat d_in]; at_ := g "W_value.weight" |}
              (triu_ones (Z.to_nat c)) s)
    as (y & Hy & Sy & _); try done; [by left |].
  by exists y.
Qed.

Lemma make_heads_forward (count h0 : nat) (d_in d_out c : Z) (g : nat → rng)
    (hs : list CausalAttention) (keep : nat → index → bool) (x : tensor) (b n : nat) :
  make_heads count h0 d_in d_out c 0 g = inr hs →
  shape x = [b; n; Z.to_nat d_in] → n ≤ Z.to_nat c →
  Forall (λ head, ∀ name, name ∈ ["W_query.bias"; "W_key.bias"; "W_value.bias"] →
                    params (ca_nn head) !! name = None) hs
  ∧ ∀ ix : nat → nat, ∃ outs,
      mapM (λ '(h, head), CasualAttention_forward head (keep h) x)
           (imap (λ j head, (ix j, head)) hs) = Some outs
      ∧ length outs = count
      ∧ Forall (λ y, shape y = [b; n; Z.to_nat d_out]) outs.
Proof.
  intros H Sx Hn. revert h0 hs H.
  induction count as [| count IH]; intros h0 hs H; cbn [make_heads] in H.
  - injection H as <-. split; [constructor |]. intros ix. by exists [].
  - apply rbind_inr in H as (hd & Hhd & H).
    apply rbind_inr in H as (tl & Htl & H). injection H as <-.
    destruct (IH _ _ Htl) as (Hb & Hout).
    split.
    + constructor; [| done].
      by destruct (head_forward d_in d_out c (g h0) hd (keep 0) x b n Hhd Sx Hn).
    + intros ix.
      destruct (head_forward d_in d_out c (g h0) hd (keep (ix 0)) x b n Hhd Sx Hn)
        as (_ & y & Hy & Sy).
      destruct (Hout (λ j, ix (S j))) as (outs & Ho & Hlen & Hall).
      exists (y :: outs). rewrite imap_cons. cbn [mapM]. rewrite Hy.
      cbn [mbind option_bind].
      change (imap ((λ j head, (ix j, head)) ∘ S) tl)
        with (imap (λ j head, (ix (S j), head)) tl).
      rewrite Ho. cbn [mbind option_bind mret option_ret].
      split_and!; [done | cbn; lia | by constructor].
Qed.

(** Column [h * d + l] of the concatenation is column [l] of tensor [h]. *)
Lemma cat_at_block (outs : list tensor) (p : list nat) (d h l : nat) (out : tensor) :
  Forall (λ y, last_ix (shape y) = d) outs →
  outs !! h = Some out → l < d →
  cat_at outs p (h * d + l) = at_ out (p ++ [l]).
Proof.
  intros Hall. revert h. induction Hall as [| y outs Hy _ IH]; intros h Hh Hl; [done |].
  cbn [cat_at]. rewrite Hy. destruct h as [| h].
  - injection Hh as <-. change (0 * d + l) with l.
    by replace (l <? d) with true by (symmetry; by apply Nat.ltb_lt).
  - cbn in Hh. replace (S h * d + l <? d) with false by (symmetry; apply Nat.ltb_ge; lia).
    replace (S h * d + l - d) with (h * d + l) by lia. by apply IH.
Qed.

Lemma MHA_Wrapper_forward_blocks
    (d_in d_out c H : Z) (bias : bool) (g : nat → rng) (g_out : rng)
    (self : MHA_Wrapper) (keep : nat → index → bool) (x : tensor) (b n : nat) :
  MHA_Wrapper_init d_in d_out c 0 H bias g g_out = inr self →
  (0 < H)%Z → (0 < d_in)%Z → (0 < d_out)%Z →
  shape x = [b; n; Z.to_nat d_in] → 0 < b → 0 < n → n ≤ Z.to_nat c →
  (∀ head name, head ∈ heads self →
     name ∈ ["W_query.bias"; "W_key.bias"; "W_value.bias"] →
     params (ca_nn head) !! name = None)
  ∧ ∃ y ctx outs W,
      params (wr_nn self) !! "out_proj.weight" = Some W
      ∧ mapM (λ '(h, head), CasualAttention_forward head (keep h) x)
             (imap pair (heads self)) = Some outs
      ∧ length outs = Z.to_nat H
      ∧ MHA_Wrapper_forward self keep x = Some y
      ∧ shape y = [b; n; Z.to_nat H * Z.to_nat d_out]
      ∧ (∀ bi i o, at_ y [bi; i; o]
           = linear_at W (params (wr_nn self) !! "out_proj.bias") ctx
               (Z.to_nat H * Z.to_nat d_out) [bi; i; o])
      ∧ ∀ h out bi i l, outs !! h = Some out → l < Z.to_nat d_out →
          at_ ctx [bi; i; h * Z.to_nat d_out + l] = at_ out [bi; i; l].
Proof.
  unfold MHA_Wrapper_init. intros Hinit HH Hdin Hdout Sx Hb Hn Hc.
  apply rbind_inr in Hinit as (hs & Hhs & Hinit).
  apply rbind_inr in Hinit as (m & Hm & Hinit). injection Hinit as <-.
  apply add_Linear_inr in Hm as [_ ->].
  destruct (make_heads_forward _ _ _ _ _ _ _ keep x b n Hhs Sx Hc) as (Hbias & Hout).
  cbn [heads wr_nn]. split.
  { intros head name Hhead. rewrite Forall_forall in Hbias. by apply Hbias. }
  destruct (Hout (λ j, j)) as (outs & Ho & Hlen & Hall).
  change (imap (λ j head, (j, head)) hs) with (imap pair hs) in Ho.
  assert (outs ≠ []) as Hne by (destruct outs; [cbn in Hlen; lia | done]).
  set (W := {| shape := [Z.to_nat (d_out * H); Z.to_nat (d_out * H)];
               at_ := g_out "out_proj.weight" |}).
  exists {| shape := [b; n; Z.to_nat (d_out * H)];
            at_ := linear_at W (Some {| shape := [Z.to_nat (d_out * H)];
                                        at_ := g_out "out_proj.bias" |})
                     {| shape := [b; n; length outs * Z.to_nat d_out];
                        at_ idx := cat_at outs (init_ix idx) (last_ix idx) |}
                     (Z.to_nat (d_out * H)) |},
         {| shape := [b; n; length outs * Z.to_nat d_out];
            at_ idx := cat_at outs (init_ix idx) (last_ix idx) |},
         outs, W.
  assert (Z.to_nat (d_out * H) = Z.to_nat H * Z.to_nat d_out) as Hw by lia.
  split_and!.
  - reflexivity.
  - done.
  - done.
  - unfold MHA_Wrapper_forward. cbn [heads wr_nn]. rewrite Ho.
    cbn [mbind option_bind].
    rewrite (cat_last_3d outs b n (Z.to_nat d_out) Hne Hall).
    cbn [mbind option_bind].
    erewrite (Linear_forward_3d "out_proj" _ _ W b n (Z.to_nat (d_out * H))
                (Z.to_nat (d_out * H))); [reflexivity | reflexivity | reflexivity |].
    cbn [shape]. rewrite Hlen. by rewrite Hw.
  - cbn [shape]. by rewrite Hw.
  - intros bi i o. cbn [at_]. by rewrite Hw.
  - intros h out bi i l Hh Hl. cbn [at_ init_ix last_ix removelast List.last].
    apply (cat_at_block outs [bi; i] (Z.to_nat d_out) h l out); [| done | done].
    eapply Forall_impl; [exact Hall |]. intros y ->. done.
Qed.

(** X7. An [MHA_Wrapper] constructed with dropout 0 and positive sizes:
    its heads hold no bias, whatever [qkv_bias] (the constructor does not
    pass it on); on a nonempty input of shape [(b, n, d_in)] with [n] at
    most the context length, [forward] returns a tensor of shape
    [(b, n, num_heads * d_out)], the output projection of the context
    whose columns [h * d_out], ..., [h * d_out + d_out - 1] are the output
    of head [h]. *)
Theorem MHA_Wrapper_forward_concatenates
    (d_in d_out c H : Z) (bias : bool) (g : nat → rng) (g_out : rng)
    (self : MHA_Wrapper) (keep : nat → index → bool) (x : tensor) (b n : nat) :
  MHA_Wrapper_init d_in d_out c 0 H bias g g_out = inr self →
  (0 < H)%Z → (0 < d_in)%Z → (0 < d_out)%Z →
  shape x = [b; n; Z.to_nat d_in] → 0 < b → 0 < n → n ≤ Z.to_nat c →
  (∀ head name, head ∈ heads self →
     name ∈ ["W_query.bias"; "W_key.bias"; "W_value.bias"] →
     params (ca_nn head) !! name = None)
  ∧ ∃ y ctx outs W,
      params (wr_nn self) !! "out_proj.weight" = Some W
      ∧ mapM (λ '(h, head), CasualAttention_forward head (keep h) x)
             (imap pair (heads self)) = Some outs
      ∧ length outs = Z.to_nat H
      ∧ MHA_Wrapper_forward self keep x = Some y
      ∧ shape y = [b; n; Z.to_nat H * Z.to_nat d_out]
      ∧ (∀ bi i o, at_ y [bi; i; o]
           = linear_at W (params (wr_nn self) !! "out_proj.bias") ctx
               (Z.to_nat H * Z.to_nat d_out) [bi; i; o])
      ∧ ∀ h out bi i l, outs !! h = Some out → l < Z.to_nat d_out →
          at_ ctx [bi; i; h * Z.to_nat d_out + l] = at_ out [bi; i; l].
Proof. apply MHA_Wrapper_forward_blocks. Qed.

Lemma two_heads_constructed :
  MHA_Wrapper_init 1 1 2 0 2 true (λ _, ones_rng) ones_rng = inr two_heads.
Proof.
  unfold MHA_Wrapper_init. change (Z.to_nat 2) with 2. cbn [make_heads].
  unfold CasualAttention_init. by ctor_ok.
Qed.

Lemma MHA_Wrapper_forward_concatenates_witness :
  (∀ head name, head ∈ heads two_heads →
     name ∈ ["W_query.bias"; "W_key.bias"; "W_value.bias"] →
     params (ca_nn head) !! name = None)
  ∧ ∃ y ctx outs W,
      params (wr_nn two_heads) !! "out_proj.weight" = Some W
      ∧ mapM (λ '(h, head), CasualAttention_forward head (keep_all) tokens_0_2)
             (imap pair (heads two_heads)) = Some outs
      ∧ length outs = Z.to_nat 2
      ∧ MHA_Wrapper_forward two_heads (λ _, keep_all) tokens_0_2 = Some y
      ∧ shape y = [1; 2; Z.to_nat 2 * Z.to_nat 1]
      ∧ (∀ bi i o, at_ y [bi; i; o]
           = linear_at W (params (wr_nn two_heads) !! "out_proj.bias") ctx
               (Z.to_nat 2 * Z.to_nat 1) [bi; i; o])
      ∧ ∀ h out bi i l, outs !! h = Some out → l < Z.to_nat 1 →
          at_ ctx [bi; i; h * Z.to_nat 1 + l] = at_ out [bi; i; l].
Proof.
  apply (MHA_Wrapper_forward_concatenates 1 1 2 2 true (λ _, ones_rng) ones_rng two_heads
           (λ _, keep_all) tokens_0_2 1 2).
  - apply two_heads_constructed.
  - lia.
  - lia.
  - lia.
  - reflexivity.
  - lia.
  - lia.
  - vm_compute. lia.
Defined.

(** ** [LayerNorm.forward] *)

(** The reduced dimensions of [LayerNorm]: the last [k] of [p + k]. *)
Lemma last_flags (p k : nat) :
  (k = 0 → p = 0) →
  (λ d, bool_decide ((λ i, p + k - 1 - i) <$> seq 0 k = [] ∨ d ∈ (λ i, p + k - 1 - i) <$> seq 0 k))
    <$> seq 0 (p + k)
  = replicate p false ++ replicate k true.
Proof.
  intros Hk. rewrite seq_app, fmap_app. f_equal.
  - apply list_eq_same_length with p; [by rewrite length_replicate
                                      | by rewrite length_fmap, length_seq |].
    intros i a b Hi Ha Hb. apply lookup_replicate in Hb as [-> _].
    rewrite list_lookup_fmap, lookup_seq_lt in Ha by done. cbn in Ha.
    injection Ha as <-. apply bool_decide_eq_false. intros [Hnil | Hin].
    + destruct k; [lia | done].
    + apply list_elem_of_fmap in Hin as (j & Hj & Hin).
      apply elem_of_seq in Hin. lia.
  - apply list_eq_same_length with k; [by rewrite length_replicate
                                      | by rewrite length_fmap, length_seq |].
    intros i a b Hi Ha Hb. apply lookup_replicate in Hb as [-> _].
    rewrite list_lookup_fmap, lookup_seq_lt in Ha by done. cbn in Ha.
    injection Ha as <-. apply bool_decide_eq_true. right.
    apply list_elem_of_fmap. exists (k - 1 - i). split; [lia |].
    apply elem_of_seq. lia.
Qed.

Lemma pick_false_app {A} (p k : nat) (l1 l2 : list A) :
  length l1 = p →
  pick (replicate p false ++ replicate k true) (l1 ++ l2) false = l1.
Proof.
  revert l1. induction p as [| p IH]; intros [| a l1] H; try done.
  - cbn. clear H. revert l2. induction k as [| k IH]; intros [| b l2]; try done.
    cbn. apply IH.
  - cbn. f_equal. apply IH. by injection H.
Qed.

Lemma pick_true_app {A} (p k : nat) (l1 l2 : list A) :
  length l1 = p → length l2 = k →
  pick (replicate p false ++ replicate k true) (l1 ++ l2) true = l2.
Proof.
  revert l1. induction p as [| p IH]; intros [| a l1] H1 H2; try done.
  - cbn. clear H1. revert l2 H2. induction k as [| k IH]; intros [| b l2] H; try done.
    cbn. f_equal. apply IH. by injection H.
  - cbn. apply IH; [by injection H1 | done].
Qed.

Lemma merge_ix_app (p k : nat) (kept red : index) :
  length kept = p → length red = k →
  merge_ix (replicate p false ++ replicate k true) kept red = kept ++ red.
Proof.
  revert kept. induction p as [| p IH]; intros [| a kept] H1 H2; try done.
  - cbn. clear H1. revert red H2. induction k as [| k IH]; intros [| b red] H; try done.
    cbn. f_equal. apply IH. by injection H.
  - cbn. f_equal. apply IH; [by injection H1 | done].
Qed.

Lemma keepdim_shape (pre S : list nat) :
  zip_with (λ (f : bool) d, if f then 1 else d)
    (replicate (length pre) false ++ replicate (length S) true) (pre ++ S)
  = pre ++ replicate (length S) 1.
Proof.
  induction pre as [| d pre IH]; cbn.
  - induction S as [| d S IH]; [done |]. cbn. by rewrite IH.
  - by rewrite IH.
Qed.

Lemma length_unflatten (s : list nat) (off : nat) : length (unflatten s off) = length s.
Proof. revert off. induction s as [| d s IH]; intros off; [done |]. cbn. by rewrite IH. Qed.

Lemma in_range_length (s : list nat) (idx : index) :
  in_range s idx = true → length idx = length s.
Proof.
  revert idx. induction s as [| d s IH]; intros [| i idx] H; try done.
  cbn in H. apply andb_true_iff in H as [_ H]. cbn. by rewrite (IH idx H).
Qed.

Lemma in_range_app (s1 s2 : list nat) (i1 i2 : index) :
  in_range s1 i1 = true → in_range s2 i2 = true →
  in_range (s1 ++ s2) (i1 ++ i2) = true.
Proof.
  revert i1. induction s1 as [| d s1 IH]; intros [| i i1] H1 H2; try done.
  cbn in *. apply andb_true_iff in H1 as [Hi H1]. rewrite Hi. cbn. by apply IH.
Qed.

(** *** Broadcasting against the input *)

Lemma bcast_ix_self (s : list nat) (idx : index) :
  in_range s idx = true → bcast_ix s idx = idx.
Proof.
  intros H. unfold bcast_ix. rewrite (in_range_length s idx H), Nat.sub_diag, drop_0.
  revert idx H. induction s as [| d s IH]; intros [| i idx] H; try done.
  cbn in H. apply andb_true_iff in H as [Hi H]. apply Nat.ltb_lt in Hi.
  cbn. rewrite (IH idx H). f_equal.
  destruct (d =? 1) eqn:E; [| done]. apply Nat.eqb_eq in E. lia.
Qed.

Lemma bcast_ix_ones (k : nat) (idx : index) :
  length idx = k →
  zip_with (λ d i, if d =? 1 then 0 else i) (replicate k 1) idx = replicate k 0.
Proof.
  revert idx. induction k as [| k IH]; intros [| i idx] H; try done.
  cbn. f_equal. apply IH. by injection H.
Qed.

Lemma bcast_ix_keepdim (pre : list nat) (k : nat) (pi ri : index) :
  in_range pre pi = true → length ri = k →
  bcast_ix (pre ++ replicate k 1) (pi ++ ri) = pi ++ replicate k 0.
Proof.
  intros H Hr. unfold bcast_ix.
  rewrite !length_app, length_replicate, (in_range_length pre pi H), Hr, Nat.sub_diag, drop_0.
  revert pi H. induction pre as [| d pre IH]; intros [| i pi] H; try done.
  - cbn. by apply bcast_ix_ones.
  - cbn in H. apply andb_true_iff in H as [Hi H]. apply Nat.ltb_lt in Hi.
    cbn. rewrite (IH pi H). f_equal.
    destruct (d =? 1) eqn:E; [| done]. apply Nat.eqb_eq in E. lia.
Qed.

Lemma bcast_ix_suffix (S : list nat) (pi si : index) :
  in_range S si = true → bcast_ix S (pi ++ si) = si.
Proof.
  intros H. unfold bcast_ix.
  rewrite length_app, <- (in_range_length S si H).
  replace (length pi + length si - length si) with (length pi) by lia.
  rewrite drop_app_length.
  pose proof (bcast_ix_self S si H) as Hself. unfold bcast_ix in Hself.
  by rewrite (in_range_length S si H), Nat.sub_diag, drop_0 in Hself.
Qed.

Lemma bshape_rev_ones (a l : list nat) :
  bshape_rev (a ++ l) (replicate (length a) 1 ++ l) = Some (a ++ l).
Proof.
  induction a as [| d a IH]; [apply bshape_rev_diag |].
  cbn [app length replicate bshape_rev]. rewrite IH. cbn [mbind option_bind].
  destruct (d =? 1) eqn:E; [| done]. by apply Nat.eqb_eq in E as ->.
Qed.

Lemma bshape_rev_prefix_l (a m : list nat) : bshape_rev a (a ++ m) = Some (a ++ m).
Proof.
  induction a as [| d a IH]; [by destruct m |].
  cbn [app bshape_rev]. rewrite IH. cbn [mbind option_bind]. by rewrite Nat.eqb_refl.
Qed.

Lemma bshape_rev_prefix_r (a m : list nat) : bshape_rev (a ++ m) a = Some (a ++ m).
Proof.
  induction a as [| d a IH]; [by destruct m |].
  cbn [app bshape_rev]. rewrite IH. cbn [mbind option_bind]. by rewrite Nat.eqb_refl.
Qed.

Lemma bop_keepdim f (a b : tensor) (pre S : list nat) :
  shape a = pre ++ S → shape b = pre ++ replicate (length S) 1 →
  bop f a b = Some {| shape := pre ++ S; at_ := bop_at f a b |}.
Proof.
  intros Sa Sb. unfold bop. rewrite Sa, Sb, !reverse_app, reverse_replicate.
  rewrite <- (length_reverse S), bshape_rev_ones. cbn [mbind option_bind].
  by rewrite <- reverse_app, reverse_involutive.
Qed.

Lemma bop_suffix_l f (a b : tensor) (pre S : list nat) :
  shape a = S → shape b = pre ++ S →
  bop f a b = Some {| shape := pre ++ S; at_ := bop_at f a b |}.
Proof.
  intros Sa Sb. unfold bop. rewrite Sa, Sb, !reverse_app, bshape_rev_prefix_l.
  cbn [mbind option_bind]. by rewrite <- reverse_app, reverse_involutive.
Qed.

Lemma bop_suffix_r f (a b : tensor) (pre S : list nat) :
  shape a = pre ++ S → shape b = S →
  bop f a b = Some {| shape := pre ++ S; at_ := bop_at f a b |}.
Proof.
  intros Sa Sb. unfold bop. rewrite Sa, Sb, !reverse_app, bshape_rev_prefix_r.
  cbn [mbind option_bind]. by rewrite <- reverse_app, reverse_involutive.
Qed.

(** *** The statistics of a group *)

Lemma LayerNorm_mean (x : tensor) (pre S : list nat) :
  shape x = pre ++ S → (S = [] → pre = []) →
  mean_dims (last_dims (length S)) true x
  = Some {| shape := pre ++ replicate (length S) 1;
            at_ := mean_at (replicate (length pre) false ++ replicate (length S) true)
                     true x |}.
Proof.
  intros Hs Hnil. unfold mean_dims. rewrite Hs, length_app.
  rewrite last_dims_norm by lia. cbn [mbind option_bind].
  rewrite decide_True by (apply last_dims_NoDup; lia).
  rewrite last_flags; cycle 1.
  { intros Hk. destruct S; [| done]. by rewrite Hnil. }
  by rewrite keepdim_shape.
Qed.

Lemma mean_at_group (t : tensor) (pre S : list nat) (pi ri : index) :
  shape t = pre ++ S → length pi = length pre → length ri = length S →
  mean_at (replicate (length pre) false ++ replicate (length S) true) true t (pi ++ ri)
  = xdiv (bigsum (numel S) (λ off, at_ t (pi ++ unflatten S off))) (Fin (INR (numel S))).
Proof.
  intros Hs Hp Hr. unfold mean_at. rewrite Hs.
  rewrite pick_true_app by done. rewrite pick_false_app by done.
  f_equal. apply bigsum_ext. intros off _.
  rewrite merge_ix_app; [done | done |]. apply length_unflatten.
Qed.

Lemma neg_slice_app {A} (l1 l2 : list A) :
  (l2 = [] → l1 = []) → neg_slice (length l2) (l1 ++ l2) = l2.
Proof.
  intros Hnil. unfold neg_slice. destruct l2 as [| a l2].
  - by rewrite Hnil.
  - cbn [length Nat.eqb]. rewrite length_app. cbn [length].
    replace (length l1 + S (length l2) - S (length l2)) with (length l1) by lia.
    apply drop_app_length.
Qed.

(** [LayerNorm.forward] on an input whose trailing dimensions are the
    normalized shape: the shape and the elements of the result. *)
Lemma LayerNorm_forward_elem (self : LayerNorm) (x : tensor) (pre S : list nat) :
  ln_ok self S → shape x = pre ++ S → (S = [] → pre = []) →
  ∃ y, LayerNorm_forward self x = Some y
    ∧ shape y = shape x
    ∧ ∀ pi si, in_range pre pi = true → in_range S si = true →
        at_ y (pi ++ si)
        = gain_bias self si
            (xdiv (xsub (at_ x (pi ++ si)) (group_mean (λ v, v) x S pi))
                  (xsqrt (xadd (group_var x S pi) (Fin (ln_eps self))))).
Proof.
  intros [Hns Haff] Hs Hnil.
  assert (Hk : length (normalized_shape self) = length S).
  { rewrite Hns. unfold zs. by rewrite length_fmap. }
  set (flags := replicate (length pre) false ++ replicate (length S) true).
  set (mean := {| shape := pre ++ replicate (length S) 1; at_ := mean_at flags true x |}).
  set (mean2 := {| shape := pre ++ replicate (length S) 1;
                   at_ := mean_at flags true (square x) |}).
  set (var := {| shape := shape mean2; at_ := bop_at xsub mean2 (square mean) |}).
  set (centered := {| shape := pre ++ S; at_ := bop_at xsub x mean |}).
  set (x_norm := {| shape := pre ++ S;
                    at_ := bop_at xdiv centered (norm_divisor var (ln_eps self)) |}).
  assert (Hvar : LayerNorm_var self x = Some var).
  { unfold LayerNorm_var. rewrite Hk.
    rewrite (LayerNorm_mean x pre S Hs Hnil).
    rewrite (LayerNorm_mean (square x) pre S Hs Hnil).
    cbn [mbind option_bind]. fold flags mean mean2.
    by rewrite bop_same_shape. }
  assert (Hnorm : ∀ pi si, in_range pre pi = true → in_range S si = true →
            at_ x_norm (pi ++ si)
            = xdiv (xsub (at_ x (pi ++ si)) (group_mean (λ v, v) x S pi))
                   (xsqrt (xadd (group_var x S pi) (Fin (ln_eps self))))).
  { intros pi si Hpi Hsi.
    pose proof (in_range_length _ _ Hpi) as Lpi.
    pose proof (in_range_length _ _ Hsi) as Lsi.
    assert (Hzero : bcast_ix (pre ++ replicate (length S) 1)
                      (pi ++ replicate (length S) 0) = pi ++ replicate (length S) 0).
    { apply bcast_ix_keepdim; [done | apply length_replicate]. }
    cbn [x_norm at_]. unfold bop_at at 1.
    cbn [centered norm_divisor tmap shape at_ var mean2].
    rewrite bcast_ix_self by (by apply in_range_app).
    rewrite bcast_ix_keepdim by done.
    unfold bop_at. cbn [shape mean mean2 square tmap at_].
    rewrite Hs, bcast_ix_self by (by apply in_range_app).
    rewrite bcast_ix_keepdim by done. rewrite Hzero.
    unfold flags.
    rewrite (mean_at_group x pre S pi _ Hs Lpi (length_replicate _ _)).
    rewrite (mean_at_group (square x) pre S pi _ Hs Lpi (length_replicate _ _)).
    done. }
  unfold LayerNorm_forward. rewrite Hk, Hs.
  rewrite decide_True by (by rewrite neg_slice_app).
  rewrite <- Hs. rewrite (LayerNorm_mean x pre S Hs Hnil). cbn [mbind option_bind].
  fold flags mean. rewrite Hvar. cbn [mbind option_bind].
  rewrite (bop_keepdim xsub x mean pre S Hs eq_refl). cbn [mbind option_bind].
  fold centered.
  rewrite (bop_keepdim xdiv centered (norm_divisor var (ln_eps self)) pre S eq_refl eq_refl).
  cbn [mbind option_bind]. fold x_norm.
  unfold gain_bias.
  destruct (elementwise_affine self) eqn:Ea.
  - destruct (Haff eq_refl) as (g & b & Hg & Hb & Sg & Sb). rewrite Hg, Hb.
    cbn [mbind option_bind].
    rewrite (bop_suffix_l xmul g x_norm pre S Sg eq_refl). cbn [mbind option_bind].
    erewrite (bop_suffix_r xadd _ b pre S) by done.
    eexists. split; [done |]. split; [done |].
    intros pi si Hpi Hsi. cbn [at_]. unfold bop_at at 1. cbn [shape at_].
    unfold bop_at at 1. cbn [shape x_norm].
    rewrite Sg, Sb.
    rewrite !(bcast_ix_self (pre ++ S)) by (by apply in_range_app).
    rewrite !bcast_ix_suffix by done.
    by rewrite Hnorm.
  - eexists. split; [done |]. split; [done |]. exact Hnorm.
Qed.

Lemma zs_to_nat (S : list nat) : Z.to_nat <$> zs S = S.
Proof.
  unfold zs. rewrite <- list_fmap_compose.
  induction S as [| d S IH]; [done |]. cbn. rewrite IH. f_equal. lia.
Qed.

Lemma zs_nonneg (S : list nat) : Forall (λ z, 0 ≤ z)%Z (zs S).
Proof. unfold zs. apply Forall_fmap, Forall_forall. intros d _. cbn. lia. Qed.

Lemma zs_inj (S S' : list nat) : zs S = zs S' → S = S'.
Proof. intros H. by rewrite <- (zs_to_nat S), H, zs_to_nat. Qed.

Lemma LayerNorm_init_ok (S : list nat) (eps : R) (aff : bool) (self : LayerNorm) :
  LayerNorm_init (zs S) eps aff = inr self →
  ln_ok self S
  ∧ ln_eps self = eps
  ∧ ∀ si v, gain_bias self si v
            = (if aff then xadd (xmul (Fin 1) v) (Fin 0) else v).
Proof.
  unfold LayerNorm_init. cbv zeta.
  assert (check_sizes (zs S) = inr S) as ->.
  { apply check_sizes_inr. split; [apply zs_nonneg | by rewrite zs_to_nat]. }
  destruct aff; cbn [rbind]; intros [= <-]; unfold ln_ok, gain_bias;
    cbn [ln_nn normalized_shape ln_eps elementwise_affine].
  - split_and!; [done | | done | done].
    intros _. eexists _, _. split_and!; reflexivity.
  - split_and!; done.
Qed.

Lemma shape_asserted_split (self : LayerNorm) (S : list nat) (x : tensor) :
  normalized_shape self = zs S →
  shape_asserted self x ↔ ∃ pre, shape x = pre ++ S ∧ (S = [] → pre = []).
Proof.
  intros Hns. unfold shape_asserted. rewrite Hns.
  assert (length (zs S) = length S) as -> by (unfold zs; by rewrite length_fmap).
  split.
  - intros H%zs_inj. unfold neg_slice in H. destruct (length S =? 0) eqn:E.
    + exists []. apply Nat.eqb_eq in E. destruct S; [| done]. by rewrite <- H.
    + exists (take (length (shape x) - length S) (shape x)).
      split; [| by intros ->].
      rewrite <- (take_drop (length (shape x) - length S) (shape x)) at 1.
      by rewrite <- H.
  - intros (pre & Hs & Hnil). by rewrite Hs, neg_slice_app.
Qed.

(** * Further results on [LayerNorm] *)

(** X8. A [LayerNorm] over the trailing dimensions [S] accepts exactly the
    inputs whose shape ends with [S] (for an empty [S], the scalars), and
    returns a tensor of the shape of the input whose element at the leading
    index [pi] and trailing index [si] is
    [(x - mean) / sqrt (var + eps)], times [gain[si]] plus [bias[si]] when
    the module is affine; [mean] and [var = E[x^2] - E[x]^2] are those of
    the group at [pi]. *)
Theorem LayerNorm_forward_normalizes (self : LayerNorm) (S : list nat) (x : tensor) :
  ln_ok self S →
  (is_Some (LayerNorm_forward self x) ↔ shape_asserted self x)
  ∧ ∀ pre, shape x = pre ++ S → (S = [] → pre = []) →
      ∃ y, LayerNorm_forward self x = Some y
        ∧ shape y = shape x
        ∧ ∀ pi si, in_range pre pi = true → in_range S si = true →
            at_ y (pi ++ si)
            = gain_bias self si
                (xdiv (xsub (at_ x (pi ++ si)) (group_mean (λ v, v) x S pi))
                      (xsqrt (xadd (group_var x S pi) (Fin (ln_eps self))))).
Proof.
  intros Hok. split; [| intros pre; by apply LayerNorm_forward_elem].
  split.
  - intros [y Hy]. unfold LayerNorm_forward in Hy. by case_decide.
  - intros Ha. pose proof Hok as [Hns _].
    apply (shape_asserted_split self S x Hns) in Ha as (pre & Hs & Hnil).
    destruct (LayerNorm_forward_elem self x pre S Hok Hs Hnil) as (y & -> & _). done.
Qed.

Lemma LayerNorm_forward_normalizes_witness :
  LayerNorm_init (zs [2]) 1 false = inr (layer_norm 2)
  ∧ (is_Some (LayerNorm_forward (layer_norm 2) row_1_3)
     ↔ shape_asserted (layer_norm 2) row_1_3)
  ∧ ∀ pre, shape row_1_3 = pre ++ [2] → ([2] = [] → pre = []) →
      ∃ y, LayerNorm_forward (layer_norm 2) row_1_3 = Some y
        ∧ shape y = shape row_1_3
        ∧ ∀ pi si, in_range pre pi = true → in_range [2] si = true →
            at_ y (pi ++ si)
            = gain_bias (layer_norm 2) si
                (xdiv (xsub (at_ row_1_3 (pi ++ si))
                            (group_mean (λ v, v) row_1_3 [2] pi))
                      (xsqrt (xadd (group_var row_1_3 [2] pi)
                                   (Fin (ln_eps (layer_norm 2)))))).
Proof.
  split; [reflexivity |].
  apply (LayerNorm_forward_normalizes (layer_norm 2) [2] row_1_3).
  apply (LayerNorm_init_ok [2] 1 false). reflexivity.
Defined.

(** ** [MultiHeadAttentionCombinedQKV] needs [d_in = d_out] *)

Lemma view_zs_None (s : list nat) (t : tensor) :
  numel s ≠ numel (shape t) → view (zs s) t = None.
Proof.
  intros H. unfold view, infer_size. rewrite filter_zs, Nat.sub_diag.
  rewrite decide_True by (unfold zs; apply Forall_fmap, Forall_forall; intros ? _; cbn; lia).
  rewrite numel_zs. rewrite decide_False by lia. done.
Qed.

Lemma shape_dropout (p : R) (tr : bool) (keep : index → bool) (t : tensor) :
  shape (dropout p tr keep t) = shape t.
Proof. unfold dropout. destruct tr; [| done]. by repeat case_match. Qed.

(** The context vector has [d_out] features and is viewed with the
    [embed_dim] of the input. *)
Lemma CombinedQKV_forward_mismatch self keep x b n d_in d_out H hd W :
  params (mh_nn self) !! "qkv.weight" = Some W → shape W = [3 * d_out; d_in] →
  mh_num_heads self = Z.of_nat H → mh_head_dim self = Z.of_nat hd → d_out = H * hd →
  shape x = [b; n; d_in] → d_in ≠ d_out → 0 < b → 0 < n →
  MultiHeadAttentionCombinedQKV_forward self keep x = None.
Proof.
  intros HW SW HH Hhd Hd Sx Hne Hb Hn.
  unfold MultiHeadAttentionCombinedQKV_forward. rewrite Sx.
  rewrite (Linear_forward_3d "qkv" _ _ _ _ _ _ _ HW SW Sx).
  cbn [mbind option_bind]. rewrite HH, Hhd.
  change [Z.of_nat b; Z.of_nat n; 3%Z; Z.of_nat H; Z.of_nat hd] with (zs [b; n; 3; H; hd]).
  rewrite view_zs by (cbn; subst d_out; ring).
  cbn [mbind option_bind].
  unfold permute. cbn. unfold select0. cbn.
  unfold transpose. cbn [shape length]. eval_norm_dim. cbn.
  unfold matmul. cbn. rewrite decide_True by done. cbn.
  destruct (getattr "mask" (mh_nn self)) as [mask |]; [| done]. cbn.
  destruct (bslice2 (to_bool mask) n n) as [mask_bool |]; [| done]. cbn.
  unfold masked_fill. cbn [shape].
  destruct (broadcasts_to (bshape mask_bool) [b; H; n; n]); [| done]. cbn.
  destruct (py_pow hd (- / 2)) as [s |]; [| done]. cbn.
  unfold softmax, div_scalar. cbn.
  unfold matmul. rewrite shape_dropout. cbn. rewrite decide_True by done. cbn.
  unfold transpose. cbn [shape length]. eval_norm_dim. cbn.
  change [Z.of_nat b; Z.of_nat n; Z.of_nat d_in] with (zs [b; n; d_in]).
  rewrite view_zs_None; [done |].
  cbn [shape]. rewrite !numel_cons. change (numel []) with 1.
  rewrite !Nat.mul_1_r. intros Heq. apply Hne.
  apply Nat.mul_cancel_l in Heq; [| lia].
  apply Nat.mul_cancel_l in Heq; [| lia]. lia.
Qed.

Lemma wide_qkv_constructed :
  MultiHeadAttentionCombinedQKV_init 1 2 1 2 0 false ones_rng = inr wide_qkv.
Proof. unfold MultiHeadAttentionCombinedQKV_init. by ctor_ok. Qed.

(** * Further results on the fused classes *)

(** X10. A [MultiHeadAttentionCombinedQKV] constructed with [d_in] other
    than [d_out] raises on every nonempty input of shape [(b, n, d_in)]:
    the context vector of [d_out] features is viewed as
    [(b, n, embed_dim)] with the [embed_dim] of the input. *)
Theorem CombinedQKV_needs_equal_dims
    (d_in d_out num_heads c : Z) (p : R) (bias : bool) (g : rng)
    (self : MultiHead) (keep : index → bool) (x : tensor) (b n : nat) :
  MultiHeadAttentionCombinedQKV_init d_in d_out num_heads c p bias g = inr self →
  (0 < num_heads)%Z → d_in ≠ d_out →
  shape x = [b; n; Z.to_nat d_in] → 0 < b → 0 < n →
  MultiHeadAttentionCombinedQKV_forward self keep x = None.
Proof.
  intros Hinit HH Hne Sx Hb Hn.
  apply CombinedQKV_init_inr in Hinit as ((_ & Hmod & Hdin & Hdout & _) & ->).
  apply (CombinedQKV_forward_mismatch _ keep x b n (Z.to_nat d_in) (Z.to_nat d_out)
           (Z.to_nat num_heads) (Z.to_nat (d_out / num_heads))
           {| shape := [Z.to_nat (3 * d_out); Z.to_nat d_in]; at_ := g "qkv.weight" |});
    try done.
  - by destruct bias.
  - cbn [shape]. f_equal. lia.
  - cbn. lia.
  - cbn. pose proof (Z.div_pos d_out num_heads). lia.
  - rewrite <- Z2Nat.inj_mul; [| lia | apply Z.div_pos; lia].
    f_equal. pose proof (Z.div_mod d_out num_heads ltac:(lia)). lia.
  - lia.
Qed.

Lemma CombinedQKV_needs_equal_dims_witness :
  MultiHeadAttentionCombinedQKV_init 1 2 1 2 0 false ones_rng = inr wide_qkv
  ∧ MultiHeadAttentionCombinedQKV_forward wide_qkv keep_all tokens_0_2 = None.
Proof.
  split; [apply wide_qkv_constructed |].
  apply (CombinedQKV_needs_equal_dims 1 2 1 2 0 false ones_rng wide_qkv keep_all
           tokens_0_2 1 2).
  - apply wide_qkv_constructed.
  - lia.
  - lia.
  - reflexivity.
  - lia.
  - lia.
Defined.

(** ** Values that are not finite *)

Lemma is_fin_xadd_inv (a b : xreal) : is_fin (xadd a b) → is_fin a ∧ is_fin b.
Proof. by destruct a, b. Qed.

Lemma is_fin_xmul_inv (a b : xreal) : is_fin (xmul a b) → is_fin a ∧ is_fin b.
Proof.
  destruct a as [x | | |], b as [y | | |]; try done; cbn; unfold inf_times;
    by destruct (Rsign _).
Qed.

Lemma is_fin_xsum_inv (l : list xreal) : is_fin (xsum l) → Forall is_fin l.
Proof.
  induction l as [| a l IH]; [constructor |].
  rewrite xsum_cons. intros [Ha Hl]%is_fin_xadd_inv. constructor; auto.
Qed.

Lemma is_fin_bigsum_inv (n : nat) (f : nat → xreal) (j : nat) :
  is_fin (bigsum n f) → j < n → is_fin (f j).
Proof.
  intros H%is_fin_xsum_inv Hj. rewrite Forall_forall in H. apply H.
  apply list_elem_of_fmap. exists j. split; [done |]. apply elem_of_seq. lia.
Qed.

Lemma is_fin_linear_at_inv (W : tensor) (bias : option tensor) (x : tensor)
    (d : nat) (idx : index) (k : nat) :
  is_fin (linear_at W bias x d idx) → k < d → is_fin (at_ x (init_ix idx ++ [k])).
Proof.
  unfold linear_at. intros H Hk.
  assert (is_fin (bigsum d (λ k, xmul (at_ x (init_ix idx ++ [k]))
                                    (at_ W [last_ix idx; k])))) as Hs.
  { destruct bias; [by apply is_fin_xadd_inv in H as [? _] | done]. }
  apply (is_fin_bigsum_inv _ _ k) in Hs; [| done].
  by apply is_fin_xmul_inv in Hs as [? _].
Qed.

(** ** [MHA]: what the constructor builds *)

Lemma MHA_init_inr d_in d_out c p num_heads bias g self :
  MHA_init d_in d_out c p num_heads bias g = inr self →
  (num_heads ≠ 0 ∧ d_out mod num_heads = 0 ∧ 0 ≤ d_in ∧ 0 ≤ d_out ∧ 0 ≤ c)%Z
  ∧ self = {| mh_nn := register_buffer "mask" (triu_ones (Z.to_nat c))
                         (Linear_params "out_proj" [Z.to_nat d_out; Z.to_nat d_out] true g
                            (single_head_linears d_in d_out bias g));
              mh_d_out := d_out; mh_num_heads := num_heads;
              mh_head_dim := (d_out / num_heads)%Z; mh_context_length := c;
              mh_dropout := p |}.
Proof.
  unfold MHA_init. intros H. cbv zeta in H. ctor_inv.
  split; [lia | done].
Qed.

(** [MHA.forward] multiplies the values with the masked scores: a row
    that has a later token in the input holds a score [-inf], and no
    element of the row of the result is finite. *)
Lemma MHA_forward_rows_not_finite d_in d_out c p num_heads bias g self keep x b n i :
  MHA_init d_in d_out c p num_heads bias g = inr self →
  (0 < num_heads)%Z → (0 < d_out)%Z →
  shape x = [b; n; Z.to_nat d_in] → n ≤ Z.to_nat c → i + 1 < n →
  ∃ y, MHA_forward self keep x = Some y
       ∧ shape y = [b; n; Z.to_nat d_out]
       ∧ ∀ bi o, ¬ is_fin (at_ y [bi; i; o]).
Proof.
  intros Hinit HH Hd Sx Hn Hi.
  apply MHA_init_inr in Hinit as ((_ & Hmod & Hdin & _ & Hc) & ->).
  set (self := {| mh_nn := _ |}).
  set (s := [Z.to_nat d_out; Z.to_nat d_in]).
  assert (Hsplit : Z.to_nat d_out = Z.to_nat num_heads * Z.to_nat (d_out / num_heads)).
  { rewrite <- Z2Nat.inj_mul; [| lia | apply Z.div_pos; lia].
    f_equal. pose proof (Z.div_mod d_out num_heads ltac:(lia)). lia. }
  destruct (MHA_forward_elem self keep x b n (Z.to_nat d_in) (Z.to_nat d_out)
              (Z.to_nat num_heads) (Z.to_nat (d_out / num_heads)) (Z.to_nat c)
              {| shape := s; at_ := g "W_query.weight" |}
              {| shape := s; at_ := g "W_key.weight" |}
              {| shape := s; at_ := g "W_value.weight" |}
              {| shape := [Z.to_nat d_out; Z.to_nat d_out]; at_ := g "out_proj.weight" |}
              (triu_ones (Z.to_nat c)))
    as (y & ctx & Hy & Sy & Ey & Ec);
    try done; try (by destruct bias).
  { cbn. lia. }
  { cbn. pose proof (Z.div_pos d_out num_heads). lia. }
  { cbn. lia. }
  exists y. split; [done |]. split; [done |].
  intros bi o Hfin. rewrite Ey in Hfin.
  apply (is_fin_linear_at_inv _ _ _ _ _ 0) in Hfin; [| lia].
  cbn [init_ix removelast app] in Hfin. rewrite Ec in Hfin by lia.
  apply (is_fin_bigsum_inv _ _ (i + 1)) in Hfin; [| lia].
  apply is_fin_xmul_inv in Hfin as [Hfin _].
  unfold mha_masked_score in Hfin.
  replace (n =? 1) with false in Hfin by (symmetry; apply Nat.eqb_neq; lia).
  rewrite triu_ones_causal in Hfin.
  replace (i <? i + 1) with true in Hfin by (symmetry; apply Nat.ltb_lt; lia).
  done.
Qed.

(** X11. An [MHA] constructed with positive [num_heads] and [d_out]
    returns, on an input of [n] tokens within the context length, a tensor
    of shape [(b, n, d_out)] in which no element of a row before the last
    is finite: the values are multiplied with the masked scores, which
    hold [-inf] at the later positions. *)
Theorem MHA_forward_rows_are_not_finite
    (d_in d_out c : Z) (p : R) (num_heads : Z) (bias : bool) (g : rng)
    (self : MultiHead) (keep : index → bool) (x : tensor) (b n i : nat) :
  MHA_init d_in d_out c p num_heads bias g = inr self →
  (0 < num_heads)%Z → (0 < d_out)%Z →
  shape x = [b; n; Z.to_nat d_in] → n ≤ Z.to_nat c → i + 1 < n →
  ∃ y, MHA_forward self keep x = Some y
       ∧ shape y = [b; n; Z.to_nat d_out]
       ∧ ∀ bi o, ¬ is_fin (at_ y [bi; i; o]).
Proof. apply MHA_forward_rows_not_finite. Qed.

Lemma MHA_forward_rows_are_not_finite_witness :
  ∃ y, MHA_forward mha_two keep_all tokens_1_1 = Some y
       ∧ shape y = [1; 2; Z.to_nat 1]
       ∧ ∀ bi o, ¬ is_fin (at_ y [bi; 0; o]).
Proof.
  apply (MHA_forward_rows_are_not_finite 1 1 2 0 1 false ones_rng mha_two keep_all
           tokens_1_1 1 2 0).
  - apply mha_two_constructed.
  - lia.
  - lia.
  - reflexivity.
  - vm_compute. lia.
  - lia.
Defined.

(** ** The classes built on [scaled_dot_product_attention] *)

Lemma torch_dropout_0 keep t : torch_dropout 0 keep t = Some t.
Proof.
  unfold torch_dropout. destruct (numel (shape t) =? 0); [done |].
  destruct (Rlt_dec 0 0); [lra |].
  destruct (Rlt_dec 1 0); [lra |]. by rewrite dropout_0.
Qed.

Lemma broadcasts_to_refl (s : list nat) : broadcasts_to s s = true.
Proof.
  unfold broadcasts_to. induction (reverse s) as [| d l IH]; [done |].
  cbn. by rewrite Nat.eqb_refl, IH.
Qed.

Lemma in_range_cons (d : nat) (s : list nat) (i : nat) (idx : index) :
  i < d → in_range s idx = true → in_range (d :: s) (i :: idx) = true.
Proof.
  intros Hi H. cbn [in_range]. apply andb_true_iff. split; [by apply Nat.ltb_lt | done].
Qed.

Lemma matmul_4d (a b' : tensor) (B H n hd m : nat) :
  shape a = [B; H; n; hd] → shape b' = [B; H; hd; m] →
  matmul a b' = Some {| shape := [B; H; n; m]; at_ := matmul_at a b' hd |}.
Proof.
  intros Sa Sb. unfold matmul. rewrite Sa, Sb. cbn. by rewrite decide_True.
Qed.

Lemma ScaledDotProduct_forward_elem self keep x b n d_in d_out H hd W Wp :
  params (mh_nn self) !! "qkv.weight" = Some W → shape W = [3 * d_out; d_in] →
  params (mh_nn self) !! "proj.weight" = Some Wp → shape Wp = [d_out; d_out] →
  mh_num_heads self = Z.of_nat H → mh_head_dim self = Z.of_nat hd →
  mh_d_out self = Z.of_nat d_out → d_out = H * hd →
  shape x = [b; n; d_in] →
  (if training (mh_nn self) then mh_dropout self else 0%R) = 0%R →
  ∃ y ctx, MHAPyTorchScaledDotProduct_forward self keep x = Some y
    ∧ shape y = [b; n; d_out]
    ∧ (∀ bi i o, at_ y [bi; i; o]
                 = linear_at Wp (params (mh_nn self) !! "proj.bias") ctx d_out [bi; i; o])
    ∧ ∀ bi i k, bi < b → i < n → k < d_out →
        at_ ctx [bi; i; k] =
          let qkv := linear_at W (params (mh_nn self) !! "qkv.bias") x d_in in
          attention_elem n
            (λ j, sdpa_logit hd (negb (j <=? i))
                    (λ l, qkv [bi; i; qkv_col H hd 0 (k / hd) l])
                    (λ l, qkv [bi; j; qkv_col H hd 1 (k / hd) l]))
            (λ j, qkv [bi; j; qkv_col H hd 2 (k / hd) (k mod hd)]).
Proof.
  intros HW SW HWp SWp HH Hhd Hdo Hd Sx Hp.
  unfold MHAPyTorchScaledDotProduct_forward.
  rewrite Sx.
  rewrite (Linear_forward_3d "qkv" _ _ _ _ _ _ _ HW SW Sx).
  cbn [mbind option_bind]. rewrite HH, Hhd, Hdo, Hp.
  change [Z.of_nat b; Z.of_nat n; 3%Z; Z.of_nat H; Z.of_nat hd] with (zs [b; n; 3; H; hd]).
  rewrite view_zs by (cbn; subst d_out; ring).
  cbn [mbind option_bind].
  unfold permute. cbn. unfold select0. cbn.
  unfold scaled_dot_product_attention, size. cbn [shape length]. eval_norm_dim.
  cbn [mbind option_bind lookup list_lookup Z.to_nat].
  set (scale := xdiv (Fin 1) (xsqrt (Fin (INR hd)))).
  assert (Hscale : scale = xdiv (Fin 1) (xsqrt (Fin (INR hd)))) by done.
  clearbody scale.
  unfold masked_fill. cbn [bshape logical_not tril_true zeros shape].
  rewrite broadcasts_to_refl. cbn [mbind option_bind].
  unfold transpose. cbn [shape length]. eval_norm_dim. cbn [mbind option_bind].
  erewrite (matmul_4d _ _ b H n hd n) by done. cbn [mbind option_bind].
  erewrite (bop_suffix_r xadd _ _ [b; H] [n; n]) by done.
  cbn [mbind option_bind]. unfold softmax. cbn [shape last app mbind option_bind].
  rewrite torch_dropout_0. cbn [mbind option_bind].
  erewrite (matmul_4d _ _ b H n n hd) by done. cbn [mbind option_bind].
  unfold transpose. cbn [shape length]. eval_norm_dim. cbn.
  change [Z.of_nat b; Z.of_nat n; Z.of_nat d_out] with (zs [b; n; d_out]).
  rewrite view_zs by (cbn; subst d_out; ring).
  cbn [mbind option_bind].
  erewrite (Linear_forward_3d "proj" _ _ _ _ _ _ _ HWp SWp) by done.
  eexists. eexists. split; [done |]. split; [done |]. split; [done |].
  intros bi i k Hbi Hi Hk. subst d_out.
  cbn [at_]. rewrite view_merge_at by done.
  assert (Hh : k / hd < H) by (apply Nat.Div0.div_lt_upper_bound; lia).
  assert (Hl : k mod hd < hd) by (apply Nat.mod_upper_bound; lia).
  cbn. unfold matmul_at, attention_elem. cbn.
  match goal with |- context [softmax_at ?T n _] => set (T0 := T) end.
  assert (HT : ∀ j, j < n →
    at_ T0 [bi; k / hd; i; j]
    = sdpa_logit hd (negb (j <=? i))
        (λ l, linear_at W (params (mh_nn self) !! "qkv.bias") x d_in
                [bi; i; qkv_col H hd 0 (k / hd) l])
        (λ l, linear_at W (params (mh_nn self) !! "qkv.bias") x d_in
                [bi; j; qkv_col H hd 1 (k / hd) l])).
  { intros j Hj. unfold T0. cbn [at_]. unfold bop_at. cbn [shape tmap at_].
    assert (Hin4 : in_range [b; H; n; n] [bi; k / hd; i; j] = true).
    { repeat (apply in_range_cons; [done |]). done. }
    assert (Hin2 : in_range [n; n] [i; j] = true).
    { repeat (apply in_range_cons; [done |]). done. }
    rewrite (bcast_ix_self _ _ Hin4).
    change [bi; k / hd; i; j] with ([bi; k / hd] ++ [i; j]).
    rewrite (bcast_ix_suffix _ _ _ Hin2).
    unfold masked_fill_at. cbn [bshape logical_not tril_true bat zeros at_].
    rewrite (bcast_ix_self _ _ Hin2). unfold sdpa_logit. rewrite <- Hscale.
    f_equal. f_equal. cbn. apply bigsum_ext. intros l Hlt. cbn.
    rewrite !view_qkv_at by (done || lia). done. }
  apply bigsum_ext. intros j Hj. cbn. unfold softmax_at. cbn.
  f_equal; [f_equal |].
  - f_equal. by apply HT.
  - apply bigsum_ext. intros j' Hj'. cbn. f_equal. by apply HT.
  - by rewrite view_qkv_at by (done || lia).
Qed.

Lemma ScaledDotProduct_init_inr d_in d_out num_heads c p bias g self :
  MHAPyTorchScaledDotProduct_init d_in d_out num_heads c p bias g = inr self →
  (num_heads ≠ 0 ∧ d_out mod num_heads = 0 ∧ 0 ≤ d_in ∧ 0 ≤ d_out)%Z
  ∧ self = {| mh_nn := Linear_params "proj" [Z.to_nat d_out; Z.to_nat d_out] true g
                         (Linear_params "qkv" [Z.to_nat (3 * d_out); Z.to_nat d_in]
                            bias g Module_init);
              mh_d_out := d_out; mh_num_heads := num_heads;
              mh_head_dim := (d_out / num_heads)%Z; mh_context_length := c;
              mh_dropout := p |}.
Proof.
  unfold MHAPyTorchScaledDotProduct_init. intros H. cbv zeta in H. ctor_inv.
  split; [lia | done].
Qed.

Lemma head_split (d_out num_heads : Z) :
  (0 < num_heads)%Z → (0 ≤ d_out)%Z → (d_out mod num_heads = 0)%Z →
  Z.to_nat d_out = Z.to_nat num_heads * Z.to_nat (d_out / num_heads).
Proof.
  intros HH Hd Hmod. rewrite <- Z2Nat.inj_mul; [| lia | apply Z.div_pos; lia].
  f_equal. pose proof (Z.div_mod d_out num_heads ltac:(lia)). lia.
Qed.

Lemma SDPAWithoutFlash_forward_elem self keep x b n d_in d_out H hd c W Wp mask :
  params (mh_nn self) !! "qkv.weight" = Some W → shape W = [3 * d_out; d_in] →
  params (mh_nn self) !! "proj.weight" = Some Wp → shape Wp = [d_out; d_out] →
  getattr "mask" (mh_nn self) = Some mask → shape mask = [c; c] →
  mh_context_length self = Z.of_nat c →
  mh_num_heads self = Z.of_nat H → mh_head_dim self = Z.of_nat hd →
  mh_d_out self = Z.of_nat d_out → d_out = H * hd →
  shape x = [b; n; d_in] → n ≤ c →
  (if training (mh_nn self) then mh_dropout self else 0%R) = 0%R →
  ∃ y ctx, MHAPyTorchSDPAWithoutFlash_forward self keep x = Some y
    ∧ shape y = [b; n; d_out]
    ∧ (∀ bi i o, at_ y [bi; i; o]
                 = linear_at Wp (params (mh_nn self) !! "proj.bias") ctx d_out [bi; i; o])
    ∧ ∀ bi i k, bi < b → i < n → k < d_out →
        at_ ctx [bi; i; k] =
          let qkv := linear_at W (params (mh_nn self) !! "qkv.bias") x d_in in
          attention_elem n
            (λ j, sdpa_logit hd (negb (bat (to_bool mask) [i; j]))
                    (λ l, qkv [bi; i; qkv_col H hd 0 (k / hd) l])
                    (λ l, qkv [bi; j; qkv_col H hd 1 (k / hd) l]))
            (λ j, qkv [bi; j; qkv_col H hd 2 (k / hd) (k mod hd)]).
Proof.
  intros HW SW HWp SWp Hm Sm Hc HH Hhd Hdo Hd Sx Hn Hp.
  unfold MHAPyTorchSDPAWithoutFlash_forward.
  rewrite Sx.
  rewrite (Linear_forward_3d "qkv" _ _ _ _ _ _ _ HW SW Sx).
  cbn [mbind option_bind]. rewrite HH, Hhd, Hdo, Hp, Hc, Hm.
  change [Z.of_nat b; Z.of_nat n; 3%Z; Z.of_nat H; Z.of_nat hd] with (zs [b; n; 3; H; hd]).
  rewrite view_zs by (cbn; subst d_out; ring).
  cbn [mbind option_bind].
  unfold permute. cbn. unfold select0. cbn.
  replace (Z.of_nat n <=? Z.of_nat c)%Z with true by (symmetry; apply Z.leb_le; lia).
  unfold bslice2, to_bool. cbn [bshape]. rewrite Sm. cbn [mbind option_bind].
  replace (n `min` c) with n by lia.
  unfold scaled_dot_product_attention, size. cbn [shape length]. eval_norm_dim.
  cbn [mbind option_bind lookup list_lookup Z.to_nat].
  set (scale := xdiv (Fin 1) (xsqrt (Fin (INR hd)))).
  assert (Hscale : scale = xdiv (Fin 1) (xsqrt (Fin (INR hd)))) by done.
  clearbody scale.
  unfold masked_fill. cbn [bshape logical_not zeros shape].
  rewrite broadcasts_to_refl. cbn [mbind option_bind].
  unfold transpose. cbn [shape length]. eval_norm_dim. cbn [mbind option_bind].
  erewrite (matmul_4d _ _ b H n hd n) by done. cbn [mbind option_bind].
  erewrite (bop_suffix_r xadd _ _ [b; H] [n; n]) by done.
  cbn [mbind option_bind]. unfold softmax. cbn [shape last app mbind option_bind].
  rewrite torch_dropout_0. cbn [mbind option_bind].
  erewrite (matmul_4d _ _ b H n n hd) by done. cbn [mbind option_bind].
  unfold transpose. cbn [shape length]. eval_norm_dim. cbn.
  change [Z.of_nat b; Z.of_nat n; Z.of_nat d_out] with (zs [b; n; d_out]).
  rewrite view_zs by (cbn; subst d_out; ring).
  cbn [mbind option_bind].
  erewrite (Linear_forward_3d "proj" _ _ _ _ _ _ _ HWp SWp) by done.
  eexists. eexists. split; [done |]. split; [done |]. split; [done |].
  intros bi i k Hbi Hi Hk. subst d_out.
  cbn [at_]. rewrite view_merge_at by done.
  assert (Hh : k / hd < H) by (apply Nat.Div0.div_lt_upper_bound; lia).
  assert (Hl : k mod hd < hd) by (apply Nat.mod_upper_bound; lia).
  cbn. unfold matmul_at, attention_elem. cbn.
  match goal with |- context [softmax_at ?T n _] => set (T0 := T) end.
  assert (HT : ∀ j, j < n →
    at_ T0 [bi; k / hd; i; j]
    = sdpa_logit hd (negb (bat (to_bool mask) [i; j]))
        (λ l, linear_at W (params (mh_nn self) !! "qkv.bias") x d_in
                [bi; i; qkv_col H hd 0 (k / hd) l])
        (λ l, linear_at W (params (mh_nn self) !! "qkv.bias") x d_in
                [bi; j; qkv_col H hd 1 (k / hd) l])).
  { intros j Hj. unfold T0. cbn [at_]. unfold bop_at. cbn [shape tmap at_].
    assert (Hin4 : in_range [b; H; n; n] [bi; k / hd; i; j] = true).
    { repeat (apply in_range_cons; [done |]). done. }
    assert (Hin2 : in_range [n; n] [i; j] = true).
    { repeat (apply in_range_cons; [done |]). done. }
    rewrite (bcast_ix_self _ _ Hin4).
    change [bi; k / hd; i; j] with ([bi; k / hd] ++ [i; j]).
    rewrite (bcast_ix_suffix _ _ _ Hin2).
    unfold masked_fill_at. cbn [bshape logical_not bat zeros at_].
    rewrite (bcast_ix_self _ _ Hin2). unfold sdpa_logit. rewrite <- Hscale.
    f_equal. f_equal. cbn. apply bigsum_ext. intros l Hlt. cbn.
    rewrite !view_qkv_at by (done || lia). done. }
  apply bigsum_ext. intros j Hj. cbn. unfold softmax_at. cbn.
  f_equal; [f_equal |].
  - f_equal. by apply HT.
  - apply bigsum_ext. intros j' Hj'. cbn. f_equal. by apply HT.
  - by rewrite view_qkv_at by (done || lia).
Qed.

Lemma SDPAWithoutFlash_init_inr d_in d_out num_heads c p bias g self :
  MHAPyTorchSDPAWithoutFlash_init d_in d_out num_heads c p bias g = inr self →
  (num_heads ≠ 0 ∧ d_out mod num_heads = 0 ∧ 0 ≤ d_in ∧ 0 ≤ d_out ∧ 0 ≤ c)%Z
  ∧ self = {| mh_nn := register_buffer "mask" (triu_ones (Z.to_nat c))
                         (Linear_params "proj" [Z.to_nat d_out; Z.to_nat d_out] true g
                            (Linear_params "qkv" [Z.to_nat (3 * d_out); Z.to_nat d_in]
                               bias g Module_init));
              mh_d_out := d_out; mh_num_heads := num_heads;
              mh_head_dim := (d_out / num_heads)%Z; mh_context_length := c;
              mh_dropout := p |}.
Proof.
  unfold MHAPyTorchSDPAWithoutFlash_init. intros H. cbv zeta in H. ctor_inv.
  split; [lia | done].
Qed.

Lemma sdp_ones_constructed :
  MHAPyTorchScaledDotProduct_init 1 1 1 1 0 false ones_rng = inr sdp_ones.
Proof. unfold MHAPyTorchScaledDotProduct_init. by ctor_ok. Qed.

Lemma flash_ones_constructed :
  MHAPyTorchSDPAWithoutFlash_init 1 1 1 3 0 false ones_rng = inr flash_ones.
Proof. unfold MHAPyTorchSDPAWithoutFlash_init. by ctor_ok. Qed.

(** ** What the classes built on [scaled_dot_product_attention] compute *)

Lemma ScaledDotProduct_formula d_in d_out num_heads c bias g self keep x b n :
  MHAPyTorchScaledDotProduct_init d_in d_out num_heads c 0 bias g = inr self →
  (0 < num_heads)%Z → (0 < d_in)%Z → (0 < d_out)%Z →
  shape x = [b; n; Z.to_nat d_in] → 0 < b → 0 < n →
  ∃ y ctx W Wp,
    params (mh_nn self) !! "qkv.weight" = Some W
    ∧ params (mh_nn self) !! "proj.weight" = Some Wp
    ∧ MHAPyTorchScaledDotProduct_forward self keep x = Some y
    ∧ shape y = [b; n; Z.to_nat d_out]
    ∧ (∀ bi i o, at_ y [bi; i; o]
         = linear_at Wp (params (mh_nn self) !! "proj.bias") ctx (Z.to_nat d_out)
             [bi; i; o])
    ∧ ∀ bi i k, bi < b → i < n → k < Z.to_nat d_out →
        at_ ctx [bi; i; k] =
          let H := Z.to_nat num_heads in
          let hd := Z.to_nat (d_out / num_heads) in
          let qkv := linear_at W (params (mh_nn self) !! "qkv.bias") x (Z.to_nat d_in) in
          attention_elem n
            (λ j, sdpa_logit hd (i <? j)
                    (λ l, qkv [bi; i; qkv_col H hd 0 (k / hd) l])
                    (λ l, qkv [bi; j; qkv_col H hd 1 (k / hd) l]))
            (λ j, qkv [bi; j; qkv_col H hd 2 (k / hd) (k mod hd)]).
Proof.
  intros Hinit HH _ _ Sx _ _.
  apply ScaledDotProduct_init_inr in Hinit as ((_ & Hmod & Hdin & Hdout) & ->).
  set (self := {| mh_nn := _ |}).
  set (W := {| shape := [Z.to_nat (3 * d_out); Z.to_nat d_in]; at_ := g "qkv.weight" |}).
  set (Wp := {| shape := [Z.to_nat d_out; Z.to_nat d_out]; at_ := g "proj.weight" |}).
  set (hd := Z.to_nat (d_out / num_heads)).
  assert (HW : params (mh_nn self) !! "qkv.weight" = Some W) by (by destruct bias).
  assert (HWp : params (mh_nn self) !! "proj.weight" = Some Wp) by (by destruct bias).
  assert (SW : shape W = [3 * Z.to_nat d_out; Z.to_nat d_in]) by (cbn; f_equal; lia).
  assert (Hsplit : Z.to_nat d_out = Z.to_nat num_heads * hd) by (apply head_split; lia).
  assert (E1 : mh_num_heads self = Z.of_nat (Z.to_nat num_heads)) by (cbn; lia).
  assert (E2 : mh_head_dim self = Z.of_nat hd).
  { cbn. unfold hd. pose proof (Z.div_pos d_out num_heads). lia. }
  assert (E3 : mh_d_out self = Z.of_nat (Z.to_nat d_out)) by (cbn; lia).
  assert (E4 : (if training (mh_nn self) then mh_dropout self else 0%R) = 0%R)
    by (by destruct bias).
  destruct (ScaledDotProduct_forward_elem self keep x b n (Z.to_nat d_in) (Z.to_nat d_out)
              (Z.to_nat num_heads) hd W Wp HW SW HWp eq_refl E1 E2 E3 Hsplit Sx E4)
    as (y & ctx & Hy & Sy & Ey & Ec).
  exists y, ctx, W, Wp. split_and!; try done.
  intros bi i k Hbi Hi Hk. rewrite Ec by done. cbn zeta.
  apply attention_elem_ext; [| done].
  intros j Hj. by rewrite Nat.ltb_antisym.
Qed.

(** X12. What [MHAPyTorchScaledDotProduct.forward] computes, constructed
    with dropout 0, positive sizes and finite weights, on a nonempty finite
    input of any number [n] of tokens (the context length is not
    consulted): a tensor of shape [(b, n, d_out)], the output projection of
    the context whose component [k] at position [i] is the sum of the
    values of head [k / head_dim] weighted by the softmax of the scores of
    query [i], where the score of a later key carries [-inf]. *)
Theorem ScaledDotProduct_forward_formula
    (d_in d_out num_heads c : Z) (bias : bool) (g : rng) (self : MultiHead)
    (keep : index → bool) (x : tensor) (b n : nat) :
  MHAPyTorchScaledDotProduct_init d_in d_out num_heads c 0 bias g = inr self →
  finite_rng g → finite x →
  (0 < num_heads)%Z → (0 < d_in)%Z → (0 < d_out)%Z →
  shape x = [b; n; Z.to_nat d_in] → 0 < b → 0 < n →
  ∃ y ctx W Wp,
    params (mh_nn self) !! "qkv.weight" = Some W
    ∧ params (mh_nn self) !! "proj.weight" = Some Wp
    ∧ MHAPyTorchScaledDotProduct_forward self keep x = Some y
    ∧ shape y = [b; n; Z.to_nat d_out]
    ∧ (∀ bi i o, at_ y [bi; i; o]
         = linear_at Wp (params (mh_nn self) !! "proj.bias") ctx (Z.to_nat d_out)
             [bi; i; o])
    ∧ ∀ bi i k, bi < b → i < n → k < Z.to_nat d_out →
        at_ ctx [bi; i; k] =
          let H := Z.to_nat num_heads in
          let hd := Z.to_nat (d_out / num_heads) in
          let qkv := linear_at W (params (mh_nn self) !! "qkv.bias") x (Z.to_nat d_in) in
          attention_elem n
            (λ j, sdpa_logit hd (i <? j)
                    (λ l, qkv [bi; i; qkv_col H hd 0 (k / hd) l])
                    (λ l, qkv [bi; j; qkv_col H hd 1 (k / hd) l]))
            (λ j, qkv [bi; j; qkv_col H hd 2 (k / hd) (k mod hd)]).
Proof. intros Hinit _ _. by apply (ScaledDotProduct_formula _ _ _ c bias g). Qed.

Lemma ScaledDotProduct_forward_formula_witness :
  mh_context_length sdp_ones = 1%Z ∧ shape three_tokens = [1; 3; 1]
  ∧ ∃ y ctx W Wp,
    params (mh_nn sdp_ones) !! "qkv.weight" = Some W
    ∧ params (mh_nn sdp_ones) !! "proj.weight" = Some Wp
    ∧ MHAPyTorchScaledDotProduct_forward sdp_ones keep_all three_tokens = Some y
    ∧ shape y = [1; 3; Z.to_nat 1]
    ∧ (∀ bi i o, at_ y [bi; i; o]
         = linear_at Wp (params (mh_nn sdp_ones) !! "proj.bias") ctx (Z.to_nat 1)
             [bi; i; o])
    ∧ ∀ bi i k, bi < 1 → i < 3 → k < Z.to_nat 1 →
        at_ ctx [bi; i; k] =
          let H := Z.to_nat 1 in
          let hd := Z.to_nat (1 / 1) in
          let qkv := linear_at W (params (mh_nn sdp_ones) !! "qkv.bias") three_tokens
                       (Z.to_nat 1) in
          attention_elem 3
            (λ j, sdpa_logit hd (i <? j)
                    (λ l, qkv [bi; i; qkv_col H hd 0 (k / hd) l])
                    (λ l, qkv [bi; j; qkv_col H hd 1 (k / hd) l]))
            (λ j, qkv [bi; j; qkv_col H hd 2 (k / hd) (k mod hd)]).
Proof.
  split; [reflexivity |]. split; [reflexivity |].
  apply (ScaledDotProduct_forward_formula 1 1 1 1 false ones_rng sdp_ones keep_all
           three_tokens 1 3).
  - apply sdp_ones_constructed.
  - apply ones_rng_finite.
  - apply tensor3_finite.
  - lia.
  - lia.
  - lia.
  - reflexivity.
  - lia.
  - lia.
Defined.

Lemma SDPAWithoutFlash_formula d_in d_out num_heads c bias g self keep x b n :
  MHAPyTorchSDPAWithoutFlash_init d_in d_out num_heads c 0 bias g = inr self →
  (0 < num_heads)%Z → (0 < d_in)%Z → (0 < d_out)%Z →
  shape x = [b; n; Z.to_nat d_in] → 0 < b → n ≤ Z.to_nat c →
  ∃ y ctx W Wp,
    params (mh_nn self) !! "qkv.weight" = Some W
    ∧ params (mh_nn self) !! "proj.weight" = Some Wp
    ∧ MHAPyTorchSDPAWithoutFlash_forward self keep x = Some y
    ∧ shape y = [b; n; Z.to_nat d_out]
    ∧ (∀ bi i o, at_ y [bi; i; o]
         = linear_at Wp (params (mh_nn self) !! "proj.bias") ctx (Z.to_nat d_out)
             [bi; i; o])
    ∧ ∀ bi i k, bi < b → i + 1 < n → k < Z.to_nat d_out →
        at_ ctx [bi; i; k] =
          let H := Z.to_nat num_heads in
          let hd := Z.to_nat (d_out / num_heads) in
          let qkv := linear_at W (params (mh_nn self) !! "qkv.bias") x (Z.to_nat d_in) in
          attention_elem n
            (λ j, sdpa_logit hd (j <=? i)
                    (λ l, qkv [bi; i; qkv_col H hd 0 (k / hd) l])
                    (λ l, qkv [bi; j; qkv_col H hd 1 (k / hd) l]))
            (λ j, qkv [bi; j; qkv_col H hd 2 (k / hd) (k mod hd)]).
Proof.
  intros Hinit HH _ _ Sx _ Hn.
  apply SDPAWithoutFlash_init_inr in Hinit as ((_ & Hmod & Hdin & Hdout & Hc) & ->).
  set (self := {| mh_nn := _ |}).
  set (W := {| shape := [Z.to_nat (3 * d_out); Z.to_nat d_in]; at_ := g "qkv.weight" |}).
  set (Wp := {| shape := [Z.to_nat d_out; Z.to_nat d_out]; at_ := g "proj.weight" |}).
  set (hd := Z.to_nat (d_out / num_heads)).
  assert (HW : params (mh_nn self) !! "qkv.weight" = Some W) by (by destruct bias).
  assert (HWp : params (mh_nn self) !! "proj.weight" = Some Wp) by (by destruct bias).
  assert (SW : shape W = [3 * Z.to_nat d_out; Z.to_nat d_in]) by (cbn; f_equal; lia).
  assert (Hsplit : Z.to_nat d_out = Z.to_nat num_heads * hd) by (apply head_split; lia).
  assert (Hm : getattr "mask" (mh_nn self) = Some (triu_ones (Z.to_nat c)))
    by (unfold getattr; by destruct bias).
  assert (E0 : mh_context_length self = Z.of_nat (Z.to_nat c)) by (cbn; lia).
  assert (E1 : mh_num_heads self = Z.of_nat (Z.to_nat num_heads)) by (cbn; lia).
  assert (E2 : mh_head_dim self = Z.of_nat hd).
  { cbn. unfold hd. pose proof (Z.div_pos d_out num_heads). lia. }
  assert (E3 : mh_d_out self = Z.of_nat (Z.to_nat d_out)) by (cbn; lia).
  assert (E4 : (if training (mh_nn self) then mh_dropout self else 0%R) = 0%R)
    by (by destruct bias).
  destruct (SDPAWithoutFlash_forward_elem self keep x b n (Z.to_nat d_in) (Z.to_nat d_out)
              (Z.to_nat num_heads) hd (Z.to_nat c) W Wp _ HW SW HWp eq_refl Hm eq_refl
              E0 E1 E2 E3 Hsplit Sx Hn E4)
    as (y & ctx & Hy & Sy & Ey & Ec).
  exists y, ctx, W, Wp. split_and!; try done.
  intros bi i k Hbi Hi Hk. rewrite Ec by (done || lia). cbn zeta.
  apply attention_elem_ext; [| done].
  intros j Hj. by rewrite triu_ones_causal, Nat.ltb_antisym, negb_involutive.
Qed.

(** X13. What [MHAPyTorchSDPAWithoutFlash.forward] computes, constructed
    with dropout 0, positive sizes and finite weights, on a nonempty finite
    input within the context length: a tensor of shape [(b, n, d_out)],
    the output projection of the context.  The class passes the upper triangle as the
    boolean [attn_mask], whose [True] entries take part in the attention:
    at a position [i] before the last, component [k] of the context is the
    sum of the values of head [k / head_dim] weighted by the softmax of the
    scores of query [i], where the score of the key [i] itself and of every
    earlier key carries [-inf]. *)
Theorem SDPAWithoutFlash_forward_formula
    (d_in d_out num_heads c : Z) (bias : bool) (g : rng) (self : MultiHead)
    (keep : index → bool) (x : tensor) (b n : nat) :
  MHAPyTorchSDPAWithoutFlash_init d_in d_out num_heads c 0 bias g = inr self →
  finite_rng g → finite x →
  (0 < num_heads)%Z → (0 < d_in)%Z → (0 < d_out)%Z →
  shape x = [b; n; Z.to_nat d_in] → 0 < b → n ≤ Z.to_nat c →
  ∃ y ctx W Wp,
    params (mh_nn self) !! "qkv.weight" = Some W
    ∧ params (mh_nn self) !! "proj.weight" = Some Wp
    ∧ MHAPyTorchSDPAWithoutFlash_forward self keep x = Some y
    ∧ shape y = [b; n; Z.to_nat d_out]
    ∧ (∀ bi i o, at_ y [bi; i; o]
         = linear_at Wp (params (mh_nn self) !! "proj.bias") ctx (Z.to_nat d_out)
             [bi; i; o])
    ∧ ∀ bi i k, bi < b → i + 1 < n → k < Z.to_nat d_out →
        at_ ctx [bi; i; k] =
          let H := Z.to_nat num_heads in
          let hd := Z.to_nat (d_out / num_heads) in
          let qkv := linear_at W (params (mh_nn self) !! "qkv.bias") x (Z.to_nat d_in) in
          attention_elem n
            (λ j, sdpa_logit hd (j <=? i)
                    (λ l, qkv [bi; i; qkv_col H hd 0 (k / hd) l])
                    (λ l, qkv [bi; j; qkv_col H hd 1 (k / hd) l]))
            (λ j, qkv [bi; j; qkv_col H hd 2 (k / hd) (k mod hd)]).
Proof. intros Hinit _ _. by apply (SDPAWithoutFlash_formula _ _ _ c bias g). Qed.

Lemma SDPAWithoutFlash_forward_formula_witness :
  ∃ y ctx W Wp,
    params (mh_nn flash_ones) !! "qkv.weight" = Some W
    ∧ params (mh_nn flash_ones) !! "proj.weight" = Some Wp
    ∧ MHAPyTorchSDPAWithoutFlash_forward flash_ones keep_all three_tokens = Some y
    ∧ shape y = [1; 3; Z.to_nat 1]
    ∧ (∀ bi i o, at_ y [bi; i; o]
         = linear_at Wp (params (mh_nn flash_ones) !! "proj.bias") ctx (Z.to_nat 1)
             [bi; i; o])
    ∧ ∀ bi i k, bi < 1 → i + 1 < 3 → k < Z.to_nat 1 →
        at_ ctx [bi; i; k] =
          let H := Z.to_nat 1 in
          let hd := Z.to_nat (1 / 1) in
          let qkv := linear_at W (params (mh_nn flash_ones) !! "qkv.bias") three_tokens
                       (Z.to_nat 1) in
          attention_elem 3
            (λ j, sdpa_logit hd (j <=? i)
                    (λ l, qkv [bi; i; qkv_col H hd 0 (k / hd) l])
                    (λ l, qkv [bi; j; qkv_col H hd 1 (k / hd) l]))
            (λ j, qkv [bi; j; qkv_col H hd 2 (k / hd) (k mod hd)]).
Proof.
  apply (SDPAWithoutFlash_forward_formula 1 1 1 3 false ones_rng flash_ones keep_all
           three_tokens 1 3).
  - apply flash_ones_constructed.
  - apply ones_rng_finite.
  - apply tensor3_finite.
  - lia.
  - lia.
  - lia.
  - reflexivity.
  - lia.
  - vm_compute. lia.
Defined.

(** ** Inputs longer than the context, fused classes *)

Lemma broadcasts_to_square (c n : nat) (pre : list nat) :
  c ≠ n → c ≠ 1 → broadcasts_to [c; c] (pre ++ [n; n]) = false.
Proof.
  intros Hn H1. unfold broadcasts_to. rewrite reverse_app. cbn.
  replace (c =? n) with false by (symmetry; apply Nat.eqb_neq; lia).
  replace (c =? 1) with false by (symmetry; apply Nat.eqb_neq; lia).
  done.
Qed.

Lemma CombinedQKV_too_long self keep x b n d_in d_out H hd c W mask :
  params (mh_nn self) !! "qkv.weight" = Some W → shape W = [3 * d_out; d_in] →
  getattr "mask" (mh_nn self) = Some mask → shape mask = [c; c] →
  mh_num_heads self = Z.of_nat H → mh_head_dim self = Z.of_nat hd → d_out = H * hd →
  shape x = [b; n; d_in] → c < n → c ≠ 1 →
  MultiHeadAttentionCombinedQKV_forward self keep x = None.
Proof.
  intros HW SW Hm Sm HH Hhd Hd Sx Hc Hc1.
  unfold MultiHeadAttentionCombinedQKV_forward. rewrite Sx.
  rewrite (Linear_forward_3d "qkv" _ _ _ _ _ _ _ HW SW Sx).
  cbn [mbind option_bind]. rewrite HH, Hhd.
  change [Z.of_nat b; Z.of_nat n; 3%Z; Z.of_nat H; Z.of_nat hd] with (zs [b; n; 3; H; hd]).
  rewrite view_zs by (cbn; subst d_out; ring).
  cbn [mbind option_bind].
  unfold permute. cbn. unfold select0. cbn.
  unfold transpose. cbn [shape length]. eval_norm_dim. cbn [mbind option_bind].
  erewrite (matmul_4d _ _ b H n hd n) by done. cbn [mbind option_bind].
  rewrite Hm. cbn [mbind option_bind].
  unfold bslice2, to_bool. cbn [bshape]. rewrite Sm. cbn [mbind option_bind].
  unfold masked_fill. cbn [bshape shape].
  replace (n `min` c) with c by lia.
  change [b; H; n; n] with ([b; H] ++ [n; n]).
  by rewrite (broadcasts_to_square c n [b; H]) by lia.
Qed.

Lemma SDPAWithoutFlash_too_long self keep x b n d_in d_out H hd c W mask :
  params (mh_nn self) !! "qkv.weight" = Some W → shape W = [3 * d_out; d_in] →
  getattr "mask" (mh_nn self) = Some mask → shape mask = [c; c] →
  mh_context_length self = Z.of_nat c →
  mh_num_heads self = Z.of_nat H → mh_head_dim self = Z.of_nat hd → d_out = H * hd →
  shape x = [b; n; d_in] → c < n → c ≠ 1 →
  MHAPyTorchSDPAWithoutFlash_forward self keep x = None.
Proof.
  intros HW SW Hm Sm Hcl HH Hhd Hd Sx Hc Hc1.
  unfold MHAPyTorchSDPAWithoutFlash_forward. rewrite Sx.
  rewrite (Linear_forward_3d "qkv" _ _ _ _ _ _ _ HW SW Sx).
  cbn [mbind option_bind]. rewrite HH, Hhd, Hcl, Hm.
  change [Z.of_nat b; Z.of_nat n; 3%Z; Z.of_nat H; Z.of_nat hd] with (zs [b; n; 3; H; hd]).
  rewrite view_zs by (cbn; subst d_out; ring).
  cbn [mbind option_bind].
  unfold permute. cbn. unfold select0. cbn.
  replace (Z.of_nat n <=? Z.of_nat c)%Z with false by (symmetry; apply Z.leb_gt; lia).
  rewrite Nat2Z.id.
  unfold bslice2, to_bool. cbn [bshape]. rewrite Sm. cbn [mbind option_bind].
  rewrite Nat.min_id.
  unfold scaled_dot_product_attention, size. cbn [shape length]. eval_norm_dim.
  cbn [mbind option_bind lookup list_lookup Z.to_nat].
  unfold masked_fill. cbn [bshape logical_not zeros shape].
  change [n; n] with ([] ++ [n; n]).
  by rewrite (broadcasts_to_square c n []) by lia.
Qed.

Lemma MHA_too_long self keep x b n d_in d_out H hd c Wq Wk Wv mask :
  params (mh_nn self) !! "W_query.weight" = Some Wq →
  params (mh_nn self) !! "W_key.weight" = Some Wk →
  params (mh_nn self) !! "W_value.weight" = Some Wv →
  shape Wq = [d_out; d_in] → shape Wk = [d_out; d_in] → shape Wv = [d_out; d_in] →
  getattr "mask" (mh_nn self) = Some mask → shape mask = [c; c] →
  mh_num_heads self = Z.of_nat H → mh_head_dim self = Z.of_nat hd → d_out = H * hd →
  shape x = [b; n; d_in] → c < n → c ≠ 1 →
  MHA_forward self keep x = None.
Proof.
  intros Hq Hk Hv Sq Sk Sv Hm Sm HH Hhd Hd Sx Hc Hc1.
  unfold MHA_forward. rewrite Sx.
  rewrite (Linear_forward_3d "W_key" _ _ _ _ _ _ _ Hk Sk Sx).
  rewrite (Linear_forward_3d "W_query" _ _ _ _ _ _ _ Hq Sq Sx).
  rewrite (Linear_forward_3d "W_value" _ _ _ _ _ _ _ Hv Sv Sx).
  cbn [mbind option_bind]. rewrite HH, Hhd.
  change [Z.of_nat b; Z.of_nat n; Z.of_nat H; Z.of_nat hd] with (zs [b; n; H; hd]).
  rewrite !view_zs by (cbn; subst d_out; ring).
  cbn [mbind option_bind].
  unfold transpose.
  repeat (progress (cbn [shape length mbind option_bind]; eval_norm_dim)). cbn.
  unfold matmul. cbn. rewrite decide_True by done. cbn.
  rewrite Hm. cbn. unfold bslice2, to_bool. cbn. rewrite Sm. cbn.
  unfold masked_fill. cbn [bshape shape].
  replace (n `min` c) with c by lia.
  change [b; H; n; n] with ([b; H] ++ [n; n]).
  by rewrite (broadcasts_to_square c n [b; H]) by lia.
Qed.

Lemma MHA_Wrapper_too_long (d_in d_out c : Z) (p : R) (H : Z) (bias : bool)
    (g : nat → rng) (g_out : rng) (self : MHA_Wrapper)
    (keep : nat → index → bool) (x : tensor) (b n : nat) :
  MHA_Wrapper_init d_in d_out c p H bias g g_out = inr self →
  (0 < H)%Z → c ≠ 1%Z →
  shape x = [b; n; Z.to_nat d_in] → Z.to_nat c < n →
  MHA_Wrapper_forward self keep x = None.
Proof.
  unfold MHA_Wrapper_init. intros Hinit HH Hc1 Sx Hn.
  apply rbind_inr in Hinit as (hs & Hhs & Hinit).
  apply rbind_inr in Hinit as (m & _ & Hinit). injection Hinit as <-.
  destruct (Z.to_nat H) as [| count] eqn:EH; [lia |].
  cbn [make_heads] in Hhs.
  apply rbind_inr in Hhs as (hd & Hhd & Hhs).
  apply rbind_inr in Hhs as (tl & _ & Hhs). injection Hhs as <-.
  change (CausalAttentionWithBuffer_init d_in d_out c p false (g 0) = inr hd) in Hhd.
  apply CausalAttentionWithBuffer_init_inr in Hhd as ((_ & _ & Hc) & _ & ->).
  unfold MHA_Wrapper_forward. cbn [heads]. rewrite imap_cons. cbn [mapM].
  change (CasualAttention_forward ?h ?k x) with (CausalAttentionWithBuffer_forward h k x).
  rewrite (CausalAttention_too_long _ (keep 0) x (triu_ones (Z.to_nat c)) b n
             (Z.to_nat d_in) (Z.to_nat c)); [done | done | | done | done | lia].
  rewrite single_head_eta. unfold getattr. cbn.
  by rewrite lookup_empty, single_head_no_mask, lookup_insert_eq.
Qed.

(** * Further results on inputs longer than the context *)

(** X14. Constructed with a context length [c] other than 1 and a
    positive [num_heads], [MHA], [MultiHeadAttentionCombinedQKV],
    [MHAPyTorchSDPAWithoutFlash] and [MHA_Wrapper] raise on every input of
    more than [c] tokens: the mask of side [c] cannot be broadcast to the
    [n] by [n] scores. *)
Theorem fused_attention_refuses_long_input
    (d_in d_out num_heads c : Z) (p : R) (bias : bool) (g : rng)
    (keep : index → bool) (x : tensor) (b n : nat) :
  (0 < num_heads)%Z → c ≠ 1%Z →
  shape x = [b; n; Z.to_nat d_in] → Z.to_nat c < n →
  (∀ self, MHA_init d_in d_out c p num_heads bias g = inr self →
           MHA_forward self keep x = None)
  ∧ (∀ self, MultiHeadAttentionCombinedQKV_init d_in d_out num_heads c p bias g
             = inr self →
             MultiHeadAttentionCombinedQKV_forward self keep x = None)
  ∧ (∀ self, MHAPyTorchSDPAWithoutFlash_init d_in d_out num_heads c p bias g
             = inr self →
             MHAPyTorchSDPAWithoutFlash_forward self keep x = None)
  ∧ (∀ self gs keeps, MHA_Wrapper_init d_in d_out c p num_heads bias gs g = inr self →
                      MHA_Wrapper_forward self keeps x = None).
Proof.
  intros HH Hc1 Sx Hn.
  assert (Hdiv : (0 ≤ d_out → 0 ≤ d_out / num_heads)%Z)
    by (intros; apply Z.div_pos; lia).
  split_and!; [intros self Hinit | intros self Hinit | intros self Hinit |].
  4:{ intros self gs keeps Hinit.
      by apply (MHA_Wrapper_too_long d_in d_out c p num_heads bias gs g self keeps x b n). }
  - apply MHA_init_inr in Hinit as ((_ & Hmod & Hdin & Hdout & Hc) & ->).
    set (s := [Z.to_nat d_out; Z.to_nat d_in]).
    apply (MHA_too_long _ keep x b n (Z.to_nat d_in) (Z.to_nat d_out)
             (Z.to_nat num_heads) (Z.to_nat (d_out / num_heads)) (Z.to_nat c)
             {| shape := s; at_ := g "W_query.weight" |}
             {| shape := s; at_ := g "W_key.weight" |}
             {| shape := s; at_ := g "W_value.weight" |}
             (triu_ones (Z.to_nat c)));
      first [ done | by destruct bias | cbn; lia | apply head_split; lia ].
  - apply CombinedQKV_init_inr in Hinit as ((_ & Hmod & Hdin & Hdout & Hc) & ->).
    apply (CombinedQKV_too_long _ keep x b n (Z.to_nat d_in) (Z.to_nat d_out)
             (Z.to_nat num_heads) (Z.to_nat (d_out / num_heads)) (Z.to_nat c)
             {| shape := [Z.to_nat (3 * d_out); Z.to_nat d_in]; at_ := g "qkv.weight" |}
             (triu_ones (Z.to_nat c)));
      first [ done | by destruct bias | cbn; lia | cbn [shape]; f_equal; lia
            | unfold getattr; by destruct bias | apply head_split; lia ].
  - apply SDPAWithoutFlash_init_inr in Hinit as ((_ & Hmod & Hdin & Hdout & Hc) & ->).
    apply (SDPAWithoutFlash_too_long _ keep x b n (Z.to_nat d_in) (Z.to_nat d_out)
             (Z.to_nat num_heads) (Z.to_nat (d_out / num_heads)) (Z.to_nat c)
             {| shape := [Z.to_nat (3 * d_out); Z.to_nat d_in]; at_ := g "qkv.weight" |}
             (triu_ones (Z.to_nat c)));
      first [ done | by destruct bias | cbn; lia | cbn [shape]; f_equal; lia
            | unfold getattr; by destruct bias | apply head_split; lia ].
Qed.

Lemma fused_attention_refuses_long_input_witness :
  MHA_init 1 1 2 0 1 false ones_rng = inr mha_two
  ∧ MHA_forward mha_two keep_all three_tokens = None
  ∧ (∀ self, MultiHeadAttentionCombinedQKV_init 1 1 1 2 0 false ones_rng = inr self →
             MultiHeadAttentionCombinedQKV_forward self keep_all three_tokens = None)
  ∧ (∀ self, MHAPyTorchSDPAWithoutFlash_init 1 1 1 2 0 false ones_rng = inr self →
             MHAPyTorchSDPAWithoutFlash_forward self keep_all three_tokens = None)
  ∧ (∀ self gs keeps, MHA_Wrapper_init 1 1 2 0 1 false gs ones_rng = inr self →
                      MHA_Wrapper_forward self keeps three_tokens = None).
Proof.
  assert (H1 : (0 < 1)%Z) by lia.
  assert (H2 : 2%Z ≠ 1%Z) by lia.
  assert (H3 : Z.to_nat 2 < 3) by (vm_compute; lia).
  destruct (fused_attention_refuses_long_input 1 1 1 2 0 false ones_rng keep_all
              three_tokens 1 3 H1 H2 eq_refl H3) as (Ha & Hb & Hc & Hd).
  split; [apply mha_two_constructed |].
  split; [apply Ha, mha_two_constructed |].
  split; [assumption |]. split; assumption.
Defined.

(** ** A dropout probability above 1 *)







